(* ===== verification/_CoqProject ===== *)
-Q . S2P
Prelude.v
Mutex.v
MutexProps.v
Endian.v
Buffer.v
ByteArray.v
ByteArrayFacts.v
ByteArrayRun.v
ByteArrayCodec.v
ByteArrayCodecFacts.v
Timer.v
TimerFacts.v
TimerRun.v
TimerProps.v
Fiber.v
FiberProps.v
Util.v
Scheduler.v
SchedulerProps.v
Workers.v
WorkersProps.v
WorkersInv.v
WorkersSteps.v
WorkersSafe.v
IOManager.v
IOManagerProps.v
Waiting.v
WaitingProps.v
FdManager.v
Hook.v
HookProps.v
CString.v
Thread.v
ThreadProps.v
Address.v
AddressProps.v
Stream.v
StreamProps.v
Http.v
HttpProps.v
HttpParser.v
HttpSession.v
HttpConnection.v
Servlet.v
HttpSessionProps.v
ServletProps.v
HttpConnectionProps.v
HttpPoolProps.v
Ragel.v
RagelProps.v
Http11Parser.v
Http11Scan.v
Http11ParserProps.v
HttpClientParser.v
HttpClientScan.v
HttpClientParserProps.v
HttpRoundTrip.v
HttpChunked.v
LogFormatter.v
LogFormatterProps.v
Yaml.v
YamlModel.v
Config.v
ConfigProps.v
Settings.v
SettingsProps.v
Log.v
LogProps.v
LogConfig.v
LogConfigProps.v
Socket.v
SocketProps.v
TcpServer.v
TcpServerProps.v
AddressTypes.v
Uri.v
UriParser.v
UriParserProps.v
HttpClient.v
HttpClientProps.v
