(* ===== verification/Prelude.v ===== *)
(** A model of the C++ server framework under [src/windgent] and theorems on it.

    * What the program is

    The framework schedules fibers on threads. A thread runs [Scheduler::run],
    which takes tasks (fibers or callbacks) from a queue and switches to them;
    when there are none its idle fiber, that of [IOManager], sleeps in epoll_wait
    until a descriptor is ready, a timer is due or another thread tickles it. The
    hooked system calls turn a call that would block into a registration with the
    IO manager and a switch. On top of that are sockets, streams, TCP and HTTP
    servers and clients, and beside it a logger, its configuration and a byte
    array for serialization.

    * Files and the code they model, bottom up

    - [Prelude]: the outcome of C++ code (a value, an exception, or a fault such
      as undefined behaviour or a failed assertion), the state monad over it,
      integers of fixed width, lemmas and hint databases shared by all files.
    - [Mutex], [MutexProps]: mutex.h, mutex.cc. Locks as instances of a class, the
      guard templates, and any number of threads that use them.
    - [Endian]: endian.h. [Buffer]: the interface of a byte buffer with its laws,
      against which the typed accessors are proved.
    - [ByteArray], [ByteArrayFacts], [ByteArrayRun]: the chain of blocks of
      bytearray.cc refines a growing array of bytes. [ByteArrayCodec],
      [ByteArrayCodecFacts]: its typed readers and writers over [Buffer].
    - [Timer], [TimerFacts], [TimerRun], [TimerProps]: timer.cc; objects on a heap
      and the std::set ordered by a comparator that reads them.
    - [Fiber], [FiberProps]: fiber.cc. [Util]: util.cc. [Scheduler], [SchedulerProps]: scheduler.cc.
      [Workers], [WorkersProps], [WorkersInv], [WorkersSteps], [WorkersSafe]: any
      number of threads in [Scheduler::run], as interleaved steps; the invariant of
      fibers that have one owner, its proof step by step, and what follows.
      [IOManager], [IOManagerProps]: iomanager.cc; each extends the state of the one
      before, virtual functions are arguments of the base class's definitions.
    - [FdManager], [Hook], [HookProps]: fd_manager.cc, hook.cc. What the IO manager
      does for a waiting call is the class [Hook.IOM]. [Waiting], [WaitingProps]:
      the waiting part of do_io on the IO manager of [IOManager] itself; where a
      waiting fiber is, a law of conservation, and the call.
    - [CString], [Address], [AddressProps]: address.cc with the C string functions
      it uses. [AddressTypes], after [Socket]: every address is well typed.
    - [Thread], [ThreadProps]: thread.cc; constructor and new thread as two
      programs whose steps interleave.
    - [Stream], [StreamProps]: stream.cc, socket_stream.cc.
    - [Http], [HttpProps]: http.cc. [HttpParser]: the callbacks and classes of
      http_parser.cc. [HttpSession], [HttpSessionProps], [HttpConnection],
      [HttpConnectionProps], [HttpPoolProps]: the server's and the client's side of
      a connection and the pool. [Servlet], [ServletProps]: servlet.cc, http_server.cc.
    - [Ragel], [RagelProps]: the language of the grammars, with the meaning that
      ragel's manual gives its operators, priorities and embedded actions: machines
      as sets of partial derivatives, their language, and tools to run them over
      texts of a known shape. [Http11Parser], [Http11Scan], [Http11ParserProps]:
      http11_parser.rl. [HttpClientParser], [HttpClientScan],
      [HttpClientParserProps]: httpclient_parser.rl. [HttpRoundTrip], [HttpChunked]:
      these machines under the callbacks and the connections.
    - [LogFormatter], [LogFormatterProps], [Log], [LogProps]: log.cc up to the
      manager. [LogConfig], [LogConfigProps]: its last part, loggers from YAML.
    - [Yaml]: the interface of the YAML library as classes with laws; [YamlModel]:
      an instance that satisfies them. [Config], [ConfigProps]: config.h, config.cc.
      [Settings], [SettingsProps]: the settings that http_parser.cc and hook.cc keep
      in statics, from static initialisation on.
    - [Socket], [SocketProps]: socket.cc on the hooked calls. [TcpServer],
      [TcpServerProps]: tcp_server.cc with the tasks it schedules.
    - [Uri]: uri.h and the C++ of uri.rl. [UriParser], [UriParserProps]: its grammar
      and [Uri::Create]. [HttpClient], [HttpClientProps]: doGet,
      doPost and doRequest, which combine URI, socket, request and exchange.

    A state is a Record with the class's members; pointers are keys of a finite
    map where objects are shared or deleted. A method is a Definition with the
    method's name in [M state answer]; a loop is a Fixpoint, by fuel where it has
    no bound of its own. Names that two files declare carry their module.

    * What the theorems show

    - Data: the block chain refines an array for every sequence of operations;
      messages, integers and containers survive being written and read, logger
      definitions but for two fields; the wire format is exact; every address is
      well typed.
    - Scheduling: timers keep their invariant and expire exactly; finished ones
      stay silent; a timer added first in line wakes the sleeping loop, but for one
      case; a queue entry is taken by the first thread allowed to; stop runs the
      queue dry; a fiber runs to its end in one go or many; events are delivered
      exactly, and the pending count is the number of registrations.
    - Concurrency: the threads of a scheduler resume each fiber on one thread at a
      time, take each task once and on the right thread and run code once and in
      order, provided that fibers are only woken at rest; woken earlier a fiber runs
      twice or fails an assertion; and stop can hang. A thread alone does what the
      sequential model of [Scheduler] says. Guards on any lawful lock exclude each
      other in any interleaving and can always all finish; a constructed thread is complete when the
      constructor returns.
    - System calls: a hooked read or write and a hooked connect answer as the
      kernel, a timeout or a cancellation says; a call that waits is woken exactly
      once, whatever runs meanwhile, and fails if its timer's callback came before
      it goes on, even when its event came first; sockets refine an automaton of three
      phases; a server binds all its addresses or none, and a restarted one can
      spin.
    - HTTP: maps without regard to case refine finite maps; bodies, chunked or not,
      are assembled from whatever pieces arrive; the dispatcher refines its history
      of registrations; the pool accounts for every connection; a client's request
      is built as specified, and its call answers the first error and closes its
      socket.
    - Parsers: whatever bytes arrive, the state machines stay within the buffer
      and their assertions hold, but for the missing NUL behind a response; a
      request, a response, a chunked body and a URI that are printed are parsed
      back; [Uri::Create] accepts the grammar's language; a request whose path
      arrives in two pieces loses its beginning, and an empty port throws.
    - Logging and configuration: an event reaches exactly the appenders its levels
      allow; loggers stay well formed; a changed configuration is applied exactly;
      a variable tells its listeners old and new value before it changes; the sizes
      and the timeout kept in statics always are the configured ones.

    Where the code does something its author cannot have meant, the theorem says
    what it does.

    * Bounds and fuel

    Integers have the width of their C++ types, with [uint] and [sint] for the
    conversions and [signed] for arithmetic that must not overflow. Loops over data
    need as much fuel as the data is long, and the theorems give that number; retry
    loops of system calls need one unit per answer of the kernel, and the theorems
    say that a run with a given number of failures needs one more; the loop of a
    scheduler needs one round per task, switch and idle round, which the termination
    theorem states for the queue it is given. A run that is out of fuel is the
    fault [FuelExhausted], which no theorem takes for a result.

    * Parameters

    Code outside src/windgent is a parameter, an argument of the definitions that
    use it: the kernel (epoll, sockets, fcntl, the clock), getaddrinfo, inet_pton and
    getifaddrs, dlsym, fnmatch, strftime, boost::lexical_cast and the YAML library.
    Their laws are hypotheses or classes, and each has an instance in the witnesses.
    The functions of the POSIX threads library are written out, with the one choice
    the standard leaves as a parameter.

    * Not modelled

    The C++ that ragel generates (the machines are modelled from the grammars, which
    the files HttpParser to HttpConnection take as a parameter), singleton.h,
    noncopyable.h and macro.h (no behaviour of their own), messages to the log, the
    error texts of HttpResult, tests and examples.
    Objects that the code only touches under one lock are modelled as if each
    operation were one step; [Mutex] shows what entitles them to that. Loads and
    stores of different threads are sequentially consistent.

    * Plan

    Next: the pool's bookkeeping around the requests of [HttpClient]; connect over
    the IO manager as [Waiting] does it for do_io; a TCP server over the scheduler. *)
From stdpp Require Import base list list_numbers numbers option strings sets.
From Stdlib Require Import ZArith Lia.

Declare Scope cpp_scope.
Delimit Scope cpp_scope with cpp.

(** ** Outcomes of C++ code

    [Exn] is a C++ exception: it leaves the state behind as it was when the
    exception was thrown. [Fault] is everything after which the program has no
    meaning or is dead: undefined behaviour, a failed assertion, a thread that
    waits for itself. [FuelExhausted] is the answer of a model loop that was
    given too little fuel; the theorems show that it does not occur where the
    code terminates. *)
Inductive exn :=
| out_of_range
| logic_error
| invalid_argument
| length_error
| bad_lexical_cast
| yaml_exception.

Inductive fault :=
| NullDeref
| OutOfBounds
| Indeterminate
| DivByZero
| SignedOverflow
| BadShift
| AssertFailed
| SelfDeadlock
| NotOwner
| Dangling
| Terminate
| FuelExhausted.

Inductive outcome (S A : Type) :=
| Ok (a : A) (s : S)
| Exn (e : exn) (s : S)
| Fault (f : fault).
Arguments Ok {S A} a s.
Arguments Exn {S A} e s.
Arguments Fault {S A} f.

Definition M (S A : Type) : Type := S → outcome S A.

#[export] Instance M_ret {S} : MRet (M S) := λ A a s, Ok a s.
#[export] Instance M_bind {S} : MBind (M S) := λ A B k m s,
  match m s with
  | Ok a s' => k a s'
  | Exn e s' => Exn e s'
  | Fault f => Fault f
  end.

#[export] Instance M_fmap {S} : FMap (M S) := λ A B f m s,
  match m s with
  | Ok a s' => Ok (f a) s'
  | Exn e s' => Exn e s'
  | Fault f => Fault f
  end.

Definition get {S} : M S S := λ s, Ok s s.
Definition put {S} (s : S) : M S unit := λ _, Ok tt s.
Definition gets {S A} (f : S → A) : M S A := λ s, Ok (f s) s.
Definition modify {S} (f : S → S) : M S unit := λ s, Ok tt (f s).
Definition throw {S A} (e : exn) : M S A := λ s, Exn e s.
Definition faultM {S A} (f : fault) : M S A := λ _, Fault f.
(** [ASSERT(b)] of macro.h: logs and calls assert. *)
Definition assertM {S} (b : bool) : M S unit :=
  if b then mret tt else faultM AssertFailed.
(** A pointer that is dereferenced. *)
Definition derefM {S A} (o : option A) : M S A :=
  match o with Some a => mret a | None => faultM NullDeref end.


(** Running the same computation for every element, from left to right. *)
Fixpoint forM {S A : Type} (l : list A) (f : A → M S unit) : M S unit :=
  match l with
  | [] => mret tt
  | x :: l' => _ ← f x; forM l' f
  end.

(** [wp m Q s]: started in [s], the code returns normally, and the answer and
    the new state satisfy [Q]. *)
Definition wp {S A} (m : M S A) (Q : A → S → Prop) (s : S) : Prop :=
  match m s with Ok a s' => Q a s' | _ => False end.

(** ** Integers of a fixed width

    Unsigned arithmetic of C++ is arithmetic modulo [2^w]; converting to a
    signed type keeps the [w] low bits and reads them in two's complement. *)
Definition uint (w z : Z) : Z := (z `mod` 2 ^ w)%Z.
Definition sint (w z : Z) : Z := ((z + 2 ^ (w - 1)) `mod` 2 ^ w - 2 ^ (w - 1))%Z.

Definition in_uint (w z : Z) : Prop := (0 ≤ z < 2 ^ w)%Z.
Definition in_sint (w z : Z) : Prop := (- 2 ^ (w - 1) ≤ z < 2 ^ (w - 1))%Z.

#[export] Instance in_uint_dec w z : Decision (in_uint w z) := _.
#[export] Instance in_sint_dec w z : Decision (in_sint w z) := _.

(** Signed arithmetic: the result must be representable. *)
Definition signed {S} (w z : Z) : M S Z :=
  if decide (in_sint w z) then mret z else faultM SignedOverflow.

(** ** Overwriting a segment of a list *)
Definition splice {A} (l : list A) (p : nat) (d : list A) : list A :=
  take p l ++ d ++ drop (p + length d) l.

(** [ceil(1.0 * a / b)] on the integers below [2^53]. *)
Definition ceil_div (a b : nat) : nat := (a + (b - 1)) / b.

(** ** Transition sequences *)
Inductive star {A : Type} (R : A → A → Prop) : A → A → Prop :=
| star_refl a : star R a a
| star_snoc a b c : star R a b → R b c → star R a c.

Create HintDb cpp discriminated.
Create Rewrite HintDb cpp.

(** ** Lemmas on fixed-width integers *)
Section integers.
Local Open Scope Z_scope.

Lemma uint_range w z : 0 ≤ w → in_uint w (uint w z).
Proof. intros. apply Z.mod_pos_bound. lia. Qed.

Lemma uint_id w z : in_uint w z → uint w z = z.
Proof. apply Z.mod_small. Qed.

Lemma sint_range w z : 1 ≤ w → in_sint w (sint w z).
Proof.
  intros Hw. unfold in_sint, sint.
  pose proof (Z.mod_pos_bound (z + 2 ^ (w - 1)) (2 ^ w)) as H.
  assert (2 ^ w = 2 * 2 ^ (w - 1)) as Hp by (rewrite <-Z.pow_succ_r by lia; f_equal; lia).
  lia.
Qed.

Lemma sint_id w z : 1 ≤ w → in_sint w z → sint w z = z.
Proof.
  intros Hw Hz. unfold in_sint, sint in *.
  assert (2 ^ w = 2 * 2 ^ (w - 1)) as Hp by (rewrite <-Z.pow_succ_r by lia; f_equal; lia).
  rewrite Z.mod_small; lia.
Qed.

Lemma sint_uint w z : 1 ≤ w → sint w (uint w z) = sint w z.
Proof.
  intros. unfold sint, uint. f_equal.
  rewrite Zplus_mod_idemp_l. done.
Qed.

Lemma uint_sint w z : 1 ≤ w → uint w (sint w z) = uint w z.
Proof.
  intros. unfold sint, uint.
  rewrite Zminus_mod_idemp_l. f_equal. lia.
Qed.

Lemma uint_uint w z : 0 ≤ w → uint w (uint w z) = uint w z.
Proof. intros. apply Z.mod_mod. lia. Qed.

Lemma uint_eq_sint w a b : 1 ≤ w → in_sint w a → in_sint w b → uint w a = uint w b → a = b.
Proof.
  intros Hw Ha Hb Hu.
  rewrite <-(sint_id w a), <-(sint_id w b), <-(sint_uint w a), <-(sint_uint w b) by done.
  by rewrite Hu.
Qed.
End integers.

(** ** Lemmas on lists *)
Section lists.
Context {A : Type}.
Implicit Types (l d : list A) (ls : list (list A)).

Lemma length_splice l p d :
  p + length d ≤ length l → length (splice l p d) = length l.
Proof. intros. unfold splice. rewrite !length_app, length_take, length_drop. lia. Qed.

Lemma splice_nil l p : splice l p [] = l.
Proof. unfold splice. simpl. by rewrite Nat.add_0_r, take_drop. Qed.

Lemma splice_app_r l1 l2 p d :
  length l1 ≤ p → splice (l1 ++ l2) p d = l1 ++ splice l2 (p - length l1) d.
Proof.
  intros. unfold splice.
  rewrite take_app, drop_app, take_ge, drop_ge by lia.
  rewrite <-app_assoc. simpl. do 4 f_equal. lia.
Qed.

Lemma splice_app_l l1 l2 p d :
  p + length d ≤ length l1 → splice (l1 ++ l2) p d = splice l1 p d ++ l2.
Proof.
  intros. unfold splice.
  rewrite take_app_le, drop_app_le by lia. by rewrite <-!app_assoc.
Qed.

Lemma splice_splice l p d1 d2 :
  p ≤ length l →
  splice (splice l p d1) (p + length d1) d2 = splice l p (d1 ++ d2).
Proof.
  intros. unfold splice.
  assert (length (take p l ++ d1) = p + length d1) as Hl by (rewrite length_app, length_take; lia).
  rewrite (app_assoc (take p l)).
  rewrite take_app_length' by done.
  rewrite drop_app_ge by lia. rewrite Hl, drop_drop, length_app.
  rewrite <-!app_assoc. do 4 f_equal. lia.
Qed.

Lemma take_drop_splice l p d :
  p ≤ length l → take (length d) (drop p (splice l p d)) = d.
Proof.
  intros. unfold splice.
  rewrite drop_app_length' by (rewrite length_take; lia).
  by rewrite take_app_length.
Qed.

Lemma take_splice l p d i : i ≤ p → p ≤ length l → take i (splice l p d) = take i l.
Proof.
  intros. unfold splice.
  rewrite take_app_le by (rewrite length_take; lia). rewrite take_take. f_equal. lia.
Qed.

Lemma drop_splice l p d : p ≤ length l → drop (p + length d) (splice l p d) = drop (p + length d) l.
Proof.
  intros. unfold splice. rewrite app_assoc.
  by rewrite drop_app_length' by (rewrite length_app, length_take; lia).
Qed.

Lemma drop_splice_ge l p d i :
  p ≤ length l → p + length d ≤ i → drop i (splice l p d) = drop i l.
Proof.
  intros. replace i with ((p + length d) + (i - (p + length d))) by lia.
  by rewrite <-drop_drop, drop_splice, drop_drop.
Qed.

Lemma take_app_segment l1 l2 p n :
  p + n ≤ length l1 → take n (drop p (l1 ++ l2)) = take n (drop p l1).
Proof. intros. rewrite drop_app_le by lia. rewrite take_app_le; [done|]. rewrite length_drop. lia. Qed.

Lemma take_add_drop l n m : take (n + m) l = take n l ++ take m (drop n l).
Proof.
  revert l; induction n as [|n IH]; intros [|x l]; simpl; rewrite ?take_nil; try done.
  by rewrite IH.
Qed.

(** A chain of blocks of one size read as one array. *)
Lemma concat_lookup bs ls c b :
  Forall (λ x, length x = bs) ls → ls !! c = Some b →
  concat ls = concat (take c ls) ++ b ++ concat (drop (S c) ls) ∧
  length (concat (take c ls)) = c * bs.
Proof.
  intros Hall Hc. split.
  - rewrite <-(take_drop_middle ls c b) at 1 by done. by rewrite concat_app.
  - assert (c ≤ length ls) as Hlen by (apply lookup_lt_Some in Hc; lia). clear Hc.
    revert c Hlen; induction Hall as [|x ls Hx Hall IH]; intros [|c] Hlen; simpl in *; try lia.
    rewrite length_app, IH by lia. lia.
Qed.

Lemma length_concat_uniform bs ls :
  Forall (λ x, length x = bs) ls → length (concat ls) = length ls * bs.
Proof. induction 1 as [|x ls Hx _ IH]; simpl; [done|]. rewrite length_app. lia. Qed.

Lemma concat_splice bs ls c b p d :
  Forall (λ x, length x = bs) ls → ls !! c = Some b → p + length d ≤ bs →
  concat (<[c := splice b p d]> ls) = splice (concat ls) (c * bs + p) d.
Proof.
  intros Hall Hc Hp.
  pose proof (lookup_lt_Some _ _ _ Hc) as Hlt.
  assert (length b = bs) as Hb by (eapply Forall_lookup_1 in Hc; [|done]; done).
  rewrite insert_take_drop by done.
  destruct (concat_lookup bs ls c b Hall Hc) as [-> Hlen].
  rewrite concat_app. simpl.
  rewrite splice_app_r by lia. rewrite Hlen.
  replace (c * bs + p - c * bs) with p by lia.
  by rewrite splice_app_l by lia.
Qed.

Lemma concat_segment bs ls c b p n :
  Forall (λ x, length x = bs) ls → ls !! c = Some b → p + n ≤ bs →
  take n (drop (c * bs + p) (concat ls)) = take n (drop p b).
Proof.
  intros Hall Hc Hp.
  assert (length b = bs) as Hb by (eapply Forall_lookup_1 in Hc; [|done]; done).
  destruct (concat_lookup bs ls c b Hall Hc) as [-> Hlen].
  rewrite <-drop_drop, drop_app_length' by lia.
  by rewrite take_app_segment by lia.
Qed.

Lemma Forall_insert_uniform bs ls c b :
  Forall (λ x, length x = bs) ls → length b = bs →
  Forall (λ x, length x = bs) (<[c := b]> ls).
Proof. intros. by apply Forall_insert. Qed.
End lists.

Lemma ceil_div_spec a b : 0 < b → a ≤ ceil_div a b * b ∧ ceil_div a b * b < a + b.
Proof.
  intros Hb. unfold ceil_div.
  pose proof (Nat.div_mod_eq (a + (b - 1)) b). pose proof (Nat.mod_upper_bound (a + (b - 1)) b).
  nia.
Qed.

Lemma filter_agree {A} (P1 P2 : A → Prop) `{∀ x, Decision (P1 x), ∀ x, Decision (P2 x)} (l : list A) :
  (∀ x, x ∈ l → P1 x ↔ P2 x) → filter P1 l = filter P2 l.
Proof.
  induction l as [|x l IH]; intros Hl; [done|].
  rewrite !filter_cons, IH by (intros; apply Hl; by apply list_elem_of_further).
  pose proof (Hl x (list_elem_of_here _ _)).
  destruct (decide (P1 x)), (decide (P2 x)); tauto || done.
Qed.

Lemma filter_all {A} (P : A → Prop) `{∀ x, Decision (P x)} (l : list A) :
  (∀ x, x ∈ l → P x) → filter P l = l.
Proof.
  induction l as [|x l IH]; intros Hl; [done|].
  rewrite filter_cons, decide_True, IH; [done| |]; intros; apply Hl; set_solver.
Qed.

Lemma filter_none {A} (P : A → Prop) `{∀ x, Decision (P x)} (l : list A) :
  (∀ x, x ∈ l → ¬ P x) → filter P l = [].
Proof.
  induction l as [|x l IH]; intros Hl; [done|].
  rewrite filter_cons, decide_False, IH; [done| |]; intros; apply Hl; set_solver.
Qed.

(** Rule induction over reachable states. *)
Lemma star_invariant {A} (R : A → A → Prop) (I : A → Prop) :
  (∀ a b, I a → R a b → I b) → ∀ a b, star R a b → I a → I b.
Proof. intros HR a b. induction 1; eauto. Qed.

Lemma star_one {A} (R : A → A → Prop) a b : R a b → star R a b.
Proof. intros. eapply star_snoc; [apply star_refl|done]. Qed.

Lemma star_trans {A} (R : A → A → Prop) a b c : star R a b → star R b c → star R a c.
Proof. intros Hab. induction 1; eauto using star. Qed.

(** ** Reasoning about handlers *)
Section weakest_preconditions.
Context {S A B : Type}.
Implicit Types (m : M S A) (s : S).

Lemma wp_bind m (k : A → M S B) Q s :
  wp m (λ a s', wp (k a) Q s') s → wp (m ≫= k) Q s.
Proof. unfold wp, mbind, M_bind. by destruct (m s). Qed.

Lemma wp_fmap (f : A → B) m Q s : wp m (λ a s', Q (f a) s') s → wp (f <$> m) Q s.
Proof. unfold wp, fmap, M_fmap. by destruct (m s). Qed.

Lemma wp_fmap_inv (f : A → B) m Q s : wp (f <$> m) Q s → wp m (λ a s', Q (f a) s') s.
Proof. unfold wp, fmap, M_fmap. by destruct (m s). Qed.

Lemma wp_mono m (P Q : A → S → Prop) s :
  wp m P s → (∀ a s', P a s' → Q a s') → wp m Q s.
Proof. unfold wp. destruct (m s); eauto. Qed.

Lemma wp_and m (P Q : A → S → Prop) s :
  wp m P s → wp m Q s → wp m (λ a s', P a s' ∧ Q a s') s.
Proof. unfold wp. destruct (m s); eauto. Qed.

Lemma wp_ok m Q s : wp m Q s ↔ ∃ a s', m s = Ok a s' ∧ Q a s'.
Proof.
  unfold wp. split; [destruct (m s) as [a s'| |]; [by exists a, s'|done|done]|].
  by intros (a & s' & -> & ?).
Qed.
End weakest_preconditions.

(** ** Automation *)

#[export] Hint Resolve uint_range sint_range star_refl star_one : cpp.
#[export] Hint Rewrite @splice_nil @length_app @length_take @length_drop @length_replicate : cpp.
#[export] Hint Unfold mbind mret M_bind M_ret fmap M_fmap get put gets modify throw faultM : cpp.

(** Unfold the state monad and reduce. *)
Ltac unfold_M :=
  unfold assertM, derefM, gets, modify in *;
  unfold mbind, mret, M_bind, M_ret, get, put, throw, faultM in *;
  cbn beta iota in *.

(** Split every test of the goal or the context that the model branches on. *)
Ltac split_ifs :=
  repeat match goal with
  | |- context [if decide ?P then _ else _] => destruct (decide P)
  | H : context [if decide ?P then _ else _] |- _ => destruct (decide P)
  end.
