(* ===== verification/Mutex.v ===== *)
(** Locks: [mutex.h] and [mutex.cc].

    Every lock class is an instance of [Lockable], the operations its guards
    use: an attempt to acquire the lock in a mode, which answers whether the
    caller has entered or must wait (for a spinning lock one round of its
    loop), and the release. The functions of the POSIX threads library are
    written out from their documentation; where it leaves a choice, an error
    for a thread that takes a read-write lock it already holds, the choice is
    the parameter [detects]. The three templates of guards are one definition:
    the mode is what tells [ScopedLockImpl], [RdScopedLockImpl] and
    [WrScopedLockImpl] apart. The last section runs any number of threads, each
    with a script of what it does with its guards, one attempt at a time in an
    order that is given. *)
From stdpp Require Import base gmap list numbers option.
From Stdlib Require Import ZArith Lia.
From S2P Require Import Prelude.

Module Mutex.

Class Lockable (S mode : Type) := {
  fresh : S;
  acquire : nat → mode → M S bool;
  release : nat → M S unit
}.

(** ** The locks *)

(** class Mutex. A default pthread_mutex_t: its owner. A thread that locks it
    twice waits for itself; unlocking it needs the owner. *)
Definition pthread_mutex : Type := option nat.

Definition pthread_mutex_lock (t : nat) : M pthread_mutex bool := λ m,
  match m with None => Ok true (Some t) | Some _ => Ok false m end.

Definition pthread_mutex_unlock (t : nat) : M pthread_mutex unit := λ m,
  if decide (m = Some t) then Ok tt None else Fault NotOwner.

Instance Mutex : Lockable pthread_mutex unit := {|
  fresh := None;
  acquire t _ := pthread_mutex_lock t;
  release t := pthread_mutex_unlock t
|}.

(** class SpinLock. One round of pthread_spin_lock. *)
Record pthread_spinlock := mk_spin { spin_owner : option nat }.

Definition pthread_spin_lock (t : nat) : M pthread_spinlock bool := λ m,
  match spin_owner m with None => Ok true (mk_spin (Some t)) | Some _ => Ok false m end.

Definition pthread_spin_unlock (t : nat) : M pthread_spinlock unit := λ m,
  if decide (spin_owner m = Some t) then Ok tt (mk_spin None) else Fault NotOwner.

Instance SpinLock : Lockable pthread_spinlock unit := {|
  fresh := mk_spin None;
  acquire t _ := pthread_spin_lock t;
  release t := pthread_spin_unlock t
|}.

(** class CASLock. The flag has no owner. *)
Definition atomic_flag : Type := bool.

(** atomic_flag_test_and_set: the old value, and the flag is set. *)
Definition test_and_set : M atomic_flag bool := λ b, Ok b true.

Definition clear : M atomic_flag unit := λ _, Ok tt false.

(** One round of the loop in lock(). *)
Definition CASLock_lock : M atomic_flag bool :=
  old ← test_and_set; mret (negb old).

Instance CASLock : Lockable atomic_flag unit := {|
  fresh := false;
  acquire _ _ := CASLock_lock;
  release _ := clear
|}.

(** class NullMutex. *)
Instance NullMutex : Lockable unit unit := {|
  fresh := tt;
  acquire _ _ := mret true;
  release _ := mret tt
|}.

(** class RWMutex: its writer and its readers, with repetitions. *)
Inductive rw := rd | wr.

Record pthread_rwlock := mk_rw { writer : option nat; readers : list nat }.

Section rwlock.
Context (detects : bool).

(** A detected deadlock is an error code, which rdlock() and wrlock() drop:
    the caller goes on without the lock. *)
Definition deadlock (own : bool) : M pthread_rwlock bool := mret (detects && own).

Definition pthread_rwlock_rdlock (t : nat) : M pthread_rwlock bool :=
  l ← get;
  match writer l with
  | Some w => deadlock (bool_decide (w = t))
  | None => _ ← put (mk_rw None (t :: readers l)); mret true
  end.

Definition pthread_rwlock_wrlock (t : nat) : M pthread_rwlock bool :=
  l ← get;
  match writer l, readers l with
  | Some w, _ => deadlock (bool_decide (w = t))
  | None, [] => _ ← put (mk_rw (Some t) []); mret true
  | None, rs => deadlock (bool_decide (t ∈ rs))
  end.

(** Taking one occurrence out of a list. *)
Fixpoint remove_one (t : nat) (l : list nat) : list nat :=
  match l with
  | [] => []
  | u :: l' => if decide (u = t) then l' else u :: remove_one t l'
  end.

Definition pthread_rwlock_unlock (t : nat) : M pthread_rwlock unit :=
  l ← get;
  if decide (writer l = Some t) then put (mk_rw None (readers l))
  else if decide (t ∈ readers l) then put (mk_rw (writer l) (remove_one t (readers l)))
  else faultM NotOwner.

#[local] Instance RWMutex : Lockable pthread_rwlock rw := {|
  fresh := mk_rw None [];
  acquire t md := match md with rd => pthread_rwlock_rdlock t | wr => pthread_rwlock_wrlock t end;
  release t := pthread_rwlock_unlock t
|}.
End rwlock.

(** class NullRWMutex. *)
Instance NullRWMutex : Lockable unit rw := {|
  fresh := tt;
  acquire _ _ := mret true;
  release _ := mret tt
|}.

(** ** Guards and the threads that use them *)
Section guards.
Context {S mode : Type} `{Lockable S mode}.

Record guard := mk_guard { g_mode : mode; m_locked : bool }.

(** The constructor. As long as the answer is [false] it has not returned. *)
Definition ScopedLock_new (t : nat) (md : mode) : M S (option guard) :=
  b ← acquire t md; mret (if b : bool then Some (mk_guard md true) else None).

Definition ScopedLock_lock (t : nat) (g : guard) : M S (option guard) :=
  if negb (m_locked g) then
    b ← acquire t (g_mode g); mret (if b : bool then Some (mk_guard (g_mode g) true) else None)
  else mret (Some g).

Definition ScopedLock_unlock (t : nat) (g : guard) : M S guard :=
  if m_locked g then _ ← release t; mret (mk_guard (g_mode g) false) else mret g.

(** The destructor. *)
Definition ScopedLock_destroy (t : nat) (g : guard) : M S unit :=
  _ ← ScopedLock_unlock t g; mret tt.

(** What a thread does: guards go by numbers; [Work] is anything else. *)
Inductive cmd :=
| Make (g : nat) (md : mode)
| Lock (g : nat)
| Unlock (g : nat)
| Destroy (g : nat)
| Work.

Record thread := mk_thread { guards : gmap nat guard; script : list cmd }.

Definition the_guard (gs : gmap nat guard) (g : nat) : M S guard :=
  match gs !! g with Some x => mret x | None => faultM Dangling end.

(** One attempt at the first command. The answer [None]: the thread waits. *)
Definition exec (t : nat) (gs : gmap nat guard) (k : cmd) : M S (option (gmap nat guard)) :=
  match k with
  | Make g md => o ← ScopedLock_new t md; mret (x ← o; Some (<[g := x]> gs))
  | Lock g => x ← the_guard gs g; o ← ScopedLock_lock t x; mret (y ← o; Some (<[g := y]> gs))
  | Unlock g => x ← the_guard gs g; y ← ScopedLock_unlock t x; mret (Some (<[g := y]> gs))
  | Destroy g => x ← the_guard gs g; _ ← ScopedLock_destroy t x; mret (Some (delete g gs))
  | Work => mret (Some gs)
  end.

Record sys := mk_sys { mutex : S; threads : gmap nat thread }.

(** The turn of thread [t]: whether it got further. *)
Definition turn (t : nat) : M sys bool := λ c,
  match threads c !! t with
  | Some (mk_thread gs (k :: ks)) =>
      match exec t gs k (mutex c) with
      | Ok (Some gs') s => Ok true (mk_sys s (<[t := mk_thread gs' ks]> (threads c)))
      | Ok None s => Ok false (mk_sys s (threads c))
      | Exn e s => Exn e (mk_sys s (threads c))
      | Fault f => Fault f
      end
  | _ => Ok false c
  end.

Definition turns (ts : list nat) : M sys unit := forM ts (λ t, _ ← turn t; mret tt).

Definition start (scripts : gmap nat (list cmd)) : sys :=
  mk_sys fresh (mk_thread ∅ <$> scripts).

(** No guard of the thread is locked. *)
Definition unlocked (gs : gmap nat guard) : bool :=
  bool_decide (map_Forall (λ _ x, m_locked x = false) gs).

(** A script that names only guards that exist, locks a guard only while no
    other guard of the thread is locked, and ends with all of them destroyed. *)
Fixpoint scoped (gs : gmap nat guard) (l : list cmd) : bool :=
  match l with
  | [] => bool_decide (gs = ∅)
  | Work :: l' => scoped gs l'
  | Make g md :: l' =>
      bool_decide (gs !! g = None) && unlocked gs && scoped (<[g := mk_guard md true]> gs) l'
  | Lock g :: l' =>
      match gs !! g with
      | Some x => if m_locked x then scoped gs l'
                  else unlocked gs && scoped (<[g := mk_guard (g_mode x) true]> gs) l'
      | None => false
      end
  | Unlock g :: l' =>
      match gs !! g with
      | Some x => scoped (<[g := mk_guard (g_mode x) false]> gs) l'
      | None => false
      end
  | Destroy g :: l' => bool_decide (is_Some (gs !! g)) && scoped (delete g gs) l'
  end.
End guards.
Arguments guard : clear implicits.
Arguments cmd : clear implicits.
Arguments thread : clear implicits.
Arguments sys : clear implicits.

(** RdScopedLockImpl and WrScopedLockImpl: the same code, with rdlock() and
    wrlock() for lock(). *)
Definition RdScopedLock_new {S} `{Lockable S rw} (t : nat) : M S (option (guard rw)) := ScopedLock_new t rd.
Definition WrScopedLock_new {S} `{Lockable S rw} (t : nat) : M S (option (guard rw)) := ScopedLock_new t wr.

(** ** What a lock promises

    [holds s l]: the state [s] stands for the holders [l], threads with the
    mode they entered in. A thread that holds nothing enters exactly when its
    mode allows it. *)
Definition may_enter {mode : Type} (exclusive : mode → bool) (md : mode) (l : list (nat * mode)) : bool :=
  if exclusive md then bool_decide (length l = 0) else forallb (λ h, negb (exclusive h.2)) l.

Class LockLaws (S mode : Type) `{Lockable S mode} (exclusive : mode → bool) := {
  holds : S → list (nat * mode) → Prop;
  holds_fresh : holds fresh [];
  holds_perm s l l' : l ≡ₚ l' → holds s l → holds s l';
  acquire_law s l t md : holds s l → t ∉ l.*1 →
    if may_enter exclusive md l then ∃ s', acquire t md s = Ok true s' ∧ holds s' ((t, md) :: l)
    else ∃ s', acquire t md s = Ok false s' ∧ holds s' l;
  release_law s l t md : holds s ((t, md) :: l) → t ∉ l.*1 →
    ∃ s', release t s = Ok tt s' ∧ holds s' l
}.

(** ** Semaphore and Cond *)
Section semaphore.
Local Open Scope Z_scope.

Definition SEM_VALUE_MAX : Z := 2 ^ 31 - 1.

Definition Semaphore_new (count : Z) : outcome Z unit :=
  if count <=? SEM_VALUE_MAX then Ok tt count else Exn logic_error count.

(** wait(): whether the caller got through. *)
Definition Semaphore_wait : M Z bool :=
  v ← get; if 0 <? v then _ ← put (v - 1); mret true else mret false.

Definition Semaphore_notify : M Z unit :=
  v ← get; if v =? SEM_VALUE_MAX then throw logic_error else put (v + 1).
End semaphore.

(** The condition variable, as the threads that wait, and its mutex, which no
    operation of the class locks. *)
Record Cond := mk_cond { m_cond : list nat; m_mtx : pthread_mutex }.

Definition Cond_new : Cond := mk_cond [] None.

(** pthread_cond_wait gives the mutex back, so the caller must own it. *)
Definition Cond_wait (t : nat) : M Cond unit := λ c,
  match pthread_mutex_unlock t (m_mtx c) with
  | Ok _ m => Ok tt (mk_cond (m_cond c ++ [t]) m)
  | Exn e m => Exn e (mk_cond (m_cond c) m)
  | Fault f => Fault f
  end.

Definition Cond_signal : M Cond unit := modify (λ c, mk_cond (drop 1 (m_cond c)) (m_mtx c)).

Definition Cond_broadcast : M Cond unit := modify (λ c, mk_cond [] (m_mtx c)).

End Mutex.
