(* ===== verification/MutexProps.v ===== *)
(** Locks: which classes keep the promise of [LockLaws], and what follows for
    any number of threads that use guards, proved once for all of them. *)
From stdpp Require Import base gmap list numbers option.
From Stdlib Require Import ZArith Lia.
From S2P Require Import Prelude Mutex.

Module MutexProps.
Import Mutex.

(** ** The locks keep their promise *)

(** At most one holder. *)
Definition sole_holder {mode} (o : option nat) (l : list (nat * mode)) : Prop :=
  match o with None => l = [] | Some t => ∃ md, l = [(t, md)] end.

Lemma sole_holder_perm {mode} o (l l' : list (nat * mode)) :
  l ≡ₚ l' → sole_holder o l → sole_holder o l'.
Proof.
  destruct o as [t|]; simpl; intros Hp.
  - intros [md ->]. apply Permutation_singleton_l in Hp. eauto.
  - intros ->. by apply Permutation_nil_l in Hp.
Qed.

Section owned.
Context {mode S : Type} (owner : S → option nat).

#[local] Hint Extern 1 (_ ∉ _) => set_solver : core.

Lemma sole_enter (l : list (nat * mode)) (o : option nat) t md :
  sole_holder o l →
  match o with
  | None => may_enter (λ _, true) md l = true ∧ sole_holder (Some t) ((t, md) :: l)
  | Some _ => may_enter (λ _, true) md l = false
  end.
Proof. destruct o; simpl; [by intros [? ->]|intros ->; split; [done|by eexists]]. Qed.

Lemma sole_release (l : list (nat * mode)) (o : option nat) t md :
  sole_holder o ((t, md) :: l) → o = Some t ∧ l = [].
Proof. destruct o; simpl; [intros [? [= -> -> ->]]; done|done]. Qed.
End owned.

#[export] Instance Mutex_laws : LockLaws pthread_mutex unit (λ _, true).
Proof.
  refine {| holds s l := sole_holder s l |}; [done|intros ???; apply sole_holder_perm|..].
  - intros [u|] l t md Hh _; pose proof (sole_enter l _ t md Hh) as He.
    + rewrite He. by eexists.
    + destruct He as [-> He]. by eexists.
  - intros s l t md [-> ->]%sole_release _. exists None. split; [|done].
    simpl. unfold pthread_mutex_unlock. by rewrite decide_True.
Defined.

#[export] Instance SpinLock_laws : LockLaws pthread_spinlock unit (λ _, true).
Proof.
  refine {| holds s l := sole_holder (spin_owner s) l |}; [done|intros ???; apply sole_holder_perm|..].
  - intros [[u|]] l t md Hh _; pose proof (sole_enter l _ t md Hh) as He; simpl in He.
    + rewrite He. by eexists.
    + destruct He as [-> He]. by eexists.
  - intros [o] l t md [Ho ->]%sole_release _. simpl in Ho. subst o. eexists (mk_spin None). split; [|done].
    simpl. unfold pthread_spin_unlock. by rewrite decide_True.
Defined.

(** The flag of a CASLock tells only whether somebody holds it. *)
#[export] Instance CASLock_laws : LockLaws atomic_flag unit (λ _, true).
Proof.
  refine {| holds s l := length l = if s : bool then 1 else 0 |}; [done|by intros ??? <-|..].
  - intros [] l t md Hh _; unfold may_enter; rewrite Hh; simpl.
    + by exists true.
    + exists true. by rewrite Hh.
  - intros [] l t md Hh _; [|done]. injection Hh as Hh. by exists false.
Defined.

(** *** The read-write lock, whether or not it detects deadlocks *)
Definition rw_exclusive (md : rw) : bool := match md with rd => false | wr => true end.

Definition rw_holds (s : pthread_rwlock) (l : list (nat * rw)) : Prop :=
  match writer s with
  | Some w => readers s = [] ∧ l = [(w, wr)]
  | None => readers s ≡ₚ l.*1 ∧ Forall (λ h, h.2 = rd) l
  end.

Lemma rw_holds_perm s l l' : l ≡ₚ l' → rw_holds s l → rw_holds s l'.
Proof.
  intros Hp. unfold rw_holds. destruct (writer s) as [w|].
  - intros [Hr ->]. by apply Permutation_singleton_l in Hp as ->.
  - by rewrite Hp.
Qed.

Lemma readers_may_enter l :
  Forall (λ h : nat * rw, h.2 = rd) l → may_enter rw_exclusive rd l = true.
Proof. unfold may_enter. simpl. induction 1 as [|[t md] l Hm ? IH]; simpl in *; by subst. Qed.

Lemma remove_one_head t l : remove_one t (t :: l) = l.
Proof. simpl. by rewrite decide_True. Qed.

Lemma remove_one_perm t l l' : l ≡ₚ l' → remove_one t l ≡ₚ remove_one t l'.
Proof.
  induction 1 as [|x l l' ? IH|x y l|]; [done| | |by etrans]; simpl.
  - case_decide; [done|by f_equiv].
  - do 2 case_decide; subst; [done..|apply perm_swap].
Qed.

#[export] Instance RWMutex_laws detects :
  @LockLaws pthread_rwlock rw (RWMutex detects) rw_exclusive.
Proof.
  refine (@Build_LockLaws _ _ (RWMutex detects) rw_exclusive rw_holds _ rw_holds_perm _ _);
    [by split; [|constructor]|..].
  - intros [[w|] rs] l t md Hh Ht; unfold rw_holds in Hh; simpl in *.
    + destruct Hh as [-> ->]. assert (w ≠ t) by set_solver.
      assert (may_enter rw_exclusive md [(w, wr)] = false) as -> by by destruct md.
      exists (mk_rw (Some w) []). split; [|done].
      destruct md; unfold pthread_rwlock_rdlock, pthread_rwlock_wrlock, deadlock, get, mret, M_ret, mbind, M_bind;
        simpl; rewrite bool_decide_false by done; by rewrite andb_false_r.
    + destruct Hh as [Hr Hl], md.
      * rewrite readers_may_enter by done. exists (mk_rw None (t :: rs)).
        split; [done|]. split; [by apply Permutation_skip|by constructor].
      * destruct rs as [|r rs].
        { symmetry in Hr. apply Permutation_nil_r, fmap_nil_inv in Hr as ->. by eexists. }
        destruct l as [|h l]; [by apply Permutation_nil_r in Hr|]. simpl.
        exists (mk_rw None (r :: rs)). split; [|by split].
        unfold pthread_rwlock_wrlock, deadlock, get, mret, M_ret, mbind, M_bind; cbn [writer readers].
        rewrite bool_decide_false by (rewrite Hr; done). by rewrite andb_false_r.
  - intros [[w|] rs] l t md Hh Ht; unfold rw_holds in Hh; simpl in Hh.
    + destruct Hh as [-> [= -> -> ->]]. exists (mk_rw None []).
      unfold release, RWMutex, pthread_rwlock_unlock, get, mbind, M_bind; cbn [writer readers].
      by rewrite decide_True.
    + destruct Hh as [Hr Hl]. inversion Hl as [|?? Hm Hl']; subst.
      exists (mk_rw None (remove_one t rs)).
      unfold release, RWMutex, pthread_rwlock_unlock, get, mbind, M_bind; cbn [writer readers].
      rewrite decide_False by done. rewrite decide_True by (rewrite Hr; set_solver).
      split; [done|]. split; [|done]. cbn [readers].
      rewrite (remove_one_perm _ _ _ Hr). change (remove_one t (t :: l.*1) ≡ₚ l.*1). by rewrite remove_one_head.
Defined.

(** ** Threads with guards *)
Section threads.
Context {S mode : Type} `{HL : LockLaws S mode excl}.
Implicit Types (gs : gmap nat (guard mode)) (l : list (nat * mode)).

(** Bookkeeping of the holders: no thread twice, an exclusive one alone. *)
Definition good (s : S) l : Prop :=
  holds s l ∧ NoDup l.*1 ∧ ∀ h, h ∈ l → excl h.2 = true → l = [h].

(** The locked guards of a thread are its part of the holders. *)
Definition view (t : nat) gs l : Prop :=
  ∀ md, (t, md) ∈ l ↔ ∃ g, gs !! g = Some (mk_guard md true).

Definition sole gs : Prop := ∀ g1 g2 md1 md2,
  gs !! g1 = Some (mk_guard md1 true) → gs !! g2 = Some (mk_guard md2 true) → g1 = g2.

Definition others (t : nat) l l' : Prop := ∀ u md, u ≠ t → (u, md) ∈ l' ↔ (u, md) ∈ l.

Lemma unlocked_spec gs : unlocked gs = true ↔ ∀ g md, gs !! g ≠ Some (mk_guard md true).
Proof.
  unfold unlocked. rewrite bool_decide_eq_true. split.
  - intros Hm g md Hg. by specialize (Hm _ _ Hg).
  - intros Hn g [md []] Hg; [by apply Hn in Hg|done].
Qed.

Lemma view_free t gs l : view t gs l → unlocked gs = true → t ∉ l.*1.
Proof.
  intros Hv Hu ([u md] & -> & Hin)%list_elem_of_fmap. simpl in Hv.
  apply Hv in Hin as [g Hg]. rewrite unlocked_spec in Hu. by eapply Hu.
Qed.

(** *** Entering and leaving *)
Lemma may_enter_good s l t md s' :
  good s l → t ∉ l.*1 → may_enter excl md l = true → holds s' ((t, md) :: l) → good s' ((t, md) :: l).
Proof.
  intros (Hh & Hn & He) Ht Hm Hs. split; [done|]. split; [by apply list.NoDup_cons|].
  unfold may_enter in Hm. intros h Hin Hx. apply elem_of_cons in Hin as [->|Hin].
  - simpl in Hx. rewrite Hx in Hm. apply bool_decide_eq_true in Hm. by destruct l.
  - rewrite (He h Hin Hx) in Hm. simpl in Hm. rewrite Hx in Hm. by destruct (excl md).
Qed.

Lemma enter_step s l t md gs g :
  good s l → view t gs l → unlocked gs = true →
  if may_enter excl md l then ∃ s', acquire t md s = Ok true s' ∧ good s' ((t, md) :: l) ∧
      view t (<[g := mk_guard md true]> gs) ((t, md) :: l) ∧ sole (<[g := mk_guard md true]> gs)
  else ∃ s', acquire t md s = Ok false s' ∧ good s' l.
Proof.
  intros Hg Hv Hu. pose proof (view_free _ _ _ Hv Hu) as Ht.
  pose proof (acquire_law s l t md (proj1 Hg) Ht) as Ha. rewrite unlocked_spec in Hu.
  destruct (may_enter excl md l) eqn:Hm; destruct Ha as (s' & He & Hs); exists s'; (split; [done|]).
  - split; [by eapply may_enter_good|]. split.
    + intros md'. rewrite elem_of_cons. split.
      * intros [[= ->]|Hin]; [exists g; by rewrite lookup_insert_eq|].
        exfalso. apply Ht, list_elem_of_fmap. by exists (t, md').
      * intros [g' [[_ [= ->]]|[_ Hg']]%lookup_insert_Some]; [by left|]. by apply Hu in Hg'.
    + intros g1 g2 md1 md2 [[<- _]|[_ H1]]%lookup_insert_Some [[<- _]|[_ H2]]%lookup_insert_Some;
        [done|by apply Hu in H2|by apply Hu in H1..].
  - destruct Hg as (_ & Hg). by split.
Qed.

Lemma in_split_first (l : list (nat * mode)) t md :
  (t, md) ∈ l → ∃ l', l ≡ₚ (t, md) :: l'.
Proof. intros (l1 & l2 & ->)%list_elem_of_split. exists (l1 ++ l2). by rewrite Permutation_middle. Qed.

Lemma leave_step s l t md gs g gs' :
  good s l → view t gs l → sole gs → gs !! g = Some (mk_guard md true) →
  (∀ g' x, gs' !! g' = Some x → m_locked x = true → g' ≠ g ∧ gs !! g' = Some x) →
  ∃ s' l', release t s = Ok tt s' ∧ good s' l' ∧ view t gs' l' ∧ sole gs' ∧ others t l l'.
Proof.
  intros (Hh & Hn & He) Hv Hs Hg Hsub.
  assert ((t, md) ∈ l) as [l' Hp]%in_split_first by (apply Hv; eauto).
  rewrite Hp, fmap_cons in Hn. apply list.NoDup_cons in Hn as [Ht Hn]. simpl in Ht.
  destruct (release_law s l' t md (holds_perm _ _ _ Hp Hh) Ht) as (s' & Hr & Hh').
  exists s', l'. split; [done|]. split; [|split; [|split]].
  - split; [done|]. split; [done|]. intros h Hin Hx.
    assert (l = [h]) as Hl by (apply He; [rewrite Hp; set_solver|done]).
    rewrite Hl in Hp. apply Permutation_length in Hp. simpl in Hp. destruct l'; [by apply not_elem_of_nil in Hin|done].
  - intros md'. split.
    + intros Hin. exfalso. apply Ht, list_elem_of_fmap. by exists (t, md').
    + intros [g' Hg']. destruct (Hsub _ _ Hg' eq_refl) as [Hne Hg2].
      destruct Hne. by eapply Hs.
  - intros g1 g2 md1 md2 H1 H2. destruct (Hsub _ _ H1 eq_refl), (Hsub _ _ H2 eq_refl). by eapply Hs.
  - intros u md' Hu. rewrite Hp, elem_of_cons. split; [by right|]. by intros [[= -> ->]|].
Qed.

(** Changing a guard that is not locked, without locking it. *)
Lemma same_locked t gs gs' l :
  view t gs l → sole gs →
  (∀ g md, gs' !! g = Some (mk_guard md true) ↔ gs !! g = Some (mk_guard md true)) →
  view t gs' l ∧ sole gs'.
Proof.
  intros Hv Hs Hsub. split.
  - intros md. rewrite (Hv md). by setoid_rewrite Hsub.
  - intros g1 g2 md1 md2 H1%Hsub H2%Hsub. by eapply Hs.
Qed.

(** *** One attempt of one thread *)
Definition advanced t gs l ks (s' : S) gs' : Prop :=
  ∃ l', good s' l' ∧ view t gs' l' ∧ sole gs' ∧ others t l l' ∧ scoped gs' ks = true.

Lemma others_refl t l : others t l l.
Proof. done. Qed.

Lemma others_enter t md l : others t l ((t, md) :: l).
Proof. intros u md' Hu. rewrite elem_of_cons. split; [by intros [[= -> ->]|]|by right]. Qed.

#[local] Hint Resolve others_refl others_enter : core.

Definition attempted (t : nat) gs l (k : cmd mode) ks s : Prop :=
  (∃ s' gs', exec t gs k s = Ok (Some gs') s' ∧ advanced t gs l ks s' gs') ∨
  (∃ s' md, exec t gs k s = Ok None s' ∧ good s' l ∧ unlocked gs = true ∧ may_enter excl md l = false).

Ltac run_exec :=
  unfold exec, the_guard, ScopedLock_new, ScopedLock_lock, ScopedLock_destroy, ScopedLock_unlock, mbind, M_bind, mret, M_ret;
  simpl.

Lemma exec_enter t gs l k ks s g md :
  good s l → view t gs l → unlocked gs = true →
  (∀ b s', acquire t md s = Ok b s' →
    exec t gs k s = Ok (if b then Some (<[g := mk_guard md true]> gs) else None) s') →
  scoped (<[g := mk_guard md true]> gs) ks = true → attempted t gs l k ks s.
Proof.
  intros Hg Hv Hu Hx Hc. pose proof (enter_step s l t md gs g Hg Hv Hu) as He.
  destruct (may_enter excl md l) eqn:Hm.
  - destruct He as (s' & Ha & Hg' & Hv' & Hs'). left. exists s', (<[g := mk_guard md true]> gs).
    split; [by apply (Hx true)|]. exists ((t, md) :: l). eauto 6.
  - destruct He as (s' & Ha & Hg'). right. exists s', md. split; [by apply (Hx false)|]. done.
Qed.

Lemma exec_leave t gs l k ks s g md gs' :
  good s l → view t gs l → sole gs → gs !! g = Some (mk_guard md true) →
  (∀ g' x, gs' !! g' = Some x → m_locked x = true → g' ≠ g ∧ gs !! g' = Some x) →
  (∀ s', release t s = Ok tt s' → exec t gs k s = Ok (Some gs') s') →
  scoped gs' ks = true → attempted t gs l k ks s.
Proof.
  intros Hg Hv Hs Hl Hsub Hx Hc.
  destruct (leave_step s l t md gs g gs' Hg Hv Hs Hl Hsub) as (s' & l' & Hr & ? & ? & ? & ?).
  left. exists s', gs'. split; [by apply Hx|]. exists l'. eauto 6.
Qed.

Lemma exec_same t gs l k ks s gs' :
  good s l → view t gs l → sole gs →
  (∀ g md, gs' !! g = Some (mk_guard md true) ↔ gs !! g = Some (mk_guard md true)) →
  exec t gs k s = Ok (Some gs') s → scoped gs' ks = true → attempted t gs l k ks s.
Proof.
  intros Hg Hv Hs Hsub Hx Hc. destruct (same_locked t gs gs' l Hv Hs Hsub).
  left. exists s, gs'. split; [done|]. exists l. eauto 6.
Qed.

Lemma exec_ok t gs l k ks s :
  good s l → view t gs l → sole gs → scoped gs (k :: ks) = true → attempted t gs l k ks s.
Proof.
  intros Hg Hv Hs Hc. destruct k as [g md|g|g|g|]; simpl in Hc.
  - apply andb_prop in Hc as [[_ Hu]%andb_prop Hc]. apply (exec_enter t gs l _ ks s g md); try done.
    intros b s' Ha. run_exec. rewrite Ha. by destruct b.
  - destruct (gs !! g) as [[md []]|] eqn:Hl; [| |done]; simpl in Hc.
    + apply (exec_same t gs l _ ks s gs); try done. run_exec. rewrite Hl. simpl. by rewrite insert_id.
    + apply andb_prop in Hc as [Hu Hc]. apply (exec_enter t gs l _ ks s g md); try done.
      intros b s' Ha. run_exec. rewrite Hl. simpl. rewrite Ha. by destruct b.
  - destruct (gs !! g) as [[md []]|] eqn:Hl; [| |done]; simpl in Hc.
    + apply (exec_leave t gs l _ ks s g md (<[g := mk_guard md false]> gs)); try done.
      * intros g' x [[<- <-]|[? ?]]%lookup_insert_Some; [done|by split].
      * intros s' Hr. run_exec. rewrite Hl. simpl. by rewrite Hr.
    + rewrite insert_id in Hc by done. apply (exec_same t gs l _ ks s gs); try done.
      run_exec. rewrite Hl. simpl. by rewrite insert_id.
  - apply andb_prop in Hc as [[[md b] Hl]%bool_decide_eq_true Hc]. destruct b.
    + apply (exec_leave t gs l _ ks s g md (delete g gs)); try done.
      * by intros g' x [? ?]%lookup_delete_Some.
      * intros s' Hr. run_exec. rewrite Hl. simpl. by rewrite Hr.
    + apply (exec_same t gs l _ ks s (delete g gs)); try done.
      * intros g' md'. rewrite lookup_delete_Some. naive_solver.
      * run_exec. by rewrite Hl.
  - by apply (exec_same t gs l _ ks s gs).
Qed.

(** *** All threads *)
Definition fits (l : list (nat * mode)) (t : nat) (th : thread mode) : Prop :=
  view t (guards th) l ∧ sole (guards th) ∧ scoped (guards th) (script th) = true.

Definition inv (c : sys S mode) : Prop := ∃ l,
  good (mutex c) l ∧ (∀ t th, threads c !! t = Some th → fits l t th) ∧
  (∀ t md, (t, md) ∈ l → is_Some (threads c !! t)).

Lemma view_others u t gs l l' : u ≠ t → others t l l' → view u gs l → view u gs l'.
Proof. intros Hu Ho Hv md. rewrite (Ho u md Hu). apply Hv. Qed.

Lemma inv_start (scripts : gmap nat (list (cmd mode))) :
  (∀ t ks, scripts !! t = Some ks → scoped ∅ ks = true) → inv (start scripts).
Proof.
  intros Hs. exists []. split; [|split].
  - split; [apply holds_fresh|]. split; [constructor|]. intros h Hh. by apply not_elem_of_nil in Hh.
  - intros t th (ks & <- & Hk)%lookup_fmap_Some. split; [|split]; simpl.
    + intros md. split; [by intros ?%not_elem_of_nil|intros [g Hg]; by rewrite lookup_empty in Hg].
    + intros g1 g2 md1 md2 Hg. by rewrite lookup_empty in Hg.
    + by eapply Hs.
  - intros t md Hh. by apply not_elem_of_nil in Hh.
Qed.

(** What holds whenever it is thread [t]'s turn. A thread that has to wait has
    no locked guard, and somebody else is in. *)
Definition moved (t : nat) (c c' : sys S mode) : Prop :=
  ∃ gs k ks gs', threads c !! t = Some (mk_thread gs (k :: ks)) ∧
    threads c' = <[t := mk_thread gs' ks]> (threads c).

Definition held_up (t : nat) (c : sys S mode) : Prop :=
  (∀ th, threads c !! t = Some th → script th ≠ [] →
    unlocked (guards th) = true ∧
    ∃ u th' g md, threads c !! u = Some th' ∧ guards th' !! g = Some (mk_guard md true)).

Lemma turn_ok t c : inv c →
  ∃ b c', turn t c = Ok b c' ∧ inv c' ∧
    if b : bool then moved t c c' else held_up t c ∧ threads c' = threads c.
Proof.
  intros (l & Hg & Hf & Hd). destruct c as [s ths]. unfold turn. simpl in *.
  destruct (ths !! t) as [[gs [|k ks]]|] eqn:Ht.
  - exists false, (mk_sys s ths). split; [done|]. split; [by exists l|]. split; [|done].
    intros th Hth. simpl in Hth. rewrite Ht in Hth. by injection Hth as <-.
  - destruct (Hf _ _ Ht) as (Hv & Hs & Hc). simpl in Hv, Hs, Hc.
    destruct (exec_ok t gs l k ks s Hg Hv Hs Hc)
      as [(s' & gs' & He & l' & Hg' & Hv' & Hs' & Ho & Hc')|(s' & md & He & Hg' & Hu & Hm)]; rewrite He.
    + exists true, (mk_sys s' (<[t := mk_thread gs' ks]> ths)). split; [done|].
      split; [|by exists gs, k, ks, gs'].
      exists l'. split; [done|]. split; simpl.
      * intros u th [[<- <-]|[Hne Hth]]%lookup_insert_Some; [done|].
        destruct (Hf _ _ Hth) as (Hvu & Hsu & Hcu). split; [|done]. by eapply view_others.
      * intros u mu Hin. rewrite lookup_insert_is_Some. destruct (decide (t = u)) as [|Hne]; [by left|].
        right. split; [done|]. apply (Ho u mu) in Hin; [by eapply Hd|done].
    + exists false, (mk_sys s' ths). split; [done|]. split; [by exists l|]. split; [|done].
      intros th Hth _. simpl in Hth. rewrite Ht in Hth. injection Hth as <-. split; [done|].
      destruct l as [|[u mu] l]; [by destruct (excl md) eqn:Hx; unfold may_enter in Hm; rewrite Hx in Hm|].
      destruct (Hd u mu) as [thu Hu']; [by left|]. destruct (Hf _ _ Hu') as (Hvu & _).
      destruct (proj1 (Hvu mu)) as [g Hg1]; [by left|]. by exists u, thu, g, mu.
  - exists false, (mk_sys s ths). split; [done|]. split; [by exists l|]. split; [|done].
    intros th Hth. simpl in Hth. by rewrite Ht in Hth.
Qed.

Lemma turns_ok ts c : inv c → ∃ c', turns ts c = Ok tt c' ∧ inv c'.
Proof.
  revert c. induction ts as [|t ts IH]; intros c Hc; [by exists c|].
  destruct (turn_ok t c Hc) as (b & c1 & Ht & Hc1 & _). destruct (IH c1 Hc1) as (c2 & Hr & Hc2).
  exists c2. split; [|done]. unfold turns, forM, mbind, M_bind, mret, M_ret in *. by rewrite Ht.
Qed.

Definition finished (c : sys S mode) : Prop := ∀ t th, threads c !! t = Some th → script th = [].

Definition exclusion (c : sys S mode) : Prop := ∀ t1 th1 g1 md1 t2 th2 g2 md2,
  threads c !! t1 = Some th1 → guards th1 !! g1 = Some (mk_guard md1 true) → excl md1 = true →
  threads c !! t2 = Some th2 → guards th2 !! g2 = Some (mk_guard md2 true) → t1 = t2 ∧ g1 = g2.

Lemma inv_exclusion c : inv c → exclusion c.
Proof.
  intros (l & (_ & _ & He) & Hf & _) t1 th1 g1 md1 t2 th2 g2 md2 H1 Hg1 Hx H2 Hg2.
  destruct (Hf _ _ H1) as (Hv1 & Hs1 & _), (Hf _ _ H2) as (Hv2 & _).
  assert ((t1, md1) ∈ l) as Hin1 by (apply Hv1; eauto).
  assert ((t2, md2) ∈ l) as Hin2 by (apply Hv2; eauto).
  rewrite (He _ Hin1 Hx) in Hin2. apply list_elem_of_singleton in Hin2 as [= -> ->].
  split; [done|]. rewrite H1 in H2. injection H2 as <-. by eapply Hs1.
Qed.

(** Some thread can go on unless all are done: one that is in, if there is any. *)
Lemma progress c : inv c → ¬ finished c → ∃ t c', turn t c = Ok true c' ∧ inv c' ∧ moved t c c'.
Proof.
  intros Hi Hn.
  assert (∃ t th, threads c !! t = Some th ∧ script th ≠ []) as (t & th & Ht & Hk).
  { destruct (decide (map_Exists (λ _ th, script th ≠ []) (threads c))) as [(t & th & ? & ?)|Hx]; [eauto|].
    destruct Hn. intros t th Ht. destruct (script th) eqn:Hk; [done|].
    destruct Hx. exists t, th. by rewrite Hk. }
  destruct (turn_ok t c Hi) as ([] & c' & Hr & Hi' & Hm); [by exists t, c'|].
  destruct Hm as [Hh _]. destruct (Hh th Ht Hk) as (_ & u & th' & g & md & Hu & Hg).
  pose proof Hi as (l & _ & Hf & _). destruct (Hf _ _ Hu) as (_ & _ & Hc).
  assert (script th' ≠ []) as Hk'.
  { intros He. rewrite He in Hc. simpl in Hc. apply bool_decide_eq_true in Hc. by rewrite Hc, lookup_empty in Hg. }
  destruct (turn_ok u c Hi) as ([] & c2 & Hr2 & Hi2 & Hm2); [by exists u, c2|].
  destruct Hm2 as [Hh2 _]. destruct (Hh2 th' Hu Hk') as (Hul & _).
  rewrite unlocked_spec in Hul. by apply Hul in Hg.
Qed.

(** Commands that are left. *)
Definition left_over (ths : gmap nat (thread mode)) : nat :=
  sum_list (map (λ p, length (script p.2)) (map_to_list ths)).

Lemma sum_list_perm (l l' : list nat) : l ≡ₚ l' → sum_list l = sum_list l'.
Proof. induction 1; simpl; lia. Qed.

Lemma left_over_delete ths t th :
  ths !! t = Some th → left_over ths = length (script th) + left_over (delete t ths).
Proof.
  intros Ht. unfold left_over.
  rewrite (sum_list_perm _ (map (λ p, length (script p.2)) ((t, th) :: map_to_list (delete t ths)))); [done|].
  apply Permutation_map. symmetry. by apply map_to_list_delete.
Qed.

Lemma left_over_moved t c c' : moved t c c' → left_over (threads c) = 1 + left_over (threads c').
Proof.
  intros (gs & k & ks & gs' & Ht & ->). rewrite (left_over_delete _ _ _ Ht).
  rewrite (left_over_delete (<[t := mk_thread gs' ks]> (threads c)) t (mk_thread gs' ks)) by apply lookup_insert_eq.
  by rewrite delete_insert_eq.
Qed.

Lemma completes n c : inv c → left_over (threads c) = n →
  ∃ ts c', length ts = n ∧ turns ts c = Ok tt c' ∧ inv c' ∧ finished c'.
Proof.
  revert c. induction n as [|n IH]; intros c Hi Hn.
  - exists [], c. split; [done|]. split; [done|]. split; [done|]. intros t th Ht.
    rewrite (left_over_delete _ _ _ Ht) in Hn. apply length_zero_iff_nil. lia.
  - destruct (progress c Hi) as (t & c1 & Hr & Hi1 & Hm).
    { intros Hf. assert (left_over (threads c) = 0) as H0; [|lia]. unfold left_over.
      assert (∀ p, p ∈ map_to_list (threads c) → script p.2 = []) as Hz.
      { intros [t th] Hp%elem_of_map_to_list. by eapply Hf. }
      induction (map_to_list (threads c)) as [|p ps IHp]; [done|]. simpl.
      rewrite Hz by left. apply IHp. intros q Hq. apply Hz. by right. }
    apply left_over_moved in Hm. destruct (IH c1 Hi1 ltac:(lia)) as (ts & c2 & Hl & Hr2 & Hi2 & Hf).
    exists (t :: ts), c2. split; [by simpl; rewrite Hl|]. split; [|done].
    unfold turns, forM, mbind, M_bind, mret, M_ret in *. by rewrite Hr.
Qed.

(** When all are done nobody holds the lock. *)
Lemma finished_free c t md : inv c → finished c → ∃ s', acquire t md (mutex c) = Ok true s'.
Proof.
  intros (l & (Hh & _) & Hf & Hd) Hfin. destruct l as [|[u mu] l].
  - pose proof (acquire_law (mutex c) [] t md Hh (not_elem_of_nil t)) as Ha.
    assert (may_enter excl md [] = true) as Hm by (unfold may_enter; by destruct (excl md)).
    rewrite Hm in Ha. destruct Ha as (s' & ? & _). eauto.
  - destruct (Hd u mu) as [th Hu]; [by left|]. destruct (Hf _ _ Hu) as (Hv & _ & Hc).
    rewrite (Hfin _ _ Hu) in Hc. simpl in Hc. apply bool_decide_eq_true in Hc.
    destruct (proj1 (Hv mu)) as [g Hg]; [by left|]. by rewrite Hc, lookup_empty in Hg.
Qed.

End threads.


(** A thread that locks twice, and one that locks, unlocks and locks again. *)
Definition plain_scripts : gmap nat (list (cmd unit)) :=
  <[1 := [Make 0 tt; Work; Lock 0; Destroy 0]]>
    (<[2 := [Make 0 tt; Unlock 0; Work; Lock 0; Work; Destroy 0]]> ∅).

(** Two readers, one of which becomes the writer, and a writer. *)
Definition rw_scripts : gmap nat (list (cmd rw)) :=
  <[1 := [Make 0 rd; Work; Destroy 0]]>
    (<[2 := [Make 0 rd; Unlock 0; Make 1 wr; Work; Destroy 1; Destroy 0]]>
      (<[3 := [Make 0 wr; Work; Destroy 0]]> ∅)).

Lemma plain_scripts_scoped t ks : plain_scripts !! t = Some ks → scoped ∅ ks = true.
Proof.
  revert t ks. apply (bool_decide_unpack (map_Forall (λ _ ks, scoped ∅ ks = true) plain_scripts)). by vm_compute.
Qed.

Lemma rw_scripts_scoped t ks : rw_scripts !! t = Some ks → scoped ∅ ks = true.
Proof.
  revert t ks. apply (bool_decide_unpack (map_Forall (λ _ ks, scoped ∅ ks = true) rw_scripts)). by vm_compute.
Qed.


(** ** What happens without the restriction *)

(** A second write guard of the same thread: where deadlocks are detected, its
    constructor returns without the lock, its destructor releases the lock of
    the first guard, a writer in another thread enters beside the first guard,
    and destroying that is undefined; where they are not, the thread waits for
    itself. *)
Definition nested_scripts : gmap nat (list (cmd rw)) :=
  <[1 := [Make 0 wr; Make 1 wr; Destroy 1; Work; Destroy 0]]> (<[2 := [Make 0 wr; Work; Destroy 0]]> ∅).

Definition locked_by (t : nat) (c : sys pthread_rwlock rw) : bool :=
  match threads c !! t with
  | Some th => match guards th !! 0 with Some x => m_locked x | None => false end
  | None => false
  end.

Lemma nested_write_guards :
  (∃ c, turns (H := RWMutex true) [1; 1; 1; 2] (start (H := RWMutex true) nested_scripts) = Ok tt c ∧
     locked_by 1 c = true ∧ locked_by 2 c = true) ∧
  turns (H := RWMutex true) [1; 1; 1; 2; 1; 1] (start (H := RWMutex true) nested_scripts) = Fault NotOwner ∧
  ∀ n, turn (H := RWMutex false) 1 (mk_sys (mk_rw (Some 1) [])
      (<[1 := mk_thread (<[0 := mk_guard wr true]> ∅) (Make 1 wr :: n)]> ∅)) =
    Ok false (mk_sys (mk_rw (Some 1) []) (<[1 := mk_thread (<[0 := mk_guard wr true]> ∅) (Make 1 wr :: n)]> ∅)).
Proof.
  split; [eexists; split; [by vm_compute|by vm_compute]|]. split; [by vm_compute|]. intros n. by vm_compute.
Qed.

(** No operation of [Cond] ever locks its mutex, so waiting is undefined. *)
Inductive cond_op := signals | broadcasts.

Definition cond_run (ops : list cond_op) : M Cond unit :=
  forM ops (λ o, match o with signals => Cond_signal | broadcasts => Cond_broadcast end).

Lemma cond_wait_undefined ops t :
  ∃ c, cond_run ops Cond_new = Ok tt c ∧ Cond_wait t c = Fault NotOwner.
Proof.
  assert (∀ c, m_mtx c = None → ∃ c', cond_run ops c = Ok tt c' ∧ m_mtx c' = None) as Hr.
  { induction ops as [|[] ops IH]; intros [q m] Hm; simpl in Hm; subst m; [by eexists|by apply IH..]. }
  destruct (Hr Cond_new eq_refl) as (c & -> & Hm). exists c. split; [done|].
  unfold Cond_wait, pthread_mutex_unlock. by rewrite Hm.
Qed.

(** A semaphore counts: with [w] successful waits and [n] notifications the
    value is the difference, and a thread waits exactly at zero. *)
Lemma semaphore_counts v :
  (0 ≤ v < SEM_VALUE_MAX)%Z →
  Semaphore_new v = Ok tt v ∧ Semaphore_notify v = Ok tt (v + 1)%Z ∧
  Semaphore_wait (v + 1)%Z = Ok true v ∧ Semaphore_wait 0%Z = Ok false 0%Z.
Proof.
  intros Hv. unfold Semaphore_new, Semaphore_notify, Semaphore_wait, get, put, mbind, M_bind, mret, M_ret.
  rewrite (proj2 (Z.leb_le _ _)), (proj2 (Z.eqb_neq _ _)), (proj2 (Z.ltb_lt _ _)) by lia.
  rewrite Z.add_simpl_r. done.
Qed.

End MutexProps.
