(* ===== verification/Endian.v ===== *)
(** * windgent/endian.h: byte order

    [byteswap] and the two conditional swaps, the object representation of an
    integer on the host, and the facts the users need: swapping twice is the
    identity, and the representation of a swapped integer is the reverse of
    the representation of the integer. The byte order of the host is a class
    parameter: every theorem holds for both. *)
From stdpp Require Import base list numbers.
From Stdlib Require Import ZArith Lia.
From S2P Require Import Prelude.

(** WINDGENT_LITTLE_ENDIAN and WINDGENT_BIG_ENDIAN *)
Inductive byte_order := WINDGENT_LITTLE_ENDIAN | WINDGENT_BIG_ENDIAN.

#[export] Instance byte_order_eq_dec : EqDecision byte_order.
Proof. solve_decision. Defined.

(** WINDGENT_BYTE_ORDER, chosen by the preprocessor for the host *)
Class Host := WINDGENT_BYTE_ORDER : byte_order.

(** The [n] bytes of an integer, least significant byte first. *)
Fixpoint le_bytes (n : nat) (z : Z) : list Z :=
  match n with
  | 0 => []
  | S n => (z `mod` 256)%Z :: le_bytes n (z / 256)
  end.

Fixpoint le_value (l : list Z) : Z :=
  match l with
  | [] => 0
  | b :: l => b + 256 * le_value l
  end%Z.

Definition bytes (l : list Z) : Prop := Forall (λ b, (0 ≤ b < 256)%Z) l.

(** bswap_16, bswap_32 and bswap_64 for [n] = 2, 4 and 8 *)
Definition bswap (n : nat) (z : Z) : Z := le_value (rev (le_bytes n z)).

(** The template [byteswap] at an unsigned type of [n] bytes. *)
Definition byteswap (n : nat) (val : Z) : Z := uint (8 * Z.of_nat n) (bswap n val).

(** The template [byteswap] at a signed type: [(T)bswap_n((uintn_t)val)]. *)
Definition byteswap_s (n : nat) (val : Z) : Z :=
  sint (8 * Z.of_nat n) (bswap n (uint (8 * Z.of_nat n) val)).

Section host.
Context {host : Host}.

Definition byteswapOnLittleEndian (n : nat) (t : Z) : Z :=
  if decide (WINDGENT_BYTE_ORDER = WINDGENT_BIG_ENDIAN) then t else byteswap n t.

Definition byteswapOnBigEndian (n : nat) (t : Z) : Z :=
  if decide (WINDGENT_BYTE_ORDER = WINDGENT_BIG_ENDIAN) then byteswap n t else t.

(** The object representation of an integer of [n] bytes in memory. *)
Definition object_bytes (n : nat) (z : Z) : list Z :=
  match WINDGENT_BYTE_ORDER with
  | WINDGENT_LITTLE_ENDIAN => le_bytes n z
  | WINDGENT_BIG_ENDIAN => rev (le_bytes n z)
  end.

(** The unsigned integer that a list of bytes represents on the host. *)
Definition object_value (l : list Z) : Z :=
  match WINDGENT_BYTE_ORDER with
  | WINDGENT_LITTLE_ENDIAN => le_value l
  | WINDGENT_BIG_ENDIAN => le_value (rev l)
  end.
End host.

(** The bytes an integer has in a given byte order. *)
Definition ordered_bytes (o : byte_order) (n : nat) (z : Z) : list Z :=
  match o with
  | WINDGENT_LITTLE_ENDIAN => le_bytes n z
  | WINDGENT_BIG_ENDIAN => rev (le_bytes n z)
  end.

(** ** Lemmas *)
Section lemmas.
Local Open Scope Z_scope.

Lemma length_le_bytes n z : length (le_bytes n z) = n.
Proof. revert z; induction n; intros; simpl; auto. Qed.

Lemma le_bytes_bytes n z : bytes (le_bytes n z).
Proof.
  revert z; induction n as [|n IH]; intros z; constructor; [|apply IH].
  apply Z.mod_pos_bound. lia.
Qed.

Lemma pow8_succ n : 2 ^ (8 * Z.of_nat (S n)) = 256 * 2 ^ (8 * Z.of_nat n).
Proof.
  rewrite Nat2Z.inj_succ, <-Z.add_1_l, Z.mul_add_distr_l, Z.pow_add_r by lia. done.
Qed.

Lemma le_value_le_bytes n z : le_value (le_bytes n z) = uint (8 * Z.of_nat n) z.
Proof.
  revert z; induction n as [|n IH]; intros z.
  { unfold uint. simpl. by rewrite Z.mod_1_r. }
  cbn [le_bytes le_value]. rewrite IH. unfold uint. rewrite pow8_succ.
  assert (0 < 2 ^ (8 * Z.of_nat n)) by (apply Z.pow_pos_nonneg; lia).
  rewrite Z.rem_mul_r by lia. lia.
Qed.

Lemma le_value_range l : bytes l → in_uint (8 * Z.of_nat (length l)) (le_value l).
Proof.
  unfold in_uint. induction 1 as [|b l Hb Hl IH].
  { simpl. lia. }
  cbn [le_value length]. rewrite pow8_succ. lia.
Qed.

Lemma le_bytes_le_value l : bytes l → le_bytes (length l) (le_value l) = l.
Proof.
  induction 1 as [|b l Hb Hl IH]; [done|]. cbn [length le_bytes le_value].
  rewrite (Z.mul_comm 256), Z.mod_add, Z.div_add by lia.
  rewrite Z.mod_small, Z.div_small by lia. rewrite Z.add_0_l. by rewrite IH.
Qed.

Lemma le_bytes_uint n z : le_bytes n (uint (8 * Z.of_nat n) z) = le_bytes n z.
Proof.
  pose proof (le_bytes_le_value (le_bytes n z) (le_bytes_bytes n z)) as H.
  by rewrite length_le_bytes, le_value_le_bytes in H.
Qed.

Lemma bytes_rev l : bytes l → bytes (rev l).
Proof. apply List.Forall_rev. Qed.

Lemma le_bytes_bswap n z : le_bytes n (bswap n z) = rev (le_bytes n z).
Proof.
  unfold bswap.
  pose proof (le_bytes_le_value (rev (le_bytes n z)) (bytes_rev _ (le_bytes_bytes n z))) as H.
  by rewrite length_rev, length_le_bytes in H.
Qed.

Lemma le_bytes_byteswap n z : le_bytes n (byteswap n z) = rev (le_bytes n z).
Proof. unfold byteswap. by rewrite le_bytes_uint, le_bytes_bswap. Qed.

Lemma le_bytes_byteswap_s n z : (0 < n)%nat → le_bytes n (byteswap_s n z) = rev (le_bytes n z).
Proof.
  intros. unfold byteswap_s.
  rewrite <-le_bytes_uint, uint_sint, le_bytes_uint, le_bytes_bswap, le_bytes_uint by lia. done.
Qed.

Lemma byteswap_involutive n z : byteswap n (byteswap n z) = uint (8 * Z.of_nat n) z.
Proof.
  unfold byteswap at 1, bswap. rewrite le_bytes_byteswap, rev_involutive.
  rewrite le_value_le_bytes, uint_uint; lia.
Qed.

Context {host : Host}.

Lemma length_object_bytes n z : length (object_bytes n z) = n.
Proof.
  unfold object_bytes. destruct WINDGENT_BYTE_ORDER; rewrite ?length_rev; apply length_le_bytes.
Qed.

Lemma object_value_bytes n z : object_value (object_bytes n z) = uint (8 * Z.of_nat n) z.
Proof.
  unfold object_value, object_bytes.
  destruct WINDGENT_BYTE_ORDER; rewrite ?rev_involutive; apply le_value_le_bytes.
Qed.

(** Swapping on the hosts of the other byte order gives the same bytes on
    every host: the representation in byte order [o]. *)
Lemma object_bytes_ordered o n z :
  object_bytes n (if decide (o = WINDGENT_BYTE_ORDER) then z else byteswap n z) = ordered_bytes o n z.
Proof.
  unfold object_bytes, ordered_bytes.
  destruct o, WINDGENT_BYTE_ORDER; case_decide; try congruence;
    by rewrite ?le_bytes_byteswap, ?rev_involutive.
Qed.

Lemma object_bytes_ordered_s o n z : (0 < n)%nat →
  object_bytes n (if decide (o = WINDGENT_BYTE_ORDER) then z else byteswap_s n z) = ordered_bytes o n z.
Proof.
  intros. unfold object_bytes, ordered_bytes.
  destruct o, WINDGENT_BYTE_ORDER; case_decide; try congruence;
    by rewrite ?le_bytes_byteswap_s, ?rev_involutive by lia.
Qed.

Lemma object_value_ordered o n z :
  (if decide (o = WINDGENT_BYTE_ORDER) then object_value (ordered_bytes o n z)
   else byteswap n (object_value (ordered_bytes o n z))) = uint (8 * Z.of_nat n) z.
Proof.
  unfold object_value, ordered_bytes.
  destruct o, WINDGENT_BYTE_ORDER; case_decide; try congruence;
    rewrite ?rev_involutive, ?le_value_le_bytes; try done.
  - fold (bswap n z). unfold byteswap, bswap at 1. rewrite le_bytes_bswap, rev_involutive.
    rewrite le_value_le_bytes, uint_uint; lia.
  - fold (bswap n z). unfold byteswap, bswap at 1. rewrite le_bytes_bswap, rev_involutive.
    rewrite le_value_le_bytes, uint_uint; lia.
Qed.
End lemmas.

#[export] Hint Resolve le_bytes_bytes : cpp.
#[export] Hint Rewrite length_le_bytes @length_object_bytes : cpp.
