(* ===== verification/Buffer.v ===== *)
(** * The contract of a byte buffer

    What the typed readers and writers of bytearray.cc rely on: a sequence of
    bytes with a position, where writing overwrites (and extends) at the
    position, reading copies from it, and both advance it. [ByteBuffer] has
    the operations, [ByteBufferLaws] the contract. The chain of blocks of
    [ByteArray] is an instance; the typed operations of [ByteArrayCodec] are
    verified against the class only. *)
From stdpp Require Import base list.
From Stdlib Require Import ZArith.
From S2P Require Import Prelude Endian.

(** A byte in memory; [None] is indeterminate. *)
Abbreviation cell := (option Z).

Class ByteBuffer (S : Type) := {
  bb_write : list Z → M S unit;
  bb_read : nat → M S (list cell);
  bb_seek : nat → M S unit;
  bb_order : S → byte_order;
  (* what the contract speaks about *)
  bb_ok : S → Prop;
  bb_data : S → list cell;
  bb_pos : S → nat
}.

(** The change an operation makes: new data and position, the rest as it was. *)
Definition bb_step {S} `{!ByteBuffer S} (s s' : S) (data : list cell) (pos : nat) : Prop :=
  bb_ok s' ∧ bb_data s' = data ∧ bb_pos s' = pos ∧ bb_order s' = bb_order s.

Class ByteBufferLaws (S : Type) `{!ByteBuffer S} := {
  bb_pos_le s : bb_ok s → bb_pos s ≤ length (bb_data s);
  bb_write_law s d : bb_ok s → ∃ s', bb_write d s = Ok tt s' ∧
    bb_step s s' (splice (bb_data s) (bb_pos s) (Some <$> d)) (bb_pos s + length d);
  bb_read_law s n : bb_ok s → 0 < n → bb_pos s + n ≤ length (bb_data s) →
    ∃ s', bb_read n s = Ok (take n (drop (bb_pos s) (bb_data s))) s' ∧
      bb_step s s' (bb_data s) (bb_pos s + n);
  bb_read_short_law s n : bb_ok s → length (bb_data s) < bb_pos s + n →
    bb_read n s = Exn out_of_range s;
  bb_seek_law s p : bb_ok s → p ≤ length (bb_data s) → ∃ s', bb_seek p s = Ok tt s' ∧
    bb_step s s' (bb_data s) p
}.
