(* ===== verification/ByteArray.v ===== *)
(** * windgent/bytearray.{h,cc}: the chain of memory blocks

    [ByteArray.t] is the class's state: the blocks in list order, [m_cur] as
    an index into them ([None] is the null pointer) and the counters. Memory
    that [new char\[s\]] has not initialised is [None] in a block. Every
    dereference, every [memcpy] and every [iovec] is written out with its
    bounds, so that a wrong access is a [Fault] of the model. Sizes are [nat]:
    the code's [size_t] sums are bounded by the memory that is allocated.

    The invariant [inv] ties the counters, the chain and [m_cur] together;
    [ByteArrayFacts] proves that the operations keep it and that the chain is
    a byte buffer in the sense of [Buffer.ByteBufferLaws]. *)
From stdpp Require Import base list numbers option.
From Stdlib Require Import ZArith Lia.
From S2P Require Import Prelude Endian Buffer.

Module ByteArray.

Record t := mk {
  m_blocksize : nat;
  m_position : nat;
  m_capacity : nat;
  m_size : nat;
  m_endian : byte_order;
  m_blocks : list (list cell);
  m_cur : option nat
}.

(** The pointer to block [c], and the link [next] of block [c]. *)
Definition node_at (blocks : list (list cell)) (c : nat) : option nat :=
  if decide (c < length blocks) then Some c else None.
Definition next (s : t) (c : nat) : option nat := node_at (m_blocks s) (S c).

Definition set_cur (cur : option nat) (s : t) : t :=
  mk (m_blocksize s) (m_position s) (m_capacity s) (m_size s) (m_endian s) (m_blocks s) cur.
Definition set_position (p : nat) (s : t) : t :=
  mk (m_blocksize s) p (m_capacity s) (m_size s) (m_endian s) (m_blocks s) (m_cur s).
Definition set_size (n : nat) (s : t) : t :=
  mk (m_blocksize s) (m_position s) (m_capacity s) n (m_endian s) (m_blocks s) (m_cur s).
Definition set_blocks (b : list (list cell)) (s : t) : t :=
  mk (m_blocksize s) (m_position s) (m_capacity s) (m_size s) (m_endian s) b (m_cur s).
Definition set_capacity (n : nat) (s : t) : t :=
  mk (m_blocksize s) (m_position s) n (m_size s) (m_endian s) (m_blocks s) (m_cur s).

(** Node(size_t s): [new char\[s\]] is not initialised. *)
Definition Node (s : nat) : list cell := replicate s None.

Definition new (block_size : nat) : t :=
  mk block_size 0 block_size 0 WINDGENT_BIG_ENDIAN [Node block_size] (Some 0).

Definition getReadSize (s : t) : nat := m_size s - m_position s.
Definition getCapacity (s : t) : nat := m_capacity s - m_position s.
Definition isLittleEndian (s : t) : bool := bool_decide (m_endian s = WINDGENT_LITTLE_ENDIAN).
Definition setIsLittleEndian (val : bool) (s : t) : t :=
  mk (m_blocksize s) (m_position s) (m_capacity s) (m_size s)
     (if val then WINDGENT_LITTLE_ENDIAN else WINDGENT_BIG_ENDIAN) (m_blocks s) (m_cur s).

(** [a % m_blocksize] *)
Definition modM (a b : nat) : M t nat :=
  if decide (b = 0) then faultM DivByZero else mret (a `mod` b).

(** The block that a non-null node pointer points to. *)
Definition node (cur : option nat) : M t (nat * list cell) :=
  c ← derefM cur;
  s ← get;
  b ← derefM (m_blocks s !! c);
  mret (c, b).

(** memcpy into block [c] at offset [off] *)
Definition memcpy_to (c off : nat) (d : list Z) : M t unit :=
  p ← node (Some c);
  if decide (off + length d ≤ length p.2)
  then modify (λ s, set_blocks (<[c := splice p.2 off (Some <$> d)]> (m_blocks s)) s)
  else faultM OutOfBounds.

(** memcpy out of block [c] at offset [off] *)
Definition memcpy_from (c off n : nat) : M t (list cell) :=
  p ← node (Some c);
  if decide (off + n ≤ length p.2) then mret (take n (drop off p.2)) else faultM OutOfBounds.

Definition addCapacity (size : nat) : M t unit :=
  s ← get;
  let last_cap := getCapacity s in
  if decide (size = 0 ∨ size ≤ last_cap) then mret tt
  else if decide (m_blocksize s = 0) then faultM DivByZero
  else
    let block_cnt := ceil_div (size - last_cap) (m_blocksize s) in
    let fst := length (m_blocks s) in
    let blocks := m_blocks s ++ replicate block_cnt (Node (m_blocksize s)) in
    _ ← put (set_capacity (m_capacity s + block_cnt * m_blocksize s) (set_blocks blocks s));
    if decide (last_cap = 0) then modify (set_cur (node_at blocks fst)) else mret tt.

(** The loop of write; [buf] is what is left of the source, [bpos] is
    implicit in it. *)
Fixpoint write_loop (fuel : nat) (buf : list Z) (npos ncap : nat) : M t unit :=
  match fuel with
  | 0 => faultM FuelExhausted
  | S fuel =>
    if decide (length buf = 0) then mret tt
    else
      s ← get;
      p ← node (m_cur s);
      if decide (length buf ≤ ncap) then
        _ ← memcpy_to p.1 npos buf;
        _ ← (if decide (length p.2 = npos + length buf)
             then modify (λ s, set_cur (next s p.1) s) else mret tt);
        modify (λ s, set_position (m_position s + length buf) s)
      else
        _ ← memcpy_to p.1 npos (take ncap buf);
        _ ← modify (λ s, set_position (m_position s + ncap) s);
        _ ← modify (λ s, set_cur (next s p.1) s);
        s ← get;
        q ← node (m_cur s);
        write_loop fuel (drop ncap buf) 0 (length q.2)
  end.

Definition write (buf : list Z) : M t unit :=
  if decide (length buf = 0) then mret tt
  else
    _ ← addCapacity (length buf);
    s ← get;
    npos ← modM (m_position s) (m_blocksize s);
    p ← node (m_cur s);
    _ ← write_loop (S (length (m_blocks s))) buf npos (length p.2 - npos);
    modify (λ s, if decide (m_size s < m_position s) then set_size (m_position s) s else s).

(** The loop of read(buf, size): the bytes appended to buf. *)
Fixpoint read_loop (fuel : nat) (size npos ncap : nat) : M t (list cell) :=
  match fuel with
  | 0 => faultM FuelExhausted
  | S fuel =>
    if decide (size = 0) then mret []
    else
      s ← get;
      p ← node (m_cur s);
      if decide (size ≤ ncap) then
        d ← memcpy_from p.1 npos size;
        _ ← (if decide (length p.2 = npos + size)
             then modify (λ s, set_cur (next s p.1) s) else mret tt);
        _ ← modify (λ s, set_position (m_position s + size) s);
        mret d
      else
        d ← memcpy_from p.1 npos ncap;
        _ ← modify (λ s, set_position (m_position s + ncap) s);
        _ ← modify (λ s, set_cur (next s p.1) s);
        s ← get;
        q ← node (m_cur s);
        d' ← read_loop fuel (size - ncap) 0 (length q.2);
        mret (d ++ d')
  end.

Definition read (size : nat) : M t (list cell) :=
  s ← get;
  if decide (getReadSize s < size) then throw out_of_range
  else
    npos ← modM (m_position s) (m_blocksize s);
    p ← node (m_cur s);
    read_loop (S (length (m_blocks s))) size npos (length p.2 - npos).

(** The loop of read(buf, size, pos) const: the same walk with a local node. *)
Fixpoint read_at_loop (fuel : nat) (cur : option nat) (size npos ncap : nat) : M t (list cell) :=
  match fuel with
  | 0 => faultM FuelExhausted
  | S fuel =>
    if decide (size = 0) then mret []
    else
      p ← node cur;
      if decide (size ≤ ncap) then memcpy_from p.1 npos size
      else
        d ← memcpy_from p.1 npos ncap;
        s ← get;
        q ← node (next s p.1);
        d' ← read_at_loop fuel (next s p.1) (size - ncap) 0 (length q.2);
        mret (d ++ d')
  end.

Definition read_at (size pos : nat) : M t (list cell) :=
  s ← get;
  if decide (getReadSize s < size) then throw out_of_range
  else
    npos ← modM pos (m_blocksize s);
    p ← node (m_cur s);
    read_at_loop (S (length (m_blocks s))) (m_cur s) size npos (length p.2 - npos).

Definition clear : M t unit :=
  s ← get;
  match m_blocks s with
  | [] => faultM NullDeref
  | root :: _ => put (mk (m_blocksize s) 0 (m_blocksize s) 0 (m_endian s) [root] (Some 0))
  end.

(** The loop of setPosition: leaves [val] and the node it stops at. *)
Fixpoint setPosition_loop (fuel : nat) (cur : option nat) (val : nat) : M t (option nat) :=
  match fuel with
  | 0 => faultM FuelExhausted
  | S fuel =>
    p ← node cur;
    s ← get;
    if decide (length p.2 < val) then setPosition_loop fuel (next s p.1) (val - length p.2)
    else mret (if decide (val = length p.2) then next s p.1 else cur)
  end.

Definition setPosition (val : nat) : M t unit :=
  s ← get;
  if decide (m_capacity s < val) then throw out_of_range
  else
    _ ← put (set_position val s);
    _ ← modify (λ s, if decide (m_size s < m_position s) then set_size (m_position s) s else s);
    c ← setPosition_loop (S (length (m_blocks s))) (node_at (m_blocks s) 0) val;
    modify (set_cur c).

Definition toString : M t (list cell) :=
  s ← get;
  if decide (getReadSize s = 0) then mret [] else read_at (getReadSize s) (m_position s).

(** One hexadecimal digit, as [std::hex] prints it. *)
Definition hex_digit (d : Z) : Z := if decide (d < 10)%Z then (48 + d)%Z else (87 + d)%Z.

(** The loop of toHexString: "%02x " for every byte, a new line every 32. *)
Fixpoint hex_bytes (i : nat) (str : list Z) : list Z :=
  match str with
  | [] => []
  | c :: str =>
    (if decide (0 < i ∧ i `mod` 32 = 0) then [10%Z] else []) ++
    [hex_digit (c / 16); hex_digit (c `mod` 16); 32%Z] ++ hex_bytes (S i) str
  end.

Definition toHexString : M t (list Z) :=
  str ← toString;
  match mapM id str with
  | Some str => mret (hex_bytes 0 str)
  | None => faultM Indeterminate
  end.

(** writeToFile: the bytes that [ofs.write] is given, and the returned value.
    [open] says whether the file could be opened. *)
Fixpoint writeToFile_loop (fuel : nat) (cur : option nat) (read_size pos : nat) : M t (list cell) :=
  match fuel with
  | 0 => faultM FuelExhausted
  | S fuel =>
    if decide (read_size = 0) then mret []
    else
      s ← get;
      diff ← modM pos (m_blocksize s);
      let len := if decide (m_blocksize s < read_size) then m_blocksize s - diff else read_size in
      c ← derefM cur;
      d ← memcpy_from c diff len;
      d' ← writeToFile_loop fuel (next s c) (read_size - len) (pos + len);
      mret (d ++ d')
  end.

Definition writeToFile (open : bool) : M t (bool * list cell) :=
  if open then
    s ← get;
    d ← writeToFile_loop (S (getReadSize s)) (m_cur s) (getReadSize s) (m_position s);
    mret (true, d)
  else mret (false, []).

(** readFromFile: [content] is what the stream yields from its start. *)
Fixpoint readFromFile_loop (fuel : nat) (content : list Z) : M t unit :=
  match fuel with
  | 0 => faultM FuelExhausted
  | S fuel =>
    s ← get;
    _ ← write (take (m_blocksize s) content);
    (* eof() holds once a read could not be satisfied in full *)
    if decide (length content < m_blocksize s) then mret tt
    else readFromFile_loop fuel (drop (m_blocksize s) content)
  end.

Definition readFromFile (open : bool) (content : list Z) : M t bool :=
  if open then _ ← readFromFile_loop (S (length content)) content; mret true
  else mret false.

(** struct iovec: the block and the offset [iov_base] points to, and iov_len *)
Record iovec := mk_iovec { iov_node : nat; iov_offset : nat; iov_len : nat }.

(** The loop shared by the three functions that build iovecs. *)
Fixpoint iovec_loop (fuel : nat) (cur : option nat) (len npos ncap : nat) : M t (list iovec) :=
  match fuel with
  | 0 => faultM FuelExhausted
  | S fuel =>
    if decide (len = 0) then mret []
    else
      c ← derefM cur;
      if decide (len ≤ ncap) then mret [mk_iovec c npos len]
      else
        s ← get;
        q ← node (next s c);
        l ← iovec_loop fuel (next s c) (len - ncap) 0 (length q.2);
        mret (mk_iovec c ncap ncap :: l)
  end.

Definition getReadBuffers (len : nat) : M t (nat * list iovec) :=
  if decide (len = 0) then mret (0, [])
  else
    s ← get;
    let len := if decide (getReadSize s < len) then getReadSize s else len in
    npos ← modM (m_position s) (m_blocksize s);
    p ← node (m_cur s);
    l ← iovec_loop (S (length (m_blocks s))) (m_cur s) len npos (length p.2 - npos);
    mret (len, l).

(** The walk from the root to the block of [pos]. *)
Fixpoint nth_node (cnt : nat) (cur : option nat) : M t (option nat) :=
  match cnt with
  | 0 => mret cur
  | S cnt => c ← derefM cur; s ← get; nth_node cnt (next s c)
  end.

Definition getReadBuffers_at (len pos : nat) : M t (nat * list iovec) :=
  if decide (len = 0) then mret (0, [])
  else
    s ← get;
    let len := if decide (getReadSize s < len) then getReadSize s else len in
    npos ← modM pos (m_blocksize s);
    cur ← nth_node (pos / m_blocksize s) (node_at (m_blocks s) 0);
    p ← node cur;
    l ← iovec_loop (S (length (m_blocks s))) cur len npos (length p.2 - npos);
    mret (len, l).

Definition getWriteBuffers (len : nat) : M t (nat * list iovec) :=
  if decide (len = 0) then mret (0, [])
  else
    _ ← addCapacity len;
    s ← get;
    npos ← modM (m_position s) (m_blocksize s);
    p ← node (m_cur s);
    l ← iovec_loop (S (length (m_blocks s))) (m_cur s) len npos (length p.2 - npos);
    mret (len, l).

(** ** The invariant *)

(** The chain read as one array. *)
Definition contents (s : t) : list cell := concat (m_blocks s).

(** The bytes up to [m_size], which is what the class holds for its user. *)
Definition view (s : t) : list cell := take (m_size s) (contents s).

(** The block that holds a position; none at the end of the chain. *)
Definition node_of (s : t) (p : nat) : option nat := node_at (m_blocks s) (p / m_blocksize s).

Record inv (s : t) : Prop := {
  inv_blocksize : 0 < m_blocksize s;
  inv_blocks : Forall (λ b, length b = m_blocksize s) (m_blocks s);
  inv_nonempty : m_blocks s ≠ [];
  inv_capacity : m_capacity s = length (m_blocks s) * m_blocksize s;
  inv_position : m_position s ≤ m_size s;
  inv_size : m_size s ≤ m_capacity s;
  inv_cur : m_cur s = node_of s (m_position s)
}.

(** An [iovec] lies inside the block it points into. *)
Definition iovec_ok (s : t) (v : iovec) : Prop :=
  ∃ b, m_blocks s !! iov_node v = Some b ∧ iov_offset v + iov_len v ≤ length b.

End ByteArray.
