(* ===== verification/ByteArrayFacts.v ===== *)
(** * Facts about the chain of blocks

    The loops of bytearray.cc walk the chain; a walk that starts in the block
    of the position and has room does to the concatenation of the blocks what
    [splice], [take] and [drop] do, and ends in the block of the new position.
    From this follow the results of every operation, that they keep [inv], and
    the instance of [Buffer.ByteBufferLaws]. *)
From stdpp Require Import base list numbers option.
From Stdlib Require Import ZArith Lia.
From S2P Require Import Prelude Endian Buffer ByteArray.
Import ByteArray.

Lemma node_Some s c b : m_blocks s !! c = Some b → node (Some c) s = Ok (c, b) s.
Proof. intros H. unfold node. unfold_M. by rewrite H. Qed.

Lemma memcpy_to_ok s c off d b :
  m_blocks s !! c = Some b → off + length d ≤ length b →
  memcpy_to c off d s = Ok tt (set_blocks (<[c := splice b off (Some <$> d)]> (m_blocks s)) s).
Proof.
  intros Hc Hd. unfold memcpy_to. unfold_M. rewrite (node_Some _ _ _ Hc). simpl.
  by rewrite decide_True.
Qed.

Lemma memcpy_from_ok s c off n b :
  m_blocks s !! c = Some b → off + n ≤ length b →
  memcpy_from c off n s = Ok (take n (drop off b)) s.
Proof.
  intros Hc Hd. unfold memcpy_from. unfold_M. rewrite (node_Some _ _ _ Hc). simpl.
  by rewrite decide_True.
Qed.

Lemma node_at_lt blocks c : c < length blocks → node_at blocks c = Some c.
Proof. intros. unfold node_at. by rewrite decide_True. Qed.

Lemma node_at_ge blocks c : length blocks ≤ c → node_at blocks c = None.
Proof. intros. unfold node_at. rewrite decide_False; [done|lia]. Qed.

Lemma lookup_lt (blocks : list (list cell)) c : c < length blocks → ∃ b, blocks !! c = Some b.
Proof. intros H. apply lookup_lt_is_Some in H. by destruct H as [b ?]; exists b. Qed.

Lemma block_length bs (blocks : list (list cell)) c b :
  Forall (λ b, length b = bs) blocks → blocks !! c = Some b → length b = bs.
Proof. intros Hall Hc. by eapply Forall_lookup_1 in Hc; [|done]. Qed.

(** Position arithmetic: block and offset of a position. *)
Lemma block_of bs c p : p < bs → (c * bs + p) / bs = c.
Proof. intros. rewrite Nat.div_add_l by lia. rewrite Nat.div_small; lia. Qed.

Lemma offset_of bs c p : p < bs → (c * bs + p) `mod` bs = p.
Proof. intros. rewrite Nat.add_comm, Nat.Div0.mod_add. by apply Nat.mod_small. Qed.

Lemma block_of_end bs c : 0 < bs → (c * bs + bs) / bs = S c.
Proof. intros. replace (c * bs + bs) with (S c * bs) by lia. rewrite Nat.div_mul; lia. Qed.

(** The state the walking loops end in. *)
Definition advanced (s : t) (blocks : list (list cell)) (n : nat) : t :=
  mk (m_blocksize s) (m_position s + n) (m_capacity s) (m_size s) (m_endian s) blocks
     (node_at blocks ((m_position s + n) / m_blocksize s)).

(** The precondition of the walking loops: [m_cur] is the block of the
    position, [npos] its offset, and the chain holds the next [n] bytes. *)
Record walk (s : t) (c npos n : nat) : Prop := {
  walk_blocks : Forall (λ b, length b = m_blocksize s) (m_blocks s);
  walk_cur : m_cur s = Some c;
  walk_lt : c < length (m_blocks s);
  walk_position : m_position s = c * m_blocksize s + npos;
  walk_npos : npos < m_blocksize s;
  walk_room : m_position s + n ≤ length (m_blocks s) * m_blocksize s
}.

Lemma walk_node s c npos n : walk s c npos n →
  ∃ b, m_blocks s !! c = Some b ∧ length b = m_blocksize s ∧ c < length (m_blocks s).
Proof.
  intros [Hall _ Hc _ _ _]. destruct (lookup_lt _ _ Hc) as [b Hb]. eauto using block_length.
Qed.

(** Walking past the rest of the current block. *)
Lemma walk_next s c npos n blocks :
  walk s c npos n → m_blocksize s - npos < n →
  Forall (λ b, length b = m_blocksize s) blocks → length blocks = length (m_blocks s) →
  next (set_position (m_position s + (m_blocksize s - npos)) (set_blocks blocks s)) c = Some (S c) ∧
  walk (set_cur (Some (S c)) (set_position (m_position s + (m_blocksize s - npos)) (set_blocks blocks s)))
       (S c) 0 (n - (m_blocksize s - npos)).
Proof.
  intros [Hall Hcur Hlt Hpos Hnpos Hroom] Hn Hblocks Hlen.
  assert (S c < length (m_blocks s)) by nia. split.
  - unfold next. simpl. apply node_at_lt. lia.
  - constructor; simpl; rewrite ?Hlen; try done; lia.
Qed.

Lemma write_loop_ok fuel : ∀ s c npos buf,
  walk s c npos (length buf) → length (m_blocks s) - c < fuel →
  ∃ blocks, write_loop fuel buf npos (m_blocksize s - npos) s
              = Ok tt (advanced s blocks (length buf)) ∧
    Forall (λ b, length b = m_blocksize s) blocks ∧ length blocks = length (m_blocks s) ∧
    concat blocks = splice (concat (m_blocks s)) (m_position s) (Some <$> buf).
Proof.
  induction fuel as [|fuel IH]; intros s c npos buf Hw Hfuel; [lia|].
  destruct (walk_node _ _ _ _ Hw) as (b & Hb & Hlb & Hc).
  pose proof Hw as [Hall Hcur Hlt Hpos Hnpos Hroom]. simpl write_loop.
  destruct (decide (length buf = 0)) as [H0|H0].
  { apply length_zero_iff_nil in H0 as ->. exists (m_blocks s). unfold_M.
    split_and!; [|done|done|by rewrite fmap_nil, splice_nil].
    unfold advanced. simpl. rewrite Nat.add_0_r, Hpos, block_of, node_at_lt by done.
    destruct s; simpl in *. congruence. }
  unfold_M. rewrite Hcur, (node_Some _ _ _ Hb). cbn [fst snd].
  destruct (decide (length buf ≤ m_blocksize s - npos)) as [Hle|Hgt].
  - rewrite (memcpy_to_ok _ _ _ _ _ Hb) by lia.
    exists (<[c := splice b npos (Some <$> buf)]> (m_blocks s)). split_and!.
    + unfold advanced. rewrite Hpos, Hlb.
      destruct (decide (m_blocksize s = npos + length buf)) as [He|He].
      * replace (c * m_blocksize s + npos + length buf) with (c * m_blocksize s + m_blocksize s) by lia.
        rewrite block_of_end by lia. unfold next, set_cur, set_position, set_blocks. simpl.
        do 2 f_equal; lia.
      * rewrite <-Nat.add_assoc, block_of, node_at_lt by (rewrite ?length_insert; lia).
        unfold set_position, set_blocks. simpl. by rewrite Hcur, Hpos, Nat.add_assoc.
    + apply Forall_insert_uniform; [done|]. rewrite length_splice; rewrite ?length_fmap; lia.
    + by rewrite length_insert.
    + rewrite Hpos. by apply concat_splice; rewrite ?length_fmap; [..|lia].
  - assert (length (take (m_blocksize s - npos) buf) = m_blocksize s - npos) as Htk
      by (rewrite length_take; lia).
    rewrite (memcpy_to_ok _ _ _ _ _ Hb) by lia.
    set (blocks := <[c := splice b npos (Some <$> take (m_blocksize s - npos) buf)]> (m_blocks s)).
    assert (Forall (λ b, length b = m_blocksize s) blocks) as Hall'.
    { apply Forall_insert_uniform; [done|]. rewrite length_splice; rewrite ?length_fmap; lia. }
    assert (length blocks = length (m_blocks s)) as Hlen by apply length_insert.
    destruct (walk_next s c npos _ blocks Hw) as [Hnx Hw']; [lia|done..|].
    cbn [m_blocks m_position set_position set_blocks set_cur]. rewrite Hnx.
    destruct (walk_node _ _ _ _ Hw') as (b' & Hb' & Hlb' & _).
    cbn [m_cur set_cur]. rewrite (node_Some _ _ _ Hb'). cbn [fst snd].
    rewrite Hlb', <-(Nat.sub_0_r (m_blocksize (set_cur _ _))).
    rewrite <-length_drop in Hw'.
    destruct (IH _ _ _ _ Hw') as (blocks' & -> & Hall'' & Hlen' & Hcat).
    { simpl. lia. }
    exists blocks'. simpl in *. split_and!; [|done|lia|].
    + unfold advanced. simpl. rewrite length_drop.
      by replace (m_position s + (m_blocksize s - npos) + (length buf - (m_blocksize s - npos)))
        with (m_position s + length buf) by lia.
    + rewrite Hcat. unfold blocks.
      rewrite (concat_splice (m_blocksize s) (m_blocks s) c b) by (rewrite ?length_fmap; done || lia).
      rewrite <-Hpos.
      replace (m_blocksize s - npos) with (length (Some <$> take (m_blocksize s - npos) buf)) at 2
        by (rewrite length_fmap; lia).
      rewrite splice_splice, <-fmap_app, take_drop; [done|].
      rewrite (length_concat_uniform (m_blocksize s)) by done. lia.
Qed.

Lemma read_loop_ok fuel : ∀ s c npos n,
  walk s c npos n → length (m_blocks s) - c < fuel →
  read_loop fuel n npos (m_blocksize s - npos) s
    = Ok (take n (drop (m_position s) (contents s))) (advanced s (m_blocks s) n).
Proof.
  induction fuel as [|fuel IH]; intros s c npos n Hw Hfuel; [lia|].
  destruct (walk_node _ _ _ _ Hw) as (b & Hb & Hlb & Hc).
  pose proof Hw as [Hall Hcur Hlt Hpos Hnpos Hroom]. simpl read_loop.
  destruct (decide (n = 0)) as [->|H0].
  { unfold_M. rewrite take_0. f_equal.
    unfold advanced. simpl. rewrite Nat.add_0_r, Hpos, block_of, node_at_lt by done.
    destruct s; simpl in *. congruence. }
  unfold_M. rewrite Hcur, (node_Some _ _ _ Hb). cbn [fst snd].
  unfold contents. rewrite Hpos.
  destruct (decide (n ≤ m_blocksize s - npos)) as [Hle|Hgt].
  - rewrite (memcpy_from_ok _ _ _ _ _ Hb) by lia.
    rewrite (concat_segment (m_blocksize s) _ c b) by (done || lia).
    rewrite Hlb. unfold advanced. rewrite Hpos.
    destruct (decide (m_blocksize s = npos + n)) as [He|He]; f_equal.
    + replace (c * m_blocksize s + npos + n) with (c * m_blocksize s + m_blocksize s) by lia.
      rewrite block_of_end by lia. unfold next, set_cur, set_position. simpl. f_equal. lia.
    + rewrite <-Nat.add_assoc, block_of, node_at_lt by lia.
      unfold set_position. by rewrite Hcur, Hpos, Nat.add_assoc.
  - rewrite (memcpy_from_ok _ _ _ _ _ Hb) by lia.
    destruct (walk_next s c npos _ (m_blocks s) Hw) as [Hnx Hw']; [lia|done..|].
    assert (set_blocks (m_blocks s) s = s) as Hs by (by destruct s). rewrite Hs in *.
    rewrite Hnx. destruct (walk_node _ _ _ _ Hw') as (b' & Hb' & Hlb' & _).
    cbn [m_cur set_cur]. rewrite (node_Some _ _ _ Hb'). cbn [fst snd].
    rewrite Hlb', <-(Nat.sub_0_r (m_blocksize (set_cur _ _))).
    rewrite (IH _ _ _ _ Hw') by (simpl; lia). f_equal.
    + unfold contents. simpl. rewrite Hpos.
      set (k := m_blocksize s - npos) in *.
      replace (take n _) with (take (k + (n - k)) (drop (c * m_blocksize s + npos) (concat (m_blocks s))))
        by (f_equal; lia).
      rewrite take_add_drop, drop_drop. f_equal.
      by rewrite (concat_segment (m_blocksize s) _ c b) by (done || lia).
    + unfold advanced. simpl.
      by replace (m_position s + (m_blocksize s - npos) + (n - (m_blocksize s - npos)))
        with (m_position s + n) by lia.
Qed.

(** ** Growing *)

(** The state after [k] blocks were appended. *)
Definition grown (s : t) (k : nat) : t :=
  mk (m_blocksize s) (m_position s) (m_capacity s + k * m_blocksize s) (m_size s) (m_endian s)
     (m_blocks s ++ replicate k (Node (m_blocksize s)))
     (node_at (m_blocks s ++ replicate k (Node (m_blocksize s))) (m_position s / m_blocksize s)).

Lemma length_contents s : inv s → length (contents s) = m_capacity s.
Proof. intros H. unfold contents. rewrite (length_concat_uniform (m_blocksize s)); [symmetry|]; apply H. Qed.

Lemma length_view s : inv s → length (view s) = m_size s.
Proof.
  intros H. unfold view. rewrite length_take, length_contents by done.
  pose proof (inv_size s H). lia.
Qed.

Lemma new_inv bs : 0 < bs → inv (new bs).
Proof.
  intros. constructor; simpl; try done; try lia.
  - constructor; [|constructor]. apply length_replicate.
  - unfold node_of. simpl. by rewrite Nat.Div0.div_0_l.
Qed.

Lemma grown_0 s : inv s → grown s 0 = s.
Proof.
  intros []. unfold grown. simpl. rewrite app_nil_r, Nat.add_0_r.
  unfold node_of in *. destruct s; simpl in *. congruence.
Qed.

Lemma grown_inv s k : inv s → inv (grown s k).
Proof.
  intros []. constructor; simpl; try done; try lia.
  - apply Forall_app. split; [done|]. apply Forall_replicate. apply length_replicate.
  - by destruct (m_blocks s).
  - rewrite length_app, length_replicate. lia.
Qed.

Lemma concat_fresh k bs : concat (replicate k (Node bs)) = replicate (k * bs) None.
Proof. induction k as [|k IH]; [done|]. simpl. by rewrite IH, replicate_add. Qed.

Lemma grown_contents s k :
  contents (grown s k) = contents s ++ replicate (k * m_blocksize s) None.
Proof. unfold contents. simpl. by rewrite concat_app, concat_fresh. Qed.

Lemma grown_view s k : inv s → view (grown s k) = view s.
Proof.
  intros H. unfold view. rewrite grown_contents. simpl.
  rewrite take_app_le; [done|]. rewrite length_contents by done. apply H.
Qed.

Lemma addCapacity_ok s n : inv s →
  ∃ k, addCapacity n s = Ok tt (grown s k) ∧ n ≤ getCapacity (grown s k) ∧
       (n ≤ getCapacity s → k = 0).
Proof.
  intros H. pose proof H as [Hbs Hall Hne Hcap Hps Hsc Hcur]. unfold addCapacity. unfold_M.
  destruct (decide (n = 0 ∨ n ≤ getCapacity s)) as [Hle|Hgt].
  { exists 0. rewrite (grown_0 s) by done. split_and!; [done| |done]. lia. }
  rewrite decide_False by lia.
  set (k := ceil_div _ _). exists k.
  destruct (ceil_div_spec (n - getCapacity s) (m_blocksize s)) as [Hk _]; [done|]. fold k in Hk.
  unfold grown, set_capacity, set_blocks, set_cur. simpl.
  assert (n ≤ getCapacity (grown s k)) by (unfold getCapacity in *; simpl; lia).
  split_and!; [|done|lia].
  destruct (decide (getCapacity s = 0)) as [Hz|Hz]; unfold getCapacity in Hz.
  - do 3 f_equal. assert (m_position s = length (m_blocks s) * m_blocksize s) as -> by lia.
    by rewrite Nat.div_mul by lia.
  - do 2 f_equal. rewrite Hcur. unfold node_of.
    assert (m_position s / m_blocksize s < length (m_blocks s)).
    { apply Nat.Div0.div_lt_upper_bound; lia. }
    rewrite !node_at_lt; rewrite ?length_app; [done|lia..].
Qed.

(** A state with room at its position is ready for a walk. *)
Lemma inv_walk s n : inv s → 0 < n → n ≤ getCapacity s →
  walk s (m_position s / m_blocksize s) (m_position s `mod` m_blocksize s) n.
Proof.
  intros [Hbs Hall Hne Hcap Hps Hsc Hcur] Hn Hc. unfold getCapacity in Hc.
  assert (m_position s / m_blocksize s < length (m_blocks s)) as Hlt.
  { apply Nat.Div0.div_lt_upper_bound; lia. }
  constructor; try done.
  - rewrite Hcur. by apply node_at_lt.
  - pose proof (Nat.div_mod_eq (m_position s) (m_blocksize s)). lia.
  - apply Nat.mod_upper_bound. lia.
  - lia.
Qed.

(** ** write and read *)

(** The walk's result with [m_size] brought up to date. *)
Lemma advanced_inv s blocks n : inv s → m_position s + n ≤ m_capacity s →
  Forall (λ b, length b = m_blocksize s) blocks → length blocks = length (m_blocks s) →
  inv (set_size (m_size s `max` (m_position s + n)) (advanced s blocks n)).
Proof.
  intros [] Hroom Hall Hlen. constructor; simpl; try done; try lia.
  destruct blocks; [|done]. destruct (m_blocks s); done.
Qed.

Lemma take_max_splice {A} (l d : list A) p n :
  p ≤ n → n ≤ length l → p + length d ≤ length l →
  take (n `max` (p + length d)) (splice l p d) = splice (take n l) p d.
Proof.
  intros. unfold splice. rewrite take_take, Nat.min_l by lia.
  rewrite !take_app, length_take, Nat.min_l by lia.
  rewrite (take_ge (take p l)) by (rewrite length_take; lia). f_equal.
  rewrite (take_ge d) by lia. f_equal.
  rewrite skipn_firstn_comm. f_equal. lia.
Qed.

Lemma write_ok s buf : inv s →
  ∃ s', write buf s = Ok tt s' ∧ inv s' ∧ m_position s' = m_position s + length buf ∧
    view s' = splice (view s) (m_position s) (Some <$> buf) ∧
    m_blocksize s' = m_blocksize s ∧ m_endian s' = m_endian s ∧ m_size s ≤ m_size s'.
Proof.
  intros H. unfold write. destruct (decide (length buf = 0)) as [H0|H0].
  { apply length_zero_iff_nil in H0 as ->. exists s. unfold_M.
    rewrite fmap_nil, splice_nil, Nat.add_0_r. done. }
  destruct (addCapacity_ok s (length buf) H) as (k & Hadd & Hroom & _).
  unfold mbind, M_bind. rewrite Hadd. clear Hadd. cbn [get gets].
  pose proof (grown_inv s k H) as Hg.
  pose proof (inv_walk (grown s k) (length buf) Hg ltac:(lia) Hroom) as Hw.
  destruct (walk_node _ _ _ _ Hw) as (b & Hb & Hlb & Hc).
  pose proof Hw as [_ Hcur _ _ _ _]. unfold get, modM.
  rewrite decide_False by (pose proof (inv_blocksize s H); simpl; lia).
  unfold mret, M_ret. rewrite Hcur, (node_Some _ _ _ Hb). cbn [fst snd]. rewrite Hlb.
  destruct (write_loop_ok (S (length (m_blocks (grown s k)))) _ _ _ _ Hw)
    as (blocks & -> & Hall & Hlen & Hcat); [lia|].
  unfold modify. set (s1 := advanced _ _ _).
  assert (m_position (grown s k) + length buf ≤ m_capacity (grown s k)) as Hcap
    by (unfold getCapacity in Hroom; lia).
  assert ((if decide (m_size s1 < m_position s1) then set_size (m_position s1) s1 else s1) =
    set_size (m_size (grown s k) `max` (m_position (grown s k) + length buf)) s1) as ->.
  { subst s1. unfold set_size, advanced. case_decide; simpl in *; do 2 f_equal; lia. }
  eexists. split; [done|]. split; [by apply advanced_inv|]. simpl. split_and!; try done; [|lia].
  unfold view, contents. simpl. rewrite Hcat. fold (contents (grown s k)).
  rewrite <-(length_fmap Some buf).
  pose proof (length_contents _ Hg) as Hlc. pose proof Hg as [_ _ _ _ Hp Hs _].
  rewrite take_max_splice; rewrite ?length_fmap; try (simpl in *; lia).
  f_equal. exact (grown_view s k H).
Qed.

Lemma drop_take_view {A} (l : list A) p n m : p + n ≤ m → take n (drop p (take m l)) = take n (drop p l).
Proof.
  intros. rewrite skipn_firstn_comm, take_take. f_equal. lia.
Qed.

(** A non-empty read inside the data, or an empty one before the end of the
    chain, copies from the view and moves the position. *)
Lemma read_ok s n : inv s → n ≤ getReadSize s → 0 < n ∨ m_position s < m_capacity s →
  read n s = Ok (take n (drop (m_position s) (view s))) (advanced s (m_blocks s) n).
Proof.
  intros H Hn Hn0. unfold read, get, mbind, M_bind, getReadSize in *.
  pose proof H as [Hbs Hall Hne Hcap Hps Hsc Hcur].
  rewrite decide_False by lia. unfold modM. rewrite decide_False by lia.
  assert (walk s (m_position s / m_blocksize s) (m_position s `mod` m_blocksize s) n) as Hw.
  { destruct (inv_walk s (n `max` 1) H) as [? ? ? ? ? ?]; [lia|unfold getCapacity; lia|].
    constructor; try done; lia. }
  destruct (walk_node _ _ _ _ Hw) as (b & Hb & Hlb & Hc).
  pose proof Hw as [_ Hc' _ _ _ _].
  unfold mret, M_ret. rewrite Hc', (node_Some _ _ _ Hb). cbn [fst snd].
  rewrite Hlb, (read_loop_ok _ _ _ _ _ Hw) by lia. f_equal.
  unfold view. rewrite drop_take_view by lia. done.
Qed.

Lemma read_short s n : getReadSize s < n → read n s = Exn out_of_range s.
Proof. intros. unfold read. unfold_M. by rewrite decide_True. Qed.

(** Reading nothing at the end of the last block: [m_cur] is null. *)
Lemma read_empty_at_end s : inv s → m_position s = m_capacity s → read 0 s = Fault NullDeref.
Proof.
  intros [Hbs Hall Hne Hcap Hps Hsc Hcur] Hend. unfold read, get, mbind, M_bind.
  rewrite decide_False by lia. unfold modM. rewrite decide_False by lia.
  unfold mret, M_ret. rewrite Hcur. unfold node_of. rewrite Hend, Hcap, Nat.div_mul, node_at_ge by lia.
  done.
Qed.

Lemma advanced_read_inv s n : inv s → n ≤ getReadSize s → inv (advanced s (m_blocks s) n).
Proof.
  intros H Hn. pose proof H as []. unfold getReadSize in *.
  pose proof (advanced_inv s (m_blocks s) n H ltac:(lia) ltac:(done) eq_refl) as Hi.
  by rewrite Nat.max_l in Hi by lia.
Qed.

(** ** setPosition, clear *)

Lemma setPosition_loop_ok fuel : ∀ s c val,
  Forall (λ b, length b = m_blocksize s) (m_blocks s) → 0 < m_blocksize s →
  c < length (m_blocks s) → c * m_blocksize s + val ≤ length (m_blocks s) * m_blocksize s →
  length (m_blocks s) - c < fuel →
  setPosition_loop fuel (Some c) val s
    = Ok (node_at (m_blocks s) ((c * m_blocksize s + val) / m_blocksize s)) s.
Proof.
  induction fuel as [|fuel IH]; intros s c val Hall Hbs Hc Hval Hfuel; [lia|].
  destruct (lookup_lt _ _ Hc) as [b Hb]. pose proof (block_length _ _ _ _ Hall Hb) as Hlb.
  simpl. unfold_M. rewrite (node_Some _ _ _ Hb). cbn [fst snd]. rewrite Hlb.
  destruct (decide (m_blocksize s < val)) as [Hgt|Hle].
  - unfold next. rewrite node_at_lt by nia.
    replace (c * m_blocksize s + val) with (S c * m_blocksize s + (val - m_blocksize s)) by lia.
    by rewrite IH by (done || nia).
  - destruct (decide (val = m_blocksize s)) as [->|Hne].
    + by rewrite block_of_end.
    + by rewrite block_of, node_at_lt by lia.
Qed.

(** The state after the position was set to [p]. *)
Definition sought (s : t) (p : nat) : t :=
  mk (m_blocksize s) p (m_capacity s) (m_size s `max` p) (m_endian s) (m_blocks s) (node_of s p).

Lemma sought_inv s p : inv s → p ≤ m_capacity s → inv (sought s p).
Proof. intros [] Hp. constructor; simpl; try done; lia. Qed.

Lemma setPosition_ok s p : inv s → p ≤ m_capacity s → setPosition p s = Ok tt (sought s p).
Proof.
  intros [Hbs Hall Hne Hcap Hps Hsc Hcur] Hp. unfold setPosition. unfold_M.
  rewrite decide_False by lia.
  assert ((if decide (m_size (set_position p s) < m_position (set_position p s))
    then set_size (m_position (set_position p s)) (set_position p s) else set_position p s)
    = mk (m_blocksize s) p (m_capacity s) (m_size s `max` p) (m_endian s) (m_blocks s) (m_cur s)) as ->.
  { unfold set_position, set_size. case_decide; simpl in *; f_equal; lia. }
  rewrite node_at_lt by (destruct (m_blocks s); [done|simpl; lia]).
  rewrite setPosition_loop_ok; simpl; try done; try lia.
  destruct (m_blocks s); [done|simpl; lia].
Qed.

Lemma setPosition_error s p : m_capacity s < p → setPosition p s = Exn out_of_range s.
Proof. intros. unfold setPosition. unfold_M. by rewrite decide_True. Qed.

Lemma sought_view s p : inv s → p ≤ m_size s → view (sought s p) = view s.
Proof. intros. unfold view, contents. simpl. by rewrite Nat.max_l. Qed.

Lemma clear_ok s : inv s → ∃ s', clear s = Ok tt s' ∧ inv s' ∧ view s' = [] ∧
  m_position s' = 0 ∧ m_capacity s' = m_blocksize s ∧ m_endian s' = m_endian s.
Proof.
  intros [Hbs Hall Hne Hcap Hps Hsc Hcur]. unfold clear. unfold_M.
  destruct (m_blocks s) as [|root rest] eqn:Hb; [done|]. eexists. split; [done|].
  split_and!; try done. inversion_clear Hall. constructor; simpl; try done; try lia.
  - repeat constructor. done.
  - unfold node_of. simpl. by rewrite Nat.Div0.div_0_l.
Qed.

(** ** The walks that leave the state alone *)

Lemma read_at_loop_ok fuel : ∀ s c npos n,
  Forall (λ b, length b = m_blocksize s) (m_blocks s) → npos < m_blocksize s →
  c < length (m_blocks s) → c * m_blocksize s + npos + n ≤ length (m_blocks s) * m_blocksize s →
  length (m_blocks s) - c < fuel →
  read_at_loop fuel (Some c) n npos (m_blocksize s - npos) s
    = Ok (take n (drop (c * m_blocksize s + npos) (contents s))) s.
Proof.
  induction fuel as [|fuel IH]; intros s c npos n Hall Hnpos Hc Hroom Hfuel; [lia|].
  destruct (lookup_lt _ _ Hc) as [b Hb]. pose proof (block_length _ _ _ _ Hall Hb) as Hlb.
  simpl. unfold_M. destruct (decide (n = 0)) as [->|H0]; [by rewrite take_0|].
  rewrite (node_Some _ _ _ Hb). cbn [fst snd]. unfold contents.
  destruct (decide (n ≤ m_blocksize s - npos)) as [Hle|Hgt].
  - rewrite (memcpy_from_ok _ _ _ _ _ Hb) by lia.
    by rewrite (concat_segment (m_blocksize s) _ c b) by (done || lia).
  - rewrite (memcpy_from_ok _ _ _ _ _ Hb) by lia.
    assert (S c < length (m_blocks s)) as Hc' by nia.
    unfold next. rewrite node_at_lt by done.
    destruct (lookup_lt _ _ Hc') as [b' Hb']. pose proof (block_length _ _ _ _ Hall Hb') as Hlb'.
    rewrite (node_Some _ _ _ Hb'). cbn [fst snd]. rewrite Hlb'.
    pose proof (IH s (S c) 0 (n - (m_blocksize s - npos))) as IH'. rewrite Nat.sub_0_r in IH'.
    rewrite IH' by (done || lia). f_equal. unfold contents.
    set (k := m_blocksize s - npos) in *.
    replace (take n _) with (take (k + (n - k)) (drop (c * m_blocksize s + npos) (concat (m_blocks s))))
      by (f_equal; lia).
    rewrite take_add_drop, drop_drop. f_equal.
    + by rewrite (concat_segment (m_blocksize s) _ c b) by (done || lia).
    + do 2 f_equal. lia.
Qed.

Lemma toString_ok s : inv s → toString s = Ok (drop (m_position s) (view s)) s.
Proof.
  intros H. pose proof H as [Hbs Hall Hne Hcap Hps Hsc Hcur]. unfold toString, get, mbind, M_bind.
  assert (length (drop (m_position s) (view s)) = getReadSize s) as Hlen.
  { rewrite length_drop, length_view by done. done. }
  destruct (decide (getReadSize s = 0)) as [H0|H0].
  { rewrite H0 in Hlen. by apply length_zero_iff_nil in Hlen as ->. }
  unfold read_at, get, mbind, M_bind. rewrite decide_False by lia.
  unfold modM. rewrite decide_False by lia. unfold mret, M_ret.
  unfold getReadSize in *.
  destruct (inv_walk s (m_size s - m_position s) H) as [_ Hc Hlt Hp Hn Hr]; [lia|unfold getCapacity; lia|].
  destruct (lookup_lt _ _ Hlt) as [b Hb]. pose proof (block_length _ _ _ _ Hall Hb) as Hlb.
  rewrite Hc, (node_Some _ _ _ Hb). cbn [fst snd]. rewrite Hlb.
  rewrite read_at_loop_ok by (done || lia). rewrite <-Hp. f_equal.
  rewrite <-Hlen at 1. unfold view. rewrite length_drop, length_take, length_contents by done.
  rewrite skipn_firstn_comm. f_equal. lia.
Qed.

Lemma writeToFile_loop_ok fuel : ∀ s c diff rs,
  inv s → diff < m_blocksize s → c < length (m_blocks s) →
  c * m_blocksize s + diff + rs ≤ m_capacity s →
  (diff + rs ≤ m_blocksize s ∨ m_blocksize s < rs ∨ diff = 0) → rs < fuel →
  writeToFile_loop fuel (Some c) rs (c * m_blocksize s + diff) s
    = if decide (rs ≤ m_blocksize s ∧ m_blocksize s < diff + rs) then Fault OutOfBounds
      else Ok (take rs (drop (c * m_blocksize s + diff) (contents s))) s.
Proof.
  induction fuel as [|fuel IH]; intros s c diff rs H Hd Hc Hroom Hcase Hfuel; [lia|].
  pose proof H as [Hbs Hall Hne Hcap Hps Hsc Hcur].
  rewrite decide_False by lia.
  destruct (lookup_lt _ _ Hc) as [b Hb]. pose proof (block_length _ _ _ _ Hall Hb) as Hlb.
  simpl. unfold modM. unfold_M. destruct (decide (rs = 0)) as [->|H0]; [by rewrite take_0|].
  rewrite decide_False by lia. rewrite offset_of by done. unfold contents.
  destruct (decide (m_blocksize s < rs)) as [Hlt|Hge].
  - rewrite (memcpy_from_ok _ _ _ _ _ Hb) by lia.
    assert (S c < length (m_blocks s)) as Hc' by nia.
    unfold next. rewrite node_at_lt by done.
    replace (c * m_blocksize s + diff + (m_blocksize s - diff)) with (S c * m_blocksize s + 0) by lia.
    rewrite IH by (done || lia). rewrite decide_False by lia. f_equal. unfold contents.
    set (k := m_blocksize s - diff) in *.
    replace (take rs _) with (take (k + (rs - k)) (drop (c * m_blocksize s + diff) (concat (m_blocks s))))
      by (f_equal; lia).
    rewrite take_add_drop, drop_drop. f_equal.
    + by rewrite (concat_segment (m_blocksize s) _ c b) by (done || lia).
    + do 2 f_equal. lia.
  - rewrite (memcpy_from_ok _ _ _ _ _ Hb) by lia.
    rewrite Nat.sub_diag. destruct fuel; [lia|]. simpl. unfold_M. rewrite app_nil_r.
    by rewrite (concat_segment (m_blocksize s) _ c b) by (done || lia).
Qed.

(** The first (or only) chunk of writeToFile runs over the end of its block. *)
Lemma writeToFile_loop_overrun s c diff rs fuel : inv s → diff < m_blocksize s →
  c < length (m_blocks s) → rs ≤ m_blocksize s → m_blocksize s < diff + rs →
  writeToFile_loop (S fuel) (Some c) rs (c * m_blocksize s + diff) s = Fault OutOfBounds.
Proof.
  intros [Hbs Hall Hne Hcap Hps Hsc Hcur] Hd Hc Hrs Hover.
  destruct (lookup_lt _ _ Hc) as [b Hb]. pose proof (block_length _ _ _ _ Hall Hb) as Hlb.
  simpl. unfold modM. unfold_M. rewrite decide_False, decide_False, offset_of, decide_False by lia.
  unfold memcpy_from. unfold_M. rewrite (node_Some _ _ _ Hb). cbn [fst snd].
  by rewrite decide_False by lia.
Qed.

(** ** iovecs *)

Lemma iovec_loop_fits fuel s c len npos ncap : 0 < fuel → 0 < len → len ≤ ncap →
  iovec_loop fuel (Some c) len npos ncap s = Ok [mk_iovec c npos len] s.
Proof.
  intros. destruct fuel; [lia|]. simpl. unfold_M.
  rewrite decide_False, decide_True by lia. done.
Qed.

(** The vectors the code builds when the first block does not hold [len] bytes. *)
Fixpoint iovec_chain (k c len bs : nat) : list iovec :=
  match k with
  | 0 => []
  | S k => if decide (len ≤ bs) then [mk_iovec c 0 len]
           else mk_iovec c bs bs :: iovec_chain k (S c) (len - bs) bs
  end.

Lemma iovec_loop_chain fuel : ∀ s c len,
  Forall (λ b, length b = m_blocksize s) (m_blocks s) → 0 < m_blocksize s → 0 < len →
  c < length (m_blocks s) → c * m_blocksize s + len ≤ length (m_blocks s) * m_blocksize s →
  length (m_blocks s) - c < fuel →
  iovec_loop fuel (Some c) len 0 (m_blocksize s) s
    = Ok (iovec_chain fuel c len (m_blocksize s)) s.
Proof.
  induction fuel as [|fuel IH]; intros s c len Hall Hbs H0 Hc Hroom Hfuel; [lia|].
  simpl. unfold_M. rewrite decide_False by lia.
  destruct (decide (len ≤ m_blocksize s)); [done|].
  assert (S c < length (m_blocks s)) as Hc' by nia. unfold next. rewrite node_at_lt by done.
  destruct (lookup_lt _ _ Hc') as [b Hb]. pose proof (block_length _ _ _ _ Hall Hb) as Hlb.
  rewrite (node_Some _ _ _ Hb). cbn [fst snd]. rewrite Hlb. by rewrite IH by (done || lia).
Qed.

(** ** The chain is a byte buffer *)

#[export] Instance byte_array_buffer : ByteBuffer ByteArray.t := {
  bb_write := write;
  bb_read := read;
  bb_seek := setPosition;
  bb_order := m_endian;
  bb_ok := inv;
  bb_data := view;
  bb_pos := m_position
}.

#[export] Instance byte_array_laws : ByteBufferLaws ByteArray.t.
Proof.
  split; simpl; unfold bb_step; simpl.
  - intros s H. rewrite length_view by done. apply H.
  - intros s d H. destruct (write_ok s d H) as (s' & ? & ? & ? & ? & ? & ? & ?). eauto 10.
  - intros s n H Hn Hlen. rewrite length_view in Hlen by done.
    assert (n ≤ getReadSize s) as Hle by (unfold getReadSize; lia).
    eexists. split; [apply read_ok; auto|]. split; [by apply advanced_read_inv|]. done.
  - intros s n H Hlen. rewrite length_view in Hlen by done.
    pose proof (inv_position s H). apply read_short. unfold getReadSize. lia.
  - intros s p H Hlen. rewrite length_view in Hlen by done. pose proof (inv_size s H).
    eexists. split; [apply setPosition_ok; [done|lia]|].
    split; [apply sought_inv; [done|lia]|]. by rewrite sought_view by done.
Qed.
