(* ===== verification/ByteArrayRun.v ===== *)
(** * Sequences of operations on a byte array

    [run] performs operations one after the other on a chain, [spec_run] on a
    plain array with a position. What the specification leaves open is [None]:
    an empty read (see [read_empty_at_chain_end]) and a position beyond the
    data, whose new bytes are whatever the memory held. *)
From stdpp Require Import base list numbers option.
From Stdlib Require Import ZArith Lia.
From S2P Require Import Prelude Endian Buffer ByteArray ByteArrayFacts.
Import ByteArray.

Inductive op :=
| OWrite (d : list Z)
| ORead (n : nat)
| OSetPosition (p : nat)
| OToString
| OClear.

Inductive output :=
| ODone
| OBytes (d : list cell)
| OThrow (e : exn).

Definition out {A} (f : A → output) (m : outcome t A) : option (output * t) :=
  match m with
  | Ok a s => Some (f a, s)
  | Exn e s => Some (OThrow e, s)
  | Fault _ => None
  end.

Definition run_op (o : op) (s : t) : option (output * t) :=
  match o with
  | OWrite d => out (λ _, ODone) (write d s)
  | ORead n => out OBytes (read n s)
  | OSetPosition p => out (λ _, ODone) (setPosition p s)
  | OToString => out OBytes (toString s)
  | OClear => out (λ _, ODone) (clear s)
  end.

Fixpoint run (l : list op) (s : t) : option (list output * t) :=
  match l with
  | [] => Some ([], s)
  | o :: l => '(r, s) ← run_op o s; '(rs, s) ← run l s; Some (r :: rs, s)
  end.

(** The array of bytes and the position in it *)
Definition spec_op (o : op) (s : list cell * nat) : option (output * (list cell * nat)) :=
  let '(data, pos) := s in
  match o with
  | OWrite d => Some (ODone, (splice data pos (Some <$> d), pos + length d))
  | ORead n =>
    if decide (n = 0) then None
    else if decide (length data < pos + n) then Some (OThrow out_of_range, s)
    else Some (OBytes (take n (drop pos data)), (data, pos + n))
  | OSetPosition p => if decide (p ≤ length data) then Some (ODone, (data, p)) else None
  | OToString => Some (OBytes (drop pos data), s)
  | OClear => Some (ODone, ([], 0))
  end.

Fixpoint spec_run (l : list op) (s : list cell * nat) : option (list output * (list cell * nat)) :=
  match l with
  | [] => Some ([], s)
  | o :: l => '(r, s) ← spec_op o s; '(rs, s) ← spec_run l s; Some (r :: rs, s)
  end.

Definition represents (s : t) (a : list cell * nat) : Prop :=
  inv s ∧ view s = a.1 ∧ m_position s = a.2.

Lemma op_simulation o s a r a' :
  represents s a → spec_op o a = Some (r, a') →
  ∃ s', run_op o s = Some (r, s') ∧ represents s' a'.
Proof.
  intros (H & Hv & Hp). destruct a as [data pos]; simpl in *.
  pose proof (length_view s H) as Hlen. rewrite Hv in Hlen. pose proof (inv_position s H).
  destruct o as [d|n|p| |]; simpl; intros Hs.
  - simplify_eq. destruct (write_ok s d H) as (s' & -> & Hi & Hpos & Hview & _).
    eexists. split; [done|]. done.
  - case_decide as Hn0; [done|]. case_decide as Hn; simplify_eq.
    + rewrite read_short by (unfold getReadSize; lia). by eexists.
    + rewrite read_ok by (done || unfold getReadSize; lia).
      eexists. split; [done|]. split; [apply advanced_read_inv; [done|unfold getReadSize; lia]|done].
  - case_decide; simplify_eq. pose proof (inv_size s H).
    rewrite setPosition_ok by (done || lia). eexists. split; [done|].
    split; [apply sought_inv; [done|lia]|]. by rewrite sought_view by (done || lia).
  - simplify_eq. rewrite toString_ok by done. by eexists.
  - simplify_eq. destruct (clear_ok s H) as (s' & -> & Hi & Hview & Hpos & _). by eexists.
Qed.

Lemma run_simulation l : ∀ s a rs a',
  represents s a → spec_run l a = Some (rs, a') →
  ∃ s', run l s = Some (rs, s') ∧ represents s' a'.
Proof.
  induction l as [|o l IH]; intros s a rs a' Hr Hs; simpl in *.
  { simplify_eq. eauto. }
  destruct (spec_op o a) as [[r a1]|] eqn:Ho; simpl in *; [|done].
  destruct (op_simulation _ _ _ _ _ Hr Ho) as (s1 & -> & Hr1). simpl.
  destruct (spec_run l a1) as [[rs1 a2]|] eqn:Hl; simpl in *; [|done].
  destruct (IH _ _ _ _ Hr1 Hl) as (s2 & -> & Hr2). simplify_eq. simpl. eauto.
Qed.



(** Error path: after the last block was filled to its end [m_cur] is
    null, and an empty read - which is what reading back an empty string does
    - dereferences it; anywhere else it returns nothing and changes nothing
    but [m_cur]'s representation. *)
Theorem read_empty_at_chain_end s :
  inv s →
  read 0 s = if decide (m_position s = m_capacity s) then Fault NullDeref else Ok [] s.
Proof.
  intros H. case_decide as He; [by apply read_empty_at_end|].
  rewrite read_ok; [|done|lia|right; destruct H; lia].
  f_equal. unfold advanced. rewrite Nat.add_0_r. destruct H. unfold node_of in *.
  destruct s; simpl in *. congruence.
Qed.

Lemma read_empty_at_chain_end_witness :
  ∃ s, write [7; 8]%Z (new 2) = Ok tt s ∧ read 0 s = Fault NullDeref.
Proof.
  eexists. split; [vm_compute; reflexivity|].
  rewrite read_empty_at_chain_end; [vm_compute; reflexivity|].
  split; vm_compute; try reflexivity; try lia; repeat constructor; discriminate.
Defined.

(** getWriteBuffers makes the room it is asked for. If the request fits
    in the current block it returns the one vector of exactly the next [len]
    bytes. If not, its first vector starts [ncap] bytes into the block, where
    [ncap] is the room left, instead of at the position's offset, and every
    later full vector starts at the end of its block: all but the last one
    lie outside the memory when the position is at the start of a block. *)
Theorem getWriteBuffers_vectors s len :
  inv s → 0 < len →
  ∃ s' c npos, getCapacity s' ≥ len ∧ inv s' ∧ view s' = view s ∧
    m_position s' = c * m_blocksize s' + npos ∧ npos < m_blocksize s' ∧
    let ncap := m_blocksize s' - npos in
    getWriteBuffers len s = Ok (len, if decide (len ≤ ncap) then [mk_iovec c npos len]
      else mk_iovec c ncap ncap ::
           iovec_chain (length (m_blocks s')) (S c) (len - ncap) (m_blocksize s')) s' ∧
    (len ≤ ncap → iovec_ok s' (mk_iovec c npos len)) ∧
    (m_blocksize s' < len → npos = 0 → ¬ iovec_ok s' (mk_iovec c ncap ncap)).
Proof.
  intros H Hlen. destruct (addCapacity_ok s len H) as (k & Hadd & Hroom & _).
  set (s' := grown s k) in *. assert (inv s') as H' by by apply grown_inv.
  destruct (inv_walk s' len H' Hlen Hroom) as [Hall Hcur Hlt Hp Hnp Hr].
  set (c := m_position s' / m_blocksize s') in *. set (npos := m_position s' `mod` m_blocksize s') in *.
  exists s', c, npos. cbv zeta. split_and!; [done|done|by apply grown_view|done|done| | |].
  - unfold getWriteBuffers, mbind, M_bind, get. rewrite decide_False by lia. rewrite Hadd.
    unfold modM. rewrite decide_False by (destruct H'; lia). unfold mret, M_ret.
    destruct (lookup_lt _ _ Hlt) as [b Hb]. pose proof (block_length _ _ _ _ Hall Hb) as Hlb.
    rewrite Hcur, (node_Some _ _ _ Hb). cbn [fst snd]. rewrite Hlb. fold npos.
    case_decide as Hfit; [by rewrite iovec_loop_fits by lia|].
    assert (S c < length (m_blocks s')) as Hlt' by nia.
    cbn [iovec_loop]. unfold_M. rewrite !decide_False by lia.
    unfold next. rewrite node_at_lt by done.
    destruct (lookup_lt _ _ Hlt') as [b' Hb']. pose proof (block_length _ _ _ _ Hall Hb') as Hlb'.
    rewrite (node_Some _ _ _ Hb'). cbn [fst snd]. rewrite Hlb'.
    rewrite iovec_loop_chain; [done|done|lia|lia|done| |lia]. nia.
  - intros Hfit. destruct (lookup_lt _ _ Hlt) as [b Hb]. exists b. simpl. split; [done|].
    rewrite (block_length _ _ _ _ Hall Hb). lia.
  - intros Hbig H0 (b & Hb & Hle). simpl in *. rewrite (block_length _ _ _ _ Hall Hb) in Hle. lia.
Qed.

Lemma getWriteBuffers_vectors_witness :
  inv (new 4) ∧ getWriteBuffers 6 (new 4) = Ok (6, [mk_iovec 0 4 4; mk_iovec 1 0 2]) (grown (new 4) 1) ∧
  ∃ s' c npos, getCapacity s' ≥ 6 ∧ m_position s' = c * m_blocksize s' + npos.
Proof.
  assert (inv (new 4)) as H by (apply new_inv; lia).
  split; [done|]. split; [vm_compute; reflexivity|].
  destruct (getWriteBuffers_vectors (new 4) 6 H) as (s' & c & npos & ? & ? & ? & ? & _); [lia|].
  exists s', c, npos. done.
Defined.

(** writeToFile writes exactly the unread bytes, except when they number
    at most one block size and still reach into a second block: then it hands
    [ofs.write] more bytes than the block has. *)
Theorem writeToFile_exact s :
  inv s → 0 < getReadSize s →
  let diff := m_position s `mod` m_blocksize s in
  writeToFile true s =
    if decide (getReadSize s ≤ m_blocksize s ∧ m_blocksize s < diff + getReadSize s)
    then Fault OutOfBounds
    else Ok (true, drop (m_position s) (view s)) s.
Proof.
  intros H H0. pose proof H as [Hbs Hall Hne Hcap Hps Hsc Hcur]. unfold getReadSize in *.
  destruct (inv_walk s (m_size s - m_position s) H H0) as [_ Hc Hlt Hp Hn Hr];
    [unfold getCapacity; lia|].
  set (c := m_position s / m_blocksize s) in *. set (diff := m_position s `mod` m_blocksize s) in *.
  cbv zeta. unfold writeToFile, mbind, M_bind, get, getReadSize. rewrite Hc.
  set (rs := m_size s - m_position s) in *.
  case_decide as Hover.
  - pose proof (writeToFile_loop_overrun s c diff rs rs) as Hw. rewrite <-Hp in Hw.
    by rewrite Hw by (done || lia).
  - pose proof (writeToFile_loop_ok (S rs) s c diff rs) as Hw. rewrite <-Hp in Hw.
    rewrite Hw by (done || lia). rewrite decide_False by done.
    unfold mret, M_ret. do 2 f_equal. unfold view. by rewrite skipn_firstn_comm.
Qed.

Lemma writeToFile_exact_witness :
  ∃ s, run [OWrite [1; 2; 3; 4]%Z; OSetPosition 1] (new 3) = Some ([ODone; ODone], s) ∧
       writeToFile true s = Fault OutOfBounds.
Proof.
  eexists. split; [vm_compute; reflexivity|].
  rewrite writeToFile_exact; [vm_compute; reflexivity| |vm_compute; lia].
  split; vm_compute; try reflexivity; try lia; repeat constructor; discriminate.
Defined.

(** Reading a file into the array appends its bytes at the position. *)
Lemma readFromFile_loop_ok fuel : ∀ s content,
  inv s → length content < fuel →
  ∃ s', readFromFile_loop fuel content s = Ok tt s' ∧ inv s' ∧
    view s' = splice (view s) (m_position s) (Some <$> content) ∧
    m_position s' = m_position s + length content ∧ m_blocksize s' = m_blocksize s ∧
    m_size s ≤ m_size s'.
Proof.
  induction fuel as [|fuel IH]; intros s content H Hfuel; [lia|].
  simpl. unfold mbind, M_bind, get.
  destruct (write_ok s (take (m_blocksize s) content) H)
    as (s1 & -> & H1 & Hp1 & Hv1 & Hb1 & _ & Hs1).
  pose proof (inv_blocksize s H) as Hbs. pose proof (inv_position s H) as Hps.
  case_decide as Hlast.
  - exists s1. rewrite take_ge in Hp1, Hv1 by lia. done.
  - rewrite length_take, Nat.min_l in Hp1 by lia.
    destruct (IH s1 (drop (m_blocksize s) content) H1) as (s2 & -> & H2 & Hv2 & Hp2 & Hb2 & Hs2).
    { rewrite length_drop. lia. }
    exists s2. rewrite length_drop in Hp2. split_and!; try done; try lia.
    rewrite Hv2, Hp1, Hv1.
    replace (m_position s + m_blocksize s)
      with (m_position s + length (Some <$> take (m_blocksize s) content))
      by (rewrite length_fmap, length_take; lia).
    rewrite splice_splice by (rewrite length_view by done; lia).
    by rewrite <-fmap_app, take_drop.
Qed.

(** File round trip: a file read into a fresh array and written out again
    from its start is the same file, whatever the block size. *)
Theorem file_roundtrip bs content :
  0 < bs →
  ∃ s1 s2, readFromFile true content (new bs) = Ok true s1 ∧
    setPosition 0 s1 = Ok tt s2 ∧
    writeToFile true s2 = Ok (true, Some <$> content) s2.
Proof.
  intros Hbs. pose proof (new_inv bs Hbs) as Hn.
  destruct (readFromFile_loop_ok (S (length content)) (new bs) content Hn) as (s1 & Hr & H1 & Hv & _);
    [lia|].
  assert (view s1 = Some <$> content) as Hv1.
  { rewrite Hv. unfold splice, view. simpl. by rewrite take_0, drop_nil, app_nil_r. }
  pose proof (sought_inv s1 0 H1 ltac:(lia)) as H2.
  exists s1, (sought s1 0). split_and!.
  - unfold readFromFile, mbind, M_bind. by rewrite Hr.
  - apply setPosition_ok; [done|lia].
  - assert (view (sought s1 0) = Some <$> content) as Hv2 by by rewrite sought_view by (done || lia).
    unfold writeToFile, mbind, M_bind, get.
    pose proof (length_view _ H2) as Hlen. rewrite Hv2 in Hlen.
    pose proof H2 as [Hbs2 _ Hne _ _ Hsc Hcur]. simpl m_position in *.
    unfold getReadSize. simpl m_position. rewrite Nat.sub_0_r, <-Hlen.
    rewrite Hcur. unfold node_of. rewrite Nat.Div0.div_0_l.
    assert (0 < length (m_blocks (sought s1 0))) as Hnb by (destruct (m_blocks (sought s1 0)); simpl; [done|lia]).
    rewrite node_at_lt by done.
    pose proof (writeToFile_loop_ok (S (length (Some <$> content))) (sought s1 0) 0 0
      (length (Some <$> content))) as Hw. simpl Nat.add in Hw.
    rewrite Hw by (done || lia). rewrite decide_False by lia.
    unfold mret, M_ret. do 2 f_equal. unfold view in Hv2. rewrite drop_0.
    by rewrite Hlen, Hv2.
Qed.

Lemma file_roundtrip_witness :
  0 < 3 ∧ ∃ s1 s2, readFromFile true [10; 20; 30; 40]%Z (new 3) = Ok true s1 ∧
    setPosition 0 s1 = Ok tt s2 ∧ writeToFile true s2 = Ok (true, [Some 10; Some 20; Some 30; Some 40]%Z) s2.
Proof. split; [lia|]. apply (file_roundtrip 3 [10; 20; 30; 40]%Z). lia. Defined.
