(* ===== verification/ByteArrayCodec.v ===== *)
(** * windgent/bytearray.cc: the typed readers and writers

    Fixed-width integers in the array's byte order, variable-length integers,
    zigzag-coded signed integers, floats (as the integer that has their bits)
    and length-prefixed strings, all on top of [Buffer.ByteBuffer]. A string
    is the list of its characters. [str_max] is [std::string::max_size()]:
    [resize] beyond it throws.

    [wire] says which bytes each value has; [write_item_ok] and [read_item_ok]
    that writing produces and reading consumes exactly these. *)
From stdpp Require Import base list numbers option.
From Stdlib Require Import ZArith Lia.
From S2P Require Import Prelude Endian Buffer.

Class StringMax := str_max : Z.

Section codec.
Context {host : Host} {smax : StringMax} {S : Type} `{!ByteBuffer S}.
Implicit Types (value val : Z) (str : list Z).

(** [if(m_endian != WINDGENT_BYTE_ORDER) value = byteswap(value)] *)
Definition swap_u (o : byte_order) (n : nat) (v : Z) : Z :=
  if decide (o = WINDGENT_BYTE_ORDER) then v else byteswap n v.
Definition swap_s (o : byte_order) (n : nat) (v : Z) : Z :=
  if decide (o = WINDGENT_BYTE_ORDER) then v else byteswap_s n v.

Definition writeFint8 value : M S unit := bb_write (object_bytes 1 value).
Definition writeFuint8 value : M S unit := bb_write (object_bytes 1 value).
Definition writeFint16 value : M S unit :=
  o ← gets bb_order; bb_write (object_bytes 2 (swap_s o 2 value)).
Definition writeFuint16 value : M S unit :=
  o ← gets bb_order; bb_write (object_bytes 2 (swap_u o 2 value)).
Definition writeFint32 value : M S unit :=
  o ← gets bb_order; bb_write (object_bytes 4 (swap_s o 4 value)).
Definition writeFuint32 value : M S unit :=
  o ← gets bb_order; bb_write (object_bytes 4 (swap_u o 4 value)).
Definition writeFint64 value : M S unit :=
  o ← gets bb_order; bb_write (object_bytes 8 (swap_s o 8 value)).
Definition writeFuint64 value : M S unit :=
  o ← gets bb_order; bb_write (object_bytes 8 (swap_u o 8 value)).
(** [bits] has the bits of the float, as memcpy moves them. *)
Definition writeFloat (bits : Z) : M S unit := writeFuint32 bits.
Definition writeDouble (bits : Z) : M S unit := writeFuint64 bits.

(** The object a [read(&v, n)] fills: all its bytes must be determinate. *)
Definition load (n : nat) : M S (list Z) :=
  d ← bb_read n;
  match mapM id d with
  | Some l => mret l
  | None => faultM Indeterminate
  end.

Definition readFint8 : M S Z := l ← load 1; mret (sint 8 (object_value l)).
(** the local [v] of readFuint8 is an int8_t *)
Definition readFuint8 : M S Z := l ← load 1; mret (uint 8 (sint 8 (object_value l))).

(** The macro XX(type) *)
Definition read_u (n : nat) : M S Z :=
  l ← load n;
  o ← gets bb_order;
  mret (swap_u o n (object_value l)).
Definition read_s (n : nat) : M S Z :=
  l ← load n;
  o ← gets bb_order;
  mret (swap_s o n (sint (8 * Z.of_nat n) (object_value l))).

Definition readFint16 : M S Z := read_s 2.
Definition readFuint16 : M S Z := read_u 2.
Definition readFint32 : M S Z := read_s 4.
Definition readFuint32 : M S Z := read_u 4.
Definition readFint64 : M S Z := read_s 8.
Definition readFuint64 : M S Z := read_u 8.
Definition readFloat : M S Z := readFuint32.
Definition readDouble : M S Z := readFuint64.

Definition EncodeZigzag32 val : M S Z :=
  if decide (val < 0)%Z then n ← signed 32 (- val); mret (uint 32 (uint 32 n * 2 - 1))
  else n ← signed 32 (val * 2); mret (uint 32 n).
Definition EncodeZigzag64 val : M S Z :=
  if decide (val < 0)%Z then n ← signed 64 (- val); mret (uint 64 (uint 64 n * 2 - 1))
  else n ← signed 64 (val * 2); mret (uint 64 n).

Definition DecodeZigzag32 val : Z :=
  sint 32 (Z.lxor (Z.shiftr val 1) (uint 32 (- Z.land val 1))).
Definition DecodeZigzag64 val : Z :=
  sint 64 (Z.lxor (Z.shiftr val 1) (uint 64 (- Z.land val 1))).

(** The loop of writeUint32/64 on the local array [tmp] of [slots] bytes;
    [None] is a store behind its end. *)
Fixpoint varint_loop (slots : nat) (value : Z) : option (list Z) :=
  match slots with
  | 0 => None
  | Datatypes.S slots =>
    if decide (0x80 ≤ value)%Z
    then l ← varint_loop slots (Z.shiftr value 7); Some (Z.lor (Z.land value 0x7F) 0x80 :: l)
    else Some [uint 8 value]
  end.

Definition write_varint (slots : nat) (value : Z) : M S unit :=
  match varint_loop slots value with
  | Some tmp => bb_write tmp
  | None => faultM OutOfBounds
  end.

Definition writeUint32 value : M S unit := write_varint 5 value.
Definition writeUint64 value : M S unit := write_varint 10 value.
Definition writeInt32 value : M S unit := e ← EncodeZigzag32 value; writeUint32 e.
Definition writeInt64 value : M S unit := e ← EncodeZigzag64 value; writeUint64 e.

(** The loop of readUint32/64: [for(int i = 0; i < w; i += 7)] *)
Fixpoint read_varint (fuel : nat) (w i result : Z) : M S Z :=
  match fuel with
  | 0 => faultM FuelExhausted
  | Datatypes.S fuel =>
    if decide (i < w)%Z then
      b ← readFuint8;
      if decide (b < 0x80)%Z then mret (Z.lor result (uint w (Z.shiftl b i)))
      else read_varint fuel w (i + 7) (Z.lor result (uint w (Z.shiftl (Z.land b 0x7F) i)))
    else mret result
  end.

Definition readUint32 : M S Z := read_varint 6 32 0 0.
Definition readUint64 : M S Z := read_varint 11 64 0 0.
Definition readInt32 : M S Z := v ← readUint32; mret (DecodeZigzag32 v).
Definition readInt64 : M S Z := v ← readUint64; mret (DecodeZigzag64 v).

(** [str.size()] is converted to the type of the length field. *)
Definition str_size str : Z := Z.of_nat (length str).
Definition writeStringF16 str : M S unit := _ ← writeFuint16 (uint 16 (str_size str)); bb_write str.
Definition writeStringF32 str : M S unit := _ ← writeFuint32 (uint 32 (str_size str)); bb_write str.
Definition writeStringF64 str : M S unit := _ ← writeFuint64 (str_size str); bb_write str.
Definition writeStringVint str : M S unit := _ ← writeUint64 (str_size str); bb_write str.
Definition writeStringWithoutLen str : M S unit := bb_write str.

(** [str.resize(size); read(&str\[0\], size)] *)
Definition read_str (size : Z) : M S (list cell) :=
  if decide (str_max < size)%Z then throw length_error else bb_read (Z.to_nat size).

Definition readStringF16 : M S (list cell) := n ← readFuint16; read_str n.
Definition readStringF32 : M S (list cell) := n ← readFuint32; read_str n.
Definition readStringF64 : M S (list cell) := n ← readFuint64; read_str n.
Definition readStringVint : M S (list cell) := n ← readUint64; read_str n.

(** ** Values and their bytes *)
Inductive item :=
| Fint8 (v : Z) | Fuint8 (v : Z)
| Fint16 (v : Z) | Fuint16 (v : Z)
| Fint32 (v : Z) | Fuint32 (v : Z)
| Fint64 (v : Z) | Fuint64 (v : Z)
| Float (bits : Z) | Double (bits : Z)
| Int32 (v : Z) | Uint32 (v : Z)
| Int64 (v : Z) | Uint64 (v : Z)
| StringF16 (str : list Z) | StringF32 (str : list Z)
| StringF64 (str : list Z) | StringVint (str : list Z).

Definition write_item (i : item) : M S unit :=
  match i with
  | Fint8 v => writeFint8 v | Fuint8 v => writeFuint8 v
  | Fint16 v => writeFint16 v | Fuint16 v => writeFuint16 v
  | Fint32 v => writeFint32 v | Fuint32 v => writeFuint32 v
  | Fint64 v => writeFint64 v | Fuint64 v => writeFuint64 v
  | Float v => writeFloat v | Double v => writeDouble v
  | Int32 v => writeInt32 v | Uint32 v => writeUint32 v
  | Int64 v => writeInt64 v | Uint64 v => writeUint64 v
  | StringF16 s => writeStringF16 s | StringF32 s => writeStringF32 s
  | StringF64 s => writeStringF64 s | StringVint s => writeStringVint s
  end.

(** Reading a value of the kind of [i]; a string must come out determinate. *)
Definition text (m : M S (list cell)) (f : list Z → item) : M S item :=
  d ← m; match mapM id d with Some l => mret (f l) | None => faultM Indeterminate end.

Definition read_like (i : item) : M S item :=
  match i with
  | Fint8 _ => v ← readFint8; mret (Fint8 v)
  | Fuint8 _ => v ← readFuint8; mret (Fuint8 v)
  | Fint16 _ => v ← readFint16; mret (Fint16 v)
  | Fuint16 _ => v ← readFuint16; mret (Fuint16 v)
  | Fint32 _ => v ← readFint32; mret (Fint32 v)
  | Fuint32 _ => v ← readFuint32; mret (Fuint32 v)
  | Fint64 _ => v ← readFint64; mret (Fint64 v)
  | Fuint64 _ => v ← readFuint64; mret (Fuint64 v)
  | Float _ => v ← readFloat; mret (Float v)
  | Double _ => v ← readDouble; mret (Double v)
  | Int32 _ => v ← readInt32; mret (Int32 v)
  | Uint32 _ => v ← readUint32; mret (Uint32 v)
  | Int64 _ => v ← readInt64; mret (Int64 v)
  | Uint64 _ => v ← readUint64; mret (Uint64 v)
  | StringF16 _ => text readStringF16 StringF16
  | StringF32 _ => text readStringF32 StringF32
  | StringF64 _ => text readStringF64 StringF64
  | StringVint _ => text readStringVint StringVint
  end.

Fixpoint write_items (l : list item) : M S unit :=
  match l with [] => mret tt | i :: l => _ ← write_item i; write_items l end.

Fixpoint read_items (l : list item) : M S (list item) :=
  match l with
  | [] => mret []
  | i :: l => j ← read_like i; js ← read_items l; mret (j :: js)
  end.
End codec.

(** The zigzag code: 0, -1, 1, -2, 2, ... *)
Definition zigzag (v : Z) : Z := if decide (v < 0)%Z then (-2 * v - 1)%Z else (2 * v)%Z.

(** Base 128, least significant group first, bit 7 set on all but the last. *)
Fixpoint base128 (slots : nat) (v : Z) : list Z :=
  match slots with
  | 0 => []
  | S slots => if decide (v < 128)%Z then [v] else (v `mod` 128 + 128)%Z :: base128 slots (v / 128)
  end.

Definition wire (o : byte_order) (i : item) : list Z :=
  match i with
  | Fint8 v | Fuint8 v => le_bytes 1 v
  | Fint16 v | Fuint16 v => ordered_bytes o 2 v
  | Fint32 v | Fuint32 v | Float v => ordered_bytes o 4 v
  | Fint64 v | Fuint64 v | Double v => ordered_bytes o 8 v
  | Int32 v => base128 5 (zigzag v) | Uint32 v => base128 5 v
  | Int64 v => base128 10 (zigzag v) | Uint64 v => base128 10 v
  | StringF16 s => ordered_bytes o 2 (Z.of_nat (length s)) ++ s
  | StringF32 s => ordered_bytes o 4 (Z.of_nat (length s)) ++ s
  | StringF64 s => ordered_bytes o 8 (Z.of_nat (length s)) ++ s
  | StringVint s => base128 10 (Z.of_nat (length s)) ++ s
  end.

Definition wires (o : byte_order) (l : list item) : list Z := concat (wire o <$> l).

(** The values each writer can encode: the range of the C++ type, less the
    values on which the zigzag encoder overflows; strings that are not empty
    and whose length fits its field. *)
Definition in_range {smax : StringMax} (i : item) : Prop :=
  match i with
  | Fint8 v => in_sint 8 v | Fuint8 v => in_uint 8 v
  | Fint16 v => in_sint 16 v | Fuint16 v => in_uint 16 v
  | Fint32 v => in_sint 32 v | Fuint32 v => in_uint 32 v
  | Fint64 v => in_sint 64 v | Fuint64 v => in_uint 64 v
  | Float v => in_uint 32 v | Double v => in_uint 64 v
  | Int32 v => (- 2 ^ 31 < v < 2 ^ 30)%Z | Uint32 v => in_uint 32 v
  | Int64 v => (- 2 ^ 63 < v < 2 ^ 62)%Z | Uint64 v => in_uint 64 v
  | StringF16 s => s ≠ [] ∧ (Z.of_nat (length s) < 2 ^ 16)%Z ∧ (Z.of_nat (length s) ≤ str_max)%Z
  | StringF32 s => s ≠ [] ∧ (Z.of_nat (length s) < 2 ^ 32)%Z ∧ (Z.of_nat (length s) ≤ str_max)%Z
  | StringF64 s => s ≠ [] ∧ (Z.of_nat (length s) < 2 ^ 64)%Z ∧ (Z.of_nat (length s) ≤ str_max)%Z
  | StringVint s => s ≠ [] ∧ (Z.of_nat (length s) < 2 ^ 64)%Z ∧ (Z.of_nat (length s) ≤ str_max)%Z
  end.

#[export] Instance in_range_dec {smax : StringMax} i : Decision (in_range i).
Proof. destruct i; simpl; apply _. Defined.
