(* ===== verification/ByteArrayCodecFacts.v ===== *)
(** * Facts about the typed readers and writers

    The arithmetic of the variable-length and zigzag codes, what one writer
    produces and one reader consumes, and from these the properties of whole
    messages: their bytes, the round trip, the bounds of the local arrays and
    the error paths. All of it holds for every byte buffer and both host byte
    orders. *)
From stdpp Require Import base list numbers option.
From Stdlib Require Import ZArith Lia.
From S2P Require Import Prelude Endian Buffer ByteArray ByteArrayFacts ByteArrayCodec.

Section arithmetic.
Local Open Scope Z_scope.

Lemma lor_shiftl_add r v i : 0 ≤ i → in_uint i r → Z.lor r (Z.shiftl v i) = r + v * 2 ^ i.
Proof.
  intros Hi Hr. rewrite <-Z.add_nocarry_lor; [by rewrite Z.shiftl_mul_pow2|].
  apply Z.bits_inj'. intros n Hn. rewrite Z.land_spec, Z.bits_0.
  destruct (decide (n < i)).
  - by rewrite Z.shiftl_spec_low, andb_false_r by done.
  - rewrite <-(Z.mod_small r (2 ^ i)) by done. by rewrite Z.mod_pow2_bits_high by lia.
Qed.

Lemma group_encode v : Z.lor (Z.land v 0x7F) 0x80 = v `mod` 128 + 128.
Proof.
  change 0x7F with (Z.ones 7). rewrite Z.land_ones by lia.
  change 0x80 with (Z.shiftl 1 7). rewrite lor_shiftl_add; [done|done|].
  apply Z.mod_pos_bound. lia.
Qed.

Lemma group_decode v : 0 ≤ v → Z.land (v `mod` 128 + 128) 0x7F = v `mod` 128.
Proof.
  intros. change 0x7F with (Z.ones 7). rewrite Z.land_ones by lia. change (2 ^ 7) with 128.
  rewrite <-(Z.mul_1_l 128) at 2. rewrite Z.mod_add by lia. apply Z.mod_mod. lia.
Qed.

Lemma pow128_succ n : 128 ^ Z.of_nat (S n) = 128 * 128 ^ Z.of_nat n.
Proof. rewrite Nat2Z.inj_succ, Z.pow_succ_r by lia. done. Qed.

Lemma varint_loop_base128 slots v :
  (0 < slots)%nat → 0 ≤ v < 128 ^ Z.of_nat slots → varint_loop slots v = Some (base128 slots v).
Proof.
  revert v; induction slots as [|slots IH]; intros v Hs Hv; [lia|].
  simpl. destruct (decide (v < 128)).
  - rewrite decide_False by lia. by rewrite uint_id by (unfold in_uint; lia).
  - rewrite decide_True by lia. rewrite pow128_succ in Hv.
    rewrite Z.shiftr_div_pow2 by lia. change (2 ^ 7) with 128.
    rewrite IH; [by rewrite group_encode| |].
    + destruct slots; [|lia]. simpl in Hv. lia.
    + split; [apply Z.div_pos; lia|]. apply Z.div_lt_upper_bound; lia.
Qed.

Lemma base128_bytes slots v : 0 ≤ v → bytes (base128 slots v).
Proof.
  revert v; induction slots as [|slots IH]; intros v Hv; simpl; [constructor|].
  case_decide; [repeat constructor; lia|].
  constructor; [|apply IH; apply Z.div_pos; lia].
  pose proof (Z.mod_pos_bound v 128). lia.
Qed.

Lemma length_base128 slots v : (length (base128 slots v) ≤ slots)%nat.
Proof.
  revert v; induction slots as [|slots IH]; intros v; simpl; [lia|].
  case_decide; simpl; [lia|]. specialize (IH (v / 128)). lia.
Qed.

Lemma base128_pos slots v : (0 < slots)%nat → (0 < length (base128 slots v))%nat.
Proof. destruct slots; [lia|]. simpl. case_decide; simpl; lia. Qed.

Lemma uint_lxor_m1 w a : 0 ≤ w → uint w (Z.lxor a (uint w (-1))) = uint w (Z.lnot a).
Proof.
  intros Hw. unfold uint. apply Z.bits_inj'. intros n Hn.
  destruct (decide (n < w)).
  - rewrite !Z.mod_pow2_bits_low by lia.
    rewrite Z.lxor_spec, Z.mod_pow2_bits_low, Z.bits_m1, Z.lnot_spec by lia.
    by rewrite xorb_true_r.
  - by rewrite !Z.mod_pow2_bits_high by lia.
Qed.

Lemma decode_zigzag w v :
  1 < w → in_sint w v → sint w (Z.lxor (Z.shiftr (zigzag v) 1) (uint w (- Z.land (zigzag v) 1))) = v.
Proof.
  intros Hw Hv. rewrite <-(sint_id w v) at 3 by (done || lia).
  change 1 with (Z.ones 1) at 2. rewrite Z.land_ones, Z.shiftr_div_pow2 by lia.
  change (2 ^ 1) with 2. unfold zigzag. destruct (decide (v < 0)).
  - replace (-2 * v - 1) with (1 + (- v - 1) * 2) by lia.
    rewrite Z.div_add, Z.mod_add by lia. change (1 `mod` 2) with 1. change (1 / 2) with 0.
    rewrite <-sint_uint, uint_lxor_m1, sint_uint by lia. unfold Z.lnot. f_equal. lia.
  - rewrite (Z.mul_comm 2 v), Z.div_mul, Z.mod_mul by lia.
    unfold uint. rewrite Z.mod_0_l by lia. by rewrite Z.lxor_0_r.
Qed.

Lemma zigzag_range w v : 1 < w → in_sint w v → in_uint w (zigzag v).
Proof.
  intros Hw. unfold in_sint, in_uint, zigzag.
  assert (2 ^ w = 2 * 2 ^ (w - 1)) as -> by (rewrite <-Z.pow_succ_r by lia; f_equal; lia).
  case_decide; lia.
Qed.
End arithmetic.

Lemma mapM_id_Some {A} (l : list A) : mapM id (Some <$> l) = Some l.
Proof. apply mapM_Some. induction l; constructor; auto. Qed.

(** The encoders overflow on the upper half of the positive range and on the
    smallest value, and are the zigzag code elsewhere. *)
Lemma EncodeZigzag32_eq {S} v (s : S) : in_sint 32 v →
  EncodeZigzag32 v s = if decide (- 2 ^ 31 < v < 2 ^ 30)%Z then Ok (zigzag v) s else Fault SignedOverflow.
Proof.
  intros Hv. unfold EncodeZigzag32, signed, zigzag, in_sint in *.
  change (2 ^ (32 - 1))%Z with 2147483648%Z in *. change (2 ^ 31)%Z with 2147483648%Z.
  change (2 ^ 30)%Z with 1073741824%Z.
  destruct (decide (v < 0)%Z); unfold_M; repeat case_decide; try lia; try done; f_equal;
    unfold uint; change (2 ^ 32)%Z with 4294967296%Z;
    repeat (rewrite Z.mod_small by (rewrite ?Z.mod_small by lia; lia)); lia.
Qed.

Lemma EncodeZigzag64_eq {S} v (s : S) : in_sint 64 v →
  EncodeZigzag64 v s = if decide (- 2 ^ 63 < v < 2 ^ 62)%Z then Ok (zigzag v) s else Fault SignedOverflow.
Proof.
  intros Hv. unfold EncodeZigzag64, signed, zigzag, in_sint in *.
  change (2 ^ (64 - 1))%Z with 9223372036854775808%Z in *.
  change (2 ^ 63)%Z with 9223372036854775808%Z. change (2 ^ 62)%Z with 4611686018427387904%Z.
  destruct (decide (v < 0)%Z); unfold_M; repeat case_decide; try lia; try done; f_equal;
    unfold uint; change (2 ^ 64)%Z with 18446744073709551616%Z;
    repeat (rewrite Z.mod_small by (rewrite ?Z.mod_small by lia; lia)); lia.
Qed.

Section codec_facts.
Context {host : Host} {smax : StringMax} {S : Type} `{!ByteBuffer S, !ByteBufferLaws S}.
Implicit Types (s : S).

(** The data of [s] goes on with [l] at the position. *)
Definition at_pos s (l : list Z) : Prop :=
  take (length l) (drop (bb_pos s) (bb_data s)) = Some <$> l.

Lemma at_pos_room s l : bb_ok s → at_pos s l → bb_pos s + length l ≤ length (bb_data s).
Proof.
  intros H Hl. apply (f_equal length) in Hl. rewrite length_take, length_drop, length_fmap in Hl.
  pose proof (bb_pos_le s H). lia.
Qed.

(** Reading [l] and going on: the step a reader of [l] makes. *)
Definition consumed s s' (l : list Z) : Prop := bb_step s s' (bb_data s) (bb_pos s + length l).

Lemma consumed_app s s1 s2 l1 l2 : consumed s s1 l1 → consumed s1 s2 l2 → consumed s s2 (l1 ++ l2).
Proof.
  intros (_ & Hd1 & Hp1 & Ho1) (H2 & Hd2 & Hp2 & Ho2).
  split_and!; [done|congruence|rewrite Hp2, Hp1, length_app; lia|congruence].
Qed.

Lemma at_pos_app s l1 l2 : at_pos s (l1 ++ l2) → at_pos s l1 ∧
  ∀ s1, consumed s s1 l1 → at_pos s1 l2.
Proof.
  unfold at_pos. rewrite length_app, take_add_drop, fmap_app, drop_drop.
  intros H. assert (length (take (length l1) (drop (bb_pos s) (bb_data s))) = length l1) as Hlen.
  { apply (f_equal length) in H. rewrite !length_app, !length_take, !length_fmap in *.
    rewrite length_drop in *. lia. }
  apply app_inj_1 in H as [H1 H2]; [|by rewrite length_fmap].
  split; [done|]. intros s1 (_ & -> & -> & _). done.
Qed.

Lemma bb_read_at s l : bb_ok s → at_pos s l → l ≠ [] →
  ∃ s', bb_read (length l) s = Ok (Some <$> l) s' ∧ consumed s s' l.
Proof.
  intros H Hl Hne. destruct (bb_read_law s (length l) H) as (s' & Hr & Hs).
  - destruct l; [done|simpl; lia].
  - by apply at_pos_room.
  - exists s'. by rewrite Hr, Hl.
Qed.

Lemma load_ok s l n : bb_ok s → at_pos s l → n = length l → l ≠ [] →
  ∃ s', load n s = Ok l s' ∧ consumed s s' l.
Proof.
  intros H Hl -> Hne. destruct (bb_read_at s l H Hl Hne) as (s' & Hr & Hs).
  exists s'. unfold load, mbind, M_bind. rewrite Hr, mapM_id_Some. done.
Qed.

Lemma ordered_bytes_ne o n z : 0 < n → ordered_bytes o n z ≠ [].
Proof.
  intros Hn H. apply (f_equal length) in H. unfold ordered_bytes in H.
  destruct o; rewrite ?length_rev, length_le_bytes in H; simpl in H; lia.
Qed.

Lemma length_ordered_bytes o n z : length (ordered_bytes o n z) = n.
Proof. unfold ordered_bytes. destruct o; rewrite ?length_rev; apply length_le_bytes. Qed.

Lemma read_u_ok s n z : bb_ok s → 0 < n → at_pos s (ordered_bytes (bb_order s) n z) →
  in_uint (8 * Z.of_nat n) z →
  ∃ s', read_u n s = Ok z s' ∧ consumed s s' (ordered_bytes (bb_order s) n z).
Proof.
  intros H Hn Hz Hr.
  destruct (load_ok s _ n H Hz) as (s' & Hl & Hs); [by rewrite length_ordered_bytes|by apply ordered_bytes_ne|].
  exists s'. split; [|done]. unfold read_u, gets, mbind, M_bind. rewrite Hl.
  destruct Hs as (_ & _ & _ & ->). unfold mret, M_ret, swap_u. f_equal.
  rewrite object_value_ordered. by apply uint_id.
Qed.

Lemma swap_s_value o n z : 0 < n → in_sint (8 * Z.of_nat n) z →
  swap_s o n (sint (8 * Z.of_nat n) (object_value (ordered_bytes o n z))) = z.
Proof.
  intros Hn Hz. pose proof (object_value_ordered o n z) as Ho. unfold swap_s.
  case_decide.
  - rewrite Ho, sint_uint by lia. apply sint_id; [lia|done].
  - unfold byteswap_s. rewrite uint_sint by lia.
    rewrite <-sint_uint by lia. unfold bswap. rewrite le_bytes_uint.
    fold (bswap n (object_value (ordered_bytes o n z))).
    fold (byteswap n (object_value (ordered_bytes o n z))).
    rewrite Ho, sint_uint by lia. apply sint_id; [lia|done].
Qed.

Lemma read_s_ok s n z : bb_ok s → 0 < n → at_pos s (ordered_bytes (bb_order s) n z) →
  in_sint (8 * Z.of_nat n) z →
  ∃ s', read_s n s = Ok z s' ∧ consumed s s' (ordered_bytes (bb_order s) n z).
Proof.
  intros H Hn Hz Hr.
  destruct (load_ok s _ n H Hz) as (s' & Hl & Hs); [by rewrite length_ordered_bytes|by apply ordered_bytes_ne|].
  exists s'. split; [|done]. unfold read_s, gets, mbind, M_bind. rewrite Hl.
  destruct Hs as (_ & _ & _ & ->). unfold mret, M_ret. f_equal. by apply swap_s_value.
Qed.

Lemma object_value_byte b : object_value [b] = b.
Proof. unfold object_value. destruct WINDGENT_BYTE_ORDER; simpl; lia. Qed.

Lemma object_bytes_byte v : object_bytes 1 v = le_bytes 1 v.
Proof. unfold object_bytes. by destruct WINDGENT_BYTE_ORDER. Qed.

Lemma readFuint8_ok s b : bb_ok s → at_pos s [b] → (0 ≤ b < 256)%Z →
  ∃ s', readFuint8 s = Ok b s' ∧ consumed s s' [b].
Proof.
  intros H Hb Hr. destruct (load_ok s [b] 1 H Hb eq_refl) as (s' & Hl & Hs); [done|].
  exists s'. split; [|done]. unfold readFuint8, mbind, M_bind. rewrite Hl.
  unfold mret, M_ret. f_equal. rewrite object_value_byte, uint_sint by lia. by apply uint_id.
Qed.

Lemma readFint8_ok s v : bb_ok s → at_pos s (le_bytes 1 v) → in_sint 8 v →
  ∃ s', readFint8 s = Ok v s' ∧ consumed s s' (le_bytes 1 v).
Proof.
  intros H Hb Hr. destruct (load_ok s (le_bytes 1 v) 1 H Hb eq_refl) as (s' & Hl & Hs); [done|].
  exists s'. split; [|done]. unfold readFint8, mbind, M_bind. rewrite Hl.
  unfold mret, M_ret. f_equal. simpl le_bytes. rewrite object_value_byte.
  change (v `mod` 256)%Z with (uint 8 v). rewrite sint_uint by lia. apply sint_id; [lia|done].
Qed.

Lemma read_varint_ok fuel slots w : ∀ s v i result,
  bb_ok s → (0 < slots ≤ fuel) → (0 ≤ v < 128 ^ Z.of_nat slots)%Z → (0 ≤ i)%Z →
  in_uint i result → (result + v * 2 ^ i < 2 ^ w)%Z → (i + 7 * (Z.of_nat slots - 1) < w)%Z →
  at_pos s (base128 slots v) →
  ∃ s', read_varint fuel w i result s = Ok (result + v * 2 ^ i)%Z s' ∧ consumed s s' (base128 slots v).
Proof.
  revert slots; induction fuel as [|fuel IH]; intros slots s v i result H Hsl Hv Hi Hres Htot Hw Hat; [lia|].
  destruct slots as [|slots]; [lia|]. simpl in *.
  assert (0 < 2 ^ i)%Z as Hpow by (apply Z.pow_pos_nonneg; lia).
  rewrite decide_True by lia. destruct (decide (v < 128)%Z) as [Hlast|Hmore].
  - destruct (readFuint8_ok s v H Hat) as (s1 & Hr & Hs1); [lia|].
    exists s1. split; [|done]. unfold mbind, M_bind. rewrite Hr, decide_True by lia.
    unfold mret, M_ret. f_equal. unfold in_uint in Hres.
    rewrite uint_id by (unfold in_uint; rewrite Z.shiftl_mul_pow2; nia).
    by apply lor_shiftl_add.
  - apply (at_pos_app s [_]) in Hat as [Hat1 Hat2].
    pose proof (Z.mod_pos_bound v 128 ltac:(lia)) as Hmod.
    pose proof (Z.div_mod v 128 ltac:(lia)) as Hdiv.
    destruct (readFuint8_ok s _ H Hat1) as (s1 & Hr & Hs1); [lia|].
    unfold mbind, M_bind. rewrite Hr, decide_False by lia.
    rewrite group_decode by lia. unfold in_uint in Hres.
    assert (128 ^ Z.of_nat (Datatypes.S slots) = 128 * 128 ^ Z.of_nat slots)%Z as Hp by apply pow128_succ.
    assert (0 ≤ v / 128)%Z by (apply Z.div_pos; lia).
    assert (0 < slots) by (destruct slots; simpl in *; lia).
    assert (2 ^ (i + 7) = 128 * 2 ^ i)%Z as Hi7 by (rewrite Z.pow_add_r by lia; lia).
    assert (0 ≤ v `mod` 128 * 2 ^ i ≤ v * 2 ^ i)%Z as Hle by nia.
    rewrite uint_id by (unfold in_uint; rewrite Z.shiftl_mul_pow2; lia).
    rewrite lor_shiftl_add by done.
    destruct (IH slots s1 (v / 128)%Z (i + 7)%Z (result + v `mod` 128 * 2 ^ i)%Z) as (s2 & Hr2 & Hs2).
    + apply Hs1.
    + lia.
    + split; [done|]. apply Z.div_lt_upper_bound; lia.
    + lia.
    + unfold in_uint. rewrite Hi7. nia.
    + rewrite Hi7. nia.
    + lia.
    + by apply Hat2.
    + exists s2. rewrite Hr2. split; [f_equal; rewrite Hi7; nia|].
      by apply (consumed_app s s1 s2 [_]).
Qed.

Lemma readUint32_ok s v : bb_ok s → in_uint 32 v → at_pos s (base128 5 v) →
  ∃ s', readUint32 s = Ok v s' ∧ consumed s s' (base128 5 v).
Proof.
  intros H Hv Hat. unfold in_uint in Hv. change (2 ^ 32)%Z with 4294967296%Z in Hv.
  destruct (read_varint_ok 6 5 32 s v 0 0 H) as (s' & Hr & Hs);
    [lia|change (128 ^ Z.of_nat 5)%Z with 34359738368%Z; lia|lia|done| |lia|done|].
  { change (2 ^ 0)%Z with 1%Z. change (2 ^ 32)%Z with 4294967296%Z. lia. }
  exists s'. unfold readUint32. rewrite Hr. split; [f_equal; lia|done].
Qed.

Lemma readUint64_ok s v : bb_ok s → in_uint 64 v → at_pos s (base128 10 v) →
  ∃ s', readUint64 s = Ok v s' ∧ consumed s s' (base128 10 v).
Proof.
  intros H Hv Hat. unfold in_uint in Hv. change (2 ^ 64)%Z with 18446744073709551616%Z in Hv.
  destruct (read_varint_ok 11 10 64 s v 0 0 H) as (s' & Hr & Hs);
    [lia|change (128 ^ Z.of_nat 10)%Z with 1180591620717411303424%Z; lia|lia|done| |lia|done|].
  { change (2 ^ 0)%Z with 1%Z. change (2 ^ 64)%Z with 18446744073709551616%Z. lia. }
  exists s'. unfold readUint64. rewrite Hr. split; [f_equal; lia|done].
Qed.

(** Writing [l] and going on: the step a writer of [l] makes. *)
Definition produced s s' (l : list Z) : Prop :=
  bb_step s s' (splice (bb_data s) (bb_pos s) (Some <$> l)) (bb_pos s + length l).

Lemma produced_app s s1 s2 l1 l2 :
  bb_ok s → produced s s1 l1 → produced s1 s2 l2 → produced s s2 (l1 ++ l2).
Proof.
  intros H (_ & Hd1 & Hp1 & Ho1) (H2 & Hd2 & Hp2 & Ho2).
  split_and!; [done| |rewrite Hp2, Hp1, length_app; lia|congruence].
  rewrite Hd2, Hd1, Hp1, fmap_app, <-(length_fmap Some l1).
  apply splice_splice. by apply bb_pos_le.
Qed.

Lemma write_bytes_ok s l : bb_ok s → ∃ s', bb_write l s = Ok tt s' ∧ produced s s' l.
Proof. apply bb_write_law. Qed.

Lemma write_order_ok s (f : byte_order → list Z) : bb_ok s →
  ∃ s', (o ← gets bb_order; bb_write (f o)) s = Ok tt s' ∧ produced s s' (f (bb_order s)).
Proof. intros H. unfold gets, mbind, M_bind. by apply write_bytes_ok. Qed.

Lemma write_u_ok s n v : bb_ok s →
  ∃ s', (o ← gets bb_order; bb_write (object_bytes n (swap_u o n v))) s = Ok tt s' ∧
        produced s s' (ordered_bytes (bb_order s) n v).
Proof.
  intros H. rewrite <-object_bytes_ordered.
  by apply (write_order_ok s (λ o, object_bytes n (swap_u o n v))).
Qed.

Lemma write_s_ok s n v : bb_ok s → 0 < n →
  ∃ s', (o ← gets bb_order; bb_write (object_bytes n (swap_s o n v))) s = Ok tt s' ∧
        produced s s' (ordered_bytes (bb_order s) n v).
Proof.
  intros H Hn. rewrite <-object_bytes_ordered_s by done.
  by apply (write_order_ok s (λ o, object_bytes n (swap_s o n v))).
Qed.

Lemma write_varint_ok s slots v : bb_ok s → 0 < slots → (0 ≤ v < 128 ^ Z.of_nat slots)%Z →
  ∃ s', write_varint slots v s = Ok tt s' ∧ produced s s' (base128 slots v).
Proof.
  intros H Hs Hv. unfold write_varint. rewrite varint_loop_base128 by done.
  by apply write_bytes_ok.
Qed.

Lemma writeUint32_ok s v : bb_ok s → in_uint 32 v →
  ∃ s', writeUint32 v s = Ok tt s' ∧ produced s s' (base128 5 v).
Proof.
  intros H Hv. apply write_varint_ok; [done|lia|]. unfold in_uint in Hv.
  change (128 ^ Z.of_nat 5)%Z with 34359738368%Z. change (2 ^ 32)%Z with 4294967296%Z in Hv. lia.
Qed.

Lemma writeUint64_ok s v : bb_ok s → in_uint 64 v →
  ∃ s', writeUint64 v s = Ok tt s' ∧ produced s s' (base128 10 v).
Proof.
  intros H Hv. apply write_varint_ok; [done|lia|]. unfold in_uint in Hv.
  change (128 ^ Z.of_nat 10)%Z with 1180591620717411303424%Z.
  change (2 ^ 64)%Z with 18446744073709551616%Z in Hv. lia.
Qed.

(** A length prefix followed by the characters. *)
Lemma write_prefixed_ok s (m : M S unit) l str : bb_ok s →
  (∃ s', m s = Ok tt s' ∧ produced s s' l) →
  ∃ s', (_ ← m; bb_write str) s = Ok tt s' ∧ produced s s' (l ++ str).
Proof.
  intros H (s1 & Hm & H1). destruct (write_bytes_ok s1 str) as (s2 & Hw & H2); [apply H1|].
  exists s2. unfold mbind, M_bind. rewrite Hm, Hw. split; [done|]. by apply (produced_app s s1).
Qed.

Lemma read_prefixed_ok s (m : M S Z) l str : bb_ok s → str ≠ [] →
  (Z.of_nat (length str) ≤ str_max)%Z → at_pos s (l ++ str) →
  (at_pos s l → ∃ s', m s = Ok (Z.of_nat (length str)) s' ∧ consumed s s' l) →
  ∃ s', (n ← m; read_str n) s = Ok (Some <$> str) s' ∧ consumed s s' (l ++ str).
Proof.
  intros H Hne Hmax Hat Hm. apply at_pos_app in Hat as [Hat1 Hat2].
  destruct (Hm Hat1) as (s1 & Hm1 & H1). pose proof (Hat2 s1 H1) as Hat3.
  destruct (bb_read_at s1 str) as (s2 & Hr & H2); [apply H1|done|done|].
  exists s2. unfold mbind, M_bind, read_str. rewrite Hm1, decide_False, Nat2Z.id, Hr by lia.
  split; [done|]. by apply (consumed_app s s1).
Qed.

Lemma text_ok s s' (m : M S (list cell)) (f : list Z → item) str l :
  m s = Ok (Some <$> str) s' ∧ consumed s s' l →
  text m f s = Ok (f str) s' ∧ consumed s s' l.
Proof. intros [Hm Hc]. unfold text, mbind, M_bind. by rewrite Hm, mapM_id_Some. Qed.

Lemma str_size_id w str : (Z.of_nat (length str) < 2 ^ w)%Z → uint w (str_size str) = Z.of_nat (length str).
Proof. intros. apply uint_id. unfold in_uint, str_size. lia. Qed.

Lemma in_sint_32 v : (- 2 ^ 31 < v < 2 ^ 30)%Z → in_sint 32 v.
Proof. unfold in_sint. change (2 ^ (32 - 1))%Z with (2 * 2 ^ 30)%Z. change (2 ^ 31)%Z with (2 * 2 ^ 30)%Z. lia. Qed.

Lemma in_sint_64 v : (- 2 ^ 63 < v < 2 ^ 62)%Z → in_sint 64 v.
Proof. unfold in_sint. change (2 ^ (64 - 1))%Z with (2 * 2 ^ 62)%Z. change (2 ^ 63)%Z with (2 * 2 ^ 62)%Z. lia. Qed.

Lemma write_item_ok s i : bb_ok s → in_range i →
  ∃ s', write_item i s = Ok tt s' ∧ produced s s' (wire (bb_order s) i).
Proof.
  intros H Hr. destruct i; simpl in Hr;
    cbn [write_item wire writeFint8 writeFuint8 writeFloat writeDouble];
    try (by apply write_u_ok); try (by apply write_s_ok; [done|lia]).
  - rewrite <-object_bytes_byte. by apply write_bytes_ok.
  - rewrite <-object_bytes_byte. by apply write_bytes_ok.
  - unfold writeInt32, mbind, M_bind. rewrite EncodeZigzag32_eq, decide_True by auto using in_sint_32.
    apply writeUint32_ok; [done|]. apply zigzag_range; [lia|by apply in_sint_32].
  - by apply writeUint32_ok.
  - unfold writeInt64, mbind, M_bind. rewrite EncodeZigzag64_eq, decide_True by auto using in_sint_64.
    apply writeUint64_ok; [done|]. apply zigzag_range; [lia|by apply in_sint_64].
  - by apply writeUint64_ok.
  - apply write_prefixed_ok; [done|]. rewrite str_size_id by lia. by apply write_u_ok.
  - apply write_prefixed_ok; [done|]. rewrite str_size_id by lia. by apply write_u_ok.
  - apply write_prefixed_ok; [done|]. by apply write_u_ok.
  - apply write_prefixed_ok; [done|]. apply writeUint64_ok; [done|]. unfold in_uint, str_size. lia.
Qed.

(** A reader that hands its value on *)
Lemma read_map_ok s s' (m : M S Z) (f : Z → item) v v' l :
  m s = Ok v s' ∧ consumed s s' l → f v = v' → (v ← m; mret (f v)) s = Ok v' s' ∧ consumed s s' l.
Proof. intros [Hm Hc] <-. unfold mbind, M_bind. by rewrite Hm. Qed.

Ltac read_by H := destruct H as (s' & ?); [try done; try lia..|];
  exists s'; eapply read_map_ok; [eassumption|reflexivity].

Lemma read_item_ok s i : bb_ok s → in_range i → at_pos s (wire (bb_order s) i) →
  ∃ s', read_like i s = Ok i s' ∧ consumed s s' (wire (bb_order s) i).
Proof.
  intros H Hr Hat. destruct i as [v|v|v|v|v|v|v|v|v|v|v|v|v|v|str|str|str|str]; simpl in Hr;
    cbn [read_like wire] in *.
  - read_by (readFint8_ok s v H Hat).
  - assert (le_bytes 1 v = [v]) as Hb.
    { simpl. rewrite Z.mod_small by (unfold in_uint in Hr; lia). done. }
    rewrite Hb in *. read_by (readFuint8_ok s v H Hat).
  - read_by (read_s_ok s 2 v H).
  - read_by (read_u_ok s 2 v H).
  - read_by (read_s_ok s 4 v H).
  - read_by (read_u_ok s 4 v H).
  - read_by (read_s_ok s 8 v H).
  - read_by (read_u_ok s 8 v H).
  - read_by (read_u_ok s 4 v H).
  - read_by (read_u_ok s 8 v H).
  - pose proof (in_sint_32 v Hr) as Hs.
    destruct (readUint32_ok s (zigzag v) H) as (s' & Hz & Hc); [by apply zigzag_range|done|].
    exists s'. unfold readInt32, mbind, M_bind. rewrite Hz. split; [|done].
    unfold mret, M_ret. do 2 f_equal. by apply decode_zigzag.
  - read_by (readUint32_ok s v H Hr).
  - pose proof (in_sint_64 v Hr) as Hs.
    destruct (readUint64_ok s (zigzag v) H) as (s' & Hz & Hc); [by apply zigzag_range|done|].
    exists s'. unfold readInt64, mbind, M_bind. rewrite Hz. split; [|done].
    unfold mret, M_ret. do 2 f_equal. by apply decode_zigzag.
  - read_by (readUint64_ok s v H Hr).
  - destruct Hr as (Hne & Hlen & Hmax).
    destruct (read_prefixed_ok s readFuint16 _ str H Hne Hmax Hat) as (s' & Hp); [|exists s'; by apply text_ok].
    intros Ha. apply read_u_ok; [done|lia|done|]. unfold in_uint. lia.
  - destruct Hr as (Hne & Hlen & Hmax).
    destruct (read_prefixed_ok s readFuint32 _ str H Hne Hmax Hat) as (s' & Hp); [|exists s'; by apply text_ok].
    intros Ha. apply read_u_ok; [done|lia|done|]. unfold in_uint. lia.
  - destruct Hr as (Hne & Hlen & Hmax).
    destruct (read_prefixed_ok s readFuint64 _ str H Hne Hmax Hat) as (s' & Hp); [|exists s'; by apply text_ok].
    intros Ha. apply read_u_ok; [done|lia|done|]. unfold in_uint. lia.
  - destruct Hr as (Hne & Hlen & Hmax).
    destruct (read_prefixed_ok s readUint64 _ str H Hne Hmax Hat) as (s' & Hp); [|exists s'; by apply text_ok].
    intros Ha. apply readUint64_ok; [done| |done]. unfold in_uint. lia.
Qed.

Lemma write_items_ok l : ∀ s, bb_ok s → Forall in_range l →
  ∃ s', write_items l s = Ok tt s' ∧ produced s s' (wires (bb_order s) l).
Proof.
  induction l as [|i l IH]; intros s H Hl.
  - exists s. split; [done|]. unfold produced, wires. simpl.
    rewrite splice_nil, Nat.add_0_r. by split_and!.
  - inversion_clear Hl as [|?? Hi Hl'].
    destruct (write_item_ok s i H Hi) as (s1 & Hw1 & H1).
    destruct (IH s1) as (s2 & Hw2 & H2); [apply H1|done|].
    exists s2. simpl. unfold mbind, M_bind. rewrite Hw1, Hw2. split; [done|].
    pose proof H1 as (_ & _ & _ & Ho). rewrite Ho in H2. by apply (produced_app s s1).
Qed.

Lemma read_items_ok l : ∀ s, bb_ok s → Forall in_range l → at_pos s (wires (bb_order s) l) →
  ∃ s', read_items l s = Ok l s' ∧ consumed s s' (wires (bb_order s) l).
Proof.
  induction l as [|i l IH]; intros s H Hl Hat.
  - exists s. split; [done|]. unfold consumed, wires. simpl. rewrite Nat.add_0_r. by split_and!.
  - inversion_clear Hl as [|?? Hi Hl']. unfold wires in *. simpl in Hat.
    apply at_pos_app in Hat as [Hat1 Hat2].
    destruct (read_item_ok s i H Hi Hat1) as (s1 & Hr1 & H1).
    pose proof H1 as (H1' & _ & _ & Ho). pose proof (Hat2 s1 H1) as Hat3. rewrite <-Ho in Hat3.
    destruct (IH s1 H1' Hl' Hat3) as (s2 & Hr2 & H2). rewrite Ho in H2.
    exists s2. simpl. unfold mbind, M_bind. rewrite Hr1, Hr2. split; [done|].
    by apply (consumed_app s s1).
Qed.

End codec_facts.

(** * Properties *)

(** A byte array on a host of the given byte order *)
Local Instance little_host : Host := WINDGENT_LITTLE_ENDIAN.
Local Instance big_str_max : StringMax := (2 ^ 63 - 1)%Z.

(** C3. Wire format: on a host of either byte order, writing a list of values
    puts exactly [wires] of them at the position - integers in the array's
    byte order, variable-length integers in base 128, signed ones zigzag
    coded, strings after their length - and advances by as much. *)
Theorem wire_format {host : Host} {smax : StringMax} {S} `{!ByteBuffer S, !ByteBufferLaws S} (s : S) l :
  bb_ok s → Forall in_range l →
  ∃ s', write_items l s = Ok tt s' ∧ bb_ok s' ∧
    bb_data s' = splice (bb_data s) (bb_pos s) (Some <$> wires (bb_order s) l) ∧
    bb_pos s' = bb_pos s + length (wires (bb_order s) l) ∧ bb_order s' = bb_order s.
Proof. intros H Hl. destruct (write_items_ok l s H Hl) as (s' & Hw & Hs). by exists s'. Qed.

Lemma wire_format_witness :
  let l := [Fuint16 0x1234; Int32 (-1); Uint32 300; StringF16 [65; 66]]%Z in
  ∃ s', write_items l (ByteArray.ByteArray.new 3) = Ok tt s' ∧
    bb_data s' = Some <$> [0x12; 0x34; 1; 172; 2; 0; 2; 65; 66]%Z.
Proof.
  destruct (wire_format (ByteArray.ByteArray.new 3)
    [Fuint16 0x1234; Int32 (-1); Uint32 300; StringF16 [65; 66]]%Z) as (s' & Hw & _ & Hd & _).
  - apply ByteArrayFacts.new_inv. lia.
  - repeat constructor; vm_compute; try congruence; intuition congruence.
  - exists s'. split; [exact Hw|]. rewrite Hd. vm_compute. reflexivity.
Defined.



Lemma length_base128_eq slots v : 0 < slots → (0 ≤ v < 128 ^ Z.of_nat slots)%Z →
  Z.of_nat (length (base128 slots v)) = (Z.log2 v / 7 + 1)%Z.
Proof.
  revert v; induction slots as [|slots IH]; intros v Hs Hv; [lia|]. simpl.
  destruct (decide (v < 128)%Z).
  - simpl. destruct (decide (v = 0)%Z) as [->|]; [done|].
    assert (0 ≤ Z.log2 v < 7)%Z by (split; [apply Z.log2_nonneg|apply Z.log2_lt_pow2; lia]).
    rewrite Z.div_small; lia.
  - rewrite pow128_succ in Hv. simpl. rewrite Nat2Z.inj_succ, IH.
    + replace (v / 128)%Z with (Z.shiftr v 7) by (rewrite Z.shiftr_div_pow2 by lia; done).
      rewrite Z.log2_shiftr by lia.
      assert (7 ≤ Z.log2 v)%Z by (apply Z.log2_le_pow2; lia).
      replace (Z.log2 v) with (Z.max 0 (Z.log2 v - 7) + 1 * 7)%Z at 2 by lia.
      rewrite Z.div_add by lia. lia.
    + destruct slots; [simpl in *|]; lia.
    + split; [apply Z.div_pos; lia|]. apply Z.div_lt_upper_bound; lia.
Qed.

(** Bounds: the local arrays [tmp\[5\]] and [tmp\[10\]] of writeUint32 and
    writeUint64 are never overrun, each value takes one byte for every seven
    bits it has, and one slot less would not do. *)
Theorem varint_bounds v :
  (in_uint 32 v → ∃ l, varint_loop 5 v = Some l ∧ Z.of_nat (length l) = (Z.log2 v / 7 + 1)%Z ∧ bytes l) ∧
  (in_uint 64 v → ∃ l, varint_loop 10 v = Some l ∧ Z.of_nat (length l) = (Z.log2 v / 7 + 1)%Z ∧ bytes l) ∧
  varint_loop 4 (2 ^ 32 - 1) = None ∧ varint_loop 9 (2 ^ 64 - 1) = None.
Proof.
  split_and!; [| |done|done]; intros Hv; unfold in_uint in Hv.
  - assert (0 ≤ v < 128 ^ Z.of_nat 5)%Z as Hv'.
    { change (128 ^ Z.of_nat 5)%Z with 34359738368%Z. change (2 ^ 32)%Z with 4294967296%Z in Hv. lia. }
    exists (base128 5 v). split_and!; [apply varint_loop_base128|apply length_base128_eq|apply base128_bytes]; lia.
  - assert (0 ≤ v < 128 ^ Z.of_nat 10)%Z as Hv'.
    { change (128 ^ Z.of_nat 10)%Z with 1180591620717411303424%Z.
      change (2 ^ 64)%Z with 18446744073709551616%Z in Hv. lia. }
    exists (base128 10 v). split_and!; [apply varint_loop_base128|apply length_base128_eq|apply base128_bytes]; lia.
Qed.

Lemma varint_bounds_witness : ∃ l, varint_loop 5 300 = Some l ∧ length l = 2.
Proof.
  destruct (varint_bounds 300) as [H _]. destruct H as (l & Hl & Hlen & _); [split; vm_compute; congruence|].
  exists l. split; [exact Hl|]. apply Nat2Z.inj. rewrite Hlen. reflexivity.
Defined.

(** C4. Zigzag: on a signed integer the encoder either computes the zigzag
    code, which the decoder takes back to the integer, or overflows in signed
    arithmetic: for the smallest value, and for every value from half of the
    largest on. *)
Theorem zigzag_codec {S} (s : S) v :
  (in_sint 32 v →
    if decide (- 2 ^ 31 < v < 2 ^ 30)%Z
    then EncodeZigzag32 v s = Ok (zigzag v) s ∧ in_uint 32 (zigzag v) ∧ DecodeZigzag32 (zigzag v) = v
    else EncodeZigzag32 v s = Fault SignedOverflow) ∧
  (in_sint 64 v →
    if decide (- 2 ^ 63 < v < 2 ^ 62)%Z
    then EncodeZigzag64 v s = Ok (zigzag v) s ∧ in_uint 64 (zigzag v) ∧ DecodeZigzag64 (zigzag v) = v
    else EncodeZigzag64 v s = Fault SignedOverflow).
Proof.
  split; intros Hv; [rewrite EncodeZigzag32_eq by done|rewrite EncodeZigzag64_eq by done];
    case_decide; try done; (split_and!; [done|by apply zigzag_range|by apply decode_zigzag]).
Qed.

Lemma zigzag_codec_witness :
  EncodeZigzag32 (-3) tt = Ok 5%Z tt ∧ EncodeZigzag32 (2 ^ 30) tt = Fault SignedOverflow.
Proof.
  split.
  - destruct (zigzag_codec tt (-3)) as [H _]. specialize (H ltac:(split; vm_compute; congruence)).
    exact (proj1 H).
  - destruct (zigzag_codec tt (2 ^ 30)) as [H _]. exact (H ltac:(split; vm_compute; congruence)).
Defined.

(** Error path: when the data ends before a string does, the reader
    throws [out_of_range] and leaves the position behind the length field; a
    length beyond what a string can hold throws [length_error] there. *)
Theorem readStringF32_short {host : Host} {smax : StringMax} {S} `{!ByteBuffer S, !ByteBufferLaws S} (s : S) n :
  bb_ok s → in_uint 32 n → at_pos s (ordered_bytes (bb_order s) 4 n) →
  (Z.of_nat (length (bb_data s)) < Z.of_nat (bb_pos s) + 4 + n ∨ str_max < n)%Z →
  ∃ s', readStringF32 s = Exn (if decide (str_max < n)%Z then length_error else out_of_range) s' ∧
    bb_ok s' ∧ bb_data s' = bb_data s ∧ bb_pos s' = bb_pos s + 4.
Proof.
  intros H Hn Hat Hshort.
  destruct (read_u_ok s 4 n H ltac:(lia) Hat Hn) as (s1 & Hr & H1 & Hd & Hp & _).
  rewrite length_ordered_bytes in Hp.
  exists s1. split; [|done]. unfold readStringF32, readFuint32, mbind, M_bind, read_str.
  rewrite Hr. case_decide; [done|].
  unfold in_uint in Hn. apply bb_read_short_law; [done|]. rewrite Hd, Hp. lia.
Qed.

(** Two blocks of four bytes: a length field of 3 and two characters *)
Definition short_array : ByteArray.t :=
  ByteArray.mk 4 0 8 6 WINDGENT_BIG_ENDIAN
    [[Some 0; Some 0; Some 0; Some 3]; [Some 65; Some 66; None; None]]%Z (Some 0).

Lemma readStringF32_short_witness :
  ∃ s', readStringF32 short_array = Exn out_of_range s' ∧ bb_pos s' = 4.
Proof.
  destruct (readStringF32_short short_array 3) as (s' & He & _ & _ & Hp).
  - split; vm_compute; try reflexivity; try lia; repeat constructor; discriminate.
  - split; vm_compute; congruence.
  - vm_compute. reflexivity.
  - left. vm_compute. reflexivity.
  - exists s'. split; [exact He|exact Hp].
Defined.
