(* ===== verification/Timer.v ===== *)
(** Timers: [timer.h] and [timer.cc].

    Module [Timer] holds the timer objects, the [std::set] of [TimerManager]
    with its comparator, and every operation of the two classes. A timer
    object lives at an address; the manager's heap maps addresses to timers,
    so that the handle a caller keeps and the entry of the set are the same
    object. [GetCurrentMS] is read at most once by each operation: its value
    is the argument [now]. Each operation runs under the manager's lock, so an
    interleaving of threads is a sequence of operations. *)
From stdpp Require Import base list numbers option gmap sorting.
From Stdlib Require Import ZArith Lia.
From S2P Require Import Prelude.

Module Timer.
Local Open Scope Z_scope.

Section timers.
(** The bodies of callbacks and the objects a [weak_ptr] may refer to. *)
Context {F W : Type}.

Inductive callback :=
| Plain (f : F)
| Bound (weak_cond : W) (f : F).

(** [Ontimer]: the bound callback runs only while its condition is alive. *)
Definition Ontimer (alive : W → bool) (weak_cond : W) (f : F) : option F :=
  if alive weak_cond then Some f else None.

Definition invoke (alive : W → bool) (c : callback) : option F :=
  match c with
  | Plain f => Some f
  | Bound w f => Ontimer alive w f
  end.

Record timer := mk_timer {
  m_isRecur : bool;
  m_ms : Z;
  m_next : Z;
  m_cb : option callback
}.

(** [notified] counts the calls of [onTimerInsertedAtFront]. *)
Record t := mk {
  heap : gmap Z timer;
  m_timers : list Z;
  m_tickled : bool;
  m_previouseTime : Z;
  notified : nat
}.

Definition set_heap h s := mk h (m_timers s) (m_tickled s) (m_previouseTime s) (notified s).
Definition set_timers l s := mk (heap s) l (m_tickled s) (m_previouseTime s) (notified s).
Definition set_tickled b s := mk (heap s) (m_timers s) b (m_previouseTime s) (notified s).
Definition set_previous v s := mk (heap s) (m_timers s) (m_tickled s) v (notified s).

(** The constructor of [TimerManager]. *)
Definition new (now : Z) : t := mk ∅ [] false now 0.

(** *** Comparator and the ordered set *)

(** [Timer::Comparator] on two timers [(address, m_next)]; a null pointer is
    [None]. *)
Definition Comparator (lhs rhs : option (Z * Z)) : bool :=
  match lhs, rhs with
  | None, None => false
  | None, Some _ => true
  | Some _, None => false
  | Some (lp, ln), Some (rp, rn) =>
      if ln <? rn then true else if rn <? ln then false else lp <? rp
  end.

Definition entry (h : gmap Z timer) (p : Z) : option (Z * Z) :=
  (λ x, (p, m_next x)) <$> h !! p.

Definition less (h : gmap Z timer) (p q : Z) : bool := Comparator (entry h p) (entry h q).

(** [lower_bound]: the number of elements before the first one that is not
    below the key. *)
Fixpoint lower_bound (h : gmap Z timer) (l : list Z) (key : option (Z * Z)) : nat :=
  match l with
  | [] => 0
  | q :: l' => if Comparator (entry h q) key then S (lower_bound h l' key) else 0
  end.

(** [set::find]; [None] is [end()]. *)
Definition find (h : gmap Z timer) (l : list Z) (p : Z) : option nat :=
  let i := lower_bound h l (entry h p) in
  match l !! i with
  | Some q => if less h p q then None else Some i
  | None => None
  end.

(** [set::insert]: the new set and the position of the element. *)
Definition insert (h : gmap Z timer) (l : list Z) (p : Z) : list Z * nat :=
  let i := lower_bound h l (entry h p) in
  match l !! i with
  | Some q => if less h p q then (take i l ++ p :: drop i l, i) else (l, i)
  | None => (take i l ++ p :: drop i l, i)
  end.

(** [set::erase(it)]; erasing [end()] is undefined. *)
Definition erase (it : option nat) : M t unit :=
  s ← get;
  match it with
  | Some i => put (set_timers (delete i (m_timers s)) s)
  | None => faultM OutOfBounds
  end.

Definition deref (p : Z) : M t timer := s ← get; derefM (heap s !! p).
Definition store (p : Z) (x : timer) : M t unit := modify (λ s, set_heap (<[p := x]> (heap s)) s).

(** *** TimerManager::addTimer(timer, lock) *)
Definition addTimer_lock (p : Z) : M t unit :=
  s ← get;
  let (l, i) := insert (heap s) (m_timers s) p in
  let at_front := (i =? 0)%nat && negb (m_tickled s) in
  _ ← put (set_timers l s);
  if at_front then
    _ ← modify (set_tickled true);
    modify (λ s, mk (heap s) (m_timers s) (m_tickled s) (m_previouseTime s) (S (notified s)))
  else mret tt.

(** The constructor [Timer(ms, cb, isRecur, manager)] at a new address. *)
Definition Timer_new (p ms : Z) (cb : option callback) (isRecur : bool) (now : Z) : M t unit :=
  store p (mk_timer isRecur ms (uint 64 (now + ms)) cb).

Definition addTimer (p ms : Z) (cb : option callback) (isRecur : bool) (now : Z) : M t Z :=
  _ ← Timer_new p ms cb isRecur now;
  _ ← addTimer_lock p;
  mret p.

Definition addCondTimer (p ms : Z) (f : F) (weak_cond : W) (isRecur : bool) (now : Z) : M t Z :=
  addTimer p ms (Some (Bound weak_cond f)) isRecur now.

(** *** Timer::cancel, Timer::refresh, Timer::reset *)
Definition cancel (p : Z) : M t bool :=
  x ← deref p;
  match m_cb x with
  | Some _ =>
      _ ← store p (mk_timer (m_isRecur x) (m_ms x) (m_next x) None);
      s ← get;
      _ ← erase (find (heap s) (m_timers s) p);
      mret true
  | None => mret false
  end.

Definition refresh (p now : Z) : M t bool :=
  x ← deref p;
  match m_cb x with
  | None => mret false
  | Some _ =>
      s ← get;
      match find (heap s) (m_timers s) p with
      | None => mret false
      | Some i =>
          _ ← erase (Some i);
          _ ← store p (mk_timer (m_isRecur x) (m_ms x) (uint 64 (now + m_ms x)) (m_cb x));
          s ← get;
          _ ← put (set_timers (insert (heap s) (m_timers s) p).1 s);
          mret true
      end
  end.

Definition reset (p ms : Z) (from_now : bool) (now : Z) : M t bool :=
  x ← deref p;
  if (ms =? m_ms x) && negb from_now then mret true
  else
    match m_cb x with
    | None => mret false
    | Some _ =>
        s ← get;
        match find (heap s) (m_timers s) p with
        | None => mret false
        | Some i =>
            _ ← erase (Some i);
            let start := if from_now then now else uint 64 (m_next x - m_ms x) in
            _ ← store p (mk_timer (m_isRecur x) ms (uint 64 (start + ms)) (m_cb x));
            _ ← addTimer_lock p;
            mret true
        end
    end.

(** *** TimerManager::getTimeOfNextTimer and hasTimer *)
Definition no_timer : Z := 2 ^ 64 - 1.

Definition getTimeOfNextTimer (now : Z) : M t Z :=
  s ← get;
  match m_timers s with
  | [] => mret no_timer
  | p :: _ =>
      _ ← put (set_tickled false s);
      next ← deref p;
      if m_next next <=? now then mret 0 else mret (m_next next - now)
  end.

Definition hasTimer : M t bool :=
  s ← get; mret (match m_timers s with [] => false | _ => true end).

(** *** TimerManager::detectClockRollover *)
Definition detectClockRollover (now : Z) : M t bool :=
  s ← get;
  let prev := m_previouseTime s in
  let rollover := (now <? prev) && (now <? uint 64 (prev - 60 * 60 * 1000)) in
  _ ← put (set_previous now s);
  mret rollover.

(** *** TimerManager::listExpiredCbs *)

(** The loop that moves the iterator over the timers due exactly now. *)
Fixpoint skip_equal (h : gmap Z timer) (l : list Z) (now : Z) : M t nat :=
  match l with
  | [] => mret 0%nat
  | q :: l' =>
      x ← derefM (h !! q);
      if m_next x =? now then n ← skip_equal h l' now; mret (S n) else mret 0%nat
  end.

(** One expired timer: its callback is handed out, a recurring timer goes
    back into the set, the others lose their callback. *)
Definition expire (now : Z) (p : Z) : M t (option callback) :=
  x ← deref p;
  if m_isRecur x then
    _ ← store p (mk_timer true (m_ms x) (uint 64 (now + m_ms x)) (m_cb x));
    s ← get;
    _ ← put (set_timers (insert (heap s) (m_timers s) p).1 s);
    mret (m_cb x)
  else
    _ ← store p (mk_timer false (m_ms x) (m_next x) None);
    mret (m_cb x).

Fixpoint expire_loop (now : Z) (expired : list Z) : M t (list (option callback)) :=
  match expired with
  | [] => mret []
  | p :: l' => c ← expire now p; cs ← expire_loop now l'; mret (c :: cs)
  end.

(** The address of [now_timer], a new object outside of the heap's timers. *)
Definition listExpiredCbs (now_timer : Z) (now : Z) (cbs : list (option callback))
    : M t (list (option callback)) :=
  s ← get;
  match m_timers s with
  | [] => mret cbs
  | p :: _ =>
      rollover ← detectClockRollover now;
      first ← deref p;
      if negb rollover && (now <? m_next first) then mret cbs
      else
        s ← get;
        let l := m_timers s in
        let it0 := if rollover then length l
                   else lower_bound (heap s) l (Some (now_timer, now)) in
        n ← skip_equal (heap s) (drop it0 l) now;
        let it := (it0 + n)%nat in
        let expired := take it l in
        _ ← put (set_timers (drop it l) s);
        new ← expire_loop now expired;
        mret (cbs ++ new)
  end.

(** *** Requests on a manager *)
Inductive request :=
| AddTimer (p ms : Z) (cb : option callback) (isRecur : bool)
| AddCondTimer (p ms : Z) (f : F) (weak_cond : W) (isRecur : bool)
| Cancel (p : Z)
| Refresh (p : Z)
| Reset (p ms : Z) (from_now : bool)
| NextTime
| ListExpired (now_timer : Z).

Inductive answer :=
| APtr (p : Z)
| ABool (b : bool)
| ATime (ms : Z)
| ACbs (cbs : list (option callback)).

Definition serve (now : Z) (r : request) : M t answer :=
  match r with
  | AddTimer p ms cb rec => APtr <$> addTimer p ms cb rec now
  | AddCondTimer p ms f w rec => APtr <$> addCondTimer p ms f w rec now
  | Cancel p => ABool <$> cancel p
  | Refresh p => ABool <$> refresh p now
  | Reset p ms fn => ABool <$> reset p ms fn now
  | NextTime => ATime <$> getTimeOfNextTimer now
  | ListExpired q => ACbs <$> listExpiredCbs q now []
  end.

Fixpoint serve_all (rs : list (Z * request)) : M t (list answer) :=
  match rs with
  | [] => mret []
  | (now, r) :: rs' => a ← serve now r; l ← serve_all rs'; mret (a :: l)
  end.
End timers.
Arguments callback : clear implicits.
Arguments timer : clear implicits.
Arguments t : clear implicits.
Arguments request : clear implicits.
Arguments answer : clear implicits.
End Timer.
