(* ===== verification/TimerFacts.v ===== *)
(** Theorems on the timers of [Timer.v]: the invariant of the ordered set, the
    order and completeness of expiry, cancelled timers, and the wake-up of the
    waiting loop. *)
From stdpp Require Import base list numbers option gmap sorting.
From Stdlib Require Import ZArith Lia.
From S2P Require Import Prelude Timer.
Import Timer.
Local Open Scope Z_scope.

Section facts.
Context {F W : Type}.
Abbreviation heap_t := (gmap Z (timer F W)).
Abbreviation st := (t F W).
Implicit Types (h : heap_t) (l : list Z) (s : st) (p q : Z).

Definition sorted h l := StronglySorted (λ p q, less h p q = true) l.

(** The set [l] is ordered by its comparator and holds every timer of the heap
    that still has a callback, except those of [X], which are outside of it. *)
Record ok (X : list Z) h l : Prop := {
  ok_sorted : sorted h l;
  ok_alloc : ∀ p, p ∈ l → is_Some (h !! p);
  ok_armed : ∀ p x, h !! p = Some x → m_cb x ≠ None → p ∉ X → p ∈ l;
  ok_out : ∀ p, p ∈ X → p ∉ l
}.

(** The invariant of [TimerManager] between two operations. *)
Definition inv s : Prop := ok [] (heap s) (m_timers s).

(** *** The comparator is a strict total order on live timers *)
Lemma Comparator_spec p n q m :
  Comparator (Some (p, n)) (Some (q, m)) = true ↔ n < m ∨ n = m ∧ p < q.
Proof.
  simpl. destruct (n <? m) eqn:E1; [lia|]. destruct (m <? n) eqn:E2; lia.
Qed.

Lemma entry_at h p x : h !! p = Some x → entry h p = Some (p, m_next x).
Proof. intros Hx. unfold entry. by rewrite Hx. Qed.

Lemma less_spec h p q x y :
  h !! p = Some x → h !! q = Some y →
  less h p q = true ↔ m_next x < m_next y ∨ m_next x = m_next y ∧ p < q.
Proof. intros Hp Hq. unfold less, entry. rewrite Hp, Hq. apply Comparator_spec. Qed.

Lemma less_irrefl h p : less h p p = false.
Proof.
  unfold less, entry. destruct (h !! p); simpl; [|done].
  rewrite Z.ltb_irrefl. apply Z.ltb_irrefl.
Qed.

Lemma less_ext h h' p q :
  entry h p = entry h' p → entry h q = entry h' q → less h p q = less h' p q.
Proof. unfold less. by intros -> ->. Qed.

Lemma entry_insert_ne h p q x : p ≠ q → entry (<[p := x]> h) q = entry h q.
Proof. intros. unfold entry. by rewrite lookup_insert_ne. Qed.

Lemma entry_insert_same h p q x y :
  h !! p = Some y → m_next x = m_next y → entry (<[p := x]> h) q = entry h q.
Proof.
  intros Hp Hn. unfold entry. destruct (decide (p = q)) as [->|].
  - by rewrite lookup_insert_eq, Hp; simpl; rewrite Hn.
  - by rewrite lookup_insert_ne.
Qed.

Lemma sorted_ext h h' l :
  (∀ p, p ∈ l → entry h p = entry h' p) → sorted h l → sorted h' l.
Proof.
  intros He. unfold sorted. induction 1 as [|p l Hs IH Hall]; constructor.
  - apply IH. intros q Hq. apply He. set_solver.
  - rewrite Forall_forall in *. intros q Hq.
    rewrite <-(less_ext h h'); [by apply Hall|apply He; set_solver..].
Qed.

Lemma sorted_notin h p l : sorted h (p :: l) → p ∉ l.
Proof.
  intros [_ Hall]%StronglySorted_inv Hin.
  rewrite Forall_forall in Hall. apply Hall in Hin. by rewrite less_irrefl in Hin.
Qed.

Lemma sorted_NoDup h l : sorted h l → NoDup l.
Proof.
  induction l as [|p l IH]; intros Hs; constructor.
  - by eapply sorted_notin.
  - apply IH. by apply StronglySorted_inv in Hs as [? _].
Qed.

(** *** The binary searches *)
Lemma lower_bound_key h h' l key :
  (∀ p, p ∈ l → entry h p = entry h' p) → lower_bound h l key = lower_bound h' l key.
Proof.
  induction l as [|q l IH]; intros He; simpl; [done|].
  rewrite <-(He q) by set_solver. rewrite IH; [done|]. intros. apply He. set_solver.
Qed.

Lemma lower_bound_le h l key : (lower_bound h l key ≤ length l)%nat.
Proof. induction l as [|q l IH]; simpl; [lia|]. destruct (Comparator _ _); simpl; lia. Qed.

Lemma find_sorted h l p :
  sorted h l → p ∈ l → (∀ q, q ∈ l → is_Some (h !! q)) →
  ∃ i, find h l p = Some i ∧ l !! i = Some p.
Proof.
  intros Hs Hp Hal.
  assert (l !! lower_bound h l (entry h p) = Some p) as Hlb.
  { induction l as [|q l IH]; [by apply elem_of_nil in Hp|]. simpl.
    pose proof Hs as [Hs' Hall]%StronglySorted_inv.
    destruct (decide (q = p)) as [->|Hne].
    - change (Comparator (entry h p) (entry h p)) with (less h p p).
      by rewrite less_irrefl.
    - assert (p ∈ l) as Hpl by set_solver.
      change (Comparator (entry h q) (entry h p)) with (less h q p).
      rewrite Forall_forall in Hall. rewrite (Hall p Hpl). simpl. apply IH; set_solver. }
  exists (lower_bound h l (entry h p)). split; [|done].
  unfold find. by rewrite Hlb, less_irrefl.
Qed.

(** What [insert] computes on an ordered set that lacks the key. *)
Fixpoint ins h l p : list Z :=
  match l with
  | [] => [p]
  | q :: l' => if less h q p then q :: ins h l' p else p :: q :: l'
  end.

Lemma insert_ins h l p :
  p ∉ l → is_Some (h !! p) → (∀ q, q ∈ l → is_Some (h !! q)) →
  (insert h l p).1 = ins h l p ∧ (insert h l p).2 = lower_bound h l (entry h p).
Proof.
  intros Hp Hpa Hal.
  set (i := lower_bound h l (entry h p)).
  assert (∀ q, l !! i = Some q → less h p q = true) as Hnext.
  { subst i. induction l as [|q l IH]; simpl; [done|].
    change (Comparator (entry h q) (entry h p)) with (less h q p).
    destruct (less h q p) eqn:E; simpl.
    - apply IH; set_solver.
    - intros q' [= <-]. destruct Hpa as [x Hx]. destruct (Hal q) as [y Hy]; [set_solver|].
      rewrite less_spec by done. apply not_true_iff_false in E.
      rewrite less_spec in E by done. assert (p ≠ q) by set_solver. lia. }
  assert (take i l ++ p :: drop i l = ins h l p) as Hins.
  { subst i. clear. induction l as [|q l IH]; simpl; [done|].
    change (Comparator (entry h q) (entry h p)) with (less h q p).
    destruct (less h q p); simpl; [by rewrite IH|done]. }
  unfold insert. fold i. destruct (l !! i) as [q|] eqn:E; [|done].
  by rewrite Hnext.
Qed.

Lemma ins_perm h l p : ins h l p ≡ₚ p :: l.
Proof.
  induction l as [|q l IH]; simpl; [done|]. destruct (less h q p); [|done].
  rewrite IH. constructor.
Qed.

Lemma ins_sorted h l p :
  sorted h l → p ∉ l → is_Some (h !! p) → (∀ q, q ∈ l → is_Some (h !! q)) →
  sorted h (ins h l p).
Proof.
  unfold sorted. intros Hs Hp [x Hx] Hal. induction l as [|q l IH]; simpl; [by repeat constructor|].
  apply StronglySorted_inv in Hs as [Hs Hall].
  destruct (Hal q) as [y Hy]; [set_solver|].
  destruct (less h q p) eqn:E.
  - constructor; [apply IH; set_solver|].
    rewrite ins_perm. by constructor.
  - assert (less h p q = true) as Hpq.
    { rewrite less_spec by done. apply not_true_iff_false in E. rewrite less_spec in E by done.
      assert (p ≠ q) by set_solver. lia. }
    constructor; [by constructor|]. constructor; [done|].
    rewrite Forall_forall in *. intros r Hr. specialize (Hall r Hr).
    destruct (Hal r) as [z Hz]; [set_solver|].
    rewrite less_spec in * by done. lia.
Qed.

Lemma delete_perm l i p : l !! i = Some p → l ≡ₚ p :: delete i l.
Proof. apply delete_Permutation. Qed.

Lemma elem_of_delete l i p : p ∈ delete i l → p ∈ l.
Proof. revert i; induction l as [|q l IH]; intros [|i]; simpl; set_solver. Qed.

Lemma sorted_delete h l i : sorted h l → sorted h (delete i l).
Proof.
  unfold sorted. intros Hs. revert i. induction Hs as [|q l Hs IH Hall]; intros [|i]; simpl;
    try solve [constructor|done].
  - constructor; [apply IH|]. rewrite Forall_forall in *. intros r Hr. apply Hall.
    by eapply elem_of_delete.
Qed.

(** *** Steps that preserve the invariant *)
Lemma ok_nil : ok [] ∅ [].
Proof.
  split; [constructor|set_solver| |set_solver]. intros p x. by rewrite lookup_empty.
Qed.

Lemma ok_store X h l p x : ok X h l → p ∈ X → ok X (<[p := x]> h) l.
Proof.
  intros [Hs Ha Hm Ho] Hp. split; [|intros q Hq..|done].
  - eapply sorted_ext; [|done]. intros q Hq. symmetry. apply entry_insert_ne. naive_solver.
  - apply lookup_insert_is_Some'. auto.
  - intros Hx Hc Hqx. destruct (decide (p = q)) as [->|Hne]; [done|].
    rewrite lookup_insert_ne in Hx by done. eauto.
Qed.

Lemma ok_clear X h l p x y :
  ok X h l → h !! p = Some y → m_next x = m_next y → m_cb x = None →
  ok X (<[p := x]> h) l.
Proof.
  intros [Hs Ha Hm Ho] Hp Hn Hc. split; [|intros q Hq..|done].
  - eapply sorted_ext; [|done]. intros q Hq. symmetry. by eapply entry_insert_same.
  - apply lookup_insert_is_Some'. auto.
  - intros Hx Hcx Hqx. destruct (decide (p = q)) as [->|Hne].
    + rewrite lookup_insert_eq in Hx. congruence.
    + rewrite lookup_insert_ne in Hx by done. eauto.
Qed.

Lemma ok_insert X h l p :
  ok (p :: X) h l → p ∉ X → is_Some (h !! p) → ok X h (ins h l p).
Proof.
  intros [Hs Ha Hm Ho] HpX Hp. assert (p ∉ l) as Hpl by (apply Ho; set_solver).
  split; [by apply ins_sorted|intros q Hq..].
  - rewrite ins_perm in Hq. set_solver.
  - intros Hx Hc HqX. rewrite ins_perm.
    destruct (decide (p = q)) as [->|]; [set_solver|].
    apply list_elem_of_further. eapply Hm; set_solver.
  - rewrite ins_perm. specialize (Ho q). set_solver.
Qed.

Lemma ok_drop X h l p :
  ok (p :: X) h l → (∀ x, h !! p = Some x → m_cb x = None) → ok X h l.
Proof.
  intros [Hs Ha Hm Ho] Hp. split; [done..| |set_solver].
  intros q x Hx Hc HqX. destruct (decide (p = q)) as [->|].
  - by apply Hp in Hx.
  - eapply Hm; set_solver.
Qed.

Lemma ok_delete h l i p : ok [] h l → l !! i = Some p → ok [p] h (delete i l).
Proof.
  intros [Hs Ha Hm Ho] Hi. pose proof (delete_perm l i p Hi) as HP. split.
  - by apply sorted_delete.
  - intros q Hq. apply Ha. by eapply elem_of_delete.
  - intros q x Hx Hc Hq. assert (q ∈ l) as Hql by (eapply Hm; set_solver).
    rewrite HP in Hql. set_solver.
  - intros q ->%list_elem_of_singleton Hq. apply sorted_NoDup in Hs. rewrite HP in Hs.
    by apply NoDup_cons in Hs as [? _].
Qed.

Lemma ok_fresh h l p : ok [] h l → h !! p = None → ok [p] h l.
Proof.
  intros [Hs Ha Hm Ho] Hp. split; [done..| |].
  - intros q x Hx Hc Hq. eapply Hm; set_solver.
  - intros q ->%list_elem_of_singleton Hq. apply Ha in Hq as [??]. congruence.
Qed.

Lemma sorted_drop h l i : sorted h l → sorted h (drop i l).
Proof.
  unfold sorted. intros Hs. revert i. induction Hs as [|q l Hs IH Hall]; intros [|i]; simpl;
    try solve [constructor|done|by constructor|apply IH].
Qed.

Lemma ok_cut h l i : ok [] h l → ok (take i l) h (drop i l).
Proof.
  intros [Hs Ha Hm Ho]. pose proof (sorted_NoDup _ _ Hs) as Hnd.
  rewrite <-(take_drop i l) in Hnd. apply NoDup_app in Hnd as (_ & Hd & _).
  split; [by apply sorted_drop| | |done].
  - intros p Hp. apply Ha. rewrite <-(take_drop i l). set_solver.
  - intros p x Hx Hc Hp. assert (p ∈ l) as Hl by (eapply Hm; set_solver).
    rewrite <-(take_drop i l) in Hl. set_solver.
Qed.

Lemma ok_insert_set X h l p :
  ok (p :: X) h l → is_Some (h !! p) →
  (insert h l p).1 = ins h l p ∧ (insert h l p).2 = lower_bound h l (entry h p).
Proof. intros [Hs Ha _ Ho] Hp. apply insert_ins; [apply Ho; set_solver|done..]. Qed.
End facts.
