(* ===== verification/TimerRun.v ===== *)
(** What the operations on timers do: each one against the invariant of the
    ordered set, then any sequence of them. *)
From stdpp Require Import base list numbers option gmap sorting.
From Stdlib Require Import ZArith Lia.
From S2P Require Import Prelude Timer TimerFacts.
Import Timer.
Local Open Scope Z_scope.

Section run.
Context {F W : Type}.
Abbreviation heap_t := (gmap Z (timer F W)).
Abbreviation st := (t F W).
Implicit Types (h : heap_t) (l : list Z) (s : st) (p q : Z).

(** A timer that was cancelled or has fired: it has no callback and is not in
    the set. *)
Definition dead s p : Prop :=
  ∃ x, heap s !! p = Some x ∧ m_cb x = None ∧ p ∉ m_timers s.

Lemma dead_frame s s' p :
  dead s p → heap s' !! p = heap s !! p → (p ∈ m_timers s' → p ∈ m_timers s) → dead s' p.
Proof. intros (x & Hx & Hc & Hp) He Hi. exists x. rewrite He. naive_solver. Qed.

(** What every operation guarantees besides its own effect. *)
Definition kept (s s' : st) : Prop :=
  inv s' ∧ ∀ q, dead s q → dead s' q.

Lemma kept_refl s : inv s → kept s s.
Proof. by split. Qed.

Lemma deref_at s p x : heap s !! p = Some x → deref p s = Ok x s.
Proof. intros Hx. unfold deref, derefM. unfold_M. by rewrite Hx. Qed.

Lemma addTimer_lock_spec X s p :
  ok (p :: X) (heap s) (m_timers s) → is_Some (heap s !! p) →
  wp (addTimer_lock p) (λ _ s',
    heap s' = heap s ∧ m_timers s' = ins (heap s) (m_timers s) p ∧
    let front := (lower_bound (heap s) (m_timers s) (entry (heap s) p) =? 0)%nat
                 && negb (m_tickled s) in
    notified s' = (if front then S (notified s) else notified s) ∧
    m_tickled s' = (front || m_tickled s) ∧
    m_previouseTime s' = m_previouseTime s) s.
Proof.
  intros Hok Hp. destruct (ok_insert_set X _ _ p Hok Hp) as [E1 E2].
  unfold addTimer_lock, wp. unfold_M.
  destruct (insert (heap s) (m_timers s) p) as [l i]. simpl in E1, E2. subst.
  by destruct (_ && _).
Qed.

Lemma addTimer_spec s p ms cb rec now :
  inv s → heap s !! p = None →
  wp (addTimer p ms cb rec now) (λ a s', a = p ∧ kept s s' ∧
    heap s' = <[p := mk_timer rec ms (uint 64 (now + ms)) cb]> (heap s) ∧
    m_timers s' ≡ₚ p :: m_timers s) s.
Proof.
  intros Hinv Hp. unfold addTimer, Timer_new, store, modify.
  set (x := mk_timer _ _ _ _). set (h' := <[p := x]> (heap s)).
  assert (ok [p] h' (m_timers s)) as Hok by (apply ok_store, list_elem_of_here; by apply ok_fresh).
  assert (is_Some (h' !! p)) as Hsome by (subst h'; rewrite lookup_insert_eq; eauto).
  repeat apply wp_bind. unfold wp at 1. eapply wp_mono;
    [by apply (addTimer_lock_spec [] (set_heap h' s))|].
  intros _ s' (Hh & Hl & _). simpl in Hh, Hl. unfold wp, mret, M_ret.
  split_and!; [done| |done|by rewrite Hl, ins_perm].
  split.
  - unfold inv. rewrite Hh, Hl. apply ok_insert; [done|set_solver|done].
  - intros q Hq. eapply dead_frame; [done|..].
    + rewrite Hh. destruct Hq as (y & Hy & _). subst h'.
      apply lookup_insert_ne. congruence.
    + rewrite Hl, ins_perm. intros [->|]%elem_of_cons; [|done].
      destruct Hq as (y & Hy & _). congruence.
Qed.

Lemma cancel_spec s p x :
  inv s → heap s !! p = Some x →
  wp (cancel p) (λ b s', kept s s' ∧ dom (heap s') = dom (heap s) ∧
    b = (if m_cb x then true else false) ∧
    match m_cb x with
    | Some _ => dead s' p ∧ m_timers s ≡ₚ p :: m_timers s'
    | None => s' = s
    end) s.
Proof.
  intros Hinv Hp. unfold cancel, deref, store, erase.
  destruct (m_cb x) as [c|] eqn:Hc; unfold wp; unfold_M; rewrite Hp; simpl; rewrite Hc; simpl;
    [|by split_and!; [apply kept_refl|..]].
  set (x' := mk_timer _ _ _ None). set (h' := <[p := x']> (heap s)).
  assert (p ∈ m_timers s) as Hin by (eapply ok_armed; [done..| |set_solver]; congruence).
  assert (ok [] h' (m_timers s)) as Hok by by eapply ok_clear.
  destruct (find_sorted h' (m_timers s) p (ok_sorted _ _ _ Hok) Hin (ok_alloc _ _ _ Hok))
    as (i & -> & Hi). simpl.
  pose proof (ok_delete _ _ _ _ Hok Hi) as Hdel.
  assert (dead (set_timers (delete i (m_timers s)) (set_heap h' s)) p) as Hdead.
  { exists x'. simpl. split_and!; [apply lookup_insert_eq|done|].
    apply (ok_out _ _ _ Hdel). set_solver. }
  split_and!; [split|..]; try done.
  - eapply ok_drop; [done|]. intros y. simpl. unfold h'. rewrite lookup_insert_eq. by intros [= <-].
  - intros q Hq. destruct (decide (p = q)) as [<-|]; [done|].
    eapply dead_frame; [done|..]; simpl; [by apply lookup_insert_ne|apply elem_of_delete].
  - subst h'. simpl. apply set_eq. intros q. rewrite dom_insert. apply elem_of_dom_2 in Hp. set_solver.
  - by apply delete_perm.
Qed.

(** Taking a timer out of the set, changing it and putting it back. *)
Lemma rearm_kept s s' p x i :
  inv s → m_timers s !! i = Some p →
  heap s' = <[p := x]> (heap s) →
  m_timers s' = ins (heap s') (delete i (m_timers s)) p →
  kept s s' ∧ m_timers s' ≡ₚ m_timers s.
Proof.
  intros Hinv Hi Hh Hl. pose proof (ok_delete _ _ _ _ Hinv Hi) as Hdel.
  assert (m_timers s' ≡ₚ m_timers s) as HP
    by (rewrite Hl, ins_perm; symmetry; by apply delete_perm).
  split; [|done]. split.
  - unfold inv. rewrite Hl, Hh.
    apply ok_insert; [apply ok_store; [done|set_solver]|set_solver|].
    rewrite lookup_insert_eq; eauto.
  - intros q Hq. eapply dead_frame; [done|..].
    + rewrite Hh. apply lookup_insert_ne. intros ->. destruct Hq as (y & _ & _ & Hq).
      apply Hq. by eapply list_elem_of_lookup_2.
    + by rewrite HP.
Qed.

Lemma rearm_ok s p x i :
  inv s → m_timers s !! i = Some p →
  ok [p] (<[p := x]> (heap s)) (delete i (m_timers s)) ∧
  is_Some ((<[p := x]> (heap s) : heap_t) !! p).
Proof.
  intros Hinv Hi. split; [|rewrite lookup_insert_eq; eauto].
  apply ok_store; [by apply ok_delete|set_solver].
Qed.

Lemma armed_found s p x :
  inv s → heap s !! p = Some x → m_cb x ≠ None →
  ∃ i, find (heap s) (m_timers s) p = Some i ∧ m_timers s !! i = Some p.
Proof.
  intros Hinv Hp Hc. apply find_sorted; [apply Hinv| |apply Hinv].
  eapply ok_armed; [done..|set_solver].
Qed.

Lemma refresh_spec s p x now :
  inv s → heap s !! p = Some x →
  wp (refresh p now) (λ b s', kept s s' ∧ dom (heap s') = dom (heap s) ∧
    b = (if m_cb x then true else false) ∧
    match m_cb x with
    | Some _ =>
        heap s' = <[p := mk_timer (m_isRecur x) (m_ms x) (uint 64 (now + m_ms x)) (m_cb x)]> (heap s) ∧
        m_timers s' ≡ₚ m_timers s
    | None => s' = s
    end) s.
Proof.
  intros Hinv Hp. unfold refresh, deref, store, erase.
  destruct (m_cb x) as [c|] eqn:Hc; unfold wp; unfold_M; rewrite Hp; simpl; rewrite Hc; simpl;
    [|by split_and!; [apply kept_refl|..]].
  destruct (armed_found s p x) as (i & -> & Hi); [done..|congruence|]. simpl.
  destruct (rearm_ok s p (mk_timer (m_isRecur x) (m_ms x) (uint 64 (now + m_ms x)) (Some c)) i)
    as [Hok Hsome]; [done..|].
  destruct (ok_insert_set _ _ _ _ Hok Hsome) as [E1 _].
  match goal with |- kept _ ?s1 ∧ _ => set (s' := s1) end.
  destruct (rearm_kept s s' p _ i Hinv Hi eq_refl) as [Hk HP]; [exact E1|].
  split_and!; [exact Hk| |done|done|exact HP].
  simpl. apply set_eq. intros q. rewrite dom_insert. apply elem_of_dom_2 in Hp. set_solver.
Qed.

Lemma reset_spec s p x ms fn now :
  inv s → heap s !! p = Some x →
  wp (reset p ms fn now) (λ b s', kept s s' ∧ dom (heap s') = dom (heap s) ∧
    if (ms =? m_ms x) && negb fn then b = true ∧ s' = s else
    b = (if m_cb x then true else false) ∧
    match m_cb x with
    | Some _ =>
        let start := if fn then now else uint 64 (m_next x - m_ms x) in
        heap s' = <[p := mk_timer (m_isRecur x) ms (uint 64 (start + ms)) (m_cb x)]> (heap s) ∧
        m_timers s' ≡ₚ m_timers s
    | None => s' = s
    end) s.
Proof.
  intros Hinv Hp. unfold reset, deref, store. unfold wp; unfold_M. rewrite Hp. simpl.
  destruct ((ms =? m_ms x) && negb fn); [by split_and!; [apply kept_refl|..]|].
  destruct (m_cb x) as [c|] eqn:Hc; simpl; [|by split_and!; [apply kept_refl|..]].
  destruct (armed_found s p x) as (i & -> & Hi); [done..|congruence|]. simpl.
  set (start := if fn then now else _).
  destruct (rearm_ok s p (mk_timer (m_isRecur x) ms (uint 64 (start + ms)) (Some c)) i)
    as [Hok Hsome]; [done..|].
  match goal with |- context [addTimer_lock p ?s1] =>
    pose proof (addTimer_lock_spec [] s1 p) as Hadd end.
  specialize (Hadd Hok Hsome). apply wp_ok in Hadd as (a & s' & -> & Hh & Hl & _).
  simpl in Hh, Hl.
  destruct (rearm_kept s s' p _ i Hinv Hi Hh) as [Hk HP]; [by rewrite Hl, Hh|].
  split_and!; [exact Hk| |done|done|exact HP].
  rewrite Hh. apply set_eq. intros q. rewrite dom_insert. apply elem_of_dom_2 in Hp. set_solver.
Qed.

(** *** Expiry *)

(** A timer after it has expired at [now]. *)
Definition after (now : Z) (x : timer F W) : timer F W :=
  if m_isRecur x then mk_timer true (m_ms x) (uint 64 (now + m_ms x)) (m_cb x)
  else mk_timer false (m_ms x) (m_next x) None.

Definition recurring h p : bool := match h !! p with Some x => m_isRecur x | None => false end.
Definition callback_of h p : option (callback F W) := h !! p ≫= m_cb.
Definition is_due (rollover : bool) (now : Z) h p : bool :=
  rollover || match h !! p with Some x => m_next x <=? now | None => false end.

(** What the loop over the expired timers [E] does to the rest of the set. *)
Lemma expire_loop_spec now E s :
  NoDup E → ok E (heap s) (m_timers s) → (∀ p, p ∈ E → is_Some (heap s !! p)) →
  wp (expire_loop now E) (λ cs s',
    cs = callback_of (heap s) <$> E ∧ inv s' ∧
    (∀ q, heap s' !! q = if decide (q ∈ E) then after now <$> heap s !! q else heap s !! q) ∧
    m_timers s' ≡ₚ filter (λ p, recurring (heap s) p = true) E ++ m_timers s ∧
    m_previouseTime s' = m_previouseTime s) s.
Proof.
  revert s; induction E as [|p E IH]; intros s Hnd Hok Hall.
  { unfold wp. simpl. split_and!; try done. }
  apply NoDup_cons in Hnd as [Hp Hnd].
  destruct (Hall p) as [x Hx]; [set_solver|].
  simpl. apply wp_bind.
  assert (∃ s1, expire now p s = Ok (m_cb x) s1 ∧ ok E (heap s1) (m_timers s1) ∧
    heap s1 = <[p := after now x]> (heap s) ∧ m_previouseTime s1 = m_previouseTime s ∧
    m_timers s1 ≡ₚ (if m_isRecur x then [p] else []) ++ m_timers s)
    as (s1 & He & Hok1 & Hh1 & Hpr & Ht1).
  { unfold expire, deref, store. unfold_M. rewrite Hx. simpl. unfold after.
    destruct (m_isRecur x); simpl.
    - match goal with |- context [set_heap (<[p := ?y]> _) s] => set (x' := y) end.
      assert (ok (p :: E) (<[p := x']> (heap s)) (m_timers s)) as Hok' by (apply ok_store; [done|set_solver]).
      assert (is_Some ((<[p := x']> (heap s) : heap_t) !! p)) as Hs by (rewrite lookup_insert_eq; eauto).
      destruct (ok_insert_set _ _ _ _ Hok' Hs) as [E1 _].
      eexists. split_and!; [done| |done|done|].
      + simpl. rewrite E1. by apply ok_insert.
      + simpl. rewrite E1. apply ins_perm.
    - eexists. split_and!; [done| |done|done|done].
      eapply ok_drop; [apply ok_store; [done|set_solver]|].
      intros y. simpl. rewrite lookup_insert_eq. by intros [= <-]. }
  assert (∀ q, q ≠ p → heap s1 !! q = heap s !! q) as Hne
    by (intros q Hq; rewrite Hh1; by apply lookup_insert_ne).
  assert (∀ q, q ∈ E → q ≠ p) as Hqp by (intros q Hq ->; done).
  unfold wp at 1. rewrite He. apply wp_bind. eapply wp_mono; [apply (IH s1)|]; try done.
  { intros q Hq. rewrite Hne by auto. apply Hall. set_solver. }
  intros cs s' (-> & Hinv & Hh & Ht & Hpr'). unfold wp, mret, M_ret. split_and!; try done.
  - simpl. f_equal; [unfold callback_of; by rewrite Hx|].
    apply list_fmap_ext. intros i q Hq%list_elem_of_lookup_2. unfold callback_of. by rewrite Hne by auto.
  - intros q. rewrite Hh. destruct (decide (q = p)) as [->|Hq].
    + rewrite decide_False by done. rewrite decide_True by set_solver.
      rewrite Hh1, lookup_insert_eq, Hx. done.
    + rewrite Hne by done. destruct (decide (q ∈ E)); [rewrite decide_True by set_solver|rewrite decide_False by set_solver]; done.
  - rewrite Ht, Ht1, filter_cons.
    assert (recurring (heap s) p = m_isRecur x) as Hr by (unfold recurring; by rewrite Hx).
    assert (filter (λ q, recurring (heap s1) q = true) E = filter (λ q, recurring (heap s) q = true) E) as ->.
    { apply filter_agree. intros q Hq. unfold recurring. by rewrite Hne by auto. }
    rewrite Hr. destruct (m_isRecur x); simpl; [|done].
    symmetry. apply Permutation_middle.
  - congruence.
Qed.

#[local] Arguments is_due : simpl never.

Lemma is_due_at now h p x : h !! p = Some x → is_due false now h p = (m_next x <=? now).
Proof. intros Hx. unfold is_due. by rewrite Hx. Qed.

(** The loop that moves the iterator, on timers none of which is due before [now]. *)
Lemma skip_equal_spec h l now s :
  sorted h l → (∀ p, p ∈ l → ∃ x, h !! p = Some x ∧ now ≤ m_next x) →
  ∃ n, skip_equal h l now s = Ok n s ∧
    take n l = filter (λ p, is_due false now h p = true) l ∧
    drop n l = filter (λ p, is_due false now h p = false) l.
Proof.
  induction l as [|p l IH]; intros Hs Hl; [by exists 0%nat|]. simpl. unfold_M.
  destruct (Hl p) as (x & Hx & Hle); [set_solver|]. rewrite Hx. simpl.
  pose proof Hs as [Hs' Hall]%StronglySorted_inv.
  rewrite !filter_cons. cbv beta. rewrite !(is_due_at _ _ _ x Hx).
  destruct (Z.eqb_spec (m_next x) now) as [<-|Hne].
  - destruct IH as (n & -> & Ht & Hd); [done|intros; apply Hl; set_solver|].
    exists (S n)%nat. rewrite Z.leb_refl. simpl. by rewrite Ht.
  - exists 0%nat. replace (m_next x <=? now) with false by lia. simpl.
    split_and!; [done| |].
    + symmetry. apply filter_none. intros q Hq. 
      destruct (Hl q) as (y & Hy & _); [set_solver|]. rewrite (is_due_at _ _ _ y Hy).
      rewrite Forall_forall in Hall. specialize (Hall q Hq).
      rewrite less_spec in Hall by done. lia.
    + f_equal. symmetry. apply filter_all. intros q Hq. 
      destruct (Hl q) as (y & Hy & _); [set_solver|]. rewrite (is_due_at _ _ _ y Hy).
      rewrite Forall_forall in Hall. specialize (Hall q Hq).
      rewrite less_spec in Hall by done. lia.
Qed.

(** The binary search and the loop together find the timers that are due. *)
Lemma due_prefix h l q now s :
  sorted h l → (∀ p, p ∈ l → is_Some (h !! p)) →
  let it0 := lower_bound h l (Some (q, now)) in
  ∃ n, skip_equal h (drop it0 l) now s = Ok n s ∧
    take (it0 + n) l = filter (λ p, is_due false now h p = true) l ∧
    drop (it0 + n) l = filter (λ p, is_due false now h p = false) l.
Proof.
  induction l as [|p l IH]; intros Hs Hl; [by exists 0%nat|]. cbn zeta.
  destruct (Hl p) as (x & Hx); [set_solver|].
  pose proof Hs as [Hs' Hall]%StronglySorted_inv.
  cbn [lower_bound]. rewrite (entry_at _ _ _ Hx).
  destruct (Comparator _ _) eqn:E.
  - simpl. destruct IH as (n & He & Ht & Hd); [done|intros; apply Hl; set_solver|].
    exists n. rewrite !filter_cons. cbv beta. rewrite !(is_due_at _ _ _ x Hx).
    apply Comparator_spec in E. replace (m_next x <=? now) with true by lia.
    simpl. by rewrite Ht, Hd.
  - apply (skip_equal_spec h (p :: l)); [done|]. intros r Hr.
    assert (now ≤ m_next x) as Hle.
    { apply not_true_iff_false in E. rewrite Comparator_spec in E. lia. }
    destruct (Hl r) as [y Hy]; [done|]. exists y. split; [done|].
    apply elem_of_cons in Hr as [->|Hr]; [congruence|].
    rewrite Forall_forall in Hall. specialize (Hall r Hr). rewrite less_spec in Hall by done. lia.
Qed.

(** The clock is taken to have been set back when it is behind the previous
    reading by more than an hour, or at all within the first hour. *)
Definition rolled (now prev : Z) : bool :=
  (now <? prev) && ((prev <? 3600000) || (now + 3600000 <? prev)).

Lemma detectClockRollover_spec s now :
  in_uint 64 (m_previouseTime s) → in_uint 64 now →
  detectClockRollover now s = Ok (rolled now (m_previouseTime s)) (set_previous now s).
Proof.
  intros Hp Hn. unfold detectClockRollover. unfold_M. f_equal. unfold rolled.
  destruct (Z.ltb_spec now (m_previouseTime s)); [|done]. simpl. unfold in_uint in *.
  destruct (Z.ltb_spec (m_previouseTime s) 3600000); simpl.
  - replace (uint 64 _) with (m_previouseTime s - 3600000 + 2 ^ 64); [lia|].
    unfold uint. apply (Z.mod_unique _ _ (-1)); lia.
  - rewrite uint_id by (unfold in_uint; lia). lia.
Qed.

(** The timers that expire, first the one that is due first. *)
Definition fired (s : st) (now : Z) : list Z :=
  filter (λ p, is_due (rolled now (m_previouseTime s)) now (heap s) p = true) (m_timers s).

Lemma take_fired h l n roll now :
  take n l = filter (λ p, is_due roll now h p = true) l →
  drop n l = filter (λ p, is_due roll now h p = false) l →
  filter (λ p, recurring h p = true) (take n l) ++ drop n l
  = filter (λ p, is_due roll now h p = false ∨ recurring h p = true) l.
Proof.
  intros Ht Hd. rewrite <-(take_drop n l) at 3. rewrite filter_app. f_equal.
  - apply filter_agree. intros p Hp. rewrite Ht in Hp.
    apply list_elem_of_filter in Hp as [Hp _]. rewrite Hp. naive_solver.
  - symmetry. apply filter_all. intros p Hp. rewrite Hd in Hp.
    apply list_elem_of_filter in Hp as [Hp _]. by left.
Qed.

Lemma listExpired_spec s q now cbs :
  inv s → in_uint 64 (m_previouseTime s) → in_uint 64 now →
  wp (listExpiredCbs q now cbs) (λ r s',
    r = cbs ++ (callback_of (heap s) <$> fired s now) ∧ inv s' ∧
    (∀ p, heap s' !! p = if decide (p ∈ fired s now) then after now <$> heap s !! p
                         else heap s !! p) ∧
    m_timers s' ≡ₚ filter (λ p, is_due (rolled now (m_previouseTime s)) now (heap s) p = false
                               ∨ recurring (heap s) p = true) (m_timers s) ∧
    in_uint 64 (m_previouseTime s')) s.
Proof.
  intros Hinv Hprev Hnow. unfold listExpiredCbs, fired.
  apply wp_bind. unfold wp at 1, get.
  destruct (m_timers s) as [|p0 l0] eqn:Hl.
  { unfold wp, mret, M_ret. rewrite !filter_nil. split_and!; [by rewrite app_nil_r|done| |by rewrite Hl|done].
    intros p. by rewrite decide_False by set_solver. }
  apply wp_bind. unfold wp at 1. rewrite detectClockRollover_spec by done.
  set (roll := rolled now (m_previouseTime s)). rewrite <-Hl.
  destruct (ok_alloc _ _ _ Hinv p0) as [x0 Hx0]; [rewrite Hl; set_solver|].
  apply wp_bind. unfold wp at 1. rewrite (deref_at (set_previous now s) p0 x0 Hx0).
  pose proof (ok_sorted _ _ _ Hinv) as Hs. pose proof (ok_alloc _ _ _ Hinv) as Hal.
  destruct (negb roll && (now <? m_next x0)) eqn:E.
  - apply andb_true_iff in E as [Hroll%negb_true_iff E]. rewrite Hroll.
    assert (∀ p, p ∈ m_timers s → is_due false now (heap s) p = false) as Hnone.
    { rewrite Hl in *. apply StronglySorted_inv in Hs as [_ Hall].
      intros p Hp. destruct (Hal p Hp) as [y Hy]. rewrite (is_due_at _ _ _ y Hy).
      apply elem_of_cons in Hp as [->|Hp]; [simplify_eq; lia|].
      rewrite Forall_forall in Hall. specialize (Hall p Hp). rewrite less_spec in Hall by done. lia. }
    rewrite filter_none by (intros p Hp; rewrite Hnone by done; done).
    unfold wp, mret, M_ret. split_and!; [by rewrite app_nil_r|done| | |done].
    + intros p. case_decide; [set_solver|done].
    + rewrite filter_all; [done|]. intros p Hp. left. by apply Hnone.
  - clear E Hl.
    set (it0 := if roll then length (m_timers s)
                else lower_bound (heap s) (m_timers s) (Some (q, now))).
    assert (∃ n, skip_equal (heap s) (drop it0 (m_timers s)) now (set_previous now s)
                 = Ok n (set_previous now s) ∧
      take (it0 + n) (m_timers s) = filter (λ p, is_due roll now (heap s) p = true) (m_timers s) ∧
      drop (it0 + n) (m_timers s) = filter (λ p, is_due roll now (heap s) p = false) (m_timers s))
      as (n & Hn & Ht & Hd).
    { destruct roll; subst it0.
      - exists 0%nat. rewrite drop_all, Nat.add_0_r, take_ge, drop_all by done.
        split_and!; try done; symmetry;
          first [by apply filter_all|by apply filter_none].
      - by apply due_prefix. }
    apply wp_bind. unfold wp at 1, get. cbv zeta. cbn [m_timers heap set_previous]. fold it0.
    apply wp_bind. unfold wp at 1. rewrite Hn. apply wp_bind. unfold wp at 1, put. apply wp_bind.
    eapply wp_mono; [apply expire_loop_spec; simpl|].
    + apply (sorted_NoDup (heap s)). rewrite <-(take_drop (it0 + n) (m_timers s)) in Hs.
      unfold sorted in Hs. by apply StronglySorted_app in Hs as (_ & ? & _).
    + by apply ok_cut.
    + intros p Hp. apply Hal. rewrite Ht in Hp. by apply list_elem_of_filter in Hp as [_ ?].
    + simpl. intros cs s' (-> & Hinv' & Hh & Hm & Hpr). unfold wp, mret, M_ret.
      rewrite <-Ht. split_and!; try done.
      * rewrite Hm. by rewrite (take_fired _ _ _ roll now).
      * by rewrite Hpr.
Qed.
End run.
