(* ===== verification/TimerProps.v ===== *)
(** The properties of [timer.cc]: no sequence of requests faults, expiry is
    exact and ordered, cancelled and finished timers stay silent, and when a
    new timer wakes the waiting loop. *)
From stdpp Require Import base list numbers option gmap sorting.
From Stdlib Require Import ZArith Lia.
From S2P Require Import Prelude Timer TimerFacts TimerRun.
Import Timer.
Local Open Scope Z_scope.

Section props.
Context {F W : Type}.
Abbreviation heap_t := (gmap Z (timer F W)).
Abbreviation st := (t F W).
Abbreviation req := (request F W).
Implicit Types (h : heap_t) (l : list Z) (s : st) (p q : Z).

(** A request is possible when it names an existing timer, or puts a new one
    at an address that is not in use. *)
Definition possible (d : gset Z) (r : req) : Prop :=
  match r with
  | AddTimer p _ _ _ | AddCondTimer p _ _ _ _ => p ∉ d
  | Cancel p | Refresh p | Reset p _ _ => p ∈ d
  | NextTime | ListExpired _ => True
  end.

Definition allocates (r : req) : gset Z :=
  match r with
  | AddTimer p _ _ _ | AddCondTimer p _ _ _ _ => {[p]}
  | _ => ∅
  end.

Fixpoint valid (d : gset Z) (rs : list (Z * req)) : Prop :=
  match rs with
  | [] => True
  | (now, r) :: rs' => in_uint 64 now ∧ possible d r ∧ valid (allocates r ∪ d) rs'
  end.

(** The state between two requests. *)
Definition good s : Prop := inv s ∧ in_uint 64 (m_previouseTime s).

(** Only [listExpiredCbs] moves the time of the last reading. *)
Lemma previous_kept (r : req) now s :
  (∀ q, r ≠ ListExpired q) →
  wp (serve now r) (λ _ s', True) s →
  wp (serve now r) (λ _ s', m_previouseTime s' = m_previouseTime s) s.
Proof.
  intros Hr. destruct r; try (by edestruct Hr); unfold serve, addCondTimer; simpl.
  all: unfold wp, fmap, M_fmap, addTimer, cancel, refresh, reset, getTimeOfNextTimer,
    Timer_new, addTimer_lock, erase, deref, store; unfold_M; cbn [heap set_heap set_timers m_timers].
  all: repeat (case_match; simplify_eq/=; try done).
Qed.

Lemma getTime_frame now s :
  inv s →
  wp (getTimeOfNextTimer now) (λ d s',
    heap s' = heap s ∧ m_timers s' = m_timers s ∧ notified s' = notified s ∧
    m_tickled s' = match m_timers s with [] => m_tickled s | _ => false end ∧
    d = match m_timers s with
        | [] => no_timer
        | p :: _ => match heap s !! p with
                    | Some x => Z.max 0 (m_next x - now)
                    | None => 0
                    end
        end) s.
Proof.
  intros Hinv. unfold wp, getTimeOfNextTimer, deref, derefM. unfold_M.
  destruct (m_timers s) as [|p l] eqn:Hl; [by rewrite Hl|]. simpl.
  destruct (ok_alloc _ _ _ Hinv p) as [x Hx]; [rewrite Hl; set_solver|]. rewrite Hx. simpl.
  destruct (Z.leb_spec (m_next x) now); split_and!; try done; lia.
Qed.

Lemma after_dead now s s' p :
  dead s p → inv s →
  (∀ q, heap s' !! q = if decide (q ∈ fired s now) then after now <$> heap s !! q else heap s !! q) →
  m_timers s' ≡ₚ filter (λ q, is_due (rolled now (m_previouseTime s)) now (heap s) q = false
                              ∨ recurring (heap s) q = true) (m_timers s) →
  dead s' p.
Proof.
  intros Hd Hinv Hh Hm. pose proof Hd as (x & Hx & Hc & Hp). eapply dead_frame; [done|..].
  - rewrite Hh, decide_False; [done|]. unfold fired. rewrite list_elem_of_filter. tauto.
  - rewrite Hm, list_elem_of_filter. tauto.
Qed.

(** Every possible request runs, keeps the invariant and revives no timer. *)
Lemma serve_spec now r s :
  good s → in_uint 64 now → possible (dom (heap s)) r →
  wp (serve now r) (λ _ s', good s' ∧ dom (heap s') = allocates r ∪ dom (heap s) ∧
    ∀ p, dead s p → dead s' p) s.
Proof.
  intros [Hinv Hprev] Hnow Hposs.
  assert ((∃ q, r = ListExpired q) ∨ ∀ q, r ≠ ListExpired q) as [[q ->]|Hne]
    by (destruct r; eauto).
  { simpl. apply wp_fmap. eapply wp_mono; [by apply listExpired_spec|]. simpl.
    intros cs s' (_ & Hinv' & Hh & Hm & Hp). split_and!; [done| |].
    - rewrite union_empty_l_L. apply set_eq. intros p. rewrite !elem_of_dom, Hh.
      case_decide; [by rewrite fmap_is_Some|done].
    - intros p Hd. by eapply after_dead. }
  assert (wp (serve now r) (λ _ s', kept s s' ∧ dom (heap s') = allocates r ∪ dom (heap s)) s) as Hk.
  { destruct r; simpl in *; try apply wp_fmap.
    - eapply wp_mono; [apply addTimer_spec; [done|by apply not_elem_of_dom]|].
      intros a s' (_ & Hk & -> & _). by rewrite dom_insert_L.
    - unfold addCondTimer. eapply wp_mono; [apply addTimer_spec; [done|by apply not_elem_of_dom]|].
      intros a s' (_ & Hk & -> & _). by rewrite dom_insert_L.
    - apply elem_of_dom in Hposs as [x Hx]. rewrite union_empty_l_L.
      eapply wp_mono; [by apply cancel_spec|]. simpl. tauto.
    - apply elem_of_dom in Hposs as [x Hx]. rewrite union_empty_l_L.
      eapply wp_mono; [by apply refresh_spec|]. simpl. tauto.
    - apply elem_of_dom in Hposs as [x Hx]. rewrite union_empty_l_L.
      eapply wp_mono; [by apply reset_spec|]. simpl. tauto.
    - rewrite union_empty_l_L. eapply wp_mono; [by apply getTime_frame|]. simpl.
      intros d s' (Hh & Hm & _). rewrite Hh. split; [|done].
      split; [unfold inv; by rewrite Hh, Hm|].
      intros p Hp. eapply dead_frame; [done|by rewrite Hh|by rewrite Hm].
    - edestruct Hne; eauto. }
  assert (wp (serve now r) (λ _ s', m_previouseTime s' = m_previouseTime s) s) as Hp.
  { apply previous_kept; [done|]. by eapply wp_mono. }
  eapply wp_mono; [apply (wp_and _ _ _ _ Hk Hp)|]. simpl.
  intros a s' [[[Hi Hd] Hdom] Hpr]. unfold good. by rewrite Hpr.
Qed.

Lemma serve_all_spec rs s :
  good s → valid (dom (heap s)) rs →
  wp (serve_all rs) (λ a s', good s' ∧ length a = length rs ∧ ∀ p, dead s p → dead s' p) s.
Proof.
  revert s; induction rs as [|[now r] rs IH]; intros s Hs Hv; [done|].
  destruct Hv as (Hnow & Hposs & Hv). simpl. apply wp_bind.
  eapply wp_mono; [by apply serve_spec|]. intros a s1 (Hg & Hdom & Hd). simpl.
  apply wp_bind. eapply wp_mono; [apply IH; [done|by rewrite Hdom]|].
  intros l s2 (Hg2 & Hlen & Hd2). unfold wp, mret, M_ret. simpl. naive_solver.
Qed.

Lemma sorted_filter h (P : Z → Prop) `{∀ p, Decision (P p)} l :
  sorted h l → sorted h (filter P l).
Proof.
  unfold sorted. induction 1 as [|p l Hs IH Hall]; [constructor|].
  rewrite filter_cons. case_decide; [|done]. constructor; [done|].
  rewrite Forall_forall in *. intros q [_ Hq]%list_elem_of_filter. auto.
Qed.

Lemma new_good now : in_uint 64 now → good (new now : st).
Proof. intros. split; [apply ok_nil|done]. Qed.

Lemma cancel_good s p : good s → p ∈ dom (heap s) → wp (cancel p) (λ _ s', good s') s.
Proof.
  intros Hs Hp. apply (wp_fmap_inv (@ABool F W) _ (λ _ s', good s')).
  eapply wp_mono; [apply (serve_spec 0 (Cancel p)); done|]. naive_solver.
Qed.

(** C5. From a new manager, every sequence of requests on existing timers runs
    to its end, whatever the clock shows: in particular cancel never erases the
    end iterator. After every prefix the set is ordered, has no duplicates and
    contains every timer that still has a callback. *)
Theorem timers_run_safely (now0 : Z) (rs : list (Z * req)) :
  in_uint 64 now0 → valid ∅ rs →
  wp (serve_all rs) (λ answers s',
    length answers = length rs ∧ NoDup (m_timers s') ∧
    StronglySorted (λ p q, less (heap s') p q = true) (m_timers s') ∧
    ∀ p x, heap s' !! p = Some x → m_cb x ≠ None → p ∈ m_timers s') (new now0).
Proof.
  intros Hnow Hv. eapply wp_mono; [apply serve_all_spec; [by apply new_good|]|].
  - simpl. by rewrite dom_empty_L.
  - intros a s' ([Hinv _] & Hlen & _). split_and!; [done| |apply Hinv|].
    + eapply sorted_NoDup, Hinv.
    + intros p x Hx Hc. eapply ok_armed; [exact Hinv|done..|set_solver].
Qed.

(** C6. listExpiredCbs appends exactly the callbacks of the timers that are due
    (all of them when the clock went back by more than an hour), the earliest
    first; one-shot timers lose their callback and leave the set, recurring ones
    stay with a new deadline, and no other timer changes. *)
Theorem listExpired_exact (s : st) (q now : Z) (cbs : list (option (callback F W))) :
  good s → in_uint 64 now →
  wp (listExpiredCbs q now cbs) (λ r s',
    r = cbs ++ (callback_of (heap s) <$> fired s now) ∧
    StronglySorted (λ p q, less (heap s) p q = true) (fired s now) ∧
    (∀ p x, heap s !! p = Some x →
      (p ∈ fired s now ↔
        p ∈ m_timers s ∧ (rolled now (m_previouseTime s) = true ∨ m_next x ≤ now)) ∧
      heap s' !! p = Some (if decide (p ∈ fired s now) then after now x else x) ∧
      (p ∈ m_timers s' ↔ p ∈ m_timers s ∧ (p ∈ fired s now → m_isRecur x = true))) ∧
    good s') s.
Proof.
  intros [Hinv Hprev] Hnow. eapply wp_mono; [by apply listExpired_spec|]. simpl.
  intros r s' (-> & Hinv' & Hh & Hm & Hpr).
  split_and!; [done|by apply sorted_filter, Hinv| |done].
  intros p x Hx.
  assert (is_due (rolled now (m_previouseTime s)) now (heap s) p = true ↔
    rolled now (m_previouseTime s) = true ∨ m_next x ≤ now) as Hdue.
  { unfold is_due. rewrite Hx. by rewrite orb_true_iff, Z.leb_le. }
  split_and!.
  - unfold fired. rewrite list_elem_of_filter, Hdue. tauto.
  - rewrite Hh, Hx. by case_decide.
  - rewrite Hm. unfold fired. rewrite !list_elem_of_filter. unfold recurring. rewrite Hx.
    destruct (is_due _ _ _ p); naive_solver.
Qed.

(** A timer that was cancelled, or a one-shot timer that has fired, never
    fires again: whatever is requested afterwards, it is not in the set, and
    cancel and refresh refuse it. *)
Theorem finished_timers_stay_silent (s : st) (p : Z) (x : timer F W) (q now now' : Z)
    (rs : list (Z * req)) :
  good s → in_uint 64 now → in_uint 64 now' → heap s !! p = Some x → m_cb x ≠ None →
  valid (dom (heap s)) rs →
  let silent s' := p ∉ fired s' now' ∧ p ∉ m_timers s' ∧ cancel p s' = Ok false s' ∧
                   refresh p now' s' = Ok false s' in
  wp (b ← cancel p; _ ← serve_all rs; mret b) (λ b s', b = true ∧ silent s') s ∧
  (p ∈ fired s now → m_isRecur x = false →
   wp (_ ← listExpiredCbs q now []; serve_all rs) (λ _ s', silent s') s).
Proof.
  intros [Hinv Hprev] Hnow Hnow' Hx Hc Hv silent.
  assert (∀ s', dead s' p → silent s') as Hdead.
  { intros s' (y & Hy & Hcy & Hp). unfold silent, fired. rewrite list_elem_of_filter.
    unfold cancel, refresh, deref, derefM. unfold_M. rewrite Hy. simpl. rewrite Hcy. tauto. }
  split.
  - apply wp_bind. eapply wp_mono.
    { apply (wp_and _ _ (λ _ s1, good s1) _ (cancel_spec s p x Hinv Hx)), cancel_good; [done|].
      by eapply elem_of_dom_2. }
    simpl. intros b s1 ((_ & Hdom & -> & Hd) & Hg).
    destruct (m_cb x); [|done]. destruct Hd as [Hd _]. apply wp_bind.
    eapply wp_mono; [apply serve_all_spec; [done|by rewrite Hdom]|].
    intros a s2 (_ & _ & Hd2). split; [done|]. auto.
  - intros Hf Hr. apply wp_bind. eapply wp_mono.
    { by apply listExpired_spec. }
    simpl. intros cs s1 (_ & Hi1 & Hh & Hm & Hp1).
    assert (dom (heap s1) = dom (heap s)) as Hdom.
    { apply set_eq. intros r. rewrite !elem_of_dom, Hh. case_decide; [by rewrite fmap_is_Some|done]. }
    eapply wp_mono; [apply serve_all_spec; [done|]|].
    { rewrite Hdom. done. }
    intros a s2 (_ & _ & Hd2). apply Hdead, Hd2.
    exists (after now x). unfold after. rewrite Hh, decide_True, Hx by done. rewrite Hr.
    split_and!; [unfold after; simpl; by rewrite Hr|done|].
    rewrite Hm, list_elem_of_filter. unfold recurring. rewrite Hx, Hr.
    unfold fired in Hf. apply list_elem_of_filter in Hf as [Hf _]. rewrite Hf. naive_solver.
Qed.

(** C7. getTimeOfNextTimer returns the time until the first timer is due, and a
    timer added afterwards notifies the waiting loop exactly when it became the
    first one - unless the set was empty while a notification was pending: then
    the flag stays set and the loop is not woken. *)
Theorem wakeup_of_waiter (s : st) (p ms : Z) (cb : option (callback F W)) (rec : bool)
    (now now' : Z) :
  good s → heap s !! p = None →
  wp (d ← getTimeOfNextTimer now; _ ← addTimer p ms cb rec now'; mret d) (λ d s',
    d = match head (m_timers s) ≫= λ q, heap s !! q with
        | Some x => Z.max 0 (m_next x - now)
        | None => no_timer
        end ∧
    notified s' = (notified s +
      if decide (m_timers s = [] ∧ m_tickled s = true) then 0
      else if decide (head (m_timers s') = Some p) then 1 else 0)%nat) s.
Proof.
  intros [Hinv _] Hp. apply wp_bind. eapply wp_mono; [by apply getTime_frame|].
  intros d s1 (Hh & Hm & Hn & Htk & ->).
  apply wp_bind. unfold addTimer. apply wp_bind. unfold wp at 1, Timer_new, store, modify.
  set (h' := <[p := _]> (heap s1)). apply wp_bind. 
  assert (ok [p] h' (m_timers s1)) as Hok.
  { apply ok_store, list_elem_of_here. rewrite Hh, Hm. by apply ok_fresh. }
  assert (is_Some (h' !! p)) as Hsome by (subst h'; rewrite lookup_insert_eq; eauto).
  eapply wp_mono; [by apply (addTimer_lock_spec [] (set_heap h' s1))|].
  simpl. intros _ s' (_ & Hm' & Hn' & _). unfold wp, mret, M_ret. simpl.
  split.
  { destruct (m_timers s) as [|q l] eqn:E; simpl; [done|].
    destruct (ok_alloc _ _ _ Hinv q) as [x ->]; [rewrite E; set_solver|done]. }
  rewrite Hn', Hn, Htk, Hm', Hm. clear -Hinv Hp.
  destruct (m_timers s) as [|q l] eqn:E; simpl.
  - destruct (m_tickled s); simpl; repeat case_decide; naive_solver lia.
  - change (Comparator (entry h' q) (entry h' p)) with (less h' q p).
    assert (q ≠ p) as Hqp.
    { intros ->. destruct (ok_alloc _ _ _ Hinv p) as [x ?]; [rewrite E; set_solver|congruence]. }
    destruct (less h' q p); simpl; repeat case_decide; naive_solver lia.
Qed.
End props.

(** A run with one callback body; the second timer's notification is lost. *)
Definition example_run : list (Z * request unit unit) :=
  [(1000, AddTimer 64 100 (Some (Plain tt)) false); (1001, AddTimer 32 50 (Some (Plain tt)) true);
   (1050, ListExpired 8); (1060, Reset 64 10 true); (1070, ListExpired 8); (1080, Cancel 32);
   (1081, NextTime); (1090, AddTimer 16 5 (Some (Plain tt)) false)].

Lemma timers_run_safely_witness :
  valid ∅ example_run ∧
  wp (serve_all example_run) (λ answers s',
    length answers = length example_run ∧ NoDup (m_timers s') ∧
    StronglySorted (λ p q, less (heap s') p q = true) (m_timers s') ∧
    ∀ p x, heap s' !! p = Some x → m_cb x ≠ None → p ∈ m_timers s') (new 0).
Proof.
  assert (valid ∅ example_run) as Hv.
  { unfold example_run, valid, possible, allocates, in_uint. split_and!; try lia; set_solver. }
  split; [exact Hv|]. apply (timers_run_safely 0 example_run); [unfold in_uint; lia|exact Hv].
Defined.

(** Two timers, of which one is due. *)
Definition example_state : t unit unit :=
  mk {[1 := mk_timer true 10 20 (Some (Plain tt)); 2 := mk_timer false 30 30 (Some (Bound tt tt))]}
    [1; 2] true 5 1.

Lemma example_good : good example_state.
Proof.
  split; [|unfold in_uint; simpl; lia]. split; simpl.
  - repeat constructor.
  - intros p Hp. assert (p = 1 ∨ p = 2) as [->| ->] by set_solver; eauto.
  - intros p x Hx _ _.
    destruct (decide (p = 1)) as [->|H1]; [set_solver|].
    destruct (decide (p = 2)) as [->|H2]; [set_solver|].
    rewrite lookup_insert_ne, lookup_singleton_ne in Hx by done. done.
  - set_solver.
Qed.

Lemma listExpired_exact_witness :
  ∃ cs s', listExpiredCbs 7 25 [] example_state = Ok cs s' ∧ cs = [Some (Plain tt)] ∧
    m_timers s' = [2; 1] ∧ good s'.
Proof.
  pose proof (listExpired_exact example_state 7 25 [] example_good) as H.
  assert (in_uint 64 25) as Hu by (unfold in_uint; lia).
  specialize (H Hu). apply wp_ok in H as (cs & s' & He & Hcs & _ & _ & Hg).
  exists cs, s'. vm_compute in He. injection He as <- <-. done.
Defined.

Lemma finished_timers_stay_silent_witness :
  let rs := [(31, Refresh 2); (32, ListExpired 9)] in
  wp (b ← cancel 2; _ ← serve_all rs; mret b) (λ b s', b = true ∧
    (2 ∉ fired s' 40 ∧ 2 ∉ m_timers s' ∧ cancel 2 s' = Ok false s' ∧
     refresh 2 40 s' = Ok false s')) example_state.
Proof.
  cbv zeta. apply (finished_timers_stay_silent example_state 2
    (mk_timer false 30 30 (Some (Bound tt tt))) 9 31 40); try done; try apply example_good.
Defined.

Lemma wakeup_of_waiter_witness :
  wp (d ← getTimeOfNextTimer 15; _ ← addTimer 3 1 None false 16; mret d)
    (λ d s', d = 5 ∧ notified s' = 2%nat) example_state ∧
  wp (serve_all [(1000, AddTimer 1 100 (Some (Plain tt)) false); (1001, Cancel 1);
                 (1002, NextTime); (1003, AddTimer 2 5 (Some (Plain tt)) false)])
    (λ a s', a !! 2%nat = Some (ATime no_timer) ∧ m_timers s' = [2] ∧ notified s' = 1%nat)
    (new 0 : t unit unit).
Proof.
  split; [|by vm_compute].
  assert (heap example_state !! 3 = None) as H3 by reflexivity.
  pose proof (wakeup_of_waiter example_state 3 1 None false 15 16 example_good H3) as H.
  apply wp_ok in H as (d & s' & He & Hd & Hn). rewrite wp_ok. exists d, s'.
  split; [exact He|]. vm_compute in He. injection He as <- <-. done.
Defined.
