(* ===== verification/Fiber.v ===== *)
(** Coroutines: [fiber.h] and [fiber.cc].

    Module [Fiber] models the fibers of a process and the fiber-related
    variables of one thread. [swapcontext] into a fiber runs its code until that
    code swaps out again; what user code does between two switches is given by a
    script, the list of the ways in which it gives up the processor. A context
    is the entry function, the point behind the switch it was saved in, or the
    end of the entry function, where only the assertion "never reach" follows. *)
From stdpp Require Import base list numbers option gmap.
From Stdlib Require Import ZArith Lia.
From S2P Require Import Prelude.

Module Fiber.
Local Open Scope Z_scope.

Inductive State := INIT | HOLD | EXEC | TERM | READY | EXCEPT.
#[global] Instance State_eq_dec : EqDecision State.
Proof. solve_decision. Defined.

(** How user code gives up the processor: [YieldToReady], [YieldToHold],
    [swapOut] without a change of state (the idle fibers), an exception. A
    script that is used up returns. *)
Inductive action := DoYieldToReady | DoYieldToHold | DoSwapOut | DoThrow.
Definition script := list action.

Inductive context :=
| Entry (use_caller : bool)
| At (rest : script) (use_caller : bool)
| Ended
| Unsaved.

Record fiber := mk_fiber {
  m_id : Z;
  m_stacksize : Z;
  m_state : State;
  m_ctx : context;
  m_stack : option Z;
  m_cb : option script
}.

Definition set_state v f := mk_fiber (m_id f) (m_stacksize f) v (m_ctx f) (m_stack f) (m_cb f).
Definition set_ctx v f := mk_fiber (m_id f) (m_stacksize f) (m_state f) v (m_stack f) (m_cb f).
Definition set_cb v f := mk_fiber (m_id f) (m_stacksize f) (m_state f) (m_ctx f) (m_stack f) v.

(** The fibers by address, the counters, the stacks handed out by [malloc] and
    not given back, and the thread-local pointers. *)
Record t := mk {
  fibers : gmap Z fiber;
  s_fiber_id : Z;
  s_fiber_count : Z;
  stacks : gmap Z Z;
  t_fiber : option Z;
  t_threadFiber : option Z;
  t_scheduler_fiber : option Z
}.

Definition set_fibers v s := mk v (s_fiber_id s) (s_fiber_count s) (stacks s)
  (t_fiber s) (t_threadFiber s) (t_scheduler_fiber s).
Definition set_stacks v s := mk (fibers s) (s_fiber_id s) (s_fiber_count s) v
  (t_fiber s) (t_threadFiber s) (t_scheduler_fiber s).
Definition set_count v s := mk (fibers s) (s_fiber_id s) v (stacks s)
  (t_fiber s) (t_threadFiber s) (t_scheduler_fiber s).
Definition set_id v s := mk (fibers s) v (s_fiber_count s) (stacks s)
  (t_fiber s) (t_threadFiber s) (t_scheduler_fiber s).

Definition SetThis (f : option Z) : M t unit :=
  modify (λ s, mk (fibers s) (s_fiber_id s) (s_fiber_count s) (stacks s)
                  f (t_threadFiber s) (t_scheduler_fiber s)).
Definition set_threadFiber (f : option Z) : M t unit :=
  modify (λ s, mk (fibers s) (s_fiber_id s) (s_fiber_count s) (stacks s)
                  (t_fiber s) f (t_scheduler_fiber s)).
Definition set_schedulerFiber (f : option Z) : M t unit :=
  modify (λ s, mk (fibers s) (s_fiber_id s) (s_fiber_count s) (stacks s)
                  (t_fiber s) (t_threadFiber s) f).

Definition deref (p : Z) : M t fiber := s ← get; derefM (fibers s !! p).
Definition update (p : Z) (g : fiber → fiber) : M t unit :=
  modify (λ s, set_fibers (alter g p (fibers s)) s).
Definition getState (p : Z) : M t State := f ← deref p; mret (m_state f).

(** *** MallocStackAllocator *)
Definition Alloc (stk size : Z) : M t (option Z) :=
  _ ← modify (λ s, set_stacks (<[stk := size]> (stacks s)) s); mret (Some stk).

(** [free] is guarded by [if(!ptr)]. *)
Definition Dealloc (ptr : option Z) (size : Z) : M t unit :=
  match ptr with
  | None => mret tt
  | Some _ => mret tt
  end.

(** *** Constructors, at a new address [p] *)
Definition Fiber_main (p : Z) : M t unit :=
  _ ← modify (λ s, set_fibers (<[p := mk_fiber 0 0 EXEC Unsaved None None]> (fibers s)) s);
  _ ← SetThis (Some p);
  modify (λ s, set_count (s_fiber_count s + 1) s).

(** [g_fiber_config] is the configured stack size, [stk] the address [malloc] returns. *)
Definition Fiber_new (g_fiber_config p stk : Z) (cb : option script) (stacksize : Z)
    (use_caller : bool) : M t unit :=
  _ ← modify (λ s, set_id (s_fiber_id s + 1) s);
  s ← get;
  let size := if stacksize =? 0 then g_fiber_config else stacksize in
  st ← Alloc stk size;
  _ ← modify (λ s, set_count (s_fiber_count s + 1) s);
  modify (λ s', set_fibers
    (<[p := mk_fiber (s_fiber_id s) size INIT (Entry use_caller) st cb]> (fibers s')) s').

Definition resettable (v : State) : bool :=
  match v with TERM | EXCEPT | INIT => true | _ => false end.

(** *** Fiber::~Fiber *)
Definition destroy (p : Z) : M t unit :=
  f ← deref p;
  _ ← modify (λ s, set_count (s_fiber_count s - 1) s);
  _ ← (match m_stack f with
       | Some _ =>
           _ ← assertM (resettable (m_state f)); Dealloc (m_stack f) (m_stacksize f)
       | None =>
           _ ← assertM (match m_cb f with None => true | Some _ => false end);
           _ ← assertM (bool_decide (m_state f = EXEC));
           s ← get;
           if bool_decide (t_fiber s = Some p) then SetThis None else mret tt
       end);
  modify (λ s, set_fibers (delete p (fibers s)) s).

(** *** Fiber::reset *)
Definition reset (p : Z) (cb : option script) : M t unit :=
  f ← deref p;
  _ ← assertM (match m_stack f with Some _ => true | None => false end);
  _ ← assertM (resettable (m_state f));
  update p (λ f, mk_fiber (m_id f) (m_stacksize f) INIT (Entry false) (m_stack f) cb).

(** *** Fiber::GetThis, at the address a new main fiber would get *)
Definition GetThis (fresh : Z) : M t Z :=
  s ← get;
  match t_fiber s with
  | Some p => mret p
  | None =>
      _ ← Fiber_main fresh;
      _ ← set_threadFiber (Some fresh);
      mret fresh
  end.

(** *** Switching away from the running fiber

    [swapOut] and [back] save the context [k] of the fiber and resume the
    scheduler's fiber or the thread's main fiber. *)
Definition swapOut (p : Z) (k : context) : M t unit :=
  s ← get;
  _ ← derefM (t_scheduler_fiber s);
  _ ← SetThis (t_scheduler_fiber s);
  update p (set_ctx k).

Definition back (p : Z) (k : context) : M t unit :=
  s ← get;
  _ ← derefM (t_threadFiber s);
  _ ← SetThis (t_threadFiber s);
  update p (set_ctx k).

Definition YieldToReady (fresh : Z) (k : context) : M t unit :=
  cur ← GetThis fresh;
  st ← getState cur;
  _ ← assertM (bool_decide (st = EXEC));
  _ ← update cur (set_state READY);
  swapOut cur k.

Definition YieldToHold (fresh : Z) (k : context) : M t unit :=
  cur ← GetThis fresh;
  st ← getState cur;
  _ ← assertM (bool_decide (st = EXEC));
  _ ← update cur (set_state HOLD);
  swapOut cur k.

(** *** The code of a fiber, until its next switch

    The end of [MainFunc] and [CallerMainFunc]: the last switch. *)
Definition finish (cur : Z) (use_caller : bool) (v : State) : M t unit :=
  _ ← update cur (set_state v);
  if use_caller then back cur Ended else swapOut cur Ended.

Definition body (fresh cur : Z) (use_caller : bool) (sc : script) : M t unit :=
  match sc with
  | [] => _ ← update cur (set_cb None); finish cur use_caller TERM
  | DoThrow :: _ => finish cur use_caller EXCEPT
  | DoYieldToReady :: sc' => YieldToReady fresh (At sc' use_caller)
  | DoYieldToHold :: sc' => YieldToHold fresh (At sc' use_caller)
  | DoSwapOut :: sc' => swapOut cur (At sc' use_caller)
  end.

(** [MainFunc] and [CallerMainFunc]. An empty [std::function] throws when it is
    called. *)
Definition MainFunc (fresh : Z) (use_caller : bool) : M t unit :=
  cur ← GetThis fresh;
  f ← deref cur;
  match m_cb f with
  | Some sc => body fresh cur use_caller sc
  | None => finish cur use_caller EXCEPT
  end.

Definition resume (fresh p : Z) : M t unit :=
  f ← deref p;
  match m_ctx f with
  | Entry use_caller => MainFunc fresh use_caller
  | At sc use_caller => body fresh p use_caller sc
  | Ended => faultM AssertFailed
  | Unsaved => faultM Indeterminate
  end.

(** *** Fiber::swapIn and Fiber::call *)
Definition swapIn (fresh p : Z) : M t unit :=
  f ← deref p;
  _ ← SetThis (Some p);
  _ ← assertM (negb (bool_decide (m_state f = EXEC)));
  _ ← update p (set_state EXEC);
  s ← get;
  _ ← derefM (t_scheduler_fiber s);
  resume fresh p.

Definition call (fresh p : Z) : M t unit :=
  _ ← deref p;
  _ ← SetThis (Some p);
  _ ← update p (set_state EXEC);
  s ← get;
  _ ← derefM (t_threadFiber s);
  resume fresh p.

Definition TotalFibers : M t Z := gets s_fiber_count.

Definition GetFiberId : M t Z :=
  s ← get;
  match t_fiber s with
  | Some p => f ← deref p; mret (m_id f)
  | None => mret 0
  end.
End Fiber.
