(* ===== verification/FiberProps.v ===== *)
(** Properties of fibers: the life of a fiber under [swapIn], and what becomes
    of its stack. *)
From stdpp Require Import base list numbers option gmap.
From Stdlib Require Import ZArith Lia.
From S2P Require Import Prelude Fiber.
Import Fiber.
Local Open Scope Z_scope.

(** The code a fiber still has to run; [None] is an empty function. *)
Definition remaining (f : fiber) : option script :=
  match m_ctx f with
  | Entry _ => m_cb f
  | At sc _ => Some sc
  | _ => None
  end.

(** A fiber that [swapIn] can resume. *)
Definition runnable (f : fiber) : Prop :=
  m_state f ≠ EXEC ∧ (m_ctx f = Entry false ∨ ∃ sc, m_ctx f = At sc false).

(** The fiber when it has given up the processor again. *)
Definition paused (f : fiber) : fiber :=
  match remaining f with
  | None | Some (DoThrow :: _) => set_ctx Ended (set_state EXCEPT f)
  | Some [] => set_ctx Ended (set_state TERM (set_cb None f))
  | Some (DoYieldToReady :: sc) => set_ctx (At sc false) (set_state READY f)
  | Some (DoYieldToHold :: sc) => set_ctx (At sc false) (set_state HOLD f)
  | Some (DoSwapOut :: sc) => set_ctx (At sc false) (set_state EXEC f)
  end.

Definition with_fiber (p : Z) (f : fiber) (s : t) : t :=
  mk (<[p := f]> (fibers s)) (s_fiber_id s) (s_fiber_count s) (stacks s)
     (t_scheduler_fiber s) (t_threadFiber s) (t_scheduler_fiber s).

Lemma swapIn_paused fresh p f m s :
  fibers s !! p = Some f → t_scheduler_fiber s = Some m → runnable f →
  swapIn fresh p s = Ok tt (with_fiber p (paused f) s).
Proof.
  intros Hp Hm [Hst Hctx]. destruct f as [id sz st ctx stk cb]. simpl in *.
  unfold swapIn, deref, SetThis, update. unfold_M. rewrite Hp. simpl.
  rewrite bool_decide_false by done. simpl. rewrite Hm.
  assert (∀ g, alter g p (fibers s) = <[p := g (mk_fiber id sz st ctx stk cb)]> (fibers s)) as Hal.
  { intros g. apply map_eq. intros q. destruct (decide (p = q)) as [<-|].
    - by rewrite lookup_alter_eq, lookup_insert_eq, Hp.
    - by rewrite lookup_alter_ne, lookup_insert_ne. }
  rewrite Hal. unfold with_fiber, paused, remaining. rewrite Hm.
  unfold resume, deref, MainFunc, GetThis, body, finish, YieldToReady, YieldToHold, getState,
    swapOut, SetThis, update, deref.
  unfold_M. simpl. rewrite !lookup_insert_eq. simpl.
  destruct Hctx as [->|[sc ->]]; simpl;
    [rewrite !lookup_insert_eq; simpl; destruct cb as [sc|]|]; simpl; try rewrite Hm; simpl;
    try (destruct sc as [|[] sc]; simpl); rewrite ?lookup_insert_eq; simpl;
    rewrite ?bool_decide_true by done; simpl; rewrite ?Hm; simpl;
    rewrite ?alter_insert_eq, ?insert_insert_eq; done.
Qed.

Fixpoint times (n : nat) (m : M t unit) : M t unit :=
  match n with O => mret tt | S n' => _ ← m; times n' m end.

(** What a script of yields leaves behind after [k] of its resumptions. *)
Definition yields (sc : script) : Prop :=
  Forall (λ a, a = DoYieldToReady ∨ a = DoYieldToHold) sc.

Definition yield_state (a : action) : State :=
  match a with DoYieldToReady => READY | DoYieldToHold => HOLD | _ => EXEC end.

Lemma times_snoc n m s : times (S n) m s = (_ ← times n m; m) s.
Proof.
  revert s; induction n as [|n IH]; intros s.
  - simpl. unfold_M. by destruct (m s) as [[] ?| |].
  - change (times (S (S n)) m) with (_ ← m; times (S n) m).
    change (times (S n) m) with (_ ← m; times n m) at 2.
    unfold_M. destruct (m s) as [[] s'| |]; [|done..]. rewrite IH. done.
Qed.

(** The state of the fiber after [k] resumptions within its script. *)
Definition within (f0 f : fiber) (sc : script) (k : nat) : Prop :=
  m_stack f = m_stack f0 ∧ m_id f = m_id f0 ∧ m_cb f = Some sc ∧
  match k with
  | O => m_state f = INIT ∧ m_ctx f = Entry false
  | S k' => m_ctx f = At (drop k sc) false ∧ ∃ a, sc !! k' = Some a ∧ m_state f = yield_state a
  end.

Lemma within_runnable f0 f sc k : yields sc → within f0 f sc k → runnable f.
Proof.
  intros Hy (_ & _ & _ & Hk). destruct k as [|k].
  - destruct Hk as [Hs Hc]. split; [by rewrite Hs|by left].
  - destruct Hk as (Hc & a & Ha & Hs). split; [|right; eauto].
    unfold yields in Hy. eapply Forall_lookup_1 in Hy; [|done]. rewrite Hs. by destruct Hy as [->| ->].
Qed.

Lemma within_remaining f0 f sc k : within f0 f sc k → remaining f = Some (drop k sc).
Proof.
  intros (_ & _ & Hcb & Hk). unfold remaining. destruct k as [|k].
  - destruct Hk as [_ ->]. by rewrite drop_0.
  - by destruct Hk as (-> & _).
Qed.

Lemma within_step f0 f sc k :
  yields sc → within f0 f sc k → (k < length sc)%nat → within f0 (paused f) sc (S k).
Proof.
  intros Hy Hw Hk. unfold paused. rewrite (within_remaining _ _ _ _ Hw).
  destruct (lookup_lt_is_Some_2 sc k Hk) as [a Ha].
  rewrite (drop_S _ _ _ Ha). unfold yields in Hy. eapply Forall_lookup_1 in Hy; [|done].
  destruct Hw as (H1 & H2 & H3 & _).
  destruct Hy as [->| ->]; unfold within; simpl; eauto 10.
Qed.

Lemma times_within fresh p m sc k s f :
  fibers s !! p = Some f → t_scheduler_fiber s = Some m → within f f sc 0 → yields sc →
  (k ≤ length sc)%nat →
  ∃ f' s', times k (swapIn fresh p) s = Ok tt s' ∧ fibers s' = <[p := f']> (fibers s) ∧
    within f f' sc k ∧ t_scheduler_fiber s' = Some m ∧
    stacks s' = stacks s ∧ ((0 < k)%nat → t_fiber s' = Some m).
Proof.
  intros Hp Hm Hw Hy. induction k as [|k IH]; intros Hk.
  { exists f, s. split_and!; try done; [by rewrite insert_id|lia]. }
  destruct IH as (f1 & s1 & He & Hf1 & Hw1 & Hm1 & Hst & _); [lia|].
  exists (paused f1), (with_fiber p (paused f1) s1).
  rewrite times_snoc. unfold_M. rewrite He.
  rewrite (swapIn_paused fresh p f1 m);
    [|by rewrite Hf1, lookup_insert_eq|done|by eapply within_runnable].
  split_and!; try done; simpl.
  - by rewrite Hf1, insert_insert_eq.
  - apply within_step; [done..|lia].
Qed.

(** A fiber whose function yields [length sc] times is finished after
    exactly one resumption more: after [k] of them its state is that of its
    [k]-th yield, the thread is back in the scheduler's fiber, and it never
    starts over; a resumption of the finished fiber fails the assertion, and
    [reset] makes it runnable again on the same stack. *)
Theorem fiber_runs_to_completion (fresh p m : Z) (sc : script) (s : t) (f : fiber) :
  fibers s !! p = Some f → t_scheduler_fiber s = Some m → yields sc →
  m_state f = INIT → m_ctx f = Entry false → m_cb f = Some sc → is_Some (m_stack f) →
  (∀ k a, sc !! k = Some a →
    wp (times (S k) (swapIn fresh p)) (λ _ s',
      m_state <$> fibers s' !! p = Some (yield_state a) ∧ t_fiber s' = Some m) s) ∧
  wp (times (S (length sc)) (swapIn fresh p)) (λ _ s',
    (∃ f', fibers s' !! p = Some f' ∧ m_state f' = TERM ∧ m_cb f' = None) ∧
    t_fiber s' = Some m ∧ swapIn fresh p s' = Fault AssertFailed ∧
    ∀ cb, wp (reset p cb) (λ _ s'',
      ∃ f'', fibers s'' !! p = Some f'' ∧ runnable f'' ∧ m_stack f'' = m_stack f) s') s.
Proof.
  intros Hp Hm Hy Hst Hctx Hcb [stk Hstk].
  assert (within f f sc 0) as Hw by (split_and!; done).
  split.
  - intros k a Ha. pose proof (lookup_lt_Some _ _ _ Ha).
    destruct (times_within fresh p m sc (S k) s f) as (f' & s' & He & Hf & Hw' & _ & _ & Ht);
      [done..|lia|].
    unfold wp. rewrite He, Hf, lookup_insert_eq. split; [|apply Ht; lia].
    destruct Hw' as (_ & _ & _ & _ & b & Hb & Hs). simplify_eq. simpl. by rewrite Hs.
  - destruct (times_within fresh p m sc (length sc) s f) as (f1 & s1 & He & Hf1 & Hw1 & Hm1 & _);
      [done..|].
    unfold wp. rewrite times_snoc. unfold_M. rewrite He.
    rewrite (swapIn_paused fresh p f1 m);
      [|by rewrite Hf1, lookup_insert_eq|done|by eapply within_runnable].
    unfold paused. rewrite (within_remaining _ _ _ _ Hw1), drop_all.
    destruct Hw1 as (Hs1 & _).
    split_and!; [|done| |].
    + eexists. split; [apply lookup_insert_eq|done].
    + unfold swapIn, deref, SetThis, update, resume, deref. unfold_M. simpl.
      rewrite lookup_insert_eq. simpl. rewrite Hm1. simpl.
      by rewrite lookup_alter_eq, lookup_insert_eq.
    + intros cb. unfold reset, deref, update. unfold_M. simpl. rewrite lookup_insert_eq. simpl.
      rewrite Hs1, Hstk. simpl. rewrite lookup_alter_eq, lookup_insert_eq. simpl.
      eexists. split_and!; [done| |]; simpl; [split; [done|by left]|congruence].
Qed.

(** Creating fibers and destroying each one, at fresh addresses. *)
Definition churn (cfg p : Z) (cb : option script) (stks : list Z) : M t unit :=
  forM stks (λ stk, _ ← Fiber_new cfg p stk cb 0 false; destroy p).

Lemma churn_spec (cfg p : Z) (cb : option script) (stks : list Z) (s : t) :
  fibers s !! p = None → NoDup stks → (∀ stk, stk ∈ stks → stacks s !! stk = None) →
  wp (churn cfg p cb stks) (λ _ s',
    fibers s' = fibers s ∧ s_fiber_count s' = s_fiber_count s ∧
    size (stacks s') = (size (stacks s) + length stks)%nat ∧
    (∀ stk, stk ∈ stks → stacks s' !! stk = Some cfg) ∧
    ∀ k, k ∉ stks → stacks s' !! k = stacks s !! k) s.
Proof.
  revert s; induction stks as [|stk stks IH]; intros s Hp Hnd Hfree.
  { unfold wp. simpl. split_and!; [done..|lia| |done]. intros stk Hs. by apply elem_of_nil in Hs. }
  apply NoDup_cons in Hnd as [Hni Hnd].
  unfold churn. simpl. apply wp_bind.
  assert (∃ s1, (_ ← Fiber_new cfg p stk cb 0 false; destroy p) s = Ok tt s1 ∧
    fibers s1 = fibers s ∧ s_fiber_count s1 = s_fiber_count s ∧
    stacks s1 = <[stk := cfg]> (stacks s)) as (s1 & He & Hf & Hc & Hs).
  { unfold Fiber_new, destroy, Alloc, Dealloc, deref. unfold_M. simpl.
    rewrite lookup_insert_eq. simpl. eexists. split; [done|]. simpl.
    split_and!; [by rewrite delete_insert_id|lia|done]. }
  unfold wp at 1. rewrite He. eapply wp_mono; [apply (IH s1)|].
  - by rewrite Hf.
  - done.
  - intros k Hk. rewrite Hs, lookup_insert_ne by set_solver. apply Hfree. set_solver.
  - intros [] s' (Hf' & Hc' & Hsz & Hst & Hout). split_and!; [congruence..| | |].
    + rewrite Hsz, Hs, map_size_insert_None by (apply Hfree; set_solver). simpl. lia.
    + intros k [->|Hk]%elem_of_cons; [|by apply Hst].
      rewrite Hout, Hs, lookup_insert_eq by done. done.
    + intros k Hk. rewrite Hout, Hs, lookup_insert_ne by set_solver. done.
Qed.

(** Creating and destroying fibers restores the set of fibers and their
    number, but every stack stays allocated: [Dealloc] frees only null
    pointers. *)
Theorem destroyed_fibers_leak_stacks (cfg p : Z) (cb : option script) (stks : list Z) (s : t) :
  fibers s !! p = None → NoDup stks → (∀ stk, stk ∈ stks → stacks s !! stk = None) →
  wp (churn cfg p cb stks) (λ _ s',
    fibers s' = fibers s ∧ s_fiber_count s' = s_fiber_count s ∧
    size (stacks s') = (size (stacks s) + length stks)%nat ∧
    ∀ stk, stk ∈ stks → stacks s' !! stk = Some cfg) s.
Proof.
  intros Hp Hnd Hfree. eapply wp_mono; [by apply churn_spec|]. simpl. naive_solver.
Qed.

(** A scheduler's fiber, and a fiber that yields twice. *)
Definition example_fiber : fiber :=
  mk_fiber 1 4096 INIT (Entry false) (Some 900) (Some [DoYieldToReady; DoYieldToHold]).
Definition example_world : t :=
  mk {[10 := mk_fiber 0 0 EXEC Unsaved None None; 20 := example_fiber]} 1 2 {[900 := 4096]}
    (Some 10) (Some 10) (Some 10).

Lemma fiber_runs_to_completion_witness :
  wp (times 3 (swapIn 30 20)) (λ _ s',
    (∃ f', fibers s' !! 20 = Some f' ∧ m_state f' = TERM ∧ m_cb f' = None) ∧
    t_fiber s' = Some 10) example_world.
Proof.
  assert (fibers example_world !! 20 = Some example_fiber) as Hp by reflexivity.
  assert (yields [DoYieldToReady; DoYieldToHold]) as Hy by (repeat constructor; auto).
  assert (is_Some (m_stack example_fiber)) as Hk by (exists 900; reflexivity).
  pose proof (fiber_runs_to_completion 30 20 10 [DoYieldToReady; DoYieldToHold] example_world
    example_fiber Hp eq_refl Hy eq_refl eq_refl eq_refl Hk) as [_ H].
  eapply wp_mono; [exact H|]. intros a s' (H1 & H2 & _). done.
Defined.

Lemma destroyed_fibers_leak_stacks_witness :
  wp (churn 4096 50 (Some []) [901; 902; 903]) (λ _ s',
    fibers s' = fibers example_world ∧ s_fiber_count s' = 2 ∧ size (stacks s') = 4%nat)
    example_world.
Proof.
  assert (fibers example_world !! 50 = None) as Hp by reflexivity.
  assert (NoDup [901; 902; 903]) as Hnd by (repeat constructor; set_solver).
  assert (∀ stk, stk ∈ [901; 902; 903] → stacks example_world !! stk = None) as Hst.
  { intros stk Hs. assert (stk = 901 ∨ stk = 902 ∨ stk = 903) as [->|[->| ->]] by set_solver; reflexivity. }
  pose proof (destroyed_fibers_leak_stacks 4096 50 (Some []) _ _ Hp Hnd Hst) as H.
  revert H. generalize (churn 4096 50 (Some []) [901; 902; 903]). intros m H.
  eapply wp_mono; [exact H|]. intros a s' (H1 & H2 & H3 & _). done.
Defined.
