(* ===== verification/Util.v ===== *)
(** The helpers of [util.h] and [util.cc]: fiber numbers, the clock and backtraces;
    [GetThreadId] is in [Thread].

    [gettimeofday], [backtrace] and [backtrace_symbols] are parameters.
    Texts are lists of bytes. *)
From stdpp Require Import base list gmap numbers option strings.
From Stdlib Require Import ZArith Lia.
From S2P Require Import Prelude Fiber.

Module Util.
Local Open Scope Z_scope.

(** [struct timeval]. *)
Record timeval := mk_timeval { tv_sec : Z; tv_usec : Z }.

Definition GetFiberId : M Fiber.t Z := id ← Fiber.GetFiberId; mret (uint 32 id).

(** [1000ul] makes the arithmetic unsigned; [tv_usec / 1000] is signed. *)
Definition GetCurrentMS (tv : timeval) : Z :=
  uint 64 (tv_sec tv * 1000 + Z.quot (tv_usec tv) 1000).

(** The first product is signed. *)
Definition GetCurrentUS {S} (tv : timeval) : M S Z :=
  a ← signed 64 (tv_sec tv * 1000);
  mret (uint 64 (a * 1000 + tv_usec tv)).

Section backtrace.
(** The return addresses, as many as fit into a buffer of the given size, and
    their descriptions, if there is memory for them. *)
Variable backtrace : Z → list Z.
Variable backtrace_symbols : list Z → option (list (list Z)).

(** [for(size_t i = skip; i < nptr; ++i)]: a negative [skip] is a large number. *)
Definition skipped (skip : Z) (strings : list (list Z)) : list (list Z) :=
  if uint 64 skip <? Z.of_nat (length strings) then drop (Z.to_nat (uint 64 skip)) strings else [].

Definition Backtrace (bt : list (list Z)) (size skip : Z) : list (list Z) :=
  let buffer := backtrace size in
  match backtrace_symbols buffer with
  | None => bt
  | Some strings => bt ++ skipped skip strings
  end.

Definition BacktraceToString (size skip : Z) (prefix : list Z) : list Z :=
  concat ((λ line, prefix ++ line ++ [10]) <$> Backtrace [] size skip).
End backtrace.

(** *** Facts *)

Lemma GetCurrentMS_range tv : in_uint 64 (GetCurrentMS tv).
Proof. apply uint_range. lia. Qed.

(** What gettimeofday answers, for the next hundred thousand years. *)
Definition plausible (tv : timeval) : Prop :=
  0 ≤ tv_sec tv < 2 ^ 43 ∧ 0 ≤ tv_usec tv < 1000000.

Definition micros (tv : timeval) : Z := tv_sec tv * 1000000 + tv_usec tv.

Lemma GetCurrentMS_value tv : plausible tv → GetCurrentMS tv = micros tv / 1000.
Proof.
  intros [Hs Hu]. unfold GetCurrentMS, micros. rewrite Z.quot_div_nonneg by lia.
  replace (tv_sec tv * 1000000 + tv_usec tv) with (tv_usec tv + tv_sec tv * 1000 * 1000) by ring.
  rewrite Z.div_add by lia.
  pose proof (Z.div_pos (tv_usec tv) 1000 ltac:(lia) ltac:(lia)).
  pose proof (Z.div_lt_upper_bound (tv_usec tv) 1000 1000 ltac:(lia) ltac:(lia)).
  rewrite uint_id by (unfold in_uint; lia). lia.
Qed.

(** Both clocks show the same time, in different units, and neither overflows. *)
Lemma clocks_agree {S} (tv : timeval) (s : S) : plausible tv →
  wp (GetCurrentUS tv) (λ us s', s' = s ∧ us = micros tv ∧ GetCurrentMS tv = us / 1000) s.
Proof.
  intros Htv. pose proof (GetCurrentMS_value tv Htv) as Hms. destruct Htv as [Hs Hu].
  unfold wp, GetCurrentUS, signed. rewrite decide_True by (unfold in_sint; lia). unfold_M.
  rewrite uint_id by (unfold in_uint; lia). unfold micros in *.
  split_and!; [done|lia|]. rewrite Hms. f_equal. lia.
Qed.

(** A negative number of frames to skip leaves nothing. *)
Lemma negative_skip skip strings : - 2 ^ 63 ≤ skip < 0 → Z.of_nat (length strings) < 2 ^ 63 →
  skipped skip strings = [].
Proof.
  intros Hk Hl. unfold skipped, uint. rewrite <-(Z.mod_unique skip (2 ^ 64) (-1) (skip + 2 ^ 64)) by lia.
  destruct (Z.ltb_spec (skip + 2 ^ 64) (Z.of_nat (length strings))); [lia|done].
Qed.
End Util.
