(* ===== verification/Scheduler.v ===== *)
(** The scheduler: [scheduler.h] and [scheduler.cc].

    Module [Scheduler] models the task queue, the counters and the loop [run] of
    one thread; other threads act on the same queue between its steps. The
    virtual functions [tickle], [stopping] and [idle] are arguments of the code
    that calls them; [X] is the state a derived class adds. What [idle] does
    until its next switch depends on the scheduler, so its script is asked for
    at every resumption. New objects live at the next unused address. *)
From stdpp Require Import base list numbers option gmap strings pretty.
From Stdlib Require Import ZArith Lia.
From S2P Require Import Prelude Fiber.

Module Scheduler.
Local Open Scope Z_scope.

(** [Scheduler::FiberAndThread]. *)
Record FiberAndThread := mk_task {
  fiber : option Z;
  cb : option Fiber.script;
  threadId : Z
}.

Definition FiberAndThread_reset : FiberAndThread := mk_task None None (-1).

Section scheduler.
Context {X : Type}.

Record t := mk {
  world : Fiber.t;
  next_addr : Z;
  m_fibers : list FiberAndThread;
  m_threads : list Z;
  m_threadIds : list Z;
  m_threadCount : Z;
  m_activeThreadCount : Z;
  m_idleThreadCount : Z;
  m_stopping : bool;
  m_autostop : bool;
  m_rootThread : Z;
  m_rootFiber : option Z;
  tickled : nat;
  ext : X
}.

Definition set_world v s := mk v (next_addr s) (m_fibers s) (m_threads s) (m_threadIds s)
  (m_threadCount s) (m_activeThreadCount s) (m_idleThreadCount s) (m_stopping s) (m_autostop s)
  (m_rootThread s) (m_rootFiber s) (tickled s) (ext s).
Definition set_next v s := mk (world s) v (m_fibers s) (m_threads s) (m_threadIds s)
  (m_threadCount s) (m_activeThreadCount s) (m_idleThreadCount s) (m_stopping s) (m_autostop s)
  (m_rootThread s) (m_rootFiber s) (tickled s) (ext s).
Definition set_queue v s := mk (world s) (next_addr s) v (m_threads s) (m_threadIds s)
  (m_threadCount s) (m_activeThreadCount s) (m_idleThreadCount s) (m_stopping s) (m_autostop s)
  (m_rootThread s) (m_rootFiber s) (tickled s) (ext s).
Definition set_threads v ids s := mk (world s) (next_addr s) (m_fibers s) v ids
  (m_threadCount s) (m_activeThreadCount s) (m_idleThreadCount s) (m_stopping s) (m_autostop s)
  (m_rootThread s) (m_rootFiber s) (tickled s) (ext s).
Definition set_active v s := mk (world s) (next_addr s) (m_fibers s) (m_threads s) (m_threadIds s)
  (m_threadCount s) v (m_idleThreadCount s) (m_stopping s) (m_autostop s)
  (m_rootThread s) (m_rootFiber s) (tickled s) (ext s).
Definition set_idle v s := mk (world s) (next_addr s) (m_fibers s) (m_threads s) (m_threadIds s)
  (m_threadCount s) (m_activeThreadCount s) v (m_stopping s) (m_autostop s)
  (m_rootThread s) (m_rootFiber s) (tickled s) (ext s).
Definition set_flags stop auto s := mk (world s) (next_addr s) (m_fibers s) (m_threads s)
  (m_threadIds s) (m_threadCount s) (m_activeThreadCount s) (m_idleThreadCount s) stop auto
  (m_rootThread s) (m_rootFiber s) (tickled s) (ext s).
Definition set_tickled v s := mk (world s) (next_addr s) (m_fibers s) (m_threads s)
  (m_threadIds s) (m_threadCount s) (m_activeThreadCount s) (m_idleThreadCount s)
  (m_stopping s) (m_autostop s) (m_rootThread s) (m_rootFiber s) v (ext s).
Definition set_ext v s := mk (world s) (next_addr s) (m_fibers s) (m_threads s)
  (m_threadIds s) (m_threadCount s) (m_activeThreadCount s) (m_idleThreadCount s)
  (m_stopping s) (m_autostop s) (m_rootThread s) (m_rootFiber s) (tickled s) v.

(** Running an operation on fibers. *)
Definition fib {A} (m : M Fiber.t A) : M t A := λ s,
  match m (world s) with
  | Ok a w => Ok a (set_world w s)
  | Exn e w => Exn e (set_world w s)
  | Fault f => Fault f
  end.

(** The address of a new object. *)
Definition new_addr : M t Z :=
  s ← get; _ ← put (set_next (next_addr s + 1) s); mret (next_addr s).

(** [new Fiber(cb)]: the object and its stack. *)
Definition new_fiber (g_fiber_config : Z) (f : option Fiber.script) (use_caller : bool) : M t Z :=
  p ← new_addr;
  stk ← new_addr;
  _ ← fib (Fiber.Fiber_new g_fiber_config p stk f 0 use_caller);
  mret p.

(** *** Putting tasks into the queue *)
Definition scheduleNoLock (fc : FiberAndThread) : M t bool :=
  s ← get;
  let need_tickle := match m_fibers s with [] => true | _ => false end in
  _ ← (match fiber fc, cb fc with
       | None, None => mret tt
       | _, _ => put (set_queue (m_fibers s ++ [fc]) s)
       end);
  mret need_tickle.

Section virtuals.
(** The virtual functions of the object. *)
Variable tickle : M t unit.
Variable stopping : M t bool.
Variable idle : M t Fiber.script.
(** The configured size of stacks. *)
Variable g_fiber_config : Z.

Definition schedule (fc : FiberAndThread) : M t unit :=
  need_tickle ← scheduleNoLock fc;
  if need_tickle : bool then tickle else mret tt.

(** [schedule(begin, end)]: the elements are moved into the queue. *)
Fixpoint schedule_range_loop (fcs : list FiberAndThread) (need_tickle : bool) : M t bool :=
  match fcs with
  | [] => mret need_tickle
  | fc :: fcs' =>
      b ← scheduleNoLock (mk_task (fiber fc) (cb fc) (-1));
      schedule_range_loop fcs' (b || need_tickle)
  end.

Definition schedule_range (fcs : list FiberAndThread) : M t unit :=
  need_tickle ← schedule_range_loop fcs false;
  if need_tickle : bool then tickle else mret tt.

(** *** The locked part of an iteration of [run]

    [scan] is the loop over the queue: the task taken, if any, the remaining
    queue, and whether others have to be told. *)
Fixpoint scan (tid : Z) (q : list FiberAndThread) (tickle_me : bool)
    : M t (option FiberAndThread * list FiberAndThread * bool) :=
  match q with
  | [] => mret (None, [], tickle_me)
  | it :: q' =>
      let skip (b : bool) :=
        r ← scan tid q' b;
        let '(ft, rest, tk) := r in mret (ft, it :: rest, tk) in
      if negb (threadId it =? -1) && negb (threadId it =? tid) then skip true
      else
        match fiber it, cb it with
        | None, None => faultM AssertFailed
        | Some p, _ =>
            st ← fib (Fiber.getState p);
            if decide (st = Fiber.EXEC) then skip tickle_me
            else mret (Some it, q', tickle_me || match q' with [] => false | _ => true end)
        | None, Some _ => mret (Some it, q', tickle_me || match q' with [] => false | _ => true end)
        end
  end.

Definition dequeue (tid : Z) : M t (option FiberAndThread * bool) :=
  s ← get;
  r ← scan tid (m_fibers s) false;
  let '(ft, rest, tickle_me) := r in
  match ft with
  | Some _ =>
      s ← get;
      _ ← put (set_active (m_activeThreadCount s + 1) (set_queue rest s));
      mret (ft, tickle_me)
  | None => mret (None, tickle_me)
  end.

(** *** The rest of an iteration *)
Definition finished (st : Fiber.State) : bool :=
  match st with Fiber.TERM | Fiber.EXCEPT => true | _ => false end.

(** [swapIn] of a fiber that is not the thread's main fiber; [GetThis] cannot
    create a main fiber then, its address argument is not used. *)
Definition swapIn (p : Z) : M t unit := s ← get; fib (Fiber.swapIn (next_addr s) p).

Definition leave_active : M t unit :=
  modify (λ s, set_active (m_activeThreadCount s - 1) s).

Definition run_fiber (p : Z) : M t unit :=
  _ ← swapIn p;
  _ ← leave_active;
  st ← fib (Fiber.getState p);
  if decide (st = Fiber.READY) then schedule (mk_task (Some p) None (-1))
  else if finished st then mret tt
  else fib (Fiber.update p (Fiber.set_state Fiber.HOLD)).

(** A function as a task, in the fiber [c]; the answer is the thread's
    [cb_fiber] afterwards. *)
Definition run_cb_fiber (c : Z) : M t (option Z) :=
  _ ← swapIn c;
  _ ← leave_active;
  st ← fib (Fiber.getState c);
  if decide (st = Fiber.READY) then
    _ ← schedule (mk_task (Some c) None (-1)); mret None
  else if finished st then
    _ ← fib (Fiber.reset c None); mret (Some c)
  else
    _ ← fib (Fiber.update c (Fiber.set_state Fiber.HOLD)); mret None.

Definition run_cb (cb_fiber : option Z) (f : Fiber.script) : M t (option Z) :=
  c ← (match cb_fiber with
       | Some c => _ ← fib (Fiber.reset c (Some f)); mret c
       | None => new_fiber g_fiber_config (Some f) false
       end);
  run_cb_fiber c.

(** Resuming the idle fiber: its code is what [idle] does now. *)
Definition idle_code (sc : Fiber.script) (f : Fiber.fiber) : Fiber.fiber :=
  match Fiber.m_ctx f with
  | Fiber.Entry c => Fiber.set_cb (Some sc) f
  | Fiber.At _ c => Fiber.set_ctx (Fiber.At sc c) f
  | _ => f
  end.

(** The last branch; the answer tells whether [run] leaves its loop. *)
Definition run_idle (idle_fiber : Z) : M t bool :=
  st ← fib (Fiber.getState idle_fiber);
  if decide (st = Fiber.TERM) then mret true
  else
    _ ← modify (λ s, set_idle (m_idleThreadCount s + 1) s);
    sc ← idle;
    _ ← fib (Fiber.update idle_fiber (idle_code sc));
    _ ← swapIn idle_fiber;
    _ ← modify (λ s, set_idle (m_idleThreadCount s - 1) s);
    st ← fib (Fiber.getState idle_fiber);
    if finished st then mret false
    else _ ← fib (Fiber.update idle_fiber (Fiber.set_state Fiber.HOLD)); mret false.

(** One iteration: the new [cb_fiber], and whether the loop is left. *)
Definition run_once (tid idle_fiber : Z) (cb_fiber : option Z) : M t (option Z * bool) :=
  r ← dequeue tid;
  let '(ft, tickle_me) := r in
  _ ← (if tickle_me : bool then tickle else mret tt);
  let otherwise :=
    match ft with
    | Some _ => _ ← leave_active; mret (cb_fiber, false)
    | None => b ← run_idle idle_fiber; mret (cb_fiber, b)
    end in
  match ft with
  | Some it =>
      let on_cb :=
        match cb it with
        | Some f => c ← run_cb cb_fiber f; mret (c, false)
        | None => otherwise
        end in
      match fiber it with
      | Some p =>
          st ← fib (Fiber.getState p);
          if finished st then on_cb else _ ← run_fiber p; mret (cb_fiber, false)
      | None => on_cb
      end
  | None => otherwise
  end.

Fixpoint run_loop (fuel : nat) (tid idle_fiber : Z) (cb_fiber : option Z) : M t unit :=
  match fuel with
  | O => faultM FuelExhausted
  | S fuel' =>
      r ← run_once tid idle_fiber cb_fiber;
      let '(c, leave) := r in
      if leave : bool then mret tt else run_loop fuel' tid idle_fiber c
  end.

Definition run (fuel : nat) (tid : Z) : M t unit :=
  s ← get;
  _ ← (if decide (tid ≠ m_rootThread s) then
         p ← new_addr; m ← fib (Fiber.GetThis p); fib (Fiber.set_schedulerFiber (Some m))
       else mret tt);
  idle_fiber ← new_fiber g_fiber_config None false;
  run_loop fuel tid idle_fiber None.

(** *** start and stop *)

(** [ids] are the identifiers of the threads that are created. *)
Definition start (ids : list Z) : M t unit :=
  s ← get;
  if negb (m_stopping s) then mret tt
  else
    _ ← put (set_flags false (m_autostop s) s);
    _ ← assertM (match m_threads s with [] => true | _ => false end);
    modify (λ s, set_threads ids (m_threadIds s ++ ids) s).

Fixpoint tickle_times (n : nat) : M t unit :=
  match n with O => mret tt | S n' => _ ← tickle; tickle_times n' end.

(** [m_rootFiber->call()] runs the loop of the calling thread to its end. *)
Definition call_root (fuel : nat) (r tid : Z) : M t unit :=
  _ ← fib (Fiber.SetThis (Some r));
  _ ← fib (Fiber.update r (Fiber.set_state Fiber.EXEC));
  _ ← run fuel tid;
  _ ← fib (Fiber.update r (Fiber.set_cb None));
  fib (Fiber.finish r true Fiber.TERM).

(** [current] tells whether [GetThis()] is this scheduler. *)
Definition stop (fuel : nat) (tid : Z) (current : bool) : M t unit :=
  _ ← modify (λ s, set_flags (m_stopping s) true s);
  s ← get;
  early ← (match m_rootFiber s with
           | Some r =>
               st ← fib (Fiber.getState r);
               if (m_threadCount s =? 0) &&
                  bool_decide (st = Fiber.TERM ∨ st = Fiber.INIT) then
                 _ ← modify (λ s, set_flags true (m_autostop s) s); stopping
               else mret false
           | None => mret false
           end);
  if early : bool then mret tt
  else
    _ ← assertM (if m_rootThread s =? -1 then negb current else current);
    _ ← modify (λ s, set_flags true (m_autostop s) s);
    _ ← tickle_times (Z.to_nat (m_threadCount s));
    _ ← (match m_rootFiber s with
         | Some r =>
             _ ← tickle;
             b ← stopping;
             if b : bool then mret tt else call_root fuel r tid
         | None => mret tt
         end);
    modify (λ s, set_threads [] (m_threadIds s) s).

(** *** switchTo *)
Definition switchTo (tid thread : Z) (current : option bool) (k : Fiber.context) : M t unit :=
  match current with
  | None => faultM AssertFailed
  | Some same =>
      if same && ((thread =? -1) || (thread =? tid)) then mret tt
      else
        s ← get;
        cur ← fib (Fiber.GetThis (next_addr s));
        _ ← schedule (mk_task (Some cur) None thread);
        fib (Fiber.YieldToHold (next_addr s) k)
  end.
End virtuals.

(** *** The functions of the base class *)
Definition base_tickle : M t unit := modify (λ s, set_tickled (S (tickled s)) s).

Definition base_stopping : M t bool :=
  gets (λ s, m_stopping s && m_autostop s &&
    match m_fibers s with [] => true | _ => false end && (m_activeThreadCount s =? 0)).

Definition base_idle : M t Fiber.script :=
  b ← base_stopping; mret (if b : bool then [] else [Fiber.DoYieldToHold]).

Definition hasIdleThreads : M t bool := gets (λ s, 0 <? m_idleThreadCount s).

(** *** Constructor: the calling thread is [tid], [current] its scheduler; [e]
    is the derived part. The function of the root fiber is [run], see
    [call_root]. *)
Definition new (g_fiber_config : Z) (e : X) (w : Fiber.t) (addr threads tid : Z) (use_caller : bool)
    (current : option Z) : outcome t unit :=
  let s0 := mk w addr [] [] [] threads 0 0 true false (-1) None 0 e in
  (_ ← assertM (0 <? threads);
   if use_caller then
     p ← new_addr;
     _ ← fib (Fiber.GetThis p);
     _ ← assertM (match current with None => true | Some _ => false end);
     r ← new_fiber g_fiber_config (Some []) true;
     _ ← fib (Fiber.set_schedulerFiber (Some r));
     modify (λ s, mk (world s) (next_addr s) (m_fibers s) (m_threads s) [tid] (threads - 1)
       0 0 true false tid (Some r) (tickled s) (ext s))
   else mret tt) s0.

(** *** Destructor and text

    [current] is the thread's current scheduler, [self] this one; the answer is
    the current one afterwards. *)
Definition destroy (self : Z) (current : option Z) : M t (option Z) :=
  stop ← gets m_stopping;
  _ ← assertM stop;
  mret (if bool_decide (current = Some self) then None else current).

Fixpoint dump_ids (i : nat) (ids : list Z) : string :=
  match ids with
  | [] => EmptyString
  | id :: ids' =>
      ((if (i =? 0)%nat then EmptyString else ", ") +:+ pretty id +:+ dump_ids (S i) ids')%string
  end.

Definition newline : string := String (Ascii.ascii_of_nat 10) EmptyString.

(** The counters are unsigned, of 64 bits. *)
Definition dump (m_name : string) (s : t) : string :=
  ("[Scheduler name=" +:+ m_name +:+ " size=" +:+ pretty (uint 64 (m_threadCount s)) +:+
   " active_count=" +:+ pretty (uint 64 (m_activeThreadCount s)) +:+
   " idle_count=" +:+ pretty (uint 64 (m_idleThreadCount s)) +:+
   " stopping=" +:+ (if m_stopping s then "1" else "0") +:+ " ]" +:+ newline +:+ "    " +:+
   dump_ids 0 (m_threadIds s))%string.
End scheduler.
Arguments t : clear implicits.
End Scheduler.
