(* ===== verification/SchedulerProps.v ===== *)
(** Properties of the scheduler: the order of the queue, what a thread takes
    from it, and that stopping runs every task to its end. *)
From stdpp Require Import base list numbers option gmap.
From Stdlib Require Import ZArith Lia.
From S2P Require Import Prelude Fiber FiberProps Scheduler.
Import Scheduler.
Local Open Scope Z_scope.

Section props.
Context {X : Type}.
Abbreviation st := (t X).
Implicit Types (s : st) (q : list FiberAndThread).

Definition nonempty (it : FiberAndThread) : bool :=
  match fiber it, cb it with None, None => false | _, _ => true end.

Definition is_empty {A} (l : list A) : bool := match l with [] => true | _ => false end.

(** The thread may take the task: it is not pinned to another thread and its
    fiber is not running. *)
Definition eligible (tid : Z) s (it : FiberAndThread) : bool :=
  ((threadId it =? -1) || (threadId it =? tid)) &&
  match fiber it with
  | Some p => match Fiber.fibers (world s) !! p with
              | Some f => negb (bool_decide (Fiber.m_state f = Fiber.EXEC))
              | None => false
              end
  | None => true
  end.

Definition pinned_elsewhere (tid : Z) (it : FiberAndThread) : bool :=
  negb (threadId it =? -1) && negb (threadId it =? tid).

(** Every task of the queue is a task, and its fiber exists. *)
Definition queue_ok s q : Prop :=
  Forall (λ it, nonempty it = true ∧
    ∀ p, fiber it = Some p → is_Some (Fiber.fibers (world s) !! p)) q.

Lemma world_fib w s : set_world w (set_world (world s) s) = set_world w s.
Proof. done. Qed.

Lemma set_world_id s : set_world (world s) s = s.
Proof. by destruct s. Qed.

Lemma getState_fib s p f :
  Fiber.fibers (world s) !! p = Some f → fib (Fiber.getState p) s = Ok (Fiber.m_state f) s.
Proof.
  intros Hp. unfold fib, Fiber.getState, Fiber.deref. unfold_M. rewrite Hp. simpl.
  by rewrite set_world_id.
Qed.

Lemma scan_spec tid q s b :
  queue_ok s q →
  (∃ q1 it q2, q = q1 ++ it :: q2 ∧ eligible tid s it = true ∧
     Forall (λ x, eligible tid s x = false) q1 ∧
     scan tid q b s = Ok (Some it, q1 ++ q2,
       b || existsb (pinned_elsewhere tid) q1 || negb (is_empty q2)) s) ∨
  (Forall (λ x, eligible tid s x = false) q ∧
   scan tid q b s = Ok (None, q, b || existsb (pinned_elsewhere tid) q) s).
Proof.
  intros Hq. revert b. induction Hq as [|it q [Hne Hex] Hq IH]; intros b.
  { right. split; [done|]. simpl. by rewrite orb_false_r. }
  assert (∀ b', eligible tid s it = false →
    (scan tid (it :: q) b s = (r ← scan tid q b'; let '(ft, rest, tk) := r in mret (ft, it :: rest, tk)) s) →
    (b' = b || pinned_elsewhere tid it) →
    (∃ q1 it0 q2, it :: q = q1 ++ it0 :: q2 ∧ eligible tid s it0 = true ∧
      Forall (λ x, eligible tid s x = false) q1 ∧
      scan tid (it :: q) b s = Ok (Some it0, q1 ++ q2,
        b || existsb (pinned_elsewhere tid) q1 || negb (is_empty q2)) s) ∨
    (Forall (λ x, eligible tid s x = false) (it :: q) ∧
     scan tid (it :: q) b s = Ok (None, it :: q, b || existsb (pinned_elsewhere tid) (it :: q)) s)) as Hskip.
  { intros b' Hel Hsc Hb. destruct (IH b') as [(q1 & it0 & q2 & -> & H1 & H2 & H3)|[H1 H2]].
    - left. exists (it :: q1), it0, q2. split_and!; [done|done|by constructor|].
      rewrite Hsc. unfold_M. rewrite H3. simpl. by rewrite Hb, !orb_assoc.
    - right. split; [by constructor|]. rewrite Hsc. unfold_M. rewrite H2. simpl. by rewrite Hb, orb_assoc. }
  destruct (pinned_elsewhere tid it) eqn:Hpin; unfold pinned_elsewhere in Hpin.
  - apply (Hskip true); [| |by rewrite orb_true_r].
    + unfold eligible. by destruct (threadId it =? -1), (threadId it =? tid).
    + simpl. by rewrite Hpin.
  - assert ((threadId it =? -1) || (threadId it =? tid) = true) as Hth
      by (by destruct (threadId it =? -1), (threadId it =? tid)).
    assert (eligible tid s it = true →
      scan tid (it :: q) b s = Ok (Some it, q, b || negb (is_empty q)) s →
      ∃ q1 it0 q2, it :: q = q1 ++ it0 :: q2 ∧ eligible tid s it0 = true ∧
      Forall (λ x, eligible tid s x = false) q1 ∧
      scan tid (it :: q) b s = Ok (Some it0, q1 ++ q2,
        b || existsb (pinned_elsewhere tid) q1 || negb (is_empty q2)) s) as Htake.
    { intros Hel Hsc. exists [], it, q. simpl. rewrite orb_false_r. by split_and!. }
    destruct (fiber it) as [p|] eqn:Hf.
    + destruct (Hex p) as [f Hp]; [done|].
      destruct (decide (Fiber.m_state f = Fiber.EXEC)) as [He|He].
      * apply (Hskip b); [| |by rewrite orb_false_r].
        { unfold eligible. rewrite Hf, Hp, bool_decide_true by done. by rewrite andb_false_r. }
        simpl. rewrite Hpin, Hf. unfold_M. rewrite (getState_fib _ _ _ Hp).
        by rewrite decide_True by done.
      * left. apply Htake.
        { unfold eligible. by rewrite Hf, Hp, bool_decide_false, Hth by done. }
        simpl. rewrite Hpin, Hf. unfold_M. rewrite (getState_fib _ _ _ Hp).
        rewrite decide_False by done. by destruct q.
    + left. apply Htake.
      { unfold eligible. by rewrite Hf, Hth. }
      simpl. rewrite Hpin, Hf. unfold nonempty in Hne. rewrite Hf in Hne.
      destruct (cb it); [|done]. unfold_M. by destruct q.
Qed.

(** C9. A thread takes the first task of the queue that is not pinned to another
    thread and whose fiber is not running, counts itself active and keeps the
    order of the rest; it tells others exactly when it passed a task pinned
    elsewhere or left tasks behind it. When no task qualifies nothing changes. *)
Theorem dequeue_takes_first_eligible (tid : Z) s :
  queue_ok s (m_fibers s) →
  wp (dequeue tid) (λ r s',
    match r with
    | (Some it, tickle_me) => ∃ q1 q2,
        m_fibers s = q1 ++ it :: q2 ∧ eligible tid s it = true ∧
        Forall (λ x, eligible tid s x = false) q1 ∧
        s' = set_active (m_activeThreadCount s + 1) (set_queue (q1 ++ q2) s) ∧
        tickle_me = existsb (pinned_elsewhere tid) q1 || negb (is_empty q2)
    | (None, tickle_me) =>
        Forall (λ x, eligible tid s x = false) (m_fibers s) ∧ s' = s ∧
        tickle_me = existsb (pinned_elsewhere tid) (m_fibers s)
    end) s.
Proof.
  intros Hq. unfold wp, dequeue. unfold_M.
  destruct (scan_spec tid (m_fibers s) s false Hq) as
    [(q1 & it & q2 & Hm & H1 & H2 & ->)|[H1 ->]]; simpl.
  - by exists q1, q2.
  - done.
Qed.

(** schedule(begin, end) appends the non-empty tasks in their order, for any
    thread, and calls tickle exactly once when the queue was empty and there is
    something to schedule. *)
Theorem schedule_range_appends (tickle : M st unit) (fcs : list FiberAndThread) s :
  schedule_range tickle fcs s =
  let s' := set_queue (m_fibers s ++
    ((λ fc, mk_task (fiber fc) (cb fc) (-1)) <$> filter (λ fc, nonempty fc = true) fcs)) s in
  let wake := match fcs with
              | [] => false
              | _ => is_empty (m_fibers s)
              end in
  if wake then tickle s' else Ok tt s'.
Proof.
  assert (∀ b s, schedule_range_loop fcs b s =
    Ok (b || (is_empty (m_fibers s) && negb (is_empty fcs))) (set_queue (m_fibers s ++
    ((λ fc, mk_task (fiber fc) (cb fc) (-1)) <$> filter (λ fc, nonempty fc = true) fcs)) s)) as H.
  { clear s. induction fcs as [|fc fcs IH]; intros b s; simpl.
    { rewrite app_nil_r, andb_false_r, orb_false_r. by destruct s. }
    unfold scheduleNoLock. unfold_M.
    destruct fc as [[p|] [f|] th]; rewrite filter_cons; simpl.
    1-3: rewrite IH; simpl; rewrite <-app_assoc; f_equal; by destruct (m_fibers s), b.
    rewrite IH. f_equal. by destruct (m_fibers s), b, fcs. }
  unfold schedule_range. unfold_M. rewrite H. simpl. destruct fcs, (m_fibers s); done.
Qed.

(** *** Stopping runs the queue dry *)
Definition heap s : gmap Z Fiber.fiber := Fiber.fibers (world s).

(** The resumptions a fiber has left after the next one. *)
Definition left_over (f : Fiber.fiber) : nat :=
  if finished (Fiber.m_state f) then 0
  else match remaining f with Some sc => length sc | None => 0 end.

Definition weight s (it : FiberAndThread) : nat :=
  match fiber it with
  | Some p => match heap s !! p with Some f => S (left_over f) | None => 1 end
  | None => match cb it with Some sc => S (length sc) | None => 1 end
  end.

Definition total s (q : list FiberAndThread) : nat :=
  foldr (λ it n, (weight s it + n)%nat) 0%nat q.

(** The code neither waits for somebody else nor swaps out on its own. *)
Definition selfish (f : Fiber.fiber) : Prop :=
  ∀ sc, remaining f = Some sc → Fiber.DoYieldToHold ∉ sc ∧ Fiber.DoSwapOut ∉ sc.

(** A fiber that has something left to run. *)
Definition live (f : Fiber.fiber) : Prop := runnable f ∧ finished (Fiber.m_state f) = false.

Definition task_ok (tid idle : Z) (cbf : option Z) s (it : FiberAndThread) : Prop :=
  (threadId it = -1 ∨ threadId it = tid) ∧
  match fiber it with
  | Some p => cb it = None ∧ p < next_addr s ∧ p ≠ idle ∧ cbf ≠ Some p ∧
      ∃ f, heap s !! p = Some f ∧ (live f ∨ finished (Fiber.m_state f) = true)
  | None => is_Some (cb it)
  end.

(** A fiber that can be given a new function. *)
Definition blank (f : Fiber.fiber) : Prop :=
  Fiber.m_state f = Fiber.INIT ∧ Fiber.m_ctx f = Fiber.Entry false ∧ is_Some (Fiber.m_stack f).

(** The state of the loop while there are tasks; [P] are the fibers to finish. *)
Record draining (P : list Z) (tid idle m : Z) (cbf : option Z) s : Prop := {
  dr_main : Fiber.t_scheduler_fiber (world s) = Some m;
  dr_queue : Forall (task_ok tid idle cbf s) (m_fibers s);
  dr_cb : ∀ c, cbf = Some c → c < next_addr s ∧ c ≠ idle ∧ ∃ f, heap s !! c = Some f ∧ blank f;
  dr_idle : idle < next_addr s ∧ ∃ f, heap s !! idle = Some f ∧ blank f;
  dr_active : m_activeThreadCount s = 0;
  dr_stop : m_stopping s = true ∧ m_autostop s = true;
  dr_tasks : ∀ p, p ∈ P → ∃ f, heap s !! p = Some f ∧ selfish f ∧ cbf ≠ Some p ∧ p ≠ idle ∧
      p < next_addr s ∧
      (finished (Fiber.m_state f) = true ∨
       live f ∧ ∃ it, it ∈ m_fibers s ∧ fiber it = Some p)
}.

Lemma paused_cases f :
  runnable f →
  let g := paused f in
  Fiber.m_stack g = Fiber.m_stack f ∧
  (finished (Fiber.m_state g) = true ∧ (∀ sc, remaining g ≠ Some sc) ∨
   ∃ a sc, remaining f = Some (a :: sc) ∧ remaining g = Some sc ∧
     Fiber.m_ctx g = Fiber.At sc false ∧
     (a = Fiber.DoYieldToReady ∧ Fiber.m_state g = Fiber.READY ∨
      a = Fiber.DoYieldToHold ∧ Fiber.m_state g = Fiber.HOLD ∨
      a = Fiber.DoSwapOut ∧ Fiber.m_state g = Fiber.EXEC)).
Proof.
  intros Hr g. subst g. unfold paused.
  destruct (remaining f) as [[|[] sc]|]; simpl; (split; [done|]); eauto 20; by left.
Qed.

Lemma swapIn_world p f m s :
  heap s !! p = Some f → Fiber.t_scheduler_fiber (world s) = Some m → runnable f →
  swapIn p s = Ok tt (set_world (with_fiber p (paused f) (world s)) s).
Proof.
  intros Hp Hm Hr. unfold swapIn, fib. unfold_M. by rewrite (swapIn_paused _ _ f m).
Qed.

Lemma total_le s s' q :
  (∀ p f, heap s !! p = Some f → ∃ f', heap s' !! p = Some f' ∧ (left_over f' ≤ left_over f)%nat) →
  (∀ it p, it ∈ q → fiber it = Some p → is_Some (heap s !! p)) →
  (total s' q ≤ total s q)%nat.
Proof.
  intros Hle Hex. induction q as [|it q IH]; simpl; [lia|].
  assert (weight s' it ≤ weight s it)%nat.
  { unfold weight. destruct (fiber it) as [p|] eqn:Hf; [|lia].
    destruct (Hex it p) as [f Hp]; [set_solver|done|].
    destruct (Hle _ _ Hp) as (f' & -> & ?). rewrite Hp. lia. }
  assert (total s' q ≤ total s q)%nat by (apply IH; set_solver).
  lia.
Qed.

Lemma total_app s q1 q2 : total s (q1 ++ q2) = (total s q1 + total s q2)%nat.
Proof. induction q1; simpl; lia. Qed.

(** What an iteration never touches. *)
Definition frame s s' : Prop :=
  Fiber.t_scheduler_fiber (world s') = Fiber.t_scheduler_fiber (world s) ∧
  Fiber.t_threadFiber (world s') = Fiber.t_threadFiber (world s) ∧
  m_stopping s' = m_stopping s ∧ m_autostop s' = m_autostop s ∧
  m_rootFiber s' = m_rootFiber s ∧ next_addr s ≤ next_addr s'.

Lemma frame_trans s1 s2 s3 : frame s1 s2 → frame s2 s3 → frame s1 s3.
Proof. unfold frame. intros (?&?&?&?&?&?) (?&?&?&?&?&?). split_and!; congruence || lia. Qed.

(** A fiber after an iteration that resumed it. *)
Definition settle (f : Fiber.fiber) : Fiber.fiber :=
  if decide (Fiber.m_state (paused f) = Fiber.READY) then paused f
  else if finished (Fiber.m_state (paused f)) then paused f
  else Fiber.set_state Fiber.HOLD (paused f).

Definition requeue (p : Z) (f : Fiber.fiber) : list FiberAndThread :=
  if decide (Fiber.m_state f = Fiber.READY) then [mk_task (Some p) None (-1)] else [].

Lemma settle_spec f :
  live f →
  (finished (Fiber.m_state (settle f)) = true ∨
   live (settle f) ∧ left_over f = S (left_over (settle f))) ∧
  (selfish f → selfish (settle f) ∧
    (finished (Fiber.m_state (settle f)) = true ∨ Fiber.m_state (settle f) = Fiber.READY)) ∧
  (Fiber.m_state (settle f) = Fiber.READY → live (settle f)) ∧
  (left_over (settle f) ≤ left_over f)%nat.
Proof.
  intros [Hr Hf]. destruct (paused_cases f Hr) as [_ [[Hfin Hrem]|(a & sc & Hrem & Hrem' & Hctx & Hst)]].
  - unfold settle, selfish, left_over. rewrite decide_False by (intros E; by rewrite E in Hfin).
    rewrite Hfin. rewrite Hfin. split_and!; [by left| | |lia].
    + intros _. split; [|by left]. intros sc E. by apply Hrem in E.
    + intros E. by rewrite E in Hfin.
  - assert (remaining (settle f) = Some sc ∧ Fiber.m_ctx (settle f) = Fiber.At sc false ∧
      finished (Fiber.m_state (settle f)) = false ∧ Fiber.m_state (settle f) ≠ Fiber.EXEC ∧
      (a = Fiber.DoYieldToReady → Fiber.m_state (settle f) = Fiber.READY)) as (H1 & H2 & H3 & H4 & H5).
    { unfold settle. destruct Hst as [[-> E]|[[-> E]|[-> E]]]; rewrite E; simpl; unfold remaining in *;
        simpl; rewrite ?E; split_and!; try done. }
    assert (live (settle f)) as Hl by (split; [split; [done|right; eauto]|done]).
    assert (left_over f = S (left_over (settle f))) as Hlo.
    { unfold left_over. by rewrite Hf, H3, Hrem, H1. }
    split_and!; [by right| |done|lia].
    unfold selfish. intros Hs. destruct (Hs _ Hrem) as [Ha Hb]. rewrite H1. split.
    + intros sc' [= <-]. set_solver.
    + right. apply H5. destruct Hst as [[-> _]|[[-> _]|[-> _]]]; set_solver.
Qed.

Lemma fibers_alter p g f (w : Fiber.t) :
  Fiber.fibers w !! p = Some f → alter g p (Fiber.fibers w) = <[p := g f]> (Fiber.fibers w).
Proof.
  intros Hp. apply map_eq. intros q. destruct (decide (p = q)) as [<-|].
  - by rewrite lookup_alter_eq, lookup_insert_eq, Hp.
  - by rewrite lookup_alter_ne, lookup_insert_ne.
Qed.

Lemma run_fiber_spec p f m s :
  heap s !! p = Some f → Fiber.t_scheduler_fiber (world s) = Some m → live f →
  ∃ s', run_fiber base_tickle p s = Ok tt s' ∧ frame s s' ∧
    heap s' = <[p := settle f]> (heap s) ∧ next_addr s' = next_addr s ∧
    m_fibers s' = m_fibers s ++ requeue p (settle f) ∧
    m_activeThreadCount s' = m_activeThreadCount s - 1.
Proof.
  intros Hp Hm [Hr _]. unfold run_fiber. unfold_M.
  rewrite (swapIn_world p f m) by done. unfold leave_active. unfold_M.
  set (s1 := set_active _ _).
  assert (Fiber.fibers (world s1) !! p = Some (paused f)) as Hp1 by (simpl; apply lookup_insert_eq).
  rewrite (getState_fib s1 p (paused f) Hp1). unfold settle, requeue.
  destruct (decide (Fiber.m_state (paused f) = Fiber.READY)) as [E|E].
  - rewrite decide_True by done. unfold schedule, scheduleNoLock, base_tickle. unfold_M. simpl.
    destruct (m_fibers s) eqn:Hq; simpl; eexists; (split; [done|]); unfold frame; simpl;
      split_and!; try done; by rewrite Hq.
  - destruct (finished (Fiber.m_state (paused f))) eqn:Hfin.
    + rewrite decide_False by done. eexists. split; [done|]. unfold frame. simpl.
      split_and!; try done. by rewrite app_nil_r.
    + simpl. eexists. unfold fib, Fiber.update. unfold_M. split; [done|]. unfold frame. simpl.
      rewrite app_nil_r. split_and!; try done.
      unfold heap. simpl. rewrite alter_insert_eq. done.
Qed.

Lemma run_cb_fiber_spec c f m s :
  heap s !! c = Some f → Fiber.t_scheduler_fiber (world s) = Some m → live f →
  is_Some (Fiber.m_stack f) →
  ∃ c' s', run_cb_fiber base_tickle c s = Ok c' s' ∧ frame s s' ∧
    next_addr s' = next_addr s ∧ m_activeThreadCount s' = m_activeThreadCount s - 1 ∧
    ((c' = None ∧ heap s' = <[c := settle f]> (heap s) ∧
      m_fibers s' = m_fibers s ++ requeue c (settle f)) ∨
     ∃ g, c' = Some c ∧ blank g ∧ heap s' = <[c := g]> (heap s) ∧ m_fibers s' = m_fibers s).
Proof.
  intros Hc Hm [Hr _] Hstk. unfold run_cb_fiber. unfold_M.
  rewrite (swapIn_world c f m) by done. unfold leave_active. unfold_M.
  set (s1 := set_active _ _).
  assert (Fiber.fibers (world s1) !! c = Some (paused f)) as Hp1 by (simpl; apply lookup_insert_eq).
  rewrite (getState_fib s1 c (paused f) Hp1). unfold settle, requeue.
  destruct (decide (Fiber.m_state (paused f) = Fiber.READY)) as [E|E].
  - rewrite decide_True by done. unfold schedule, scheduleNoLock, base_tickle. unfold_M. simpl.
    destruct (m_fibers s) eqn:Hq; simpl; eexists _, _; (split; [done|]); unfold frame; simpl;
      (split_and!; [done..|]); left; split_and!; rewrite ?Hq; done.
  - destruct (finished (Fiber.m_state (paused f))) eqn:Hfin.
    + unfold fib, Fiber.reset, Fiber.deref, Fiber.update. unfold_M. simpl.
      rewrite lookup_insert_eq. simpl.
      destruct (paused_cases f Hr) as [-> _]. destruct Hstk as [k Hk]. rewrite Hk.
      assert (Fiber.resettable (Fiber.m_state (paused f)) = true) as ->
        by (by destruct (Fiber.m_state (paused f))).
      eexists _, _. split; [done|]. unfold frame. simpl. split_and!; try done. right.
      eexists. split; [done|]. unfold heap. simpl.
      rewrite alter_insert_eq. split; [|done].
      split_and!; simpl; [done..|]. destruct (paused_cases f Hr) as [-> _]. eauto.
    + simpl. eexists _, _. unfold fib, Fiber.update. unfold_M. split; [done|]. unfold frame. simpl.
      split_and!; try done. left.
      rewrite app_nil_r. split_and!; try done. unfold heap. simpl. by rewrite alter_insert_eq.
Qed.

Lemma run_cb_spec cfg cbf sc m s :
  Fiber.t_scheduler_fiber (world s) = Some m →
  (∀ c, cbf = Some c → ∃ f, heap s !! c = Some f ∧ blank f) →
  ∃ c c' s', run_cb base_tickle cfg cbf sc s = Ok c' s' ∧ frame s s' ∧
    m_activeThreadCount s' = m_activeThreadCount s - 1 ∧
    (cbf = Some c ∨ next_addr s ≤ c < next_addr s') ∧
    ((∃ g, heap s' = <[c := g]> (heap s) ∧ live g ∧
       (left_over g < length sc)%nat ∧ c' = None ∧
       m_fibers s' = m_fibers s ++ [mk_task (Some c) None (-1)]) ∨
     (∃ g, heap s' = <[c := g]> (heap s) ∧ c' = None ∧ m_fibers s' = m_fibers s) ∨
     ∃ g, heap s' = <[c := g]> (heap s) ∧ c' = Some c ∧ blank g ∧ m_fibers s' = m_fibers s).
Proof.
  intros Hm Hcbf.
  assert (∃ c s1 f, run_cb base_tickle cfg cbf sc s = run_cb_fiber base_tickle c s1 ∧
    frame s s1 ∧ m_activeThreadCount s1 = m_activeThreadCount s ∧ m_fibers s1 = m_fibers s ∧
    (cbf = Some c ∨ next_addr s ≤ c < next_addr s1) ∧ heap s1 = <[c := f]> (heap s) ∧
    Fiber.m_state f = Fiber.INIT ∧ Fiber.m_ctx f = Fiber.Entry false ∧
    Fiber.m_cb f = Some sc ∧ is_Some (Fiber.m_stack f))
    as (c & s1 & f & Hrun & Hfr & Hact & Hq & Hc & Hh & Hst & Hctx & Hcb & Hstk).
  { destruct cbf as [c|].
    - destruct (Hcbf c) as (f & Hf & Hfst & Hfctx & k & Hk); [done|].
      eexists c, _, _. split.
      { unfold run_cb, fib, Fiber.reset, Fiber.deref, Fiber.update. unfold_M.
        unfold heap in Hf. rewrite Hf. simpl. rewrite Hk, Hfst. simpl. done. }
      unfold frame, heap. simpl. rewrite (fibers_alter _ _ f) by done.
      split_and!; try done; try lia; first [by left|by eauto].
    - eexists (next_addr s), _, _. split.
      { unfold run_cb, new_fiber, new_addr, fib, Fiber.Fiber_new, Fiber.Alloc. unfold_M. simpl. done. }
      unfold frame, heap. simpl. split_and!; try done; try lia; first [right; lia|by eauto]. }
  assert (live f) as Hl by (split; [split; [by rewrite Hst|by left]|by rewrite Hst]).
  assert (left_over f = length sc) as Hlo.
  { unfold left_over, remaining. by rewrite Hst, Hctx, Hcb. }
  destruct (run_cb_fiber_spec c f m s1) as (c' & s' & He & Hfr' & Hn & Ha & Hcase); try done.
  { by rewrite Hh, lookup_insert_eq. }
  { destruct Hfr as (-> & _). done. }
  exists c, c', s'. split_and!.
  - by rewrite Hrun.
  - by eapply frame_trans.
  - lia.
  - destruct Hc as [?|?]; [by left|right; lia].
  - destruct (settle_spec f Hl) as (Hs1 & _ & Hs3 & _).
    destruct Hcase as [(-> & Hh' & Hq')|(g & -> & Hb & Hh' & Hq')];
      rewrite Hh, insert_insert_eq in Hh'; rewrite Hq in Hq'; [|right; right; by exists g].
    unfold requeue in Hq'.
    destruct (decide (Fiber.m_state (settle f) = Fiber.READY)) as [E|E].
    + left. exists (settle f). split_and!; try done; [by apply Hs3|].
      destruct Hs1 as [Hf1|[_ Hlo']]; [by rewrite E in Hf1|]. lia.
    + right. left. exists (settle f). rewrite app_nil_r in Hq'. by split_and!.
Qed.

Lemma task_ok_queue tid idle cbf s q :
  Forall (task_ok tid idle cbf s) q → queue_ok s q.
Proof.
  intros Hq. eapply Forall_impl; [exact Hq|]. intros it [_ Hit]. unfold nonempty.
  destruct (fiber it) as [p|] eqn:E; simpl.
  - destruct Hit as (_ & _ & _ & _ & f & Hp & _). split; [done|]. intros p' [= <-]. by exists f.
  - destruct Hit as [sc ->]. split; [done|]. by intros p'.
Qed.

Lemma task_ok_eligible tid idle cbf s it : task_ok tid idle cbf s it → eligible tid s it = true.
Proof.
  intros [Hth Hit]. unfold eligible. apply andb_true_iff. split; [lia|].
  destruct (fiber it) as [p|]; [|done].
  destruct Hit as (_ & _ & _ & _ & f & Hp & Hf). unfold heap in Hp. rewrite Hp.
  rewrite bool_decide_false; [done|]. intros E. destruct Hf as [[[Hr _] _]|Hf]; [done|by rewrite E in Hf].
Qed.

(** The thread takes the first task; others may be told. *)
Lemma dequeue_head tid idle cbf s it q :
  Forall (task_ok tid idle cbf s) (m_fibers s) → m_fibers s = it :: q →
  ∃ tk, dequeue tid s = Ok (Some it, tk) (set_active (m_activeThreadCount s + 1) (set_queue q s)).
Proof.
  intros Hall Hq. unfold dequeue. unfold_M.
  destruct (scan_spec tid (m_fibers s) s false) as [(q1 & it' & q2 & Hm & _ & H2 & ->)|[H1 _]].
  - by eapply task_ok_queue.
  - rewrite Hq in Hm, Hall. apply Forall_cons in Hall as [Hit%task_ok_eligible _].
    destruct q1 as [|x q1]; simplify_eq/=; [by eexists|].
    apply Forall_cons in H2 as [H2 _]. congruence.
  - rewrite Hq in H1, Hall. apply Forall_cons in Hall as [Hit%task_ok_eligible _].
    apply Forall_cons in H1 as [H1 _]. congruence.
Qed.

(** A task stays fit for running when one fiber changes and stays fit. *)
Lemma task_ok_insert tid idle cbf cbf' s s' c g it :
  task_ok tid idle cbf s it → heap s' = <[c := g]> (heap s) → next_addr s ≤ next_addr s' →
  (fiber it = Some c → live g ∨ finished (Fiber.m_state g) = true) →
  (cbf' = None ∨ cbf' = cbf ∨ cbf' = Some c ∧ fiber it ≠ Some c) →
  task_ok tid idle cbf' s' it.
Proof.
  intros [Hth Hit] Hh Hn Hg Hcb. split; [done|].
  destruct (fiber it) as [p|]; [|done].
  destruct Hit as (H1 & H2 & H3 & H4 & f & Hp & Hf). split_and!; [done|lia|done| |].
  - destruct Hcb as [->|[->|[-> ?]]]; congruence.
  - destruct (decide (p = c)) as [->|Hne].
    + exists g. rewrite Hh, lookup_insert_eq. auto.
    + exists f. by rewrite Hh, lookup_insert_ne.
Qed.

Lemma total_insert s s' c f g q :
  heap s' = <[c := g]> (heap s) →
  (heap s !! c = Some f ∧ (left_over g ≤ left_over f)%nat ∨
   ∀ it, it ∈ q → fiber it ≠ Some c) →
  (total s' q ≤ total s q)%nat.
Proof.
  intros Hh Hc. induction q as [|it q IH]; simpl; [lia|].
  assert (weight s' it ≤ weight s it)%nat.
  { unfold weight. destruct (fiber it) as [p|] eqn:Hp; [|lia]. rewrite Hh.
    destruct (decide (p = c)) as [->|Hne]; [|rewrite lookup_insert_ne by done; lia].
    rewrite lookup_insert_eq. destruct Hc as [[-> ?]|Hno]; [lia|].
    by destruct (Hno it); [set_solver|]. }
  enough (total s' q ≤ total s q)%nat by lia. apply IH.
  destruct Hc as [?|Hno]; [by left|right]. intros it' Hin. apply Hno. set_solver.
Qed.

(** An iteration that ran the fiber of the first task. *)
Lemma drain_fiber P tid idle m cbf s s' it q p f :
  draining P tid idle m cbf s → m_fibers s = it :: q → fiber it = Some p →
  heap s !! p = Some f → live f → p ≠ idle → cbf ≠ Some p → p < next_addr s →
  frame s s' → heap s' = <[p := settle f]> (heap s) → next_addr s' = next_addr s →
  m_fibers s' = q ++ requeue p (settle f) → m_activeThreadCount s' = 0 →
  draining P tid idle m cbf s' ∧ (total s' (m_fibers s') < total s (m_fibers s))%nat.
Proof.
  intros [Hmain Hq Hcb Hid Hact Hstop Htasks] Hms Hfit Hp Hl Hpi Hpc Hpn Hfr Hh Hn Hq' Ha'.
  destruct Hfr as (F1 & F2 & F3 & F4 & F5 & F6).
  destruct (settle_spec f Hl) as (S1 & S2 & S3 & S4).
  assert (Forall (task_ok tid idle cbf s) q ∧ (total s (m_fibers s) = S (left_over f) + total s q)%nat
    ∧ (∀ it', it' ∈ m_fibers s → fiber it' = Some p ∨ it' ∈ q)) as (Hqok & Htot & Hin).
  { rewrite Hms in Hq |- *. apply Forall_cons in Hq as [_ Hq].
    split_and!; [done|simpl; unfold weight; by rewrite Hfit, Hp|].
    intros it' [->|]%elem_of_cons; auto. }
  split; [split|].
  - congruence.
  - rewrite Hq'. apply Forall_app. split.
    + eapply Forall_impl; [exact Hqok|]. intros it' Hit.
      eapply task_ok_insert; [done..|lia|intros _; naive_solver|by right; left].
    + unfold requeue. case_decide as E; [|done]. constructor; [|done]. split; [by left|]. simpl.
      split_and!; [done|lia|done|done|]. exists (settle f). rewrite Hh, lookup_insert_eq. auto.
  - intros c Hc. destruct (Hcb c Hc) as (H1 & H2 & g & H3 & H4). split_and!; [lia|done|].
    exists g. rewrite Hh, lookup_insert_ne by congruence. done.
  - destruct Hid as (H1 & g & H3 & H4). split; [lia|]. exists g. by rewrite Hh, lookup_insert_ne.
  - done.
  - by rewrite F3, F4.
  - intros x Hx. destruct (Htasks x Hx) as (fx & H1 & H2 & H3 & H4 & H5 & H6).
    destruct (decide (x = p)) as [->|Hne].
    + simplify_eq. exists (settle f). rewrite Hh, lookup_insert_eq, Hn.
      destruct (S2 H2) as [Hsf Hend]. split_and!; try done.
      destruct Hend as [?|Hready]; [by left|right]. split; [auto|].
      exists (mk_task (Some p) None (-1)). rewrite Hq'. unfold requeue. rewrite decide_True by done.
      split; [set_solver|done].
    + exists fx. rewrite Hh, lookup_insert_ne, Hn by done. split_and!; try done.
      destruct H6 as [?|[Hlx (it' & Hit & Hfx)]]; [by left|right]. split; [done|]. exists it'.
      split; [|done]. rewrite Hq'. destruct (Hin it' Hit); [congruence|set_solver].
  - rewrite Hq', total_app, Htot.
    assert (total s' q ≤ total s q)%nat by (eapply total_insert; [done|left; eauto]).
    assert (total s' (requeue p (settle f)) ≤ left_over f)%nat; [|lia].
    unfold requeue. case_decide as E; simpl; [|lia]. unfold weight. simpl.
    rewrite Hh, lookup_insert_eq. destruct S1 as [Hf1|[_ Hlo]]; [by rewrite E in Hf1|lia].
Qed.

(** An iteration that found the fiber of the first task finished. *)
Lemma drain_drop P tid idle m cbf s s' it q p f :
  draining P tid idle m cbf s → m_fibers s = it :: q → fiber it = Some p →
  heap s !! p = Some f → finished (Fiber.m_state f) = true →
  frame s s' → heap s' = heap s → m_fibers s' = q → m_activeThreadCount s' = 0 →
  draining P tid idle m cbf s' ∧ (total s' (m_fibers s') < total s (m_fibers s))%nat.
Proof.
  intros [Hmain Hq Hcb Hid Hact Hstop Htasks] Hms Hfit Hp Hfin Hfr Hh Hq' Ha'.
  destruct Hfr as (F1 & F2 & F3 & F4 & F5 & F6).
  rewrite Hms in Hq. apply Forall_cons in Hq as [_ Hq].
  split; [split|].
  - congruence.
  - rewrite Hq'. rewrite Forall_forall in Hq |- *. intros it' Hit. destruct (Hq it' Hit) as [Hth Ht].
    split; [done|]. rewrite Hh. destruct (fiber it'); [|done]. naive_solver lia.
  - intros c Hc. rewrite Hh. destruct (Hcb c Hc) as (H1 & H2 & H3). split_and!; [lia|done|done].
  - rewrite Hh. destruct Hid. split; [lia|done].
  - done.
  - by rewrite F3, F4.
  - intros x Hx. destruct (Htasks x Hx) as (fx & H1 & H2 & H3 & H4 & H5 & H6).
    exists fx. rewrite Hh. split_and!; try done; [lia|].
    destruct H6 as [?|[Hlx (it' & Hit & Hfx)]]; [by left|].
    rewrite Hms in Hit. apply elem_of_cons in Hit as [->|Hit].
    + left. congruence.
    + right. rewrite Hq'. eauto.
  - rewrite Hq', Hms. simpl. assert (total s' q ≤ total s q)%nat.
    { clear -Hh. induction q as [|it' q IH]; simpl; [lia|].
      assert (weight s' it' = weight s it') by (unfold weight; by rewrite Hh). lia. }
    unfold weight at 1. rewrite Hfit, Hp. lia.
Qed.

(** An iteration that ran the function of the first task in the fiber [c]. *)
Lemma drain_cb P tid idle m cbf cbf' s s' it q c g sc extra :
  draining P tid idle m cbf s → m_fibers s = it :: q → fiber it = None → cb it = Some sc →
  (cbf = Some c ∨ next_addr s ≤ c < next_addr s') →
  frame s s' → heap s' = <[c := g]> (heap s) →
  m_fibers s' = q ++ extra → m_activeThreadCount s' = 0 →
  (extra = [] ∨ extra = [mk_task (Some c) None (-1)] ∧ live g ∧
    (left_over g < length sc)%nat ∧ cbf' = None) →
  (cbf' = None ∨ cbf' = Some c ∧ blank g) →
  draining P tid idle m cbf' s' ∧ (total s' (m_fibers s') < total s (m_fibers s))%nat.
Proof.
  intros [Hmain Hq Hcb Hid Hact Hstop Htasks] Hms Hfit Hsc Hc Hfr Hh Hq' Ha' Hex Hcb'.
  destruct Hfr as (F1 & F2 & F3 & F4 & F5 & F6).
  rewrite Hms in Hq. apply Forall_cons in Hq as [_ Hq].
  assert (∀ x, x < next_addr s → cbf ≠ Some x → x ≠ c) as Hnec.
  { intros x Hx Hxc ->. destruct Hc; [done|lia]. }
  assert (c < next_addr s') as Hclt.
  { destruct Hc as [Hc|]; [|lia]. destruct (Hcb c Hc). lia. }
  assert (c ≠ idle) as Hci.
  { destruct Hc as [Hc|Hc]; [by destruct (Hcb c Hc) as (_ & ? & _)|]. destruct Hid. lia. }
  assert (∀ it', it' ∈ q → fiber it' ≠ Some c) as Hno.
  { intros it' Hit Hf. rewrite Forall_forall in Hq. destruct (Hq it' Hit) as [_ Ht].
    rewrite Hf in Ht. destruct Ht as (_ & H1 & _ & H2 & _). by destruct (Hnec c). }
  split; [split|].
  - congruence.
  - rewrite Hq'. apply Forall_app. split.
    + rewrite Forall_forall in Hq |- *. intros it' Hit. specialize (Hno it' Hit).
      eapply task_ok_insert; [by apply Hq|done|lia|by intros|]. naive_solver.
    + destruct Hex as [->|(-> & Hl & _ & ->)]; [done|]. constructor; [|done]. split; [by left|].
      simpl. split_and!; [done|lia|done|done|]. exists g. rewrite Hh, lookup_insert_eq. auto.
  - intros c' Hc'. destruct Hcb' as [->|[-> Hb]]; [done|]. simplify_eq.
    split_and!; [lia|done|]. exists g. by rewrite Hh, lookup_insert_eq.
  - destruct Hid as (H1 & gi & H3 & H4). split; [lia|]. exists gi. by rewrite Hh, lookup_insert_ne.
  - done.
  - by rewrite F3, F4.
  - intros x Hx. destruct (Htasks x Hx) as (fx & H1 & H2 & H3 & H4 & H5 & H6).
    assert (x ≠ c) as Hne by by apply Hnec.
    exists fx. rewrite Hh, lookup_insert_ne by done. split_and!; try done; [|lia|].
    + destruct Hcb' as [->|[-> _]]; congruence.
    + destruct H6 as [?|[Hlx (it' & Hit & Hfx)]]; [by left|right]. split; [done|].
      exists it'. split; [|done]. rewrite Hq'. rewrite Hms in Hit. set_solver.
  - rewrite Hq', total_app, Hms. simpl.
    assert (total s' q ≤ total s q)%nat by (eapply total_insert with (f := g); [done|by right]).
    assert (weight s it = S (length sc)) as -> by (unfold weight; by rewrite Hfit, Hsc).
    destruct Hex as [->|(-> & Hl & Hlo & _)]; simpl; [lia|].
    unfold weight. simpl. rewrite Hh, lookup_insert_eq. lia.
Qed.

(** While there are tasks an iteration runs the first one. *)
Lemma drain_once cfg P tid idle m cbf s it q :
  draining P tid idle m cbf s → m_fibers s = it :: q →
  ∃ cbf' s', run_once base_tickle base_idle cfg tid idle cbf s = Ok (cbf', false) s' ∧
    draining P tid idle m cbf' s' ∧ frame s s' ∧
    (total s' (m_fibers s') < total s (m_fibers s))%nat.
Proof.
  intros Hd Hms. pose proof Hd as [Hmain Hq Hcb Hid Hact Hstop Htasks].
  destruct (dequeue_head tid idle cbf s it q Hq Hms) as [tk Hdq].
  unfold run_once. unfold_M. rewrite Hdq. cbn beta iota.
  set (s1 := set_active _ _).
  assert (∃ s2, (if tk then base_tickle else (λ s0, Ok tt s0)) s1 = Ok tt s2 ∧ frame s s2 ∧
    heap s2 = heap s ∧ m_fibers s2 = q ∧ next_addr s2 = next_addr s ∧ m_activeThreadCount s2 = 1)
    as (s2 & Htk & Hfr & Hh & Hq2 & Hn & Ha).
  { destruct tk; eexists; (split; [done|]); unfold frame; simpl; split_and!; try done; lia. }
  unfold mret, M_ret in Htk. rewrite Htk. cbn beta iota.
  assert (Fiber.t_scheduler_fiber (world s2) = Some m) as Hm2 by (destruct Hfr; congruence).
  rewrite Hms in Hq. apply Forall_cons in Hq as [[_ Hit] _].
  destruct (fiber it) as [p|] eqn:Hfit.
  - destruct Hit as (Hnocb & Hpn & Hpi & Hpc & f & Hp & Hf).
    rewrite (getState_fib s2 p f) by (by fold (heap s2); rewrite Hh).
    destruct Hf as [Hl|Hfin].
    + destruct Hl as [Hr Hnf]. rewrite Hnf.
      destruct (run_fiber_spec p f m s2) as (s' & -> & Hfr' & Hh' & Hn' & Hq' & Ha');
        [by rewrite Hh|done|done|].
      rewrite Hh in Hh'. rewrite Hq2 in Hq'. exists cbf, s'.
      assert (frame s s') as Hfr2 by by eapply frame_trans.
      destruct (drain_fiber P tid idle m cbf s s' it q p f); done || congruence || lia.
    + rewrite Hfin, Hnocb. unfold leave_active. unfold_M. eexists _, _. split; [done|].
      destruct (drain_drop P tid idle m cbf s
        (set_active (m_activeThreadCount s2 - 1) s2) it q p f); try done.
      simpl. lia.
  - destruct Hit as [sc Hsc]. rewrite Hsc.
    destruct (run_cb_spec cfg cbf sc m s2) as (c & c' & s' & -> & Hfr' & Ha' & Hc & Hcase); [done| |].
    { intros c Hc. rewrite Hh. destruct (Hcb c Hc) as (_ & _ & ?). done. }
    rewrite Hh, Hq2 in Hcase. rewrite Hn in Hc. exists c', s'.
    assert (frame s s') as Hfr2 by by eapply frame_trans.
    assert (m_activeThreadCount s' = 0) as Ha0 by lia.
    destruct Hcase as [(g & H1 & H2 & H3 & -> & H4)|[(g & H1 & -> & H3)|(g & H1 & -> & H3 & H4)]].
    + destruct (drain_cb P tid idle m cbf None s s' it q c g sc [mk_task (Some c) None (-1)]);
        try done; try (by right); by left.
    + destruct (drain_cb P tid idle m cbf None s s' it q c g sc []);
        rewrite ?app_nil_r; try done; by left.
    + destruct (drain_cb P tid idle m cbf (Some c) s s' it q c g sc []);
        rewrite ?app_nil_r; try done; first [by right|by left].
Qed.

#[local] Arguments fib : simpl never.

Lemma run_loop_continue tick idl cfg n tid idle cbf c s s1 :
  run_once tick idl cfg tid idle cbf s = Ok (c, false) s1 →
  run_loop tick idl cfg (S n) tid idle cbf s = run_loop tick idl cfg n tid idle c s1.
Proof. intros He. simpl. unfold_M. by rewrite He. Qed.

Lemma run_loop_leave tick idl cfg n tid idle cbf c s s1 :
  run_once tick idl cfg tid idle cbf s = Ok (c, true) s1 →
  run_loop tick idl cfg (S n) tid idle cbf s = Ok tt s1.
Proof. intros He. simpl. unfold_M. by rewrite He. Qed.

(** With an empty queue the idle function ends, and with it the loop. *)
Lemma drain_idle cfg P tid idle m cbf s n :
  draining P tid idle m cbf s → m_fibers s = [] →
  ∃ s', run_loop base_tickle base_idle cfg (S (S n)) tid idle cbf s = Ok tt s' ∧ frame s s' ∧
    m_fibers s' = [] ∧ m_activeThreadCount s' = 0 ∧ m_idleThreadCount s' = m_idleThreadCount s ∧
    ∀ p, p ≠ idle → heap s' !! p = heap s !! p.
Proof.
  intros [Hmain Hq Hcb (Hid & f & Hf & Hst & Hctx & Hk) Hact [Hs1 Hs2] Htasks] Hms.
  assert (∃ s1, run_once base_tickle base_idle cfg tid idle cbf s = Ok (cbf, false) s1 ∧ frame s s1 ∧
    m_fibers s1 = [] ∧ m_activeThreadCount s1 = 0 ∧ m_idleThreadCount s1 = m_idleThreadCount s ∧
    ∃ g, heap s1 = <[idle := g]> (heap s) ∧ Fiber.m_state g = Fiber.TERM)
    as (s1 & He & Hfr & Hq1 & Ha1 & Hi1 & g & Hh & Hg).
  { unfold run_once, dequeue. unfold_M. rewrite Hms. simpl. unfold run_idle. unfold_M.
    rewrite (getState_fib s idle f) by done. rewrite Hst. simpl.
    unfold base_idle, base_stopping. unfold_M. simpl.
    rewrite Hs1, Hs2, Hms, Hact. simpl.
    rewrite (fibers_alter _ _ f) by done.
    set (s2 := set_world _ _).
    assert (heap s2 !! idle = Some (idle_code [] f)) as Hp2 by apply lookup_insert_eq.
    rewrite (swapIn_world idle (idle_code [] f) m s2 Hp2);
      [|done|unfold idle_code; rewrite Hctx; split; simpl; [by rewrite Hst|by left]].
    assert (Fiber.m_state (paused (idle_code [] f)) = Fiber.TERM) as Hterm.
    { unfold idle_code, paused, remaining. rewrite Hctx. simpl. by rewrite Hctx. }
    erewrite getState_fib by (simpl; apply lookup_insert_eq). rewrite Hterm. simpl.
    eexists. split; [done|]. unfold frame, heap. simpl. split_and!; try done; [lia|].
    rewrite insert_insert_eq. eauto. }
  assert (run_once base_tickle base_idle cfg tid idle cbf s1 = Ok (cbf, true) s1) as He1.
  { unfold run_once, dequeue. unfold_M. rewrite Hq1. simpl. unfold run_idle. unfold_M.
    rewrite (getState_fib s1 idle g) by (fold (heap s1); rewrite Hh; apply lookup_insert_eq).
    by rewrite Hg. }
  exists s1. rewrite (run_loop_continue _ _ _ _ _ _ _ _ _ _ He), (run_loop_leave _ _ _ _ _ _ _ _ _ _ He1).
  split_and!; try done.
  intros p Hp. rewrite Hh. by apply lookup_insert_ne.
Qed.

Lemma drain_empty cfg P tid idle m cbf s n :
  draining P tid idle m cbf s → m_fibers s = [] →
  ∃ s', run_loop base_tickle base_idle cfg (S (S n)) tid idle cbf s = Ok tt s' ∧ frame s s' ∧
    m_fibers s' = [] ∧ m_activeThreadCount s' = 0 ∧
    ∀ p, p ∈ P → ∃ f, heap s' !! p = Some f ∧ finished (Fiber.m_state f) = true.
Proof.
  intros Hd Hq. destruct (drain_idle cfg P tid idle m cbf s n Hd Hq) as (s' & He & Hfr & Hq' & Ha & _ & Hh).
  exists s'. split_and!; try done. intros p Hp.
  destruct (dr_tasks _ _ _ _ _ _ Hd p Hp) as (f & H1 & _ & _ & H4 & _ & H6).
  exists f. rewrite Hh by done. split; [done|]. destruct H6 as [?|[_ (it & Hit & _)]]; [done|].
  rewrite Hq in Hit. by apply elem_of_nil in Hit.
Qed.

Lemma run_loop_drains cfg P tid idle m n : ∀ cbf s,
  draining P tid idle m cbf s → (total s (m_fibers s) ≤ n)%nat →
  ∃ s', run_loop base_tickle base_idle cfg (S (S n)) tid idle cbf s = Ok tt s' ∧ frame s s' ∧
    m_fibers s' = [] ∧ m_activeThreadCount s' = 0 ∧
    ∀ p, p ∈ P → ∃ f, heap s' !! p = Some f ∧ finished (Fiber.m_state f) = true.
Proof.
  induction n as [|n IH]; intros cbf s Hd Hn.
  all: destruct (m_fibers s) as [|it q] eqn:Hq; [by eapply drain_empty|].
  - simpl in Hn. unfold weight in Hn at 1. repeat case_match; lia.
  - destruct (drain_once cfg P tid idle m cbf s it q Hd Hq) as (c' & s1 & He & Hd1 & Hfr1 & Hlt).
    destruct (IH c' s1) as (s' & He' & Hfr' & Hrest); [done|rewrite Hq in Hlt; lia|].
    exists s'. split; [|split; [by eapply frame_trans|done]].
    by rewrite (run_loop_continue _ _ _ _ _ _ _ _ _ _ He).
Qed.

(** A scheduler of the calling thread [tid] alone, with tasks it may run; the
    fibers [P] are among them or finished already. *)
Record stoppable (P : list Z) (tid r : Z) s : Prop := {
  sp_root : m_rootFiber s = Some r ∧ m_rootThread s = tid ∧ tid ≠ -1 ∧ m_threadCount s = 0;
  sp_fiber : r < next_addr s ∧ Fiber.m_state <$> heap s !! r = Some Fiber.INIT;
  sp_thread : is_Some (Fiber.t_scheduler_fiber (world s)) ∧ is_Some (Fiber.t_threadFiber (world s));
  sp_active : m_activeThreadCount s = 0;
  sp_queue : Forall (task_ok tid r None s) (m_fibers s);
  sp_tasks : ∀ p, p ∈ P → p ≠ r ∧ p < next_addr s ∧ ∃ f, heap s !! p = Some f ∧ selfish f ∧
      (finished (Fiber.m_state f) = true ∨ live f ∧ ∃ it, it ∈ m_fibers s ∧ fiber it = Some p)
}.

(** The state in which the root fiber enters its loop. *)
Lemma enter_draining P tid r m s s' cfg :
  stoppable P tid r s → Fiber.t_scheduler_fiber (world s) = Some m →
  Fiber.t_scheduler_fiber (world s') = Some m →
  (∃ fr i, heap s' = <[next_addr s := Fiber.mk_fiber i cfg Fiber.INIT (Fiber.Entry false)
      (Some (next_addr s + 1)) None]> (<[r := fr]> (heap s))) →
  next_addr s' = next_addr s + 2 → m_fibers s' = m_fibers s → m_activeThreadCount s' = 0 →
  m_stopping s' = true → m_autostop s' = true →
  draining P tid (next_addr s) m None s' ∧ total s' (m_fibers s') = total s (m_fibers s).
Proof.
  intros [_ [Hr _] _ _ Hq Ht] Hm Hm' (fr & i & Hh) Hn Hq' Ha Hs1 Hs2.
  assert (∀ p, p ≠ r → p < next_addr s → heap s' !! p = heap s !! p) as Hsame.
  { intros p Hp Hlt. rewrite Hh, !lookup_insert_ne by lia. done. }
  split; [split|].
  - done.
  - rewrite Hq'. rewrite Forall_forall in Hq |- *. intros it Hit. destruct (Hq it Hit) as [Hth H].
    split; [done|]. destruct (fiber it) as [p|]; [|done].
    destruct H as (H1 & H2 & H3 & _ & H4). rewrite Hsame by done. split_and!; try done; lia.
  - done.
  - split; [lia|]. rewrite Hh, lookup_insert_eq. eexists. split; [done|]. split_and!; eauto.
  - done.
  - done.
  - intros p Hp. destruct (Ht p Hp) as (H1 & H2 & f & H3 & H4 & H5). exists f.
    rewrite Hsame, Hq' by done. split_and!; try done; lia.
  - rewrite Hq'. clear Hq' Ht. induction Hq as [|it q [_ Hit] _ IH]; simpl; [done|]. f_equal; [|done].
    unfold weight. destruct (fiber it) as [p|]; [|done].
    destruct Hit as (_ & H2 & H3 & _). by rewrite Hsame.
Qed.

Lemma call_root_drains cfg P tid r m mt fr fuel s s0 :
  stoppable P tid r s → (total s (m_fibers s) + 2 ≤ fuel)%nat →
  Fiber.t_scheduler_fiber (world s) = Some m → Fiber.t_threadFiber (world s) = Some mt →
  heap s !! r = Some fr →
  world s0 = world s → m_rootThread s0 = tid → next_addr s0 = next_addr s →
  m_fibers s0 = m_fibers s → m_activeThreadCount s0 = 0 →
  m_stopping s0 = true → m_autostop s0 = true →
  ∃ s', call_root base_tickle base_idle cfg fuel r tid s0 = Ok tt s' ∧
    m_fibers s' = [] ∧ m_activeThreadCount s' = 0 ∧
    ∀ p, p ∈ P → ∃ f, heap s' !! p = Some f ∧ finished (Fiber.m_state f) = true.
Proof.
  intros Hsp Hfuel Hm Hmt Hfr Hw Hroot Hn Hq Ha Hs1 Hs2.
  unfold call_root, Fiber.finish, Fiber.back, Fiber.SetThis, Fiber.update, fib. unfold_M. simpl.
  unfold run at 1, new_fiber, new_addr, Fiber.Fiber_new, Fiber.Alloc, fib. unfold_M. simpl.
  rewrite decide_False by (intros E; by apply E).
  match goal with |- context [run_loop _ _ _ _ _ _ _ ?x] => set (s1 := x) end.
  destruct (enter_draining P tid r m s s1 cfg Hsp Hm) as [Hd Htot]; try done.
  { subst s1. simpl. by rewrite Hw. }
  { subst s1. unfold heap. simpl. rewrite Hw, Hn. rewrite (fibers_alter _ _ fr) by done. eauto. }
  { subst s1. simpl. lia. }
  destruct fuel as [|[|n]]; [lia..|].
  destruct (run_loop_drains cfg P tid (next_addr s) m n None s1 Hd) as (s2 & He & Hfr2 & Hq2 & Ha2 & HP).
  { lia. }
  match goal with |- context [run_loop _ _ _ _ _ ?i _ s1] =>
    replace i with (next_addr s) by (simpl; by rewrite Hn) end.
  rewrite He. simpl. destruct Hfr2 as (_ & -> & _). subst s1. simpl. rewrite Hw, Hmt.
  eexists. split; [done|]. simpl. split_and!; [done..|].
  intros p Hp. destruct (HP p Hp) as (f & Hf & Hfin). exists f. split; [|done].
  destruct (sp_tasks _ _ _ _ Hsp p Hp) as (Hpr & _). unfold heap. simpl.
  rewrite !lookup_alter_ne by done. done.
Qed.

End props.

(** A scheduler of the calling thread 7 with three tasks: a function, a fiber
    that yields twice, and a fiber that is done. *)
Definition example_fiber (sc : Fiber.script) (v : Fiber.State) (stk : Z) : Fiber.fiber :=
  Fiber.mk_fiber stk 4096 v (Fiber.Entry false) (Some stk) (Some sc).
Definition example_tasks : list FiberAndThread :=
  [mk_task None (Some [Fiber.DoYieldToReady]) (-1); mk_task (Some 20) None 7; mk_task (Some 21) None (-1)].
Definition example_sched : t unit :=
  mk (Fiber.mk
       {[1 := Fiber.mk_fiber 0 0 Fiber.EXEC Fiber.Unsaved None None;
         2 := Fiber.mk_fiber 1 4096 Fiber.INIT (Fiber.Entry true) (Some 3) (Some []);
         20 := example_fiber [Fiber.DoYieldToReady; Fiber.DoYieldToReady] Fiber.INIT 30;
         21 := example_fiber [] Fiber.TERM 31]}
       3 4 ∅ (Some 1) (Some 1) (Some 2))
     50 example_tasks [] [7] 0 0 0 false false 7 (Some 2) 0 tt.

Lemma dequeue_takes_first_eligible_witness :
  ∃ s', dequeue 8 example_sched
        = Ok (Some (mk_task None (Some [Fiber.DoYieldToReady]) (-1)), true) s' ∧
    m_activeThreadCount s' = 1.
Proof.
  assert (queue_ok example_sched (m_fibers example_sched)) as Hq.
  { repeat constructor; simpl; intros p; naive_solver. }
  pose proof (dequeue_takes_first_eligible 8 example_sched Hq) as H.
  apply wp_ok in H as ([ft tk] & s' & He & H). exists s'.
  split; [|vm_compute in He; injection He as <- <- <-; reflexivity].
  rewrite He. vm_compute in He. injection He as <- <- <-. reflexivity.
Defined.

Lemma example_stoppable : stoppable [20; 21] 7 2 example_sched.
Proof.
  split.
  - by vm_compute.
  - by vm_compute.
  - split; eauto.
  - done.
  - repeat apply Forall_cons_2; [| | |apply Forall_nil_2].
    + split; [by left|]. simpl. by eexists.
    + split; [by right|]. simpl. split_and!; try done. eexists. split; [reflexivity|].
      left. split; [split; [done|by left]|done].
    + split; [by left|]. simpl. split_and!; try done. eexists. split; [reflexivity|]. by right.
  - intros p Hp. assert (p = 20 ∨ p = 21) as [->| ->] by set_solver; split_and!; try done;
      eexists; (split; [reflexivity|]).
    + split; [intros sc [= <-]; split; set_solver|]. right.
      split; [split; [split; [done|by left]|done]|]. exists (mk_task (Some 20) None 7).
      split; [simpl; set_solver|done].
    + split; [intros sc [= <-]; split; set_solver|]. by left.
Qed.

