(* ===== verification/Workers.v ===== *)
(** Several threads in [Scheduler::run] of [scheduler.cc] at the same time.

    [Scheduler.run_once] is an iteration of [run] as one thread makes it when
    nobody else is there. Here the iteration is a program whose steps are the
    accesses to what threads share: a section under the queue's lock, a load or a
    store of [m_state] of a fiber, an atomic counter, the point where swapcontext
    loads a context and the point where it has saved one. [step] is the next such
    step of one thread; module-level [exec] interleaves any number of threads in
    the order of a list of moves. The thread-local pointers of [fiber.cc] belong to
    the worker and are put into the state while one of its steps runs. *)
From stdpp Require Import base list numbers option gmap.
From Stdlib Require Import ZArith Lia.
From S2P Require Import Prelude Fiber Scheduler.

Module Workers.
Import Scheduler.
Local Open Scope Z_scope.

(** Whose fiber is resumed: that of a task, [cb_fiber], or [idle_fiber]. *)
Inductive role := Task | Callback | Idle.
#[export] Instance role_eq_dec : EqDecision role.
Proof. solve_decision. Defined.

(** Where a thread is in [run], with the local variables that are alive there.
    The steps from [SetExec] to [Save] are those of [Fiber::swapIn], of the code of
    the fiber and of [YieldToReady], [YieldToHold], [MainFunc] and [swapOut]; [k]
    is the context that will be saved, [b] whether [back] saves it. *)
Inductive pc :=
| Start
| Scan
| Tickle (ft : option FiberAndThread) (tickle_me : bool)
| Choose (ft : option FiberAndThread)
| Prepare (f : Fiber.script)
| SwapIn (p : Z) (r : role)
| SetExec (p : Z) (r : role)
| Load (p : Z) (r : role)
| Code (p : Z) (use_caller : bool) (sc : Fiber.script) (r : role)
| SetState (v : Fiber.State) (p : Z) (k : Fiber.context) (b : bool) (r : role)
| Save (p : Z) (k : Fiber.context) (b : bool) (r : role)
| Count (p : Z) (r : role)
| Settle (p : Z) (r : role)
| Reschedule (p : Z) (r : role)
| Hold (p : Z) (r : role)
| Reset (p : Z)
| Leave
| GoIdle
| IdleTest
| Exited.

Record local := mk_local { at_pc : pc; idle_fiber : Z; cb_fiber : option Z }.

Definition at_next (x : pc) (l : local) : local := mk_local x (idle_fiber l) (cb_fiber l).
Definition with_cb (c : option Z) (l : local) : local := mk_local (at_pc l) (idle_fiber l) c.

Section step.
Variable g_fiber_config : Z.
Abbreviation MM := (M (t unit)).

(** The beginning of [run] on a thread that is not the caller's. *)
Definition start_run (tid : Z) : MM local :=
  s ← get;
  _ ← (if decide (tid ≠ m_rootThread s) then
         p ← new_addr; m ← fib (Fiber.GetThis p); fib (Fiber.set_schedulerFiber (Some m))
       else mret tt);
  idle_fiber ← new_fiber g_fiber_config None false;
  mret (mk_local Scan idle_fiber None).

(** Behind [tickle]: the three branches. *)
Definition choose (ft : option FiberAndThread) : MM pc :=
  let otherwise := match ft with Some _ => Leave | None => GoIdle end in
  match ft with
  | Some it =>
      let on_cb := match cb it with Some f => Prepare f | None => otherwise end in
      match fiber it with
      | Some p =>
          st ← fib (Fiber.getState p);
          mret (if finished st then on_cb else SwapIn p Task)
      | None => mret on_cb
      end
  | None => mret otherwise
  end.

(** swapcontext jumps to the saved context: to the entry function or behind the
    switch it was saved in. *)
Definition load (p : Z) (r : role) : MM pc :=
  s ← get;
  _ ← derefM (Fiber.t_scheduler_fiber (world s));
  f ← fib (Fiber.deref p);
  match Fiber.m_ctx f with
  | Fiber.Entry uc =>
      cur ← fib (Fiber.GetThis (next_addr s));
      f ← fib (Fiber.deref cur);
      mret (match Fiber.m_cb f with
            | Some sc => Code cur uc sc r
            | None => SetState Fiber.EXCEPT cur Fiber.Ended uc r
            end)
  | Fiber.At sc uc => mret (Code p uc sc r)
  | Fiber.Ended => faultM AssertFailed
  | Fiber.Unsaved => faultM Indeterminate
  end.

(** What the code of the fiber does up to its next store to [m_state]. *)
Definition perform (p : Z) (uc : bool) (sc : Fiber.script) (r : role) : MM pc :=
  let yield (v : Fiber.State) (k : Fiber.context) :=
    s ← get;
    cur ← fib (Fiber.GetThis (next_addr s));
    st ← fib (Fiber.getState cur);
    _ ← fib (assertM (bool_decide (st = Fiber.EXEC)));
    mret (SetState v cur k false r) in
  match sc with
  | [] => _ ← fib (Fiber.update p (Fiber.set_cb None)); mret (SetState Fiber.TERM p Fiber.Ended uc r)
  | Fiber.DoThrow :: _ => mret (SetState Fiber.EXCEPT p Fiber.Ended uc r)
  | Fiber.DoYieldToReady :: sc' => yield Fiber.READY (Fiber.At sc' uc)
  | Fiber.DoYieldToHold :: sc' => yield Fiber.HOLD (Fiber.At sc' uc)
  | Fiber.DoSwapOut :: sc' => mret (Save p (Fiber.At sc' uc) false r)
  end.

(** Behind the resumption of a fiber. *)
Definition settle (p : Z) (r : role) : MM pc :=
  st ← fib (Fiber.getState p);
  mret (if decide (st = Fiber.READY ∧ r ≠ Idle) then Reschedule p r
        else if finished st then match r with Callback => Reset p | _ => Scan end
        else Hold p r).

(** The local variable [cb_fiber] behind a resumption that did not finish. *)
Definition drop_cb (r : role) (l : local) : local :=
  match r with Callback => with_cb None l | _ => l end.

Definition step (tid : Z) (l : local) : MM local :=
  let go (m : MM pc) := x ← m; mret (at_next x l) in
  match at_pc l with
  | Start => start_run tid
  | Scan => r ← dequeue tid; mret (at_next (Tickle r.1 r.2) l)
  | Tickle ft tickle_me =>
      _ ← (if tickle_me : bool then base_tickle else mret tt); mret (at_next (Choose ft) l)
  | Choose ft => go (choose ft)
  | Prepare f =>
      c ← (match cb_fiber l with
           | Some c => _ ← fib (Fiber.reset c (Some f)); mret c
           | None => new_fiber g_fiber_config (Some f) false
           end);
      mret (at_next (SwapIn c Callback) (with_cb (Some c) l))
  | SwapIn p r =>
      f ← fib (Fiber.deref p);
      _ ← fib (Fiber.SetThis (Some p));
      _ ← fib (assertM (negb (bool_decide (Fiber.m_state f = Fiber.EXEC))));
      mret (at_next (SetExec p r) l)
  | SetExec p r => _ ← fib (Fiber.update p (Fiber.set_state Fiber.EXEC)); mret (at_next (Load p r) l)
  | Load p r => go (load p r)
  | Code p uc sc r => go (perform p uc sc r)
  | SetState v p k b r =>
      _ ← fib (Fiber.update p (Fiber.set_state v)); mret (at_next (Save p k b r) l)
  | Save p k b r =>
      _ ← fib (if b : bool then Fiber.back p k else Fiber.swapOut p k); mret (at_next (Count p r) l)
  | Count p Idle =>
      _ ← modify (λ s, set_idle (m_idleThreadCount s - 1) s); mret (at_next (Settle p Idle) l)
  | Count p r => _ ← leave_active; mret (at_next (Settle p r) l)
  | Settle p r => go (settle p r)
  | Reschedule p r =>
      _ ← schedule base_tickle (mk_task (Some p) None (-1)); mret (drop_cb r (at_next Scan l))
  | Hold p r =>
      _ ← fib (Fiber.update p (Fiber.set_state Fiber.HOLD)); mret (drop_cb r (at_next Scan l))
  | Reset p => _ ← fib (Fiber.reset p None); mret (at_next Scan l)
  | Leave => _ ← leave_active; mret (at_next Scan l)
  | GoIdle =>
      st ← fib (Fiber.getState (idle_fiber l));
      if decide (st = Fiber.TERM) then mret (at_next Exited l)
      else
        _ ← modify (λ s, set_idle (m_idleThreadCount s + 1) s);
        mret (at_next IdleTest l)
  | IdleTest =>
      sc ← base_idle;
      _ ← fib (Fiber.update (idle_fiber l) (idle_code sc));
      mret (at_next (SwapIn (idle_fiber l) Idle) l)
  | Exited => mret l
  end.

(** A thread that runs alone, to its next iteration. *)
Fixpoint alone (fuel : nat) (tid : Z) (l : local) : MM local :=
  match fuel with
  | O => faultM FuelExhausted
  | S fuel' =>
      l' ← step tid l;
      match at_pc l' with Scan | Exited => mret l' | _ => alone fuel' tid l' end
  end.

(** ** Any number of threads *)
Record tls := mk_tls { t_fiber : option Z; t_threadFiber : option Z; t_scheduler_fiber : option Z }.
Record worker := mk_worker { tid : Z; loc : local; tl : tls }.

(** What has happened, for the theorems alone: the tasks that were put into the
    queue, those that were taken from it and by whom, and for each fiber the code
    it was given and the part that was executed. *)
Record history := mk_history {
  submitted : list FiberAndThread;
  taken : list (Z * FiberAndThread);
  goal : gmap Z Fiber.script;
  did : gmap Z Fiber.script
}.

Record sys := mk_sys { shared : t unit; workers : list worker; hist : history }.

Definition put_tls (x : tls) (w : Fiber.t) : Fiber.t :=
  Fiber.mk (Fiber.fibers w) (Fiber.s_fiber_id w) (Fiber.s_fiber_count w) (Fiber.stacks w)
    (t_fiber x) (t_threadFiber x) (t_scheduler_fiber x).
Definition get_tls (w : Fiber.t) : tls :=
  mk_tls (Fiber.t_fiber w) (Fiber.t_threadFiber w) (Fiber.t_scheduler_fiber w).

Definition performed (p : Z) (h : history) : Fiber.script := default [] (did h !! p).

(** What a step from [x] to [y] adds to the history. *)
Definition note (me : Z) (x y : pc) (h : history) : history :=
  match x, y with
  | Scan, Tickle (Some it) _ =>
      mk_history (submitted h) (taken h ++ [(me, it)]) (goal h) (did h)
  | Prepare f, SwapIn c _ =>
      mk_history (submitted h) (taken h) (<[c := f]> (goal h)) (<[c := []]> (did h))
  | Code p _ (a :: _) _, _ =>
      mk_history (submitted h) (taken h) (goal h) (<[p := performed p h ++ [a]]> (did h))
  | Reschedule p _, _ =>
      mk_history (submitted h ++ [mk_task (Some p) None (-1)]) (taken h) (goal h) (did h)
  | _, _ => h
  end.

Inductive move :=
| Run (i : nat)
| Submit (ft : FiberAndThread)
| Stopping.

(** A thread makes its next step; somebody schedules a task; [stop] sets its
    flags. *)
Definition exec1 (m : move) : M sys unit := λ s,
  match m with
  | Run i =>
      match workers s !! i with
      | None => Ok tt s
      | Some w =>
          match step (tid w) (loc w) (set_world (put_tls (tl w) (world (shared s))) (shared s)) with
          | Ok l x =>
              Ok tt (mk_sys x (<[i := mk_worker (tid w) l (get_tls (world x))]> (workers s))
                       (note (tid w) (at_pc (loc w)) (at_pc l) (hist s)))
          | Exn e x => Exn e (mk_sys x (workers s) (hist s))
          | Fault f => Fault f
          end
      end
  | Submit ft =>
      match schedule base_tickle ft (shared s) with
      | Ok _ x => Ok tt (mk_sys x (workers s)
          (mk_history (submitted (hist s) ++ [ft]) (taken (hist s)) (goal (hist s)) (did (hist s))))
      | Exn e x => Exn e (mk_sys x (workers s) (hist s))
      | Fault f => Fault f
      end
  | Stopping => Ok tt (mk_sys (set_flags true true (shared s)) (workers s) (hist s))
  end.

Definition exec (l : list move) : M sys unit := forM l exec1.

(** The threads that [start] creates, which have not reached [run] yet. *)
Definition new_worker (id : Z) : worker :=
  mk_worker id (mk_local Start 0 None) (mk_tls None None None).
End step.
End Workers.
