(* ===== verification/WorkersProps.v ===== *)
(** Threads that share a scheduler: one thread alone does what [run_once] says,
    disciplined wake-ups keep everything in order for any number of threads, and
    what happens without the discipline. *)
From stdpp Require Import base list numbers option gmap.
From Stdlib Require Import ZArith Lia.
From S2P Require Import Prelude Fiber FiberProps Scheduler SchedulerProps Workers.

Module AloneProps.
Import Scheduler Workers.
Local Open Scope Z_scope.

Section alone.
Variable cfg : Z.
Abbreviation st := (t unit).

(** ** A thread alone

    Each step but the last comes nearer to the next iteration. *)
Definition steps_left (x : pc) : nat :=
  match x with
  | Start => 1
  | Scan => 14
  | Tickle _ _ => 13
  | Choose _ => 12
  | Prepare _ => 10
  | GoIdle => 11
  | IdleTest => 10
  | SwapIn _ _ => 9
  | SetExec _ _ => 8
  | Load _ _ => 7
  | Code _ _ _ _ => 6
  | SetState _ _ _ _ _ => 5
  | Save _ _ _ _ => 4
  | Count _ _ => 3
  | Settle _ _ => 2
  | Reschedule _ _ | Hold _ _ | Reset _ | Leave => 1
  | Exited => 1
  end.

Definition at_end (x : pc) : bool := match x with Scan | Exited => true | _ => false end.

(** [answers m P]: an answer of [m] satisfies [P]. *)
Definition answers {A} (m : M st A) (P : A → Prop) : Prop := ∀ s a s', m s = Ok a s' → P a.

Lemma answers_ret {A} (a : A) (P : A → Prop) : P a → answers (mret a) P.
Proof. by intros Ha s a' s' [= <- <-]. Qed.

Lemma answers_fault {A} f (P : A → Prop) : answers (faultM f) P.
Proof. by intros s a s'. Qed.

Lemma answers_bind {A B} (m : M st A) (k : A → M st B) P :
  (∀ a, answers (k a) P) → answers (m ≫= k) P.
Proof.
  intros Hk s b s'. unfold_M. destruct (m s) as [a s1|? ?|?]; [apply Hk|done..].
Qed.

Ltac answers := repeat first
  [ apply answers_bind; intros ?
  | apply answers_ret
  | apply answers_fault
  | progress case_match ].

Definition nearer (x y : pc) : Prop := at_end y = true ∨ (steps_left y < steps_left x)%nat.

Lemma answers_go (m : M st pc) x l :
  answers m (nearer x) → answers (y ← m; mret (at_next y l)) (λ l', nearer x (at_pc l')).
Proof.
  intros Hm s l' s'. unfold_M. destruct (m s) as [y s1|? ?|?] eqn:E; [|done..].
  intros [= <- <-]. exact (Hm _ _ _ E).
Qed.

Ltac nearer := simpl; unfold nearer; simpl; first [by left|right; lia].

Lemma step_decreases tid l : answers (step cfg tid l) (λ l', nearer (at_pc l) (at_pc l')).
Proof.
  destruct l as [x idle c]. unfold step, start_run, drop_cb.
  destruct x; simpl; try (apply answers_go; unfold choose, load, perform, settle);
    answers; nearer.
Qed.

(** The rest of the iteration: running on with enough fuel for it. *)
Definition rest (tid : Z) (l : local) : M st local := alone cfg (steps_left (at_pc l)) tid l.

Lemma rest_enough n tid l s : (steps_left (at_pc l) ≤ n)%nat → alone cfg n tid l s = rest tid l s.
Proof.
  remember (steps_left (at_pc l)) as k eqn:Hk. revert n l Hk s.
  induction (lt_wf k) as [k _ IH]. intros n l -> s Hn. unfold rest.
  assert (1 ≤ steps_left (at_pc l))%nat by (destruct (at_pc l); simpl; lia).
  destruct n as [|n]; [lia|]. destruct (steps_left (at_pc l)) as [|k] eqn:Ek; [lia|].
  simpl. unfold_M. destruct (step cfg tid l s) as [l' s'|? ?|?] eqn:Es; [|done..].
  apply step_decreases in Es as [He|Hl]; [by destruct (at_pc l')|].
  rewrite Ek in Hl. pose proof (IH (steps_left (at_pc l')) ltac:(lia)) as IH'.
  pose proof (IH' n l' eq_refl s' ltac:(lia)). pose proof (IH' k l' eq_refl s' ltac:(lia)).
  destruct (at_pc l'); congruence.
Qed.

Lemma rest_step tid l s :
  rest tid l s = (l' ← step cfg tid l; if at_end (at_pc l') then mret l' else rest tid l') s.
Proof.
  unfold rest at 1. assert (1 ≤ steps_left (at_pc l))%nat by (destruct (at_pc l); simpl; lia).
  destruct (steps_left (at_pc l)) as [|k] eqn:Ek; [lia|]. simpl. unfold_M.
  destruct (step cfg tid l s) as [l' s'|? ?|?] eqn:Es; [|done..].
  apply step_decreases in Es as [He|Hl]; [by destruct (at_pc l')|].
  rewrite Ek in Hl. pose proof (rest_enough k tid l' s' ltac:(lia)).
  by destruct (at_pc l').
Qed.

(** Resuming a fiber, in one go. *)
Lemma fib_bind {A B} (m : M Fiber.t A) (k : A → M Fiber.t B) (s : st) :
  fib (m ≫= k) s = (a ← fib m; fib (k a)) s.
Proof. unfold fib. unfold_M. by destruct (m (world s)) as [a w|e w|f]. Qed.

Lemma fib_ret {A} (a : A) (s : st) : fib (mret a) s = Ok a s.
Proof. unfold fib. unfold_M. by rewrite set_world_id. Qed.

Lemma fib_GetThis p fresh (s : st) :
  Fiber.t_fiber (world s) = Some p → fib (Fiber.GetThis fresh) s = Ok p s.
Proof. intros Hp. unfold Fiber.GetThis, fib. unfold_M. rewrite Hp. by rewrite set_world_id. Qed.

Lemma rest_Save tid p k b r l s :
  rest tid (at_next (Save p k b r) l) s =
  (_ ← fib (if b then Fiber.back p k else Fiber.swapOut p k); rest tid (at_next (Count p r) l)) s.
Proof.
  rewrite rest_step. unfold step at 1. cbn [at_pc at_next]. unfold_M.
  by destruct (fib (if b then _ else _) s) as [[] s'|? ?|?].
Qed.

Lemma rest_SetState tid v p k b r l s :
  rest tid (at_next (SetState v p k b r) l) s =
  (_ ← fib (Fiber.update p (Fiber.set_state v));
   _ ← fib (if b then Fiber.back p k else Fiber.swapOut p k); rest tid (at_next (Count p r) l)) s.
Proof.
  rewrite rest_step. unfold step at 1. cbn [at_pc at_next]. unfold_M.
  destruct (fib (Fiber.update _ _) s) as [[] s'|? ?|?]; [|done..]. cbn [at_end at_pc at_next].
  apply rest_Save.
Qed.

(** The code of the fiber [p] that is running. *)
Lemma rest_Code tid p uc sc r l s :
  Fiber.t_fiber (world s) = Some p →
  rest tid (at_next (Code p uc sc r) l) s =
  (_ ← fib (Fiber.body (next_addr s) p uc sc); rest tid (at_next (Count p r) l)) s.
Proof.
  intros Hp. rewrite rest_step. unfold step at 1. cbn [at_pc at_next].
  destruct s as [[fs i c sk tf tt ts] na q th ti tc ac ic sp au rt rf tk ex]. simpl in Hp. subst tf.
  destruct sc as [|[] sc]; unfold perform, Fiber.body, Fiber.finish, Fiber.YieldToHold,
    Fiber.YieldToReady, Fiber.GetThis, Fiber.getState, Fiber.deref, Fiber.swapOut, Fiber.back,
    Fiber.update, fib; unfold_M; simpl.
  2,3: destruct (fs !! p) as [f|]; [simpl|done];
    destruct (bool_decide (Fiber.m_state f = Fiber.EXEC)); [simpl|done].
  all: change (at_next ?x (at_next _ l)) with (at_next x l);
    first [rewrite rest_SetState|rewrite rest_Save];
    unfold Fiber.swapOut, Fiber.back, Fiber.update, fib; unfold_M; simpl; destruct uc, ts, tt; done.
Qed.

Lemma rest_Load tid p r l s f :
  Fiber.fibers (world s) !! p = Some f → Fiber.t_fiber (world s) = Some p →
  rest tid (at_next (Load p r) l) s =
  (_ ← derefM (Fiber.t_scheduler_fiber (world s)); _ ← fib (Fiber.resume (next_addr s) p);
   rest tid (at_next (Count p r) l)) s.
Proof.
  intros Hf Hp. rewrite rest_step. unfold step at 1. cbn [at_pc at_next]. unfold load, Fiber.resume.
  unfold_M. destruct (Fiber.t_scheduler_fiber (world s)) as [m|] eqn:Hm; [|done]. simpl.
  unfold Fiber.MainFunc, fib at 1 4, Fiber.deref. unfold_M. rewrite Hf. simpl. rewrite set_world_id.
  destruct (Fiber.m_ctx f) as [uc|sc uc| |]; simpl; [|by rewrite rest_Code|done..].
  rewrite (fib_GetThis p) by done. unfold Fiber.GetThis. unfold_M. rewrite Hp. simpl.
  unfold fib at 1. rewrite Hf. simpl. rewrite set_world_id. destruct (Fiber.m_cb f) as [sc|]; simpl.
  - change (at_next ?x (at_next _ l)) with (at_next x l). by rewrite rest_Code.
  - change (at_next ?x (at_next _ l)) with (at_next x l). rewrite rest_SetState.
    unfold Fiber.finish, Fiber.update, Fiber.back, Fiber.swapOut, fib. unfold_M. simpl.
    by destruct uc; simpl; rewrite ?Hm; [destruct (Fiber.t_threadFiber (world s))|].
Qed.

Lemma rest_SwapIn tid p r l s :
  rest tid (at_next (SwapIn p r) l) s = (_ ← swapIn p; rest tid (at_next (Count p r) l)) s.
Proof.
  rewrite rest_step. unfold step at 1. cbn [at_pc at_next].
  unfold swapIn, Fiber.swapIn, fib, Fiber.deref, Fiber.SetThis. unfold_M.
  destruct (Fiber.fibers (world s) !! p) as [f|] eqn:Hp; [|done]. simpl.
  destruct (bool_decide (Fiber.m_state f = Fiber.EXEC)) eqn:He; [done|]. simpl.
  rewrite rest_step. unfold step at 1. cbn [at_pc at_next]. unfold fib, Fiber.update. unfold_M. simpl.
  change (at_next ?x (at_next _ _)) with (at_next x l).
  erewrite rest_Load; [|simpl; rewrite lookup_alter_eq, Hp; done|done]. unfold_M. simpl.
  destruct (Fiber.t_scheduler_fiber (world s)) as [m|]; [|done]. simpl. unfold fib. simpl.
  by destruct (Fiber.resume _ p _) as [[] w|? ?|?].
Qed.

(** ** An iteration of a thread alone is [run_once] *)
Ltac one_step := rewrite rest_step; unfold step at 1; cbn [at_pc at_next];
  unfold choose, settle, drop_cb; unfold_M.
Ltac here := cbn [fst snd at_end at_pc at_next with_cb idle_fiber cb_fiber].
Ltac split_run := match goal with
  | |- match ?x with _ => _ end = _ => destruct x as [? ?|? ?|?]; [here|done..]
  end.

Lemma rest_task tid p l s :
  rest tid (at_next (SwapIn p Task) l) s =
  (_ ← run_fiber base_tickle p; mret (at_next Scan l)) s.
Proof.
  rewrite rest_SwapIn. unfold run_fiber. unfold_M. destruct (swapIn p s) as [[] s1|? ?|?]; [|done..].
  one_step. destruct (leave_active s1) as [[] s2|? ?|?]; [here|done..].
  one_step. destruct (fib (Fiber.getState p) s2) as [v s3|? ?|?]; [|done..].
  destruct (decide (v = Fiber.READY)) as [->|Hr].
  - rewrite decide_True by done. here. one_step. by destruct (schedule _ _ s3) as [[] ?|? ?|?].
  - rewrite decide_False by (intros [? _]; done). destruct (finished v); [done|]. here. one_step.
    by destruct (fib (Fiber.update _ _) s3) as [[] ?|? ?|?].
Qed.

Lemma rest_callback tid c l s :
  rest tid (at_next (SwapIn c Callback) (with_cb (Some c) l)) s =
  (c' ← run_cb_fiber base_tickle c; mret (at_next Scan (with_cb c' l))) s.
Proof.
  rewrite rest_SwapIn. unfold run_cb_fiber. unfold_M. destruct (swapIn c s) as [[] s1|? ?|?]; [|done..].
  one_step. destruct (leave_active s1) as [[] s2|? ?|?]; [here|done..].
  one_step. destruct (fib (Fiber.getState c) s2) as [v s3|? ?|?]; [|done..].
  destruct (decide (v = Fiber.READY)) as [->|Hr].
  - rewrite decide_True by done. here. one_step. by destruct (schedule _ _ s3) as [[] ?|? ?|?].
  - rewrite decide_False by (intros [? _]; done). destruct (finished v); here; one_step.
    + by destruct (fib (Fiber.reset _ _) s3) as [[] ?|? ?|?].
    + by destruct (fib (Fiber.update _ _) s3) as [[] ?|? ?|?].
Qed.

Lemma rest_idle tid l s :
  rest tid (at_next GoIdle l) s =
  (b ← run_idle base_idle (idle_fiber l);
   mret (at_next (if b : bool then Exited else Scan) l)) s.
Proof.
  one_step. unfold run_idle. unfold_M. destruct (fib (Fiber.getState _) s) as [v s1|? ?|?]; [|done..].
  destruct (decide (v = Fiber.TERM)) as [->|Hr]; [done|]. here. one_step.
  destruct (base_idle _) as [sc s2|? ?|?]; [|done..].
  destruct (fib (Fiber.update _ (idle_code sc)) s2) as [[] s3|? ?|?]; [here|done..].
  rewrite rest_SwapIn. unfold_M. destruct (swapIn _ s3) as [[] s4|? ?|?]; [|done..].
  one_step. here. one_step. destruct (fib (Fiber.getState _) _) as [w s5|? ?|?]; [|done..].
  rewrite decide_False by (intros [_ ?]; done). destruct (finished w); [done|]. here. one_step.
  by destruct (fib (Fiber.update _ _) s5) as [[] ?|? ?|?].
Qed.

End alone.
End AloneProps.
