(* ===== verification/WorkersInv.v ===== *)
(** The invariant of threads that share a scheduler: who owns which fiber, and in
    what state a fiber is at each step of the thread that resumes it. *)
From stdpp Require Import base list numbers option gmap.
From Stdlib Require Import ZArith Lia.
From S2P Require Import Prelude Fiber FiberProps Scheduler SchedulerProps Workers.

Module WorkersInv.
Import Scheduler Workers.
Local Open Scope Z_scope.

(** ** Ownership *)

(** The fiber that is being resumed at a step, and whose it is. *)
Definition uses (x : pc) : option (Z * role) :=
  match x with
  | SwapIn p r | SetExec p r | Load p r | Code p _ _ r | SetState _ p _ _ r | Save p _ _ r
  | Count p r | Settle p r | Reschedule p r | Hold p r => Some (p, r)
  | Reset p => Some (p, Callback)
  | _ => None
  end.

(** The fiber of the task that a thread has taken. *)
Definition in_hand (x : pc) : list Z :=
  match x with
  | Tickle (Some it) _ | Choose (Some it) => option_list (Scheduler.fiber it)
  | _ => match uses x with Some (p, Task) => [p] | _ => [] end
  end.

Definition is_start (x : pc) : bool := match x with Start => true | _ => false end.

Definition held (l : local) : list Z :=
  if is_start (at_pc l) then []
  else in_hand (at_pc l) ++ option_list (cb_fiber l) ++ [idle_fiber l].

Definition queued (q : list FiberAndThread) : list Z := omap Scheduler.fiber q.

(** The fibers of the queue and of all threads. *)
Definition owned (q : list FiberAndThread) (ws : list worker) : list Z :=
  queued q ++ concat ((held ∘ loc) <$> ws).

(** A thread counts itself active from the task it takes to its end. *)
Definition busy (x : pc) : bool :=
  match x with
  | Tickle (Some _) _ | Choose (Some _) | Prepare _ | Leave => true
  | SwapIn _ r | SetExec _ r | Load _ r | Code _ _ _ r | SetState _ _ _ _ r | Save _ _ _ r
  | Count _ r => negb (bool_decide (r = Idle))
  | _ => false
  end.

(** ** The state of a fiber *)
Definition has_code (k : Fiber.context) : Prop :=
  match k with Fiber.Entry _ | Fiber.At _ _ => True | _ => False end.

(** The context fits the state: an end behind a finished fiber, a point to resume
    otherwise. *)
Definition saved (v : Fiber.State) (k : Fiber.context) : Prop :=
  if finished v then k = Fiber.Ended else has_code k.

(** A context that a switch saves. *)
Definition behind (k : Fiber.context) : Prop :=
  match k with Fiber.At _ _ | Fiber.Ended => True | _ => False end.

Definition rests (f : Fiber.fiber) : Prop :=
  Fiber.m_state f ≠ Fiber.EXEC ∧ saved (Fiber.m_state f) (Fiber.m_ctx f).

Definition ready (f : Fiber.fiber) : Prop := rests f ∧ finished (Fiber.m_state f) = false.

(** What a fiber is like at each step of the thread that resumes it. *)
Definition stage (x : pc) (f : Fiber.fiber) : Prop :=
  match x with
  | SwapIn _ _ | SetExec _ _ => ready f
  | Load _ _ => Fiber.m_state f = Fiber.EXEC ∧ has_code (Fiber.m_ctx f)
  | Code _ _ _ _ => Fiber.m_state f = Fiber.EXEC
  | SetState v _ k _ _ => Fiber.m_state f = Fiber.EXEC ∧ saved v k ∧ behind k
  | Save _ k _ _ => saved (Fiber.m_state f) k ∧ behind k
  | Count _ _ | Settle _ _ => saved (Fiber.m_state f) (Fiber.m_ctx f)
  | Reschedule _ _ => Fiber.m_state f = Fiber.READY ∧ has_code (Fiber.m_ctx f)
  | Hold _ _ => finished (Fiber.m_state f) = false ∧ has_code (Fiber.m_ctx f)
  | Reset _ => finished (Fiber.m_state f) = true ∧ saved (Fiber.m_state f) (Fiber.m_ctx f)
  | _ => True
  end.

(** The idle fiber yields once or ends; it never throws. *)
Definition idle_script (sc : Fiber.script) : Prop := sc = [] ∨ sc = [Fiber.DoYieldToHold].
Definition idle_state (v : Fiber.State) : Prop :=
  v = Fiber.INIT ∨ v = Fiber.HOLD ∨ v = Fiber.TERM.

Definition idle_stage (x : pc) (f : Fiber.fiber) : Prop :=
  match x with
  | SwapIn _ _ | SetExec _ _ | Load _ _ => ∃ sc, remaining f = Some sc ∧ idle_script sc
  | Code _ _ sc _ => idle_script sc
  | SetState v _ _ _ _ => idle_state v
  | Save _ _ _ _ | Count _ _ | Settle _ _ | Hold _ _ => idle_state (Fiber.m_state f)
  | Reschedule _ _ | Reset _ => False
  | _ => True
  end.

(** ** What has been executed of a fiber's code

    [g] is the code it was given, [d] what was executed. *)
Definition accounts (v : Fiber.State) (k : Fiber.context) (cb : option Fiber.script)
    (g d : Fiber.script) : Prop :=
  d `prefix_of` g ∧
  match k with
  | Fiber.Entry _ => ∀ sc, cb = Some sc → d = [] ∧ g = sc
  | Fiber.At sc _ => g = d ++ sc
  | Fiber.Ended => v = Fiber.TERM → d = g
  | Fiber.Unsaved => True
  end.

Definition accounted (f : Fiber.fiber) (g d : Fiber.script) : Prop :=
  accounts (Fiber.m_state f) (Fiber.m_ctx f) (Fiber.m_cb f) g d.

Definition stage_accounts (x : pc) (f : Fiber.fiber) (g d : Fiber.script) : Prop :=
  match x with
  | Code _ _ sc _ => g = d ++ sc
  | SetState v _ k _ _ => accounts v k None g d
  | Save _ k _ _ => accounts (Fiber.m_state f) k None g d
  | _ => accounted f g d
  end.

Definition told (h : history) (p : Z) (P : Fiber.script → Fiber.script → Prop) : Prop :=
  ∀ g, goal h !! p = Some g → P g (performed p h).

(** ** A thread *)
Definition entered (x : pc) : bool :=
  match x with SetExec _ _ | Load _ _ | Code _ _ _ _ => true | _ => false end.

Abbreviation heap_t := (gmap Z Fiber.fiber).

Definition use_ok (H : heap_t) (h : history) (l : local) (x : tls) : Prop :=
  ∀ p r, uses (at_pc l) = Some (p, r) → ∃ f, H !! p = Some f ∧ stage (at_pc l) f ∧
    (r = Idle → p = idle_fiber l ∧ idle_stage (at_pc l) f) ∧
    (r = Callback → cb_fiber l = Some p) ∧
    told h p (stage_accounts (at_pc l) f) ∧
    (entered (at_pc l) = true → t_fiber x = Some p).

(** [cb_fiber] can be given a function when it is not in use. *)
Definition cb_ok (H : heap_t) (l : local) : Prop :=
  ∀ c, cb_fiber l = Some c → (∀ p, uses (at_pc l) ≠ Some (p, Callback)) →
    ∃ f, H !! c = Some f ∧ Fiber.resettable (Fiber.m_state f) = true.

Definition idle_ok (H : heap_t) (l : local) : Prop :=
  (∀ p, uses (at_pc l) ≠ Some (p, Idle)) →
    ∃ f, H !! idle_fiber l = Some f ∧ idle_state (Fiber.m_state f) ∧
         (at_pc l = IdleTest → Fiber.m_state f ≠ Fiber.TERM).

Definition worker_ok (root : Z) (H : heap_t) (h : history) (w : worker) : Prop :=
  if is_start (at_pc (loc w)) then t_fiber (tl w) = None ∧ tid w ≠ root
  else is_Some (t_threadFiber (tl w)) ∧ is_Some (t_scheduler_fiber (tl w)) ∧
       use_ok H h (loc w) (tl w) ∧ cb_ok H (loc w) ∧ idle_ok H (loc w) ∧
       goal h !! idle_fiber (loc w) = None.

(** ** The invariant *)
Definition in_use (ws : list worker) : list Z :=
  omap (λ w, fst <$> uses (at_pc (loc w))) ws.

Definition busy_count (ws : list worker) : Z :=
  foldr (λ w n, (if busy (at_pc (loc w)) then 1 else 0) + n) 0 ws.

Record inv (s : sys) : Prop := {
  inv_fresh p f : heap (shared s) !! p = Some f → p < next_addr (shared s);
  inv_distinct : NoDup (owned (m_fibers (shared s)) (workers s));
  inv_owned p : p ∈ owned (m_fibers (shared s)) (workers s) →
    ∃ f, heap (shared s) !! p = Some f ∧ is_Some (Fiber.m_stack f);
  inv_rest p f : heap (shared s) !! p = Some f → is_Some (Fiber.m_stack f) →
    p ∉ in_use (workers s) → rests f ∧ told (hist s) p (accounted f);
  inv_told p g : goal (hist s) !! p = Some g →
    ∃ f, heap (shared s) !! p = Some f ∧ is_Some (Fiber.m_stack f);
  inv_queue : Forall (λ it, nonempty it = true) (m_fibers (shared s));
  inv_workers i w : workers s !! i = Some w →
    worker_ok (m_rootThread (shared s)) (heap (shared s)) (hist s) w;
  inv_active : m_activeThreadCount (shared s) = busy_count (workers s);
  inv_flow : submitted (hist s) ≡ₚ (taken (hist s)).*2 ++ m_fibers (shared s);
  inv_pins : Forall (λ e, threadId e.2 = -1 ∨ threadId e.2 = e.1) (taken (hist s))
}.

(** ** One step of one thread

    What it may change: the fibers it holds and new ones. *)
Record change (s : t unit) (h : history) (w : worker) (s' : t unit) (h' : history) (w' : worker)
    : Prop := {
  ch_next : next_addr s ≤ next_addr s';
  ch_fresh p f : heap s' !! p = Some f → p < next_addr s';
  ch_root : m_rootThread s' = m_rootThread s;
  ch_heap p : p ∉ held (loc w) → p < next_addr s → heap s' !! p = heap s !! p;
  ch_hist p : p ∉ held (loc w) → p < next_addr s →
    goal h' !! p = goal h !! p ∧ did h' !! p = did h !! p;
  ch_owned : ∃ new, NoDup new ∧ Forall (λ p, next_addr s ≤ p) new ∧
    queued (m_fibers s') ++ held (loc w') ⊆+ new ++ queued (m_fibers s) ++ held (loc w);
  ch_stacks p : (∃ f, heap s !! p = Some f ∧ is_Some (Fiber.m_stack f)) →
    ∃ f, heap s' !! p = Some f ∧ is_Some (Fiber.m_stack f);
  ch_new p : p ∈ queued (m_fibers s') ++ held (loc w') → next_addr s ≤ p →
    ∃ f, heap s' !! p = Some f ∧ is_Some (Fiber.m_stack f);
  ch_rest p f : heap s' !! p = Some f → is_Some (Fiber.m_stack f) →
    p ∈ held (loc w) ∨ next_addr s ≤ p → (∀ r, uses (at_pc (loc w')) ≠ Some (p, r)) →
    rests f ∧ told h' p (accounted f);
  ch_told p g : goal h' !! p = Some g → p ∈ held (loc w) ∨ next_addr s ≤ p →
    ∃ f, heap s' !! p = Some f ∧ is_Some (Fiber.m_stack f);
  ch_queue : Forall (λ it, nonempty it = true) (m_fibers s');
  ch_worker : worker_ok (m_rootThread s) (heap s') h' w';
  ch_active : m_activeThreadCount s' - m_activeThreadCount s =
    (if busy (at_pc (loc w')) then 1 else 0) - (if busy (at_pc (loc w)) then 1 else 0);
  ch_flow : submitted h ≡ₚ (taken h).*2 ++ m_fibers s →
            submitted h' ≡ₚ (taken h').*2 ++ m_fibers s';
  ch_pins : Forall (λ e, threadId e.2 = -1 ∨ threadId e.2 = e.1) (taken h) →
            Forall (λ e, threadId e.2 = -1 ∨ threadId e.2 = e.1) (taken h')
}.

(** *** Lists *)
Lemma in_use_elem p ws : p ∈ in_use ws ↔ ∃ w r, w ∈ ws ∧ uses (at_pc (loc w)) = Some (p, r).
Proof.
  unfold in_use. rewrite list_elem_of_omap. split.
  - intros (w & Hw & Hu). destruct (uses _) as [[q r]|] eqn:E; [|done]. injection Hu as ->. eauto.
  - intros (w & r & Hw & Hu). exists w. by rewrite Hu.
Qed.

Lemma uses_held H h l x p r : use_ok H h l x → uses (at_pc l) = Some (p, r) → p ∈ held l.
Proof.
  intros Hu Hp. destruct (Hu _ _ Hp) as (f & _ & _ & Hi & Hc & _).
  assert (p ∈ in_hand (at_pc l) ++ option_list (cb_fiber l) ++ [idle_fiber l]) as Hin.
  { rewrite !elem_of_app, list_elem_of_singleton. destruct r.
    - left. destruct (at_pc l); simpl in *; simplify_eq; set_solver.
    - right; left. rewrite (Hc eq_refl). set_solver.
    - right; right. by destruct (Hi eq_refl). }
  unfold held. by destruct (at_pc l).
Qed.

Lemma uses_started x p r : uses x = Some (p, r) → is_start x = false.
Proof. by destruct x. Qed.

Lemma held_app ws1 w ws2 :
  concat ((held ∘ loc) <$> ws1 ++ w :: ws2) ≡ₚ held (loc w) ++ concat ((held ∘ loc) <$> ws1 ++ ws2).
Proof.
  rewrite !fmap_app, !concat_app. simpl. apply Permutation_app_swap_app.
Qed.

Lemma NoDup_included {A} (l k : list A) : l ⊆+ k → NoDup k → NoDup l.
Proof. intros (l' & ->)%submseteq_Permutation Hk. by apply NoDup_app in Hk as [? _]. Qed.

Lemma held_elem p ws : p ∈ concat ((held ∘ loc) <$> ws) ↔ ∃ w, w ∈ ws ∧ p ∈ held (loc w).
Proof.
  rewrite list_elem_of_In, in_concat. setoid_rewrite <-list_elem_of_In. split.
  - intros (l & (w & -> & Hw)%list_elem_of_fmap & Hp). eauto.
  - intros (w & Hw & Hp). exists (held (loc w)). split; [|done]. apply list_elem_of_fmap. eauto.
Qed.

(** *** A thread is not concerned by what happens to other fibers *)
Lemma told_frame h h' p P :
  goal h' !! p = goal h !! p → did h' !! p = did h !! p → told h p P → told h' p P.
Proof.
  intros Hg Hd Ht g Hp. rewrite Hg in Hp.
  assert (performed p h' = performed p h) as -> by exact (f_equal (default []) Hd). by apply Ht.
Qed.

Lemma worker_ok_frame root H H' h h' w :
  (∀ p, p ∈ held (loc w) → H' !! p = H !! p ∧ goal h' !! p = goal h !! p ∧ did h' !! p = did h !! p) →
  worker_ok root H h w → worker_ok root H' h' w.
Proof.
  intros Hf. unfold worker_ok. destruct (is_start (at_pc (loc w))) eqn:E; [done|].
  assert (idle_fiber (loc w) ∈ held (loc w) ∧
    ∀ c, cb_fiber (loc w) = Some c → c ∈ held (loc w)) as [Hidle Hcb].
  { unfold held. rewrite E. split; [set_solver|]. intros c ->. set_solver. }
  intros (Ht & Hm & Hu & Hc & Hi & Hgi). split_and!; [done|done| | | |].
  - intros p r Hp. destruct (Hf p) as (Hh & Hg & Hd); [by eapply uses_held|].
    destruct (Hu p r Hp) as (f & Hpf & H1 & H2 & H3 & H4 & H5). exists f. rewrite Hh.
    split_and!; try done. by eapply told_frame.
  - intros c Hcf Hn. destruct (Hc c Hcf Hn) as (f & Hpf & H1). exists f.
    by rewrite (proj1 (Hf c (Hcb _ Hcf))).
  - intros Hn. destruct (Hi Hn) as (f & Hpf & H1). exists f. by rewrite (proj1 (Hf _ Hidle)).
  - by destruct (Hf _ Hidle) as (_ & -> & _).
Qed.

(** *** A change keeps the invariant *)
Section preserved.
Context (s : sys) (ws1 ws2 : list worker) (w w' : worker) (s' : t unit) (h' : history).
Context (Hs : inv s) (Hws : workers s = ws1 ++ w :: ws2).
Context (Hch : change (shared s) (hist s) w s' h' w').

Lemma worker_at i v : (ws1 ++ v :: ws2) !! i =
  if decide (i = length ws1) then Some v else (ws1 ++ w :: ws2) !! i.
Proof.
  destruct (decide (i = length ws1)) as [->|Hi]; [by apply list_lookup_middle|].
  destruct (decide (i < length ws1)%nat) as [Hl|Hl]; [by rewrite !lookup_app_l by done|].
  rewrite !lookup_app_r by lia. by destruct (i - length ws1)%nat eqn:E; [lia|].
Qed.

Lemma owned_split v q :
  owned q (ws1 ++ v :: ws2) ≡ₚ (queued q ++ held (loc v)) ++ concat ((held ∘ loc) <$> ws1 ++ ws2).
Proof. unfold owned. rewrite held_app. by rewrite (assoc_L (++)). Qed.

Lemma owned_old p : p ∈ owned (m_fibers (shared s)) (ws1 ++ w :: ws2) → p < next_addr (shared s).
Proof.
  rewrite <-Hws. intros Hp. destruct (inv_owned _ Hs p Hp) as (f & Hf & _). by eapply inv_fresh.
Qed.

Lemma distinct : NoDup (queued (m_fibers (shared s)) ++ held (loc w)) ∧
  (∀ p, p ∈ queued (m_fibers (shared s)) ++ held (loc w) →
        p ∉ concat ((held ∘ loc) <$> ws1 ++ ws2)) ∧ NoDup (concat ((held ∘ loc) <$> ws1 ++ ws2)).
Proof. apply NoDup_app. rewrite <-owned_split, <-Hws. apply Hs. Qed.

Lemma other_held p : p ∈ concat ((held ∘ loc) <$> ws1 ++ ws2) →
  p ∉ held (loc w) ∧ p < next_addr (shared s).
Proof.
  intros Hp. destruct distinct as (_ & Hd & _). split.
  - intros Hw. apply (Hd p); [set_solver|done].
  - apply owned_old. rewrite owned_split. set_solver.
Qed.

Lemma used_by_worker p r : uses (at_pc (loc w)) = Some (p, r) → p ∈ held (loc w).
Proof.
  intros Hp. pose proof (inv_workers _ Hs (length ws1) w) as Hw.
  rewrite Hws, list_lookup_middle in Hw by done. specialize (Hw eq_refl). unfold worker_ok in Hw.
  rewrite (uses_started _ _ _ Hp) in Hw. destruct Hw as (_ & _ & Hu & _). by eapply uses_held.
Qed.

Lemma change_distinct : NoDup (owned (m_fibers s') (ws1 ++ w' :: ws2)).
Proof.
  destruct distinct as (H1 & H2 & H3). destruct (ch_owned _ _ _ _ _ _ Hch) as (new & Hn & Hge & Hsub).
  rewrite Forall_forall in Hge. rewrite owned_split. apply NoDup_app. split_and!; [| |done].
  - eapply NoDup_included; [exact Hsub|]. apply NoDup_app. split_and!; [done| |done].
    intros p Hp Hin. specialize (Hge p Hp). assert (p < next_addr (shared s)); [|lia].
    apply owned_old. rewrite owned_split. set_solver.
  - intros p Hp Hin. eapply elem_of_submseteq in Hp; [|exact Hsub].
    apply elem_of_app in Hp as [Hp|Hp]; [|by apply (H2 p)].
    specialize (Hge p Hp). apply other_held in Hin as [_ ?]. lia.
Qed.

Lemma change_owned p : p ∈ owned (m_fibers s') (ws1 ++ w' :: ws2) →
  ∃ f, heap s' !! p = Some f ∧ is_Some (Fiber.m_stack f).
Proof.
  rewrite owned_split. intros [Hp|Hp]%elem_of_app.
  - destruct (decide (next_addr (shared s) ≤ p)) as [Hge|Hlt]; [by eapply ch_new|].
    eapply ch_stacks; [exact Hch|]. apply (inv_owned _ Hs). rewrite Hws, owned_split.
    destruct (ch_owned _ _ _ _ _ _ Hch) as (new & _ & Hge & Hsub). rewrite Forall_forall in Hge.
    eapply elem_of_submseteq in Hp; [|exact Hsub].
    apply elem_of_app in Hp as [Hp|Hp]; [by specialize (Hge p Hp)|set_solver].
  - eapply ch_stacks; [exact Hch|]. apply (inv_owned _ Hs). rewrite Hws, owned_split. set_solver.
Qed.

Lemma change_rest p f : heap s' !! p = Some f → is_Some (Fiber.m_stack f) →
  p ∉ in_use (ws1 ++ w' :: ws2) → rests f ∧ told h' p (accounted f).
Proof.
  intros Hf Hst Hu. destruct (decide (p ∈ held (loc w) ∨ next_addr (shared s) ≤ p)) as [Hp|Hp].
  - eapply ch_rest; [exact Hch|done..|]. intros r Hr. apply Hu, in_use_elem. exists w', r. set_solver.
  - assert (p ∉ held (loc w) ∧ p < next_addr (shared s)) as [Hp1 Hp2] by (split; [tauto|lia]).
    rewrite (ch_heap _ _ _ _ _ _ Hch) in Hf by done.
    destruct (inv_rest _ Hs p f Hf Hst) as [Hr Ht].
    + rewrite Hws, in_use_elem. intros (v & r & Hv & Hpv). apply Hu, in_use_elem.
      apply elem_of_app in Hv as [Hv|[->|Hv]%elem_of_cons].
      * exists v, r. set_solver.
      * by apply used_by_worker in Hpv.
      * exists v, r. set_solver.
    + split; [done|]. destruct (ch_hist _ _ _ _ _ _ Hch p Hp1 Hp2). by eapply told_frame.
Qed.

Lemma busy_count_app l v l' :
  busy_count (l ++ v :: l') = busy_count (l ++ l') + (if busy (at_pc (loc v)) then 1 else 0).
Proof. unfold busy_count. induction l as [|u l IH]; simpl in *; lia. Qed.

Lemma change_inv : inv (mk_sys s' (ws1 ++ w' :: ws2) h').
Proof.
  split; simpl.
  - apply Hch.
  - apply change_distinct.
  - apply change_owned.
  - apply change_rest.
  - intros p g Hg. destruct (decide (p ∈ held (loc w) ∨ next_addr (shared s) ≤ p)) as [Hp|Hp];
      [by eapply ch_told|]. eapply ch_stacks; [exact Hch|]. eapply (inv_told _ Hs p g).
    assert (p ∉ held (loc w) ∧ p < next_addr (shared s)) as [Hp1 Hp2] by (split; [tauto|lia]).
    by destruct (ch_hist _ _ _ _ _ _ Hch p Hp1 Hp2) as [<- _].
  - apply Hch.
  - intros i v. rewrite (ch_root _ _ _ _ _ _ Hch), worker_at.
    destruct (decide (i = length ws1)) as [->|Hi]; [intros [= <-]; apply Hch|]. intros Hv.
    eapply worker_ok_frame; [|eapply inv_workers; [exact Hs|by rewrite Hws]]. intros p Hp.
    assert (p ∈ concat ((held ∘ loc) <$> ws1 ++ ws2)) as [H1 H2]%other_held.
    { apply held_elem. exists v. split; [|done]. apply elem_of_app.
      destruct (decide (i < length ws1)%nat) as [Hl|Hl].
      - left. rewrite lookup_app_l in Hv by done. by eapply list_elem_of_lookup_2.
      - right. rewrite lookup_app_r in Hv by lia. destruct (i - length ws1)%nat eqn:E; [lia|].
        by eapply list_elem_of_lookup_2. }
    split; [by apply (ch_heap _ _ _ _ _ _ Hch)|by apply (ch_hist _ _ _ _ _ _ Hch)].
  - pose proof (ch_active _ _ _ _ _ _ Hch) as Ha. pose proof (inv_active _ Hs) as Hi.
    rewrite Hws in Hi. rewrite busy_count_app in *. lia.
  - apply Hch, Hs.
  - apply Hch, Hs.
Qed.
End preserved.
End WorkersInv.
