(* ===== verification/WorkersSteps.v ===== *)
(** Every step of a thread succeeds and keeps the invariant. *)
From stdpp Require Import base list numbers option gmap.
From Stdlib Require Import ZArith Lia.
From S2P Require Import Prelude Fiber FiberProps Scheduler SchedulerProps Workers WorkersProps WorkersInv.

Module WorkersSteps.
Import Scheduler Workers WorkersInv.
Local Open Scope Z_scope.

Section steps.
Variable cfg : Z.
Implicit Types (s : t unit) (h : history) (w : worker) (l : local).

(** What the invariant says to the thread whose turn it is. *)
Record turn s h w : Prop := {
  tn_tls : get_tls (world s) = tl w;
  tn_fresh p f : heap s !! p = Some f → p < next_addr s;
  tn_worker : worker_ok (m_rootThread s) (heap s) h w;
  tn_exist p : p ∈ queued (m_fibers s) ++ held (loc w) →
    ∃ f, heap s !! p = Some f ∧ is_Some (Fiber.m_stack f);
  tn_rest p f : p ∈ queued (m_fibers s) ++ held (loc w) → heap s !! p = Some f →
    (∀ r, uses (at_pc (loc w)) ≠ Some (p, r)) → rests f ∧ told h p (accounted f);
  tn_distinct : NoDup (queued (m_fibers s) ++ held (loc w));
  tn_queue : Forall (λ it, nonempty it = true) (m_fibers s);
  tn_told p g : goal h !! p = Some g → ∃ f, heap s !! p = Some f ∧ is_Some (Fiber.m_stack f)
}.

(** *** The pieces of a step *)
Lemma fib_deref p f s : heap s !! p = Some f → fib (Fiber.deref p) s = Ok f s.
Proof. intros Hp. unfold fib, Fiber.deref. unfold_M. unfold heap in Hp. rewrite Hp. by destruct s. Qed.

Lemma fib_update p f g s : heap s !! p = Some f →
  fib (Fiber.update p g) s =
  Ok tt (set_world (Fiber.set_fibers (<[p := g f]> (heap s)) (world s)) s).
Proof. intros Hp. unfold fib, Fiber.update. unfold_M. by rewrite (fibers_alter p g f). Qed.

Lemma held_NoDup s h w : turn s h w → NoDup (held (loc w)).
Proof. intros Ht. apply tn_distinct in Ht. by apply NoDup_app in Ht as (_ & _ & ?). Qed.

(** *** A step that changes at most one fiber, which the thread holds *)
Record one s h w s' h' (p : Z) (f f' : Fiber.fiber) : Prop := {
  on_fiber : heap s !! p = Some f;
  on_held : p ∈ held (loc w);
  on_stack : Fiber.m_stack f' = Fiber.m_stack f;
  on_heap : heap s' = <[p := f']> (heap s);
  on_next : next_addr s' = next_addr s;
  on_root : m_rootThread s' = m_rootThread s;
  on_queue : m_fibers s' = m_fibers s;
  on_hist q : q ≠ p → goal h' !! q = goal h !! q ∧ did h' !! q = did h !! q;
  on_idle : goal h' !! idle_fiber (loc w) = goal h !! idle_fiber (loc w);
  on_flow : submitted h' = submitted h ∧ taken h' = taken h;
  on_uses q r : uses (at_pc (loc w)) = Some (q, r) → q = p
}.

Lemma change_one s h w s' h' w' p f f' :
  turn s h w → one s h w s' h' p f f' →
  held (loc w') ⊆+ held (loc w) →
  ((∀ r, uses (at_pc (loc w')) ≠ Some (p, r)) → rests f' ∧ told h' p (accounted f')) →
  worker_ok (m_rootThread s) (heap s') h' w' →
  m_activeThreadCount s' - m_activeThreadCount s =
    (if busy (at_pc (loc w')) then 1 else 0) - (if busy (at_pc (loc w)) then 1 else 0) →
  change s h w s' h' w'.
Proof.
  intros Ht [Hp Hheld Hst Hheap Hnext Hroot Hq Hhist _ [Hsub Htak] Huses] Hl Hrest Hw Ha.
  assert (∀ q, (∃ g, heap s !! q = Some g ∧ is_Some (Fiber.m_stack g)) →
    ∃ g, heap s' !! q = Some g ∧ is_Some (Fiber.m_stack g)) as Hstacks.
  { intros q (g & Hg & Hgs). rewrite Hheap. destruct (decide (q = p)) as [->|Hne].
    - rewrite lookup_insert_eq. exists f'. split; [done|]. rewrite Hst. congruence.
    - rewrite lookup_insert_ne by done. eauto. }
  assert (∀ q, next_addr s ≤ q → ¬ is_Some (heap s !! q)) as Hnone.
  { intros q Hge [g Hg]. apply (tn_fresh _ _ _ Ht) in Hg. lia. }
  split; try done.
  - lia.
  - intros q g. rewrite Hheap, Hnext, lookup_insert_Some.
    intros [[<- _]|[_ Hg]]; [exact (tn_fresh _ _ _ Ht _ _ Hp)|exact (tn_fresh _ _ _ Ht _ _ Hg)].
  - intros q Hn _. rewrite Hheap, lookup_insert_ne; [done|]. by intros ->.
  - intros q Hn _. apply Hhist. by intros ->.
  - exists []. split_and!; [constructor|constructor|]. rewrite Hq. simpl. apply submseteq_app; [reflexivity|done].
  - intros q Hin Hge. apply Hstacks. apply (tn_exist _ _ _ Ht).
    apply elem_of_app in Hin as [Hin|Hin]; [rewrite <-Hq; set_solver|].
    eapply elem_of_submseteq in Hin; [|exact Hl]. set_solver.
  - intros q g Hg Hs Hor Hn. destruct (decide (q = p)) as [->|Hne].
    + rewrite Hheap, lookup_insert_eq in Hg. injection Hg as <-. by apply Hrest.
    + rewrite Hheap, lookup_insert_ne in Hg by done. destruct Hor as [Hin|Hge].
      * destruct (tn_rest _ _ _ Ht q g) as [Hr Ht']; [set_solver|done| |].
        { intros r Hu. by apply Huses in Hu. }
        split; [done|]. destruct (Hhist q Hne). by eapply told_frame.
      * destruct (Hnone q Hge). by eexists.
  - intros q g Hg Hor. apply Hstacks. destruct (decide (q = p)) as [->|Hne].
    + apply (tn_exist _ _ _ Ht). set_solver.
    + rewrite (proj1 (Hhist q Hne)) in Hg. by eapply tn_told.
  - rewrite Hq. apply Ht.
  - rewrite Hsub, Htak, Hq. done.
  - by rewrite Htak.
Qed.

(** The fibers of the roles are different ones. *)
Lemma roles_differ s h w p r : turn s h w → uses (at_pc (loc w)) = Some (p, r) →
  (r ≠ Callback → ∀ c, cb_fiber (loc w) = Some c → c ≠ p) ∧
  (r ≠ Idle → idle_fiber (loc w) ≠ p).
Proof.
  intros Ht Hu. pose proof (held_NoDup _ _ _ Ht) as Hnd. pose proof (tn_worker _ _ _ Ht) as Hw.
  unfold worker_ok in Hw. unfold held in Hnd. rewrite (uses_started _ _ _ Hu) in *.
  destruct Hw as (_ & _ & Hw & _). destruct (Hw _ _ Hu) as (f & _ & _ & Hi & Hc & _).
  apply NoDup_app in Hnd as (_ & Hd & Hnd). apply NoDup_app in Hnd as (_ & Hd2 & _).
  assert (r = Task → p ∈ in_hand (at_pc (loc w))) as Htask.
  { intros ->. destruct (at_pc (loc w)); simpl in *; simplify_eq; set_solver. }
  split.
  - intros Hr c Hcf ->. rewrite Hcf in *. destruct r; [|done|].
    + apply (Hd p); [auto|set_solver].
    + destruct (Hi eq_refl) as [-> _]. apply (Hd2 (idle_fiber (loc w))); set_solver.
  - intros Hr Heq. destruct r; [| |done].
    + apply (Hd p); [auto|]. rewrite <-Heq. set_solver.
    + apply (Hd2 p); [rewrite (Hc eq_refl); set_solver|]. rewrite <-Heq. set_solver.
Qed.

(** *** A step from one stage of a resumption to the next *)
Lemma change_stage s h w s' h' x p r f f' :
  turn s h w → uses (at_pc (loc w)) = Some (p, r) → uses x = Some (p, r) →
  let w' := mk_worker (tid w) (at_next x (loc w)) (get_tls (world s')) in
  one s h w s' h' p f f' →
  is_Some (Fiber.t_threadFiber (world s')) → is_Some (Fiber.t_scheduler_fiber (world s')) →
  stage x f' → (r = Idle → idle_stage x f') → told h' p (stage_accounts x f') →
  (entered x = true → Fiber.t_fiber (world s') = Some p) →
  m_activeThreadCount s' - m_activeThreadCount s =
    (if busy x then 1 else 0) - (if busy (at_pc (loc w)) then 1 else 0) →
  change s h w s' h' w'.
Proof.
  intros Ht Hu Hx w' Hone Hth Hsc Hst Hi Ha He Hact.
  destruct (roles_differ _ _ _ _ _ Ht Hu) as [Hcb Hid].
  pose proof (tn_worker _ _ _ Ht) as Hw. unfold worker_ok in Hw.
  rewrite (uses_started _ _ _ Hu) in Hw. destruct Hw as (_ & _ & Hw & Hc & Hidle & Hgi).
  destruct (Hw _ _ Hu) as (f0 & _ & _ & Hi0 & Hc0 & _).
  eapply change_one; [done|exact Hone| | | |exact Hact].
  - unfold held. simpl. rewrite (uses_started _ _ _ Hu), (uses_started _ _ _ Hx).
    assert (in_hand x = in_hand (at_pc (loc w))) as ->; [|done].
    destruct x, (at_pc (loc w)); simpl in *; simplify_eq; done.
  - intros Hn. by destruct (Hn r).
  - unfold worker_ok. simpl. rewrite (uses_started _ _ _ Hx).
    split_and!; [done|done| | | |by rewrite (on_idle _ _ _ _ _ _ _ _ Hone)].
    + intros q r' Hq. simpl in *. rewrite Hx in Hq. injection Hq as <- <-. exists f'.
      rewrite (on_heap _ _ _ _ _ _ _ _ Hone), lookup_insert_eq. split_and!; try done.
      intros Hr. split; [by apply Hi0|by apply Hi].
    + intros c Hcf Hn. simpl in *. assert (r ≠ Callback) as Hr by (intros ->; by apply (Hn p)).
      rewrite (on_heap _ _ _ _ _ _ _ _ Hone), lookup_insert_ne by (intros Heq; by apply (Hcb Hr c)).
      apply Hc; [done|]. intros q Hq. rewrite Hu in Hq. congruence.
    + intros Hn. simpl in *. assert (r ≠ Idle) as Hr by (intros ->; by apply (Hn p)).
      rewrite (on_heap _ _ _ _ _ _ _ _ Hone), lookup_insert_ne by (intros Heq; by apply (Hid Hr)).
      destruct Hidle as (g & Hg & Hg1 & _); [intros q Hq; rewrite Hu in Hq; congruence|].
      exists g. split_and!; [done|done|]. by intros ->.
Qed.

(** *** The end of a resumption *)
Lemma change_leave s h w s' h' p r f f' c' :
  turn s h w → uses (at_pc (loc w)) = Some (p, r) → busy (at_pc (loc w)) = false →
  let w' := mk_worker (tid w) (mk_local Scan (idle_fiber (loc w)) c') (get_tls (world s')) in
  one s h w s' h' p f f' →
  (c' = cb_fiber (loc w) ∧ (r = Callback → Fiber.resettable (Fiber.m_state f') = true) ∨
   r = Callback ∧ c' = None) →
  (r = Idle → idle_state (Fiber.m_state f')) →
  is_Some (Fiber.t_threadFiber (world s')) → is_Some (Fiber.t_scheduler_fiber (world s')) →
  rests f' → told h' p (accounted f') →
  m_activeThreadCount s' = m_activeThreadCount s →
  change s h w s' h' w'.
Proof.
  intros Ht Hu Hb w' Hone Hc Hidl Hth Hsc Hr Ha Hact.
  destruct (roles_differ _ _ _ _ _ Ht Hu) as [Hcb Hid].
  pose proof (tn_worker _ _ _ Ht) as Hw. unfold worker_ok in Hw.
  rewrite (uses_started _ _ _ Hu) in Hw. destruct Hw as (_ & _ & Hw & Hcok & Hidle & Hgi).
  destruct (Hw _ _ Hu) as (f0 & _ & _ & Hi0 & Hc0 & _).
  pose proof (on_heap _ _ _ _ _ _ _ _ Hone) as Hheap.
  eapply change_one; [done|exact Hone| |done| |].
  - unfold held. simpl. rewrite (uses_started _ _ _ Hu).
    apply submseteq_inserts_l. apply submseteq_app; [|reflexivity].
    destruct Hc as [[-> _]|[_ ->]]; [reflexivity|apply submseteq_nil_l].
  - unfold worker_ok. simpl.
    split_and!; [done|done|done| | |by rewrite (on_idle _ _ _ _ _ _ _ _ Hone)].
    + intros c Hcf _. simpl in *. destruct Hc as [[-> Hres]|[_ ->]]; [|done].
      destruct (decide (c = p)) as [->|Hne].
      * rewrite Hheap, lookup_insert_eq. exists f'. split; [done|]. apply Hres.
        destruct (decide (r = Callback)) as [|Hrc]; [done|]. by destruct (Hcb Hrc p Hcf).
      * rewrite Hheap, lookup_insert_ne by done. apply Hcok; [done|]. intros q Hq.
        rewrite Hu in Hq. injection Hq as <- ->. specialize (Hc0 eq_refl). congruence.
    + intros _. simpl in *. destruct (decide (r = Idle)) as [->|Hri].
      * destruct (Hi0 eq_refl) as [-> _]. rewrite Hheap, lookup_insert_eq. exists f'.
        split_and!; [done|by apply Hidl|done].
      * rewrite Hheap, lookup_insert_ne by (intros Heq; by apply (Hid Hri)).
        destruct Hidle as (g & Hg & Hg1 & _); [intros q Hq; rewrite Hu in Hq; congruence|].
        by exists g.
  - rewrite Hb. simpl. lia.
Qed.

(** *** The beginning of a resumption *)
Lemma change_enter s h w s' h' x p r f f' :
  turn s h w → uses (at_pc (loc w)) = None → is_start (at_pc (loc w)) = false →
  uses x = Some (p, r) → entered x = false →
  let w' := mk_worker (tid w) (at_next x (loc w)) (get_tls (world s')) in
  one s h w s' h' p f f' →
  in_hand x ⊆+ in_hand (at_pc (loc w)) →
  (∀ c, cb_fiber (loc w) = Some c → c = p ↔ r = Callback) →
  (r = Callback → cb_fiber (loc w) = Some p) →
  (idle_fiber (loc w) = p ↔ r = Idle) →
  is_Some (Fiber.t_threadFiber (world s')) → is_Some (Fiber.t_scheduler_fiber (world s')) →
  stage x f' → (r = Idle → idle_stage x f') → told h' p (stage_accounts x f') →
  m_activeThreadCount s' - m_activeThreadCount s =
    (if busy x then 1 else 0) - (if busy (at_pc (loc w)) then 1 else 0) →
  change s h w s' h' w'.
Proof.
  intros Ht Hu Hs Hx Hx1 w' Hone Hhand Hcb Hcb2 Hid Hth Hsc Hst Hi Ha Hact.
  pose proof (tn_worker _ _ _ Ht) as Hw. unfold worker_ok in Hw.
  rewrite Hs in Hw. destruct Hw as (_ & _ & _ & Hc & Hidle & Hgi).
  pose proof (on_heap _ _ _ _ _ _ _ _ Hone) as Hheap.
  eapply change_one; [done|exact Hone| | | |exact Hact].
  - unfold held. simpl. rewrite Hs, (uses_started _ _ _ Hx). by apply submseteq_app.
  - intros Hn. by destruct (Hn r).
  - unfold worker_ok. simpl. rewrite (uses_started _ _ _ Hx).
    split_and!; [done|done| | | |by rewrite (on_idle _ _ _ _ _ _ _ _ Hone)].
    + intros q r' Hq. simpl in *. rewrite Hx in Hq. injection Hq as <- <-. exists f'.
      rewrite Hheap, lookup_insert_eq. split_and!; try done; [|by rewrite Hx1].
      intros Hr. split; [by symmetry; apply Hid|by apply Hi].
    + intros c Hcf Hn. simpl in *. assert (c ≠ p) as Hne.
      { intros Heq. apply (Hcb _ Hcf) in Heq as ->. by apply (Hn p). }
      rewrite Hheap, lookup_insert_ne by done. apply Hc; [done|]. by rewrite Hu.
    + intros Hn. simpl in *. assert (idle_fiber (loc w) ≠ p) as Hne.
      { intros ->%Hid. by apply (Hn p). }
      rewrite Hheap, lookup_insert_ne by done. destruct Hidle as (g & Hg & Hg1 & _); [by rewrite Hu|].
      exists g. split_and!; [done|done|]. by intros ->.
Qed.

(** *** A step while nothing is resumed that changes no fiber *)
Lemma change_none s h w s' x :
  turn s h w → uses (at_pc (loc w)) = None → is_start (at_pc (loc w)) = false →
  uses x = None → is_start x = false → in_hand x ⊆+ in_hand (at_pc (loc w)) →
  let w' := mk_worker (tid w) (at_next x (loc w)) (get_tls (world s')) in
  world s' = world s → next_addr s' = next_addr s → m_rootThread s' = m_rootThread s →
  m_fibers s' = m_fibers s →
  (x = IdleTest → ∀ f, heap s !! idle_fiber (loc w) = Some f → Fiber.m_state f ≠ Fiber.TERM) →
  m_activeThreadCount s' - m_activeThreadCount s =
    (if busy x then 1 else 0) - (if busy (at_pc (loc w)) then 1 else 0) →
  change s h w s' h w'.
Proof.
  intros Ht Hu Hs Hx Hxs Hhand w' Hworld Hnext Hroot Hq Hidl Hact.
  pose proof (tn_worker _ _ _ Ht) as Hw. unfold worker_ok in Hw.
  rewrite Hs in Hw. destruct Hw as (Hth & Hsc & _ & Hc & Hidle & Hgi).
  destruct Hidle as (f & Hf & Hf1 & _); [by rewrite Hu|].
  assert (idle_fiber (loc w) ∈ held (loc w)) as Hin by (unfold held; rewrite Hs; set_solver).
  assert (heap s' = heap s) as Hheap by (unfold heap; by rewrite Hworld).
  eapply (change_one _ _ _ _ _ _ (idle_fiber (loc w)) f f); [done| | | | |exact Hact].
  - split; try done; [by rewrite insert_id|]. intros q r Hq'. by rewrite Hu in Hq'.
  - unfold held. simpl. rewrite Hs, Hxs. by apply submseteq_app.
  - intros _. apply (tn_rest _ _ _ Ht); [set_solver|done|]. by rewrite Hu.
  - unfold worker_ok. simpl. rewrite Hxs, Hheap. rewrite <-(tn_tls _ _ _ Ht) in Hth, Hsc.
    split_and!; [by rewrite Hworld|by rewrite Hworld| | | |done].
    + intros q r Hq'. simpl in Hq'. by rewrite Hx in Hq'.
    + intros c Hcf _. apply Hc; [done|]. by rewrite Hu.
    + intros _. exists f. simpl. split_and!; [done|done|]. intros E. by apply Hidl.
Qed.

(** ** The steps *)
Definition stepped s h w : Prop := ∃ l' s',
  step cfg (tid w) (loc w) s = Ok l' s' ∧
  change s h w s' (note (tid w) (at_pc (loc w)) (at_pc l') h)
    (mk_worker (tid w) l' (get_tls (world s'))).

Record resumed s h w (p : Z) (r : role) (f : Fiber.fiber) : Prop := {
  rs_fiber : heap s !! p = Some f;
  rs_stack : is_Some (Fiber.m_stack f);
  rs_held : p ∈ held (loc w);
  rs_stage : stage (at_pc (loc w)) f;
  rs_idle : r = Idle → p = idle_fiber (loc w) ∧ idle_stage (at_pc (loc w)) f;
  rs_cb : r = Callback → cb_fiber (loc w) = Some p;
  rs_told : told h p (stage_accounts (at_pc (loc w)) f);
  rs_this : entered (at_pc (loc w)) = true → Fiber.t_fiber (world s) = Some p;
  rs_thread : is_Some (Fiber.t_threadFiber (world s));
  rs_scheduler : is_Some (Fiber.t_scheduler_fiber (world s))
}.

Lemma turn_resumed s h w p r : turn s h w → uses (at_pc (loc w)) = Some (p, r) →
  ∃ f, resumed s h w p r f.
Proof.
  intros Ht Hu. pose proof (tn_worker _ _ _ Ht) as Hw. unfold worker_ok in Hw.
  rewrite (uses_started _ _ _ Hu) in Hw. destruct Hw as (Hth & Hsc & Hw & _).
  pose proof (uses_held _ _ _ _ _ _ Hw Hu) as Hheld.
  destruct (Hw _ _ Hu) as (f & Hf & H1 & H2 & H3 & H4 & H5). exists f.
  rewrite <-(tn_tls _ _ _ Ht) in Hth, Hsc, H5.
  split; try done. destruct (tn_exist _ _ _ Ht p) as (g & Hg & Hgs); [set_solver|]. congruence.
Qed.

(** The thread-local pointers, a fiber and the counters change, nothing else. *)
Lemma one_same s h w p r f f' s' h' :
  turn s h w → uses (at_pc (loc w)) = Some (p, r) → resumed s h w p r f →
  heap s' = <[p := f']> (heap s) → Fiber.m_stack f' = Fiber.m_stack f →
  next_addr s' = next_addr s → m_rootThread s' = m_rootThread s → m_fibers s' = m_fibers s →
  goal h' = goal h → (∀ q, q ≠ p → did h' !! q = did h !! q) →
  submitted h' = submitted h → taken h' = taken h →
  one s h w s' h' p f f'.
Proof.
  intros Ht Hu Hr Hheap Hst Hn Hrt Hq Hg Hd Hsub Htk. split; rewrite ?Hg; try done; [apply Hr|apply Hr| |].
  - intros q Hq'. split; [done|by apply Hd].
  - intros q r' Hq'. congruence.
Qed.

Lemma same_heap s s' p f : heap s !! p = Some f → heap s' = heap s → heap s' = <[p := f]> (heap s).
Proof. intros Hp ->. by rewrite insert_id. Qed.

Ltac resumption Ht Hu := destruct (turn_resumed _ _ _ _ _ Ht Hu) as [f Hf].

Lemma step_SwapIn s h me idle c x p r :
  let w := mk_worker me (mk_local (SwapIn p r) idle c) x in turn s h w → stepped s h w.
Proof.
  intros w Ht. assert (uses (at_pc (loc w)) = Some (p, r)) as Hu by done. resumption Ht Hu.
  pose proof (rs_stage _ _ _ _ _ _ Hf) as [[Hne Hsv] Hfin].
  eexists (mk_local (SetExec p r) idle c), (set_world (Fiber.mk (heap s) (Fiber.s_fiber_id (world s))
    (Fiber.s_fiber_count (world s)) (Fiber.stacks (world s)) (Some p)
    (Fiber.t_threadFiber (world s)) (Fiber.t_scheduler_fiber (world s))) s).
  split.
  - unfold step. simpl. unfold_M. rewrite (fib_deref p f) by apply Hf.
    rewrite bool_decide_false by done. done.
  - apply (change_stage s h w _ _ (SetExec p r) p r f f); try done; try apply Hf; [|simpl; lia].
    eapply one_same; try done. apply same_heap; [apply Hf|done].
Qed.

Lemma step_SetExec s h me idle c x p r :
  let w := mk_worker me (mk_local (SetExec p r) idle c) x in turn s h w → stepped s h w.
Proof.
  intros w Ht. assert (uses (at_pc (loc w)) = Some (p, r)) as Hu by done. resumption Ht Hu.
  pose proof (rs_stage _ _ _ _ _ _ Hf) as [[Hne Hsv] Hfin]. unfold saved in Hsv. rewrite Hfin in Hsv.
  eexists (mk_local (Load p r) idle c), _. split.
  - unfold step. simpl. unfold_M. rewrite (fib_update p f) by apply Hf. done.
  - apply (change_stage s h w _ _ (Load p r) p r f (Fiber.set_state Fiber.EXEC f));
      try done; try apply Hf; [| |simpl; lia].
    + by eapply one_same.
    + intros g Hg. destruct (rs_told _ _ _ _ _ _ Hf g Hg) as [H1 H2]. split; [done|]. simpl.
      by destruct (Fiber.m_ctx f).
Qed.

(** The end of the code, an exception, and the two yields. *)
Lemma told_step h p P Q : (∀ g d, P g d → Q g d) → told h p P → told h p Q.
Proof. intros HPQ Ht g Hg. apply HPQ, Ht, Hg. Qed.

Lemma step_Load s h me idle c x p r :
  let w := mk_worker me (mk_local (Load p r) idle c) x in turn s h w → stepped s h w.
Proof.
  intros w Ht. assert (uses (at_pc (loc w)) = Some (p, r)) as Hu by done. resumption Ht Hu.
  pose proof (rs_stage _ _ _ _ _ _ Hf) as [He Hcode]. simpl in He, Hcode.
  pose proof (rs_scheduler _ _ _ _ _ _ Hf) as [m Hm].
  pose proof (rs_this _ _ _ _ _ _ Hf eq_refl) as Hthis.
  pose proof (rs_told _ _ _ _ _ _ Hf) as Htold.
  assert (∀ y, load p r s = Ok y s → uses y = Some (p, r) → is_start y = false →
    (∀ g, note me (Load p r) y g = g) → busy y = negb (bool_decide (r = Idle)) →
    stage y f → (r = Idle → idle_stage y f) →
    told h p (stage_accounts y f) → stepped s h w) as Hgo.
  { intros y Hl Hy Hys Hn Hb H1 H2 H3. exists (mk_local y idle c), s. split.
    - unfold step. simpl. unfold_M. by rewrite Hl.
    - rewrite Hn. apply (change_stage s h w s h y p r f f); try done; try apply Hf; [|by rewrite Hb; simpl; lia].
      eapply one_same; try done. apply same_heap; [apply Hf|done]. }
  assert (load p r s = match Fiber.m_ctx f with
    | Fiber.Entry uc => Ok (match Fiber.m_cb f with Some sc => Code p uc sc r
                            | None => SetState Fiber.EXCEPT p Fiber.Ended uc r end) s
    | Fiber.At sc uc => Ok (Code p uc sc r) s
    | Fiber.Ended => Fault AssertFailed | Fiber.Unsaved => Fault Indeterminate end) as Hl.
  { unfold load. unfold_M. rewrite Hm. simpl. rewrite (fib_deref p f) by apply Hf.
    destruct (Fiber.m_ctx f); try done. rewrite (AloneProps.fib_GetThis p) by done.
    by rewrite (fib_deref p f) by apply Hf. }
  pose proof (rs_idle _ _ _ _ _ _ Hf) as Hid. unfold idle_stage, remaining in Hid. simpl in Hid.
  destruct (Fiber.m_ctx f) as [uc|sc uc| |] eqn:Ec; [destruct (Fiber.m_cb f) as [sc|] eqn:Ecb| |done..].
  - apply (Hgo _ Hl); try done.
    + intros E. by destruct (Hid E) as [_ (sc' & [= <-] & ?)].
    + eapply told_step; [|exact Htold]. intros g d [_ H]. rewrite Ec, Ecb in H.
      by destruct (H sc eq_refl) as [-> ->].
  - apply (Hgo _ Hl); try done.
    + intros E. by destruct (Hid E) as [_ (sc' & ? & ?)].
    + eapply told_step; [|exact Htold]. by intros g d [H _].
  - apply (Hgo _ Hl); try done.
    + intros E. by destruct (Hid E) as [_ (sc' & [= <-] & ?)].
    + eapply told_step; [|exact Htold]. intros g d [_ H]. by rewrite Ec in H.
Qed.

(** The history with one more action of [p]. *)
Definition acted (p : Z) (a : Fiber.action) (h : history) : history :=
  mk_history (submitted h) (taken h) (goal h) (<[p := performed p h ++ [a]]> (did h)).

Lemma told_acted p a h P Q : (∀ g d, P g d → Q g (d ++ [a])) → told h p P → told (acted p a h) p Q.
Proof.
  intros HPQ Ht g Hg. unfold performed at 1. simpl. rewrite lookup_insert_eq. simpl. apply HPQ, Ht, Hg.
Qed.

Lemma prefix_code g d a (sc : Fiber.script) : g = d ++ a :: sc → (d ++ [a]) `prefix_of` g.
Proof. intros ->. exists sc. by rewrite <-app_assoc. Qed.

Lemma step_Code s h me idle c x p uc sc r :
  let w := mk_worker me (mk_local (Code p uc sc r) idle c) x in turn s h w → stepped s h w.
Proof.
  intros w Ht. assert (uses (at_pc (loc w)) = Some (p, r)) as Hu by done. resumption Ht Hu.
  pose proof (rs_stage _ _ _ _ _ _ Hf) as He. simpl in He.
  pose proof (rs_this _ _ _ _ _ _ Hf eq_refl) as Hthis.
  pose proof (rs_told _ _ _ _ _ _ Hf) as Htold. simpl in Htold.
  pose proof (rs_idle _ _ _ _ _ _ Hf) as Hid. simpl in Hid. unfold idle_script in Hid.
  assert (∀ y f', perform p uc sc r s =
      Ok y (set_world (Fiber.set_fibers (<[p := f']> (heap s)) (world s)) s) →
    Fiber.m_stack f' = Fiber.m_stack f → uses y = Some (p, r) → entered y = false →
    busy y = negb (bool_decide (r = Idle)) → stage y f' → (r = Idle → idle_stage y f') →
    told (note me (Code p uc sc r) y h) p (stage_accounts y f') → stepped s h w) as Hgo.
  { intros y f' Hl Hst Hy Hye Hb H1 H2 H3. exists (mk_local y idle c). eexists. split.
    - unfold step. simpl. unfold_M. by rewrite Hl.
    - apply (change_stage s h w _ _ y p r f f'); try done; try apply Hf;
        [|by rewrite Hb; simpl; lia].
      eapply one_same; try done; simpl; destruct sc; try done. intros q Hq. simpl.
      by rewrite lookup_insert_ne. }
  assert (s = set_world (Fiber.set_fibers (<[p := f]> (heap s)) (world s)) s) as Hsame.
  { rewrite insert_id by apply Hf. unfold heap. by destruct s as [[] ?]. }
  assert (∀ v k, (cur ← fib (Fiber.GetThis (next_addr s)); st ← fib (Fiber.getState cur);
    _ ← fib (assertM (bool_decide (st = Fiber.EXEC))); mret (SetState v cur k false r)) s =
    Ok (SetState v p k false r) (set_world (Fiber.set_fibers (<[p := f]> (heap s)) (world s)) s)) as Hyield.
  { intros v k. rewrite <-Hsame. unfold mbind at 1, M_bind at 1. rewrite (AloneProps.fib_GetThis p) by done.
    unfold_M.
    rewrite (getState_fib s p f) by apply Hf. rewrite He, bool_decide_true by done. unfold fib.
    by rewrite set_world_id. }
  destruct sc as [|a sc].
  - eapply (Hgo (SetState Fiber.TERM p Fiber.Ended uc r) (Fiber.set_cb None f)); try done.
    + unfold perform. unfold_M. by rewrite (fib_update p f) by apply Hf.
    + intros _. right; by right.
    + eapply told_step; [|exact Htold]. intros g d ->. by rewrite app_nil_r.
  - assert (r = Idle → a = Fiber.DoYieldToHold) as Ha.
    { intros E. destruct (Hid E) as [_ [?|[= ]]]; done. }
    assert (∀ P, (∀ g d, g = d ++ a :: sc → P g (d ++ [a])) →
      told (note me (Code p uc (a :: sc) r) Scan h) p P) as Htell.
    { intros P HP. eapply told_acted; [|exact Htold]. done. }
    assert (∀ g d, g = d ++ a :: sc → (d ++ [a]) `prefix_of` g ∧ g = (d ++ [a]) ++ sc) as Hat.
    { intros g d ->. split; [by eapply prefix_code|by rewrite <-app_assoc]. }
    destruct a.
    + eapply (Hgo (SetState Fiber.READY p (Fiber.At sc uc) false r) f); try done; [apply Hyield| |].
      * intros E. by specialize (Ha E).
      * by apply Htell.
    + eapply (Hgo (SetState Fiber.HOLD p (Fiber.At sc uc) false r) f); try done; [apply Hyield| |].
      * intros _. right; by left.
      * by apply Htell.
    + eapply (Hgo (Save p (Fiber.At sc uc) false r) f); try done;
        [by rewrite <-Hsame|by simpl; unfold saved; rewrite He| |].
      * intros E. by specialize (Ha E).
      * apply Htell. intros g d Hg. simpl. rewrite He. by apply Hat.
    + eapply (Hgo (SetState Fiber.EXCEPT p Fiber.Ended uc r) f); try done; [by rewrite <-Hsame| |].
      * intros E. by specialize (Ha E).
      * apply Htell. intros g d Hg. split; [|done]. by apply (Hat g d).
Qed.

Lemma step_SetState s h me idle c x v p k b r :
  let w := mk_worker me (mk_local (SetState v p k b r) idle c) x in turn s h w → stepped s h w.
Proof.
  intros w Ht. assert (uses (at_pc (loc w)) = Some (p, r)) as Hu by done. resumption Ht Hu.
  pose proof (rs_stage _ _ _ _ _ _ Hf) as (_ & Hsv & Hk). simpl in Hsv, Hk.
  eexists (mk_local (Save p k b r) idle c), _. split.
  - unfold step. simpl. unfold_M. rewrite (fib_update p f) by apply Hf. done.
  - apply (change_stage s h w _ _ (Save p k b r) p r f (Fiber.set_state v f));
      try done; try apply Hf; [|simpl; lia].
    by eapply one_same.
Qed.

Lemma step_Save s h me idle c x p k b r :
  let w := mk_worker me (mk_local (Save p k b r) idle c) x in turn s h w → stepped s h w.
Proof.
  intros w Ht. assert (uses (at_pc (loc w)) = Some (p, r)) as Hu by done. resumption Ht Hu.
  pose proof (rs_stage _ _ _ _ _ _ Hf) as [Hsv Hk]. simpl in Hsv, Hk.
  destruct (rs_thread _ _ _ _ _ _ Hf) as [tf Htf]. destruct (rs_scheduler _ _ _ _ _ _ Hf) as [m Hm].
  assert (∃ fw, fib (if b then Fiber.back p k else Fiber.swapOut p k) s = Ok tt (set_world fw s) ∧
    Fiber.fibers fw = <[p := Fiber.set_ctx k f]> (heap s) ∧
    is_Some (Fiber.t_threadFiber fw) ∧ is_Some (Fiber.t_scheduler_fiber fw)) as (fw & Hw & Hh & H1 & H2).
  { pose proof (fibers_alter p (Fiber.set_ctx k) f (world s) (rs_fiber _ _ _ _ _ _ Hf)) as Halt.
    unfold fib, Fiber.back, Fiber.swapOut, Fiber.update, Fiber.SetThis. unfold_M.
    destruct b; [rewrite Htf|rewrite Hm]; simpl; eexists; (split; [done|]); simpl;
      rewrite ?Htf, ?Hm, Halt; by eauto. }
  exists (mk_local (Count p r) idle c), (set_world fw s). split.
  - unfold step. simpl. unfold_M. by rewrite Hw.
  - apply (change_stage s h w _ _ (Count p r) p r f (Fiber.set_ctx k f));
      try done; try apply Hf; [| |simpl; lia].
    + by eapply one_same.
    + eapply told_step; [|apply (rs_told _ _ _ _ _ _ Hf)]. intros g d [Hp H]. split; [done|].
      simpl. by destruct k.
Qed.

Lemma step_Count s h me idle c x p r :
  let w := mk_worker me (mk_local (Count p r) idle c) x in turn s h w → stepped s h w.
Proof.
  intros w Ht. assert (uses (at_pc (loc w)) = Some (p, r)) as Hu by done. resumption Ht Hu.
  assert (∃ s', step cfg me (loc w) s = Ok (mk_local (Settle p r) idle c) s' ∧
    world s' = world s ∧ next_addr s' = next_addr s ∧ m_rootThread s' = m_rootThread s ∧
    m_fibers s' = m_fibers s ∧
    m_activeThreadCount s' - m_activeThreadCount s = 0 - (if negb (bool_decide (r = Idle)) then 1 else 0))
    as (s' & Hs & Hw & Hn & Hr & Hq & Ha).
  { unfold step, leave_active. simpl. unfold_M. destruct r; (eexists; split; [done|]); simpl;
      split_and!; try done; lia. }
  exists (mk_local (Settle p r) idle c), s'. split; [done|].
  apply (change_stage s h w s' h (Settle p r) p r f f); try done; try rewrite Hw; try apply Hf.
  eapply one_same; try done. apply same_heap; [apply Hf|]. unfold heap. by rewrite Hw.
Qed.

Lemma step_Settle s h me idle c x p r :
  let w := mk_worker me (mk_local (Settle p r) idle c) x in turn s h w → stepped s h w.
Proof.
  intros w Ht. assert (uses (at_pc (loc w)) = Some (p, r)) as Hu by done. resumption Ht Hu.
  pose proof (rs_stage _ _ _ _ _ _ Hf) as Hsv. simpl in Hsv.
  pose proof (rs_idle _ _ _ _ _ _ Hf) as Hid. simpl in Hid.
  assert (∀ y, settle p r s = Ok y s → stepped s h w ↔
    ∃ s', s' = s ∧ change s h w s' h (mk_worker me (mk_local y idle c) (get_tls (world s')))) as Hgo.
  { intros y Hy. unfold stepped, step. simpl. unfold_M. rewrite Hy. split.
    - intros (l' & s' & [= <- <-] & Hc). by exists s.
    - intros (s' & -> & Hc). by eexists _, _. }
  assert (one s h w s h p f f) as Hone.
  { eapply one_same; try done. apply same_heap; [apply Hf|done]. }
  unfold settle in Hgo. unfold mbind, M_bind in Hgo. rewrite (getState_fib s p f) in Hgo by apply Hf.
  destruct (decide (Fiber.m_state f = Fiber.READY ∧ r ≠ Idle)) as [[Hready Hr]|Hnr].
  - apply (Hgo (Reschedule p r) eq_refl). exists s. split; [done|].
    apply (change_stage s h w s h (Reschedule p r) p r f f); try done; try apply Hf;
      simpl; [|lia]. unfold saved in Hsv. by rewrite Hready in Hsv.
  - destruct (finished (Fiber.m_state f)) eqn:Hfin.
    + destruct (decide (r = Callback)) as [->|Hrc].
      * apply (Hgo (Reset p) eq_refl). exists s. split; [done|].
        apply (change_stage s h w s h (Reset p) p Callback f f); try done; try apply Hf; simpl; lia.
      * destruct (decide (r = Task ∨ r = Idle)) as [Hti|]; [|destruct r; tauto].
        assert ((match r with Callback => Reset p | _ => Scan end) = Scan) as Hm by (by destruct r).
        rewrite Hm in Hgo. apply (Hgo Scan eq_refl). exists s. split; [done|].
        apply (change_leave s h w s h p r f f c); try done; try apply Hf; [by left|].
        split; [|done]. by intros E; rewrite E in Hfin.
    + apply (Hgo (Hold p r) eq_refl). exists s. split; [done|].
      apply (change_stage s h w s h (Hold p r) p r f f); try done; try apply Hf; simpl; [|lia].
      unfold saved in Hsv. by rewrite Hfin in Hsv.
Qed.

Lemma step_Hold s h me idle c x p r :
  let w := mk_worker me (mk_local (Hold p r) idle c) x in turn s h w → stepped s h w.
Proof.
  intros w Ht. assert (uses (at_pc (loc w)) = Some (p, r)) as Hu by done. resumption Ht Hu.
  pose proof (rs_stage _ _ _ _ _ _ Hf) as [Hfin Hk]. simpl in Hfin, Hk.
  eexists (drop_cb r (mk_local Scan idle c)), _. split.
  - unfold step. simpl. unfold_M. rewrite (fib_update p f) by apply Hf. done.
  - assert (drop_cb r (mk_local Scan idle c) =
      mk_local Scan idle (match r with Callback => None | _ => c end)) as -> by (by destruct r).
    apply (change_leave s h w _ _ p r f (Fiber.set_state Fiber.HOLD f)); try done; try apply Hf.
    + by eapply one_same.
    + destruct r; [by left|by right|by left].
    + intros _. right; by left.
    + intros g Hg. destruct (rs_told _ _ _ _ _ _ Hf g Hg) as [H1 H2]. split; [done|]. simpl.
      by destruct (Fiber.m_ctx f).
Qed.

Lemma step_Reset s h me idle c x p :
  let w := mk_worker me (mk_local (Reset p) idle c) x in turn s h w → stepped s h w.
Proof.
  intros w Ht. assert (uses (at_pc (loc w)) = Some (p, Callback)) as Hu by done. resumption Ht Hu.
  pose proof (rs_stage _ _ _ _ _ _ Hf) as [Hfin _]. simpl in Hfin.
  destruct (rs_stack _ _ _ _ _ _ Hf) as [stk Hstk].
  set (f' := Fiber.mk_fiber (Fiber.m_id f) (Fiber.m_stacksize f) Fiber.INIT (Fiber.Entry false)
    (Fiber.m_stack f) None).
  exists (mk_local Scan idle c), (set_world (Fiber.set_fibers (<[p := f']> (heap s)) (world s)) s). split.
  - unfold step. simpl. unfold fib, Fiber.reset, Fiber.deref, Fiber.update. unfold_M.
    pose proof (rs_fiber _ _ _ _ _ _ Hf) as Hp. unfold heap in Hp. rewrite Hp. simpl.
    rewrite Hstk. assert (Fiber.resettable (Fiber.m_state f) = true) as -> by (by destruct (Fiber.m_state f)).
    rewrite (fibers_alter p _ f) by done. done.
  - apply (change_leave s h w _ _ p Callback f f'); try done; try apply Hf.
    + by eapply one_same.
    + by left.
    + intros g Hg. by destruct (rs_told _ _ _ _ _ _ Hf g Hg) as [H1 H2].
Qed.

(** *** Steps on the queue *)
Lemma change_queue s h w s' h' w' :
  turn s h w → world s' = world s → next_addr s' = next_addr s → m_rootThread s' = m_rootThread s →
  goal h' = goal h → did h' = did h →
  (∀ p r f, uses (at_pc (loc w)) = Some (p, r) → heap s !! p = Some f →
    rests f ∧ told h p (accounted f)) →
  queued (m_fibers s') ++ held (loc w') ⊆+ queued (m_fibers s) ++ held (loc w) →
  Forall (λ it, nonempty it = true) (m_fibers s') →
  worker_ok (m_rootThread s) (heap s) h' w' →
  m_activeThreadCount s' - m_activeThreadCount s =
    (if busy (at_pc (loc w')) then 1 else 0) - (if busy (at_pc (loc w)) then 1 else 0) →
  (submitted h ≡ₚ (taken h).*2 ++ m_fibers s → submitted h' ≡ₚ (taken h').*2 ++ m_fibers s') →
  (Forall (λ e, threadId e.2 = -1 ∨ threadId e.2 = e.1) (taken h) →
   Forall (λ e, threadId e.2 = -1 ∨ threadId e.2 = e.1) (taken h')) →
  change s h w s' h' w'.
Proof.
  intros Ht Hw Hn Hroot Hg Hd Hr Hq Hne Hok Ha Hflow Hpins.
  assert (heap s' = heap s) as Hheap by (unfold heap; by rewrite Hw).
  assert (∀ p P, told h p P → told h' p P) as Htold.
  { intros p P. apply told_frame; congruence. }
  split; rewrite ?Hheap, ?Hn, ?Hg, ?Hd; try done.
  - apply (tn_fresh _ _ _ Ht).
  - exists []. split_and!; [constructor|constructor|done].
  - intros p Hp Hge. apply (tn_exist _ _ _ Ht). by eapply elem_of_submseteq.
  - intros p f Hp Hst Hor Hu. destruct Hor as [Hin|Hge].
    + destruct (uses (at_pc (loc w))) as [[q r]|] eqn:Eu; [destruct (decide (q = p)) as [->|Hqp]|].
      * destruct (Hr p r f eq_refl Hp). split; [done|by apply Htold].
      * destruct (tn_rest _ _ _ Ht p f) as [H1 H2]; [set_solver|done| |split; [done|by apply Htold]].
        intros r'. rewrite Eu. congruence.
      * destruct (tn_rest _ _ _ Ht p f) as [H1 H2]; [set_solver|done| |split; [done|by apply Htold]].
        intros r'. by rewrite Eu.
    + apply (tn_fresh _ _ _ Ht) in Hp. lia.
  - intros p g Hp _. by apply (tn_told _ _ _ Ht p g).
Qed.

Lemma schedule_spec ft s : nonempty ft = true → ∃ s', schedule base_tickle ft s = Ok tt s' ∧
  world s' = world s ∧ next_addr s' = next_addr s ∧ m_rootThread s' = m_rootThread s ∧
  m_fibers s' = m_fibers s ++ [ft] ∧ m_activeThreadCount s' = m_activeThreadCount s.
Proof.
  intros Hft. unfold schedule, scheduleNoLock, base_tickle. unfold_M.
  destruct ft as [[p|] [f|] th]; try done; simpl; destruct (m_fibers s) eqn:Eq;
    eexists; (split; [done|]); simpl; by rewrite ?Eq.
Qed.

Lemma queued_app q1 q2 : queued (q1 ++ q2) = queued q1 ++ queued q2.
Proof. apply omap_app. Qed.

Lemma step_Reschedule s h me idle c x p r :
  let w := mk_worker me (mk_local (Reschedule p r) idle c) x in turn s h w → stepped s h w.
Proof.
  intros w Ht. assert (uses (at_pc (loc w)) = Some (p, r)) as Hu by done. resumption Ht Hu.
  pose proof (rs_stage _ _ _ _ _ _ Hf) as [Hready Hk]. simpl in Hready, Hk.
  pose proof (rs_idle _ _ _ _ _ _ Hf) as Hid. pose proof (rs_cb _ _ _ _ _ _ Hf) as Hcb. simpl in Hcb.
  destruct (roles_differ _ _ _ _ _ Ht Hu) as [Hc1 Hi1].
  pose proof (tn_worker _ _ _ Ht) as (Hth & Hsc & _ & Hc & Hidle & Hgi).
  destruct (schedule_spec (mk_task (Some p) None (-1)) s eq_refl) as (s' & Hs & Hw & Hn & Hr & Hq & Ha).
  exists (drop_cb r (mk_local Scan idle c)), s'. split.
  { unfold step. simpl. unfold_M. by rewrite Hs. }
  assert (r ≠ Idle) as Hri by (intros E; by destruct (Hid E)).
  apply change_queue; try done.
  - intros q r' g Hq' Hg. simpl in Hq'. injection Hq' as <- <-.
    rewrite (rs_fiber _ _ _ _ _ _ Hf) in Hg. injection Hg as <-. split; [|apply Hf].
    unfold rests, saved. by rewrite Hready.
  - rewrite Hq, queued_app. unfold held. destruct r; [| |done]; simpl.
    + by rewrite <-(assoc_L (++)).
    + rewrite Hcb by done. simpl. by rewrite <-(assoc_L (++)).
  - rewrite Hq. apply Forall_app. split; [apply Ht|by constructor].
  - unfold worker_ok. rewrite Hw, (tn_tls _ _ _ Ht). destruct r; [| |done]; simpl; (split_and!; [done..| | |done]).
    + intros q Hq' _. apply Hc; [done|]. intros q'. simpl. congruence.
    + intros _. destruct Hidle as (g & Hg & Hg1 & _); [done|]. by exists g.
    + done.
    + intros _. destruct Hidle as (g & Hg & Hg1 & _); [done|]. by exists g.
  - rewrite Ha. destruct r; simpl; lia.
  - intros Hfl. simpl. rewrite Hq, Hfl. by rewrite <-(assoc_L (++)).
Qed.

Lemma step_Scan s h me idle c x :
  let w := mk_worker me (mk_local Scan idle c) x in turn s h w → stepped s h w.
Proof.
  intros w Ht. pose proof (tn_worker _ _ _ Ht) as (Hth & Hsc & _ & Hc & Hidle & Hgi).
  assert (queue_ok s (m_fibers s)) as Hqok.
  { unfold queue_ok. pose proof (tn_queue _ _ _ Ht) as Hq. rewrite Forall_forall in *.
    intros it Hit. split; [by apply Hq|]. intros p Hp.
    destruct (tn_exist _ _ _ Ht p) as (f & Hf & _); [|by exists f].
    apply elem_of_app; left. apply list_elem_of_omap. by exists it. }
  pose proof (dequeue_takes_first_eligible me s Hqok) as Hd. unfold wp in Hd.
  destruct (dequeue me s) as [[ft tk] s'|? ?|?] eqn:Es; [|done..].
  exists (mk_local (Tickle ft tk) idle c), s'. split; [unfold step; simpl; unfold_M; by rewrite Es|].
  assert (worker_ok (m_rootThread s) (heap s) h (mk_worker me (mk_local (Tickle ft tk) idle c) x)) as Hok.
  { unfold worker_ok. simpl. split_and!; [done..| | |done].
    - intros q Hq' _. by apply Hc.
    - intros _. destruct Hidle as (g & Hg & Hg1 & _); [done|]. by exists g. }
  destruct ft as [it|].
  - destruct Hd as (q1 & q2 & Hq & Hel & _ & -> & _). simpl.
    apply change_queue; try done; simpl.
    + unfold held. simpl. rewrite Hq, !queued_app. simpl.
      destruct (Scheduler.fiber it) as [p|] eqn:Ep; simpl; [|reflexivity].
      rewrite <-!(assoc_L (++)). apply submseteq_app; [reflexivity|]. simpl. apply Permutation_submseteq.
      symmetry. apply Permutation_middle.
    + pose proof (tn_queue _ _ _ Ht) as Hne. rewrite Hq in Hne. apply Forall_app in Hne as [H1 H2].
      apply Forall_app. split; [done|]. by inversion H2.
    + by rewrite (tn_tls _ _ _ Ht).
    + lia.
    + intros ->. rewrite Hq, fmap_app. simpl. rewrite <-(assoc_L (++)). apply Permutation_app; [done|].
      simpl. symmetry. apply Permutation_middle.
    + intros Hp. apply Forall_app. split; [done|]. constructor; [|done]. simpl. unfold eligible in Hel.
      apply andb_true_iff in Hel as [[H|H]%orb_true_iff _]; [left|right]; by apply Z.eqb_eq.
  - destruct Hd as (_ & -> & _). apply change_queue; try done; simpl.
    + apply Ht.
    + by rewrite (tn_tls _ _ _ Ht).
    + lia.
Qed.

(** *** Steps between *)
Lemma step_Tickle s h me idle c x ft tk :
  let w := mk_worker me (mk_local (Tickle ft tk) idle c) x in turn s h w → stepped s h w.
Proof.
  intros w Ht. exists (mk_local (Choose ft) idle c). eexists. split.
  - unfold step, base_tickle. simpl. unfold_M. instantiate (1 := if tk then _ else _). by destruct tk.
  - destruct tk; apply (change_none s h w _ (Choose ft)); try done; simpl; try lia; by destruct ft.
Qed.

Lemma step_Leave s h me idle c x :
  let w := mk_worker me (mk_local Leave idle c) x in turn s h w → stepped s h w.
Proof.
  intros w Ht. exists (mk_local Scan idle c). eexists. split; [done|].
  apply (change_none s h w _ Scan); try done; simpl; lia.
Qed.

Lemma idle_fiber_of s h w : turn s h w → is_start (at_pc (loc w)) = false →
  (∀ p, uses (at_pc (loc w)) ≠ Some (p, Idle)) →
  ∃ f, heap s !! idle_fiber (loc w) = Some f ∧ idle_state (Fiber.m_state f) ∧
       (at_pc (loc w) = IdleTest → Fiber.m_state f ≠ Fiber.TERM).
Proof.
  intros Ht Hs Hu. pose proof (tn_worker _ _ _ Ht) as Hw. unfold worker_ok in Hw. rewrite Hs in Hw.
  destruct Hw as (_ & _ & _ & _ & Hidle & _). by apply Hidle.
Qed.

Lemma step_GoIdle s h me idle c x :
  let w := mk_worker me (mk_local GoIdle idle c) x in turn s h w → stepped s h w.
Proof.
  intros w Ht. destruct (idle_fiber_of _ _ _ Ht) as (f & Hf & _ & _); [done|done|]. simpl in Hf.
  destruct (decide (Fiber.m_state f = Fiber.TERM)) as [Hterm|Hterm].
  - exists (mk_local Exited idle c), s. split.
    + unfold step. simpl. unfold_M. rewrite (getState_fib s idle f) by done. by rewrite decide_True.
    + apply (change_none s h w _ Exited); try done; simpl; lia.
  - exists (mk_local IdleTest idle c). eexists. split.
    + unfold step. simpl. unfold_M. rewrite (getState_fib s idle f) by done. by rewrite decide_False.
    + apply (change_none s h w _ IdleTest); try done; simpl; [|lia]. intros _ g Hg. simpl in Hg. congruence.
Qed.

Lemma step_Exited s h me idle c x :
  let w := mk_worker me (mk_local Exited idle c) x in turn s h w → stepped s h w.
Proof.
  intros w Ht. exists (mk_local Exited idle c), s. split; [done|].
  apply (change_none s h w _ Exited); try done; simpl; lia.
Qed.

Lemma idle_distinct s h w c : turn s h w → is_start (at_pc (loc w)) = false →
  cb_fiber (loc w) = Some c → c ≠ idle_fiber (loc w) ∧ c ∉ in_hand (at_pc (loc w)).
Proof.
  intros Ht Hs Hc. pose proof (held_NoDup _ _ _ Ht) as Hnd. unfold held in Hnd. rewrite Hs, Hc in Hnd.
  apply NoDup_app in Hnd as (_ & Hd & Hnd). simpl in *. split.
  - intros ->. apply NoDup_cons in Hnd as [Hn _]. set_solver.
  - intros Hin. apply (Hd c Hin). set_solver.
Qed.

Lemma step_IdleTest s h me idle c x :
  let w := mk_worker me (mk_local IdleTest idle c) x in turn s h w → stepped s h w.
Proof.
  intros w Ht. pose proof (tn_worker _ _ _ Ht) as (Hth & Hsc & _ & Hc & _ & Hgi).
  rewrite <-(tn_tls _ _ _ Ht) in Hth, Hsc.
  destruct (idle_fiber_of _ _ _ Ht) as (f & Hf & Hst & Hterm); [done|done|]. simpl in Hf.
  specialize (Hterm eq_refl).
  assert (∃ sc, base_idle s = Ok sc s ∧ idle_script sc) as (sc & Hsc' & Hscript).
  { unfold base_idle, base_stopping. unfold_M. eexists. split; [done|]. unfold idle_script.
    destruct (_ && _); [by left|by right]. }
  assert (idle ∈ queued (m_fibers s) ++ held (loc w)) as Hin by (unfold held; simpl; set_solver).
  destruct (tn_rest _ _ _ Ht idle f Hin Hf) as [[Hne Hsv] Htold]; [done|].
  assert (finished (Fiber.m_state f) = false) as Hfin by (destruct Hst as [E|[E|E]]; by rewrite E).
  unfold saved in Hsv. rewrite Hfin in Hsv.
  set (f' := idle_code sc f).
  assert (Fiber.m_state f' = Fiber.m_state f ∧ has_code (Fiber.m_ctx f') ∧
    Fiber.m_stack f' = Fiber.m_stack f ∧ remaining f' = Some sc) as (H1 & H2 & H3 & H4).
  { subst f'. unfold idle_code, remaining. destruct (Fiber.m_ctx f) eqn:E; simpl; rewrite ?E; done. }
  exists (mk_local (SwapIn idle Idle) idle c). eexists. split.
  { unfold step. simpl. unfold mbind at 1, M_bind at 1. rewrite Hsc'. unfold mbind, M_bind.
    rewrite (fib_update idle f) by done. done. }
  apply (change_enter s h w _ _ (SwapIn idle Idle) idle Idle f f'); try done; simpl.
  - split; try done. unfold held. simpl. set_solver.
  - intros c' Hc'. destruct (idle_distinct _ _ _ _ Ht eq_refl Hc') as [Hn _]. simpl in Hn. naive_solver.
  - unfold ready, rests, saved. rewrite H1, Hfin. naive_solver.
  - intros _. eauto.
  - intros g Hg. simpl in *. congruence.
  - lia.
Qed.

Lemma hand_distinct s h w p : turn s h w → is_start (at_pc (loc w)) = false →
  p ∈ in_hand (at_pc (loc w)) → p ∈ held (loc w) ∧ idle_fiber (loc w) ≠ p ∧
  ∀ c, cb_fiber (loc w) = Some c → c ≠ p.
Proof.
  intros Ht Hs Hp. pose proof (held_NoDup _ _ _ Ht) as Hnd. unfold held in *. rewrite Hs in *.
  apply NoDup_app in Hnd as (_ & Hd & _). specialize (Hd p Hp). split_and!; [set_solver|set_solver|].
  intros c Hc. rewrite Hc in Hd. set_solver.
Qed.

Lemma step_Choose s h me idle c x ft :
  let w := mk_worker me (mk_local (Choose ft) idle c) x in turn s h w → stepped s h w.
Proof.
  intros w Ht. pose proof (tn_worker _ _ _ Ht) as (Hth & Hsc & _).
  rewrite <-(tn_tls _ _ _ Ht) in Hth, Hsc.
  assert (∀ y, choose ft s = Ok y s → uses y = None → is_start y = false → in_hand y = [] →
    y ≠ IdleTest → busy y = (match ft with Some _ => true | None => false end) →
    (∀ g, note me (Choose ft) y g = g) → stepped s h w) as Hgo.
  { intros y Hy H1 H2 H3 H4 H5 H6. exists (mk_local y idle c), s. split.
    - unfold step. simpl. unfold_M. by rewrite Hy.
    - rewrite H6. apply (change_none s h w _ y); try done; simpl.
      + rewrite H3. apply submseteq_nil_l.
      + rewrite H5. destruct ft; lia. }
  destruct ft as [it|]; [|by apply (Hgo GoIdle)]. unfold choose in Hgo.
  assert (∀ y, y = match Scheduler.cb it with Some f => Prepare f | None => Leave end →
    uses y = None ∧ is_start y = false ∧ in_hand y = [] ∧ y ≠ IdleTest ∧ busy y = true) as Hy.
  { intros y ->. by destruct (Scheduler.cb it). }
  destruct (Scheduler.fiber it) as [p|] eqn:Ep.
  - destruct (hand_distinct _ _ _ p Ht eq_refl) as (Hheld & Hid & Hcb).
    { simpl. rewrite Ep. set_solver. }
    assert (p ∈ queued (m_fibers s) ++ held (loc w)) as Hin by set_solver.
    destruct (tn_exist _ _ _ Ht p Hin) as (f & Hf & Hst).
    destruct (tn_rest _ _ _ Ht p f Hin Hf) as [[Hne Hsv] Htold]; [done|].
    unfold mbind, M_bind in Hgo. rewrite (getState_fib s p f) in Hgo by done.
    destruct (finished (Fiber.m_state f)) eqn:Hfin.
    + destruct (Hy _ eq_refl) as (H1 & H2 & H3 & H4 & H5). by apply (Hgo _ eq_refl).
    + exists (mk_local (SwapIn p Task) idle c), s. split.
      * unfold step, choose. simpl. rewrite Ep. unfold mbind, M_bind.
        rewrite (getState_fib s p f) by done. by rewrite Hfin.
      * apply (change_enter s h w s h (SwapIn p Task) p Task f f); try done; simpl.
        -- split; try done. by rewrite insert_id.
        -- by rewrite Ep.
        -- intros c' Hc'. split; [intros ->; by destruct (Hcb p Hc')|done].
        -- lia.
  - destruct (Hy _ eq_refl) as (H1 & H2 & H3 & H4 & H5). by apply (Hgo _ eq_refl).
Qed.

(** *** New fibers *)
Lemma change_new s h w s' h' w' new :
  turn s h w → uses (at_pc (loc w)) = None →
  next_addr s ≤ next_addr s' →
  (∀ p f, heap s' !! p = Some f → p < next_addr s') →
  m_rootThread s' = m_rootThread s → m_fibers s' = m_fibers s →
  (∀ p, p < next_addr s → heap s' !! p = heap s !! p ∧ goal h' !! p = goal h !! p ∧ did h' !! p = did h !! p) →
  NoDup new → Forall (λ p, next_addr s ≤ p ∧
    ∃ f, heap s' !! p = Some f ∧ is_Some (Fiber.m_stack f)) new →
  held (loc w') ⊆+ new ++ held (loc w) →
  (∀ p f, next_addr s ≤ p → heap s' !! p = Some f → is_Some (Fiber.m_stack f) →
     (∀ r, uses (at_pc (loc w')) ≠ Some (p, r)) → rests f ∧ told h' p (accounted f)) →
  (∀ p g, next_addr s ≤ p → goal h' !! p = Some g → p ∈ new) →
  submitted h' = submitted h → taken h' = taken h →
  worker_ok (m_rootThread s) (heap s') h' w' →
  m_activeThreadCount s' - m_activeThreadCount s =
    (if busy (at_pc (loc w')) then 1 else 0) - (if busy (at_pc (loc w)) then 1 else 0) →
  change s h w s' h' w'.
Proof.
  intros Ht Hu Hn Hfr Hroot Hq Hold Hnd Hnew Hheld Hrest Hgoal Hsub Htk Hok Ha.
  rewrite Forall_forall in Hnew.
  assert (∀ p, p ∈ queued (m_fibers s) ++ held (loc w) → p < next_addr s) as Hlt.
  { intros p Hp. destruct (tn_exist _ _ _ Ht p Hp) as (f & Hf & _). by eapply (tn_fresh _ _ _ Ht). }
  assert (∀ p, (∃ f, heap s !! p = Some f ∧ is_Some (Fiber.m_stack f)) →
    ∃ f, heap s' !! p = Some f ∧ is_Some (Fiber.m_stack f)) as Hst.
  { intros p (f & Hf & Hs). exists f. split; [|done].
    by rewrite (proj1 (Hold p (tn_fresh _ _ _ Ht _ _ Hf))). }
  split; rewrite ?Hq, ?Hsub, ?Htk; try done.
  - intros p _ Hp. by apply Hold.
  - intros p _ Hp. by apply Hold.
  - exists new. split_and!; [done| |].
    + apply Forall_forall. intros p Hp. by destruct (Hnew p Hp).
    + rewrite (Permutation_app_swap_app new). by apply submseteq_app.
  - intros p Hp Hge. apply elem_of_app in Hp as [Hp|Hp]; [assert (p < next_addr s) by (apply Hlt; set_solver); lia|].
    eapply elem_of_submseteq in Hp; [|exact Hheld]. apply elem_of_app in Hp as [Hp|Hp]; [by apply Hnew|].
    assert (p < next_addr s) by (apply Hlt; set_solver). lia.
  - intros p f Hf Hs Hor Hun. destruct (decide (next_addr s ≤ p)) as [Hge|Hge]; [by apply Hrest|].
    destruct Hor as [Hin|]; [|lia]. destruct (Hold p) as (H1 & H2 & H3); [lia|]. rewrite H1 in Hf.
    destruct (tn_rest _ _ _ Ht p f) as [Hr Htold]; [set_solver|done|by rewrite Hu|].
    split; [done|by eapply told_frame].
  - intros p g Hg Hor. destruct (decide (next_addr s ≤ p)) as [Hge|Hge].
    + apply Hnew. by eapply Hgoal.
    + destruct Hor as [Hin|]; [|lia]. destruct (Hold p) as (H1 & H2 & _); [lia|].
      apply Hst. rewrite H2 in Hg. by eapply (tn_told _ _ _ Ht).
  - apply Ht.
Qed.

(** The history after [p] was given the code [sc]. *)
Lemma told_given p sc h f :
  Fiber.m_ctx f = Fiber.Entry false → Fiber.m_cb f = Some sc →
  told (mk_history (submitted h) (taken h) (<[p := sc]> (goal h)) (<[p := []]> (did h))) p (accounted f).
Proof.
  intros Hk Hcb g. unfold performed. simpl. rewrite !lookup_insert_eq. intros [= <-].
  unfold accounted. rewrite Hk, Hcb. split; [apply prefix_nil|]. by intros sc' [= <-].
Qed.

Lemma step_Prepare_again s h me idle c x f :
  let w := mk_worker me (mk_local (Prepare f) idle (Some c)) x in turn s h w → stepped s h w.
Proof.
  intros w Ht. pose proof (tn_worker _ _ _ Ht) as (Hth & Hsc & _ & Hc & _ & Hgi).
  rewrite <-(tn_tls _ _ _ Ht) in Hth, Hsc.
  destruct (Hc c eq_refl) as (g & Hg & Hres); [done|]. simpl in Hgi.
  destruct (idle_distinct _ _ _ _ Ht eq_refl eq_refl) as [Hne _]. simpl in Hne.
  assert (c ∈ queued (m_fibers s) ++ held (loc w)) as Hin by (unfold held; simpl; set_solver).
  destruct (tn_exist _ _ _ Ht c Hin) as (g' & Hg' & [stk Hstk]).
  rewrite Hg in Hg'. injection Hg' as <-.
  set (f' := Fiber.mk_fiber (Fiber.m_id g) (Fiber.m_stacksize g) Fiber.INIT (Fiber.Entry false)
    (Fiber.m_stack g) (Some f)).
  exists (mk_local (SwapIn c Callback) idle (Some c)),
    (set_world (Fiber.set_fibers (<[c := f']> (heap s)) (world s)) s). split.
  - unfold step. simpl. unfold fib, Fiber.reset, Fiber.deref, Fiber.update. unfold_M.
    unfold heap in Hg. rewrite Hg. simpl. rewrite Hstk, Hres, (fibers_alter c _ g) by done. done.
  - apply (change_enter s h w _ _ (SwapIn c Callback) c Callback g f'); try done; simpl.
    + split; try done; simpl; [unfold held; simpl; set_solver| |by rewrite lookup_insert_ne].
      intros q Hq. by rewrite !lookup_insert_ne.
    + by intros ? [= ->].
    + by apply told_given.
    + lia.
Qed.

Lemma new_fiber_spec sc (s : t unit) : ∃ s', new_fiber cfg sc false s = Ok (next_addr s) s' ∧
  next_addr s' = next_addr s + 2 ∧ m_rootThread s' = m_rootThread s ∧ m_fibers s' = m_fibers s ∧
  m_activeThreadCount s' = m_activeThreadCount s ∧ get_tls (world s') = get_tls (world s) ∧
  ∃ i size stk, heap s' = <[next_addr s :=
    Fiber.mk_fiber i size Fiber.INIT (Fiber.Entry false) (Some stk) sc]> (heap s).
Proof.
  unfold new_fiber, new_addr, fib, Fiber.Fiber_new, Fiber.Alloc. unfold_M.
  eexists. split; [done|]. simpl. split_and!; try done; [lia|]. eexists _, _, _. done.
Qed.

Lemma step_Prepare_new s h me idle x f :
  let w := mk_worker me (mk_local (Prepare f) idle None) x in turn s h w → stepped s h w.
Proof.
  intros w Ht. pose proof (tn_worker _ _ _ Ht) as (Hth & Hsc & _ & _ & Hidle & Hgi). simpl in Hgi.
  destruct (new_fiber_spec (Some f) s) as (s' & Hn & Hnext & Hroot & Hq & Ha & Htls & i & size & stk & Hheap).
  set (c := next_addr s) in *. set (f' := Fiber.mk_fiber _ _ _ _ _ _) in Hheap.
  destruct (idle_fiber_of _ _ _ Ht) as (g & Hg & Hg1 & _); [done..|]. simpl in Hg.
  assert (idle < c) as Hlt by exact (tn_fresh _ _ _ Ht _ _ Hg).
  exists (mk_local (SwapIn c Callback) idle (Some c)), s'. split.
  { unfold step. simpl. unfold mbind, M_bind. by rewrite Hn. }
  assert (told (note me (Prepare f) (SwapIn c Callback) h) c (accounted f')) as Htold by (by apply told_given).
  assert (stage (SwapIn c Callback) f') as Hstage by done.
  eapply (change_new s h w s' _ _ [c]); try done; simpl.
  - lia.
  - intros p f0. rewrite Hheap, lookup_insert_Some. intros [[<- _]|[_ Hp]]; [lia|].
    apply (tn_fresh _ _ _ Ht) in Hp. lia.
  - intros p Hp. rewrite Hheap, !lookup_insert_ne by lia. done.
  - by apply NoDup_singleton.
  - constructor; [|done]. split; [lia|]. rewrite Hheap, lookup_insert_eq. by exists f'.
  - intros p f0 Hge. rewrite Hheap, lookup_insert_Some. intros [[<- <-]|[_ Hp]] _ Hun.
    + by destruct (Hun Callback).
    + apply (tn_fresh _ _ _ Ht) in Hp. lia.
  - intros p g0 Hge Hp. apply lookup_insert_Some in Hp as [[<- _]|[_ Hp]]; [set_solver|].
    destruct (tn_told _ _ _ Ht _ _ Hp) as (f0 & Hf0 & _). apply (tn_fresh _ _ _ Ht) in Hf0. lia.
  - unfold worker_ok. cbn [is_start at_pc loc tl]. rewrite Htls, (tn_tls _ _ _ Ht).
    split_and!; [done|done| | | |]; simpl.
    + intros q r [= <- <-]. exists f'. rewrite Hheap, lookup_insert_eq. by split_and!.
    + intros c' _ Hn'. by destruct (Hn' c).
    + intros _. exists g. simpl. rewrite Hheap, lookup_insert_ne by lia. split_and!; done.
    + by rewrite lookup_insert_ne by lia.
  - lia.
Qed.

Lemma main_fiber_spec s : Fiber.t_fiber (world s) = None → ∃ s',
  (p ← new_addr; q ← fib (Fiber.GetThis p); fib (Fiber.set_schedulerFiber (Some q))) s = Ok tt s' ∧
  next_addr s' = next_addr s + 1 ∧ m_rootThread s' = m_rootThread s ∧ m_fibers s' = m_fibers s ∧
  m_activeThreadCount s' = m_activeThreadCount s ∧
  heap s' = <[next_addr s := Fiber.mk_fiber 0 0 Fiber.EXEC Fiber.Unsaved None None]> (heap s) ∧
  is_Some (Fiber.t_threadFiber (world s')) ∧ is_Some (Fiber.t_scheduler_fiber (world s')).
Proof.
  intros Hf. unfold new_addr, fib, Fiber.GetThis. unfold_M. simpl. rewrite Hf. simpl.
  eexists. split; [done|]. simpl. by split_and!.
Qed.

Lemma step_Start s h me idle c x :
  let w := mk_worker me (mk_local Start idle c) x in turn s h w → stepped s h w.
Proof.
  intros w Ht. pose proof (tn_worker _ _ _ Ht) as [Hnone Hroot]. simpl in Hnone, Hroot.
  assert (Fiber.t_fiber (world s) = None) as Hf.
  { change (Fiber.t_fiber (world s)) with (t_fiber (get_tls (world s))). by rewrite (tn_tls _ _ _ Ht). }
  destruct (main_fiber_spec s Hf) as (s1 & Hs1 & Hn1 & Hr1 & Hq1 & Ha1 & Hh1 & Ht1 & Ht2).
  destruct (new_fiber_spec None s1) as (s' & Hn & Hnext & Hr & Hq & Ha & Htls & i & size & stk & Hheap).
  set (f := Fiber.mk_fiber i _ _ _ _ _) in Hheap. rewrite Hn1 in *. rewrite Hh1 in Hheap.
  set (m := next_addr s) in *.
  exists (mk_local Scan (m + 1) None), s'. split.
  { unfold step, start_run. simpl. unfold mbind at 1, M_bind at 1. unfold get. rewrite decide_True by done.
    unfold mbind at 1, M_bind at 1. rewrite Hs1. unfold mbind, M_bind. by rewrite Hn. }
  assert (∀ p f0, heap s' !! p = Some f0 →
    p < m ∧ heap s !! p = Some f0 ∨ p = m ∧ Fiber.m_stack f0 = None ∨ p = m + 1 ∧ f0 = f) as Hinv.
  { intros p f0. rewrite Hheap, lookup_insert_Some. intros [[<- <-]|[_ Hp]]; [by right; right|].
    apply lookup_insert_Some in Hp as [[<- <-]|[_ Hp]]; [by right; left|left].
    split; [|done]. exact (tn_fresh _ _ _ Ht _ _ Hp). }
  assert (∀ p g, goal h !! p = Some g → p < m) as Hgoal.
  { intros p g Hg. destruct (tn_told _ _ _ Ht _ _ Hg) as (f0 & Hf0 & _). exact (tn_fresh _ _ _ Ht _ _ Hf0). }
  eapply (change_new s h w s' _ _ [m + 1]); try done; simpl.
  - lia.
  - intros p f0 [[? _]|[[-> _]|[-> _]]]%Hinv; lia.
  - congruence.
  - congruence.
  - intros p Hp. by rewrite Hheap, !lookup_insert_ne by lia.
  - by apply NoDup_singleton.
  - constructor; [|done]. split; [lia|]. rewrite Hheap, lookup_insert_eq. by exists f.
  - intros p f0 Hge [[? _]|[[-> Hst]|[-> ->]]]%Hinv; [lia|intros [? ?]; congruence|].
    intros _ _. split; [done|]. intros g Hg. apply Hgoal in Hg. lia.
  - intros p g Hge Hg. apply Hgoal in Hg. lia.
  - unfold worker_ok. cbn [is_start at_pc loc tl]. rewrite Htls.
    split_and!; [done|done|done|done| |]; simpl.
    + intros _. exists f. simpl. rewrite Hheap, lookup_insert_eq. split_and!; [done|by left|done].
    + destruct (goal h !! (m + 1)) as [g|] eqn:E; [|done]. apply Hgoal in E. lia.
  - lia.
Qed.

(** ** Every thread can always make its next step. *)
Theorem every_step_ok s h w : turn s h w → stepped s h w.
Proof.
  destruct w as [me [x idle c] xs]. destruct x.
  - apply step_Start.
  - apply step_Scan.
  - apply step_Tickle.
  - apply step_Choose.
  - destruct c; [apply step_Prepare_again|apply step_Prepare_new].
  - apply step_SwapIn.
  - apply step_SetExec.
  - apply step_Load.
  - apply step_Code.
  - apply step_SetState.
  - apply step_Save.
  - apply step_Count.
  - apply step_Settle.
  - apply step_Reschedule.
  - apply step_Hold.
  - apply step_Reset.
  - apply step_Leave.
  - apply step_GoIdle.
  - apply step_IdleTest.
  - apply step_Exited.
Qed.
End steps.
End WorkersSteps.
