(* ===== verification/WorkersSafe.v ===== *)
(** Any number of threads in any order: what is true when a fiber is only woken
    once it is at rest, and what can happen when it is woken earlier. *)
From stdpp Require Import base list numbers option gmap.
From Stdlib Require Import ZArith Lia.
From S2P Require Import Prelude Fiber FiberProps Scheduler SchedulerProps Workers WorkersProps WorkersInv WorkersSteps.

Module WorkersSafe.
Import Scheduler Workers WorkersInv WorkersSteps.
Local Open Scope Z_scope.

Section safe.
Variable cfg : Z.

(** ** Scheduling under the discipline

    A task may be submitted when it is not empty and its fiber, an object of its
    own with a stack, is neither in the queue nor with a thread. *)
Definition at_rest (s : sys) (p : Z) : Prop :=
  (∃ f, heap (shared s) !! p = Some f ∧ is_Some (Fiber.m_stack f)) ∧
  p ∉ owned (m_fibers (shared s)) (workers s).

Definition allowed (s : sys) (m : move) : Prop :=
  match m with
  | Submit ft => nonempty ft = true ∧ ∀ p, Scheduler.fiber ft = Some p → at_rest s p
  | _ => True
  end.

Fixpoint obeys (l : list move) (s : sys) : Prop :=
  match l with
  | [] => True
  | m :: l' => allowed s m ∧ ∀ s', exec1 cfg m s = Ok tt s' → obeys l' s'
  end.

(** *** A move keeps the invariant *)
Lemma used_by_other s ws1 ws2 w p :
  inv s → workers s = ws1 ++ w :: ws2 → p ∈ queued (m_fibers (shared s)) ++ held (loc w) →
  (∀ r, uses (at_pc (loc w)) ≠ Some (p, r)) → p ∉ in_use (workers s).
Proof.
  intros Hs Hws Hp Hu. rewrite in_use_elem. intros (v & r & Hv & Hr). pose proof Hv as Hv'.
  rewrite Hws in Hv. apply elem_of_app in Hv as [Hv|[->|Hv]%elem_of_cons]; [|by apply (Hu r)|].
  all: assert (p ∈ held (loc v)) as Hin.
  1,3: apply list_elem_of_lookup in Hv' as [i Hi]; pose proof (inv_workers _ Hs i v Hi) as Hok;
    unfold worker_ok in Hok; rewrite (uses_started _ _ _ Hr) in Hok;
    destruct Hok as (_ & _ & Hok & _); by eapply uses_held.
  all: destruct (distinct s ws1 ws2 w Hs Hws) as (_ & Hd & _); apply (Hd p Hp);
    apply held_elem; exists v; set_solver.
Qed.

Lemma inv_turn s ws1 ws2 w : inv s → workers s = ws1 ++ w :: ws2 →
  turn (set_world (put_tls (tl w) (world (shared s))) (shared s)) (hist s) w.
Proof.
  intros Hs Hws. destruct (distinct s ws1 ws2 w Hs Hws) as (Hnd & _ & _).
  assert (∀ p, p ∈ queued (m_fibers (shared s)) ++ held (loc w) →
    p ∈ owned (m_fibers (shared s)) (workers s)) as Hown.
  { intros p Hp. rewrite Hws, owned_split. set_solver. }
  split.
  - by destruct (tl w).
  - apply (inv_fresh _ Hs).
  - apply (inv_workers _ Hs (length ws1)). rewrite Hws. by apply list_lookup_middle.
  - intros p Hp. by apply (inv_owned _ Hs), Hown.
  - intros p f Hp Hf Hu. apply (inv_rest _ Hs p f Hf).
    + destruct (inv_owned _ Hs p (Hown p Hp)) as (g & Hg & Hgs).
      assert (Some g = Some f) as [= <-]; [|done]. etransitivity; [symmetry; exact Hg|exact Hf].
    + by eapply used_by_other.
  - done.
  - apply (inv_queue _ Hs).
  - apply (inv_told _ Hs).
Qed.

Lemma change_shared s x h w s' h' w' :
  change (set_world (put_tls x (world s)) s) h w s' h' w' → change s h w s' h' w'.
Proof. intros []. by split. Qed.

Lemma run_inv s i : inv s → ∃ s', exec1 cfg (Run i) s = Ok tt s' ∧ inv s'.
Proof.
  intros Hs. unfold exec1. destruct (workers s !! i) as [w|] eqn:Hi; [|by exists s].
  pose proof (take_drop_middle _ _ _ Hi) as Hws. symmetry in Hws.
  pose proof (inv_turn _ _ _ _ Hs Hws) as Ht. apply (every_step_ok cfg) in Ht as (l' & s' & Hstep & Hch).
  rewrite Hstep. eexists. split; [done|]. rewrite insert_take_drop by (by eapply lookup_lt_Some).
  eapply change_inv; [exact Hs|exact Hws|]. eapply change_shared. exact Hch.
Qed.

Lemma submit_inv s ft : inv s → allowed s (Submit ft) →
  ∃ s', exec1 cfg (Submit ft) s = Ok tt s' ∧ inv s'.
Proof.
  intros Hs [Hne Hrest].
  destruct (schedule_spec ft (shared s) Hne) as (x & Hx & Hw & Hn & Hr & Hq & Ha).
  unfold exec1. rewrite Hx. eexists. split; [done|].
  assert (heap x = heap (shared s)) as Hheap by (unfold heap; by rewrite Hw).
  assert (owned (m_fibers x) (workers s) ≡ₚ
    option_list (Scheduler.fiber ft) ++ owned (m_fibers (shared s)) (workers s)) as Hown.
  { unfold owned. rewrite Hq, queued_app. simpl. rewrite (assoc_L (++)). f_equiv.
    rewrite (Permutation_app_comm (queued _)). f_equiv. by destruct (Scheduler.fiber ft). }
  split; simpl; rewrite ?Hheap, ?Hn, ?Hr.
  - apply (inv_fresh _ Hs).
  - rewrite Hown. destruct (Scheduler.fiber ft) as [p|] eqn:Ep; [|apply Hs]. simpl.
    apply NoDup_cons. split; [|apply Hs]. by destruct (Hrest p eq_refl).
  - intros p. rewrite Hown. intros [Hp|Hp]%elem_of_app; [|by apply (inv_owned _ Hs)].
    destruct (Scheduler.fiber ft) as [q|]; [|by apply elem_of_nil in Hp].
    simpl in Hp. apply list_elem_of_singleton in Hp as ->. by destruct (Hrest q eq_refl).
  - apply (inv_rest _ Hs).
  - apply (inv_told _ Hs).
  - rewrite Hq. apply Forall_app. split; [apply Hs|by constructor].
  - intros i w Hi. eapply worker_ok_frame; [|by apply (inv_workers _ Hs i)]. done.
  - rewrite Ha. apply Hs.
  - rewrite Hq, (inv_flow _ Hs). by rewrite <-(assoc_L (++)).
  - apply Hs.
Qed.

Lemma move_inv s m : inv s → allowed s m → ∃ s', exec1 cfg m s = Ok tt s' ∧ inv s'.
Proof.
  intros Hs Hm. destruct m as [i|ft|]; [by apply run_inv|by apply submit_inv|].
  eexists. split; [done|]. destruct Hs. by split.
Qed.

Lemma moves_inv l : ∀ s, inv s → obeys l s → ∃ s', exec cfg l s = Ok tt s' ∧ inv s'.
Proof.
  induction l as [|m l IH]; intros s Hs Hob; [by exists s|]. destruct Hob as [Hm Hob].
  destruct (move_inv s m Hs Hm) as (s1 & H1 & Hs1). destruct (IH s1 Hs1 (Hob s1 H1)) as (s2 & H2 & Hs2).
  exists s2. split; [|done]. unfold exec in *. simpl. unfold_M. by rewrite H1.
Qed.
(** ** The start

    A scheduler whose queue is empty, with fibers that wait to be scheduled, and
    threads that have been created for it. The code a fiber is given is what it
    has to run. *)
Definition given (f : Fiber.fiber) : option Fiber.script :=
  match Fiber.m_stack f with
  | Some _ => if finished (Fiber.m_state f) then None else remaining f
  | None => None
  end.

Definition launch (s : t unit) (ids : list Z) : sys :=
  mk_sys s (new_worker <$> ids) (mk_history [] [] (omap given (heap s)) ∅).

Record launchable (s : t unit) (ids : list Z) : Prop := {
  la_queue : m_fibers s = [];
  la_active : m_activeThreadCount s = 0;
  la_fibers p f : heap s !! p = Some f →
    p < next_addr s ∧ (is_Some (Fiber.m_stack f) → rests f);
  la_ids : Forall (λ id, id ≠ m_rootThread s) ids
}.

Lemma launch_held ids : concat ((held ∘ loc) <$> (new_worker <$> ids)) = [].
Proof. by induction ids. Qed.

Lemma launch_inv s ids : launchable s ids → inv (launch s ids).
Proof.
  intros [Hq Ha Hf Hids].
  assert (owned (m_fibers s) (new_worker <$> ids) = []) as Hown.
  { unfold owned. by rewrite Hq, launch_held. }
  split; simpl.
  - intros p f Hp. by apply (Hf p f).
  - rewrite Hown. constructor.
  - rewrite Hown. by intros p Hp%elem_of_nil.
  - intros p f Hp Hst _. destruct (Hf p f Hp) as [_ Hr]. split; [by apply Hr|].
    intros g Hg. simpl in Hg. rewrite lookup_omap, Hp in Hg. simpl in Hg. unfold given in Hg.
    destruct (Fiber.m_stack f); [|done]. destruct (finished (Fiber.m_state f)); [done|].
    unfold performed. simpl. rewrite lookup_empty. simpl. unfold accounted, remaining in *.
    split; [apply prefix_nil|]. destruct (Fiber.m_ctx f); try done; [|by injection Hg as ->].
    intros sc' Hcb. rewrite Hg in Hcb. by injection Hcb as ->.
  - intros p g Hg. rewrite lookup_omap in Hg. destruct (heap s !! p) as [f|] eqn:Hp; [|done].
    exists f. split; [done|]. simpl in Hg. unfold given in Hg. by destruct (Fiber.m_stack f).
  - by rewrite Hq.
  - intros i w Hw. rewrite list_lookup_fmap in Hw. destruct (ids !! i) as [id|] eqn:Hi; [|done].
    injection Hw as <-. split; [done|]. rewrite Forall_lookup in Hids. by apply (Hids i).
  - rewrite Ha. clear. by induction ids.
  - by rewrite Hq.
  - constructor.
Qed.

(** ** What the invariant says *)
Lemma inv_exclusive s i j w v p r r' : inv s → workers s !! i = Some w → workers s !! j = Some v →
  i ≠ j → uses (at_pc (loc w)) = Some (p, r) → uses (at_pc (loc v)) ≠ Some (p, r').
Proof.
  intros Hs Hi Hj Hne Hw Hv. pose proof (take_drop_middle _ _ _ Hi) as Hws. symmetry in Hws.
  destruct (distinct _ _ _ _ Hs Hws) as (_ & Hd & _).
  assert (∀ k u q x, workers s !! k = Some u → uses (at_pc (loc u)) = Some (q, x) → q ∈ held (loc u)) as Hheld.
  { intros k u q x Hk Hu. pose proof (inv_workers _ Hs k u Hk) as Hok. unfold worker_ok in Hok.
    rewrite (uses_started _ _ _ Hu) in Hok. destruct Hok as (_ & _ & Hok & _). by eapply uses_held. }
  apply (Hd p); [apply elem_of_app; right; by eapply Hheld|]. apply held_elem. exists v.
  split; [|by eapply Hheld]. apply elem_of_app. destruct (decide (j < i)%nat) as [Hlt|Hge].
  - left. apply list_elem_of_lookup. exists j. by rewrite lookup_take_lt.
  - right. apply list_elem_of_lookup. exists (j - S i)%nat. rewrite lookup_drop, <-Hj. f_equal. lia.
Qed.

Lemma inv_unqueued s i w p r it : inv s → workers s !! i = Some w →
  uses (at_pc (loc w)) = Some (p, r) → it ∈ m_fibers (shared s) → Scheduler.fiber it ≠ Some p.
Proof.
  intros Hs Hi Hu Hit Hp. pose proof (take_drop_middle _ _ _ Hi) as Hws. symmetry in Hws.
  destruct (distinct _ _ _ _ Hs Hws) as (Hnd & _ & _). apply NoDup_app in Hnd as (_ & Hd & _).
  pose proof (inv_workers _ Hs i w Hi) as Hok. unfold worker_ok in Hok.
  rewrite (uses_started _ _ _ Hu) in Hok. destruct Hok as (_ & _ & Hok & _).
  apply (Hd p); [|by eapply uses_held]. apply list_elem_of_omap. by exists it.
Qed.

Lemma prefix_app g d (sc : Fiber.script) : g = d ++ sc → d `prefix_of` g.
Proof. intros ->. by exists sc. Qed.

Lemma stage_told x f g d p r : uses x = Some (p, r) → stage x f → stage_accounts x f g d →
  d `prefix_of` g ∧ (Fiber.m_state f = Fiber.TERM → d = g).
Proof.
  intros Hu Hs Ha.
  assert (saved (Fiber.m_state f) (Fiber.m_ctx f) → accounted f g d →
    d `prefix_of` g ∧ (Fiber.m_state f = Fiber.TERM → d = g)) as Hrest.
  { intros Hsv [H1 H2]. split; [done|]. intros E. unfold saved in Hsv. rewrite E in Hsv. simpl in Hsv.
    rewrite Hsv in H2. auto. }
  destruct x; simpl in *; try done.
  - apply Hrest; [by destruct Hs as [[_ ?] _]|done].
  - apply Hrest; [by destruct Hs as [[_ ?] _]|done].
  - destruct Hs as [He _], Ha as [H1 _]. rewrite He. done.
  - rewrite Hs. split; [by eapply prefix_app|done].
  - destruct Hs as [He _], Ha as [H1 _]. rewrite He. done.
  - destruct Hs as [Hsv _], Ha as [H1 H2]. split; [done|]. intros E. unfold saved in Hsv.
    rewrite E in Hsv. simpl in Hsv. rewrite Hsv in H2. auto.
  - by apply Hrest.
  - by apply Hrest.
  - destruct Hs as [He _], Ha as [H1 _]. rewrite He. done.
  - destruct Hs as [He _], Ha as [H1 _]. split; [done|]. intros E. by rewrite E in He.
  - apply Hrest; [by destruct Hs|done].
Qed.

Lemma inv_accounts s p g : inv s → goal (hist s) !! p = Some g →
  performed p (hist s) `prefix_of` g ∧
  ∀ f, heap (shared s) !! p = Some f → Fiber.m_state f = Fiber.TERM → performed p (hist s) = g.
Proof.
  intros Hs Hg. destruct (inv_told _ Hs p g Hg) as (f & Hf & Hst).
  assert (performed p (hist s) `prefix_of` g ∧ (Fiber.m_state f = Fiber.TERM → performed p (hist s) = g))
    as [H1 H2]; [|split; [done|]; intros f' Hf'; by assert (f' = f) as -> by congruence].
  destruct (decide (p ∈ in_use (workers s))) as [Hin|Hn].
  - apply in_use_elem in Hin as (w & r & Hw & Hu). apply list_elem_of_lookup in Hw as [i Hi].
    pose proof (inv_workers _ Hs i w Hi) as Hok. unfold worker_ok in Hok.
    rewrite (uses_started _ _ _ Hu) in Hok. destruct Hok as (_ & _ & Hok & _).
    destruct (Hok _ _ Hu) as (f' & Hf' & Hstage & _ & _ & Htold & _).
    assert (f' = f) as -> by congruence. eapply stage_told; [done..|]. by apply Htold.
  - destruct (inv_rest _ Hs p f Hf Hst Hn) as [[_ Hsv] Htold]. destruct (Htold g Hg) as [H1 H2].
    split; [done|]. intros E. unfold saved in Hsv. rewrite E in Hsv. simpl in Hsv.
    rewrite Hsv in H2. auto.
Qed.

(** *** The discipline on a concrete run *)
Definition allowedb (s : sys) (m : move) : bool :=
  match m with
  | Submit ft =>
      nonempty ft &&
      match Scheduler.fiber ft with
      | None => true
      | Some p =>
          match heap (shared s) !! p with
          | Some f => match Fiber.m_stack f with Some _ => true | None => false end
          | None => false
          end && bool_decide (p ∉ owned (m_fibers (shared s)) (workers s))
      end
  | _ => true
  end.

Fixpoint obeysb (l : list move) (s : sys) : bool :=
  match l with
  | [] => true
  | m :: l' =>
      allowedb s m && match exec1 cfg m s with Ok _ s' => obeysb l' s' | _ => true end
  end.

Lemma allowedb_spec s m : allowedb s m = true ↔ allowed s m.
Proof.
  destruct m as [i|ft|]; [done| |done]. simpl. rewrite andb_true_iff.
  destruct (Scheduler.fiber ft) as [p|]; [|naive_solver].
  rewrite andb_true_iff, bool_decide_eq_true. unfold at_rest.
  destruct (heap (shared s) !! p) as [f|] eqn:Hf; [|naive_solver].
  destruct (Fiber.m_stack f) as [stk|] eqn:Hst; split.
  - intros (H1 & _ & H3). split; [done|]. intros q [= <-]. split; [|done].
    exists f. by rewrite Hst.
  - intros (H1 & H2). by destruct (H2 p eq_refl) as [_ H3].
  - naive_solver.
  - intros (_ & H2). destruct (H2 p eq_refl) as [(g & Hg & Hgs) _].
    assert (g = f) as -> by congruence. rewrite Hst in Hgs. by destruct Hgs.
Qed.

Lemma obeysb_spec l : ∀ s, obeysb l s = true ↔ obeys l s.
Proof.
  induction l as [|m l IH]; intros s; [done|]. simpl. rewrite andb_true_iff, allowedb_spec.
  destruct (exec1 cfg m s) as [[] s'|e s'|f]; [|naive_solver..]. rewrite IH.
  split; intros [H1 H2]; (split; [done|]); [by intros s0 [= <-]|by apply H2].
Qed.

(** C11. Any number of threads run the scheduler and anybody schedules tasks, in any
    order of their steps, as long as a fiber is only scheduled when it is neither in
    the queue nor with a thread. Then no assertion fails and nothing is undefined,
    and at every moment: no fiber is resumed by two threads, or resumed and queued;
    the count of active threads is the number of threads with a task; the tasks
    that were scheduled, also by the scheduler itself, are those that were taken
    and those in the queue, each as often; a task for one thread was only taken by
    that thread; and each fiber has executed a beginning of its code, each part
    once and in order, and all of it when it is terminated. *)
Theorem workers_safe s ids l :
  launchable s ids → obeys l (launch s ids) → ∃ S, exec cfg l (launch s ids) = Ok tt S ∧
  (∀ i j w v p r r', workers S !! i = Some w → workers S !! j = Some v → i ≠ j →
     uses (at_pc (loc w)) = Some (p, r) → uses (at_pc (loc v)) ≠ Some (p, r')) ∧
  (∀ i w p r it, workers S !! i = Some w → uses (at_pc (loc w)) = Some (p, r) →
     it ∈ m_fibers (shared S) → Scheduler.fiber it ≠ Some p) ∧
  m_activeThreadCount (shared S) = busy_count (workers S) ∧
  submitted (hist S) ≡ₚ (taken (hist S)).*2 ++ m_fibers (shared S) ∧
  Forall (λ e, threadId e.2 = -1 ∨ threadId e.2 = e.1) (taken (hist S)) ∧
  (∀ p g, goal (hist S) !! p = Some g → performed p (hist S) `prefix_of` g ∧
     ∀ f, heap (shared S) !! p = Some f → Fiber.m_state f = Fiber.TERM → performed p (hist S) = g).
Proof.
  intros Hs Hob. destruct (moves_inv l _ (launch_inv _ _ Hs) Hob) as (S & HS & Hinv).
  exists S. split; [done|]. split_and!; [| |apply Hinv..|].
  - intros i j w v p r r'. by apply inv_exclusive.
  - intros i w p r it. by apply inv_unqueued.
  - intros p g. by apply inv_accounts.
Qed.
End safe.

(** ** Examples: a scheduler with two threads, and the fiber 1 with some code *)
Definition example_fiber (sc : Fiber.script) : Fiber.fiber :=
  Fiber.mk_fiber 1 65536 Fiber.INIT (Fiber.Entry false) (Some 2) (Some sc).
Definition example_world (sc : Fiber.script) : Fiber.t :=
  Fiber.mk {[1 := example_fiber sc]} 1 1 {[2 := 65536]} None None None.
Definition example_sched (sc : Fiber.script) : t unit :=
  mk (example_world sc) 3 [] [11; 12] [11; 12] 2 0 0 false false (-1) None 0 tt.
Definition example_sys (sc : Fiber.script) : sys := launch (example_sched sc) [11; 12].

Definition fiber_task (p : Z) : FiberAndThread := mk_task (Some p) None (-1).
Definition steps (i n : nat) : list move := replicate n (Run i).

(** A fiber that yields to the queue once, and a function for the second thread
    only; both threads take turns. *)
Definition example_code : Fiber.script := [Fiber.DoYieldToReady].
Definition example_moves : list move :=
  steps 0 1 ++ steps 1 1 ++
  [Submit (fiber_task 1); Submit (mk_task None (Some []) 12)] ++
  concat (replicate 30 (steps 0 1 ++ steps 1 1)) ++ [Stopping] ++
  concat (replicate 30 (steps 1 1 ++ steps 0 1)).

Lemma example_launchable sc : launchable (example_sched sc) [11; 12].
Proof.
  split; [done|done| |by repeat constructor]. intros p f Hp. unfold heap in Hp. simpl in Hp.
  apply lookup_singleton_Some in Hp as [<- <-]. by split.
Qed.

Lemma workers_safe_witness : ∃ S,
  exec 4096 example_moves (example_sys example_code) = Ok tt S ∧
  at_pc ∘ loc <$> workers S = [Exited; Exited] ∧
  m_activeThreadCount (shared S) = 0 ∧ performed 1 (hist S) = example_code.
Proof.
  destruct (workers_safe 4096 (example_sched example_code) [11; 12] example_moves) as (S & HS & _ & _ & Ha & _).
  - apply example_launchable.
  - apply obeysb_spec. vm_compute. reflexivity.
  - exists S. split; [exact HS|]. vm_compute in HS. injection HS as <-. vm_compute. auto.
Defined.

(** ** Without the discipline

    [YieldToHold] stores HOLD before it saves the context, and [run] stores HOLD
    again when it is back. Whoever wakes the fiber in between makes the other
    thread resume it too early: with the context of the last time, or while [run]
    is still about to overwrite the state. *)
Definition to_yield : list move :=
  steps 0 1 ++ steps 1 1 ++ [Submit (fiber_task 1)] ++ steps 0 8 ++ [Submit (fiber_task 1)].
Definition to_hold : list move :=
  steps 0 1 ++ steps 1 1 ++ [Submit (fiber_task 1)] ++ steps 0 11 ++ [Submit (fiber_task 1)].


(** The fiber yields to the queue when everybody is asked to stop: its thread has
    counted itself inactive and not queued the fiber again when the second thread
    looks. The fiber then schedules a function for that thread. *)
Definition second_task : FiberAndThread := mk_task None (Some []) 12.
Definition leaves : list move :=
  steps 0 1 ++ steps 1 1 ++ [Submit (fiber_task 1)] ++ steps 0 10 ++ [Stopping] ++ steps 1 19 ++
  steps 0 9 ++ [Submit second_task] ++ steps 0 32.

(** The state behind it, but for the count of notifications and the history. *)
Definition left_behind cfg (n : nat) (h : history) : sys :=
  match exec cfg leaves (example_sys example_code) with
  | Ok _ s => mk_sys (set_tickled n (shared s)) (workers s) h
  | _ => example_sys []
  end.

Lemma left_behind_round cfg n h : ∃ h',
  exec cfg (steps 0 14) (left_behind cfg n h) = Ok tt (left_behind cfg (S n) h').
Proof. eexists. vm_compute. reflexivity. Qed.

Lemma exec_app cfg l1 l2 s : exec cfg (l1 ++ l2) s = (_ ← exec cfg l1; exec cfg l2) s.
Proof.
  revert s. induction l1 as [|m l1 IH]; intros s; [done|]. unfold exec in *. simpl. unfold_M.
  destruct (exec1 cfg m s) as [[] s1|? ?|?]; [apply IH|done..].
Qed.

Lemma left_behind_rounds cfg k : ∀ n h, ∃ h',
  exec cfg (steps 0 (k * 14)) (left_behind cfg n h) = Ok tt (left_behind cfg (k + n) h').
Proof.
  induction k as [|k IH]; intros n h; [by exists h|].
  destruct (left_behind_round cfg n h) as (h1 & H1). destruct (IH (S n) h1) as (h2 & H2).
  exists h2. replace (S k + n)%nat with (k + S n)%nat by lia. change (S k * 14)%nat with (14 + k * 14)%nat. unfold steps. rewrite replicate_add, exec_app.
  unfold mbind, M_bind. unfold steps in H1, H2. rewrite H1, H2. reflexivity.
Qed.

(** C13. Stopping can hang, in a run that keeps the discipline. A fiber that yields to
    the queue is neither counted nor queued for a moment, as its thread counts
    itself inactive before it queues the fiber again. A second thread that looks
    in this moment finds nothing to do and ends. A task that the fiber then
    schedules for the second thread stays in the queue: the first thread does not
    take it, and runs its idle loop forever, as [stopping] is false while the
    queue is not empty; [stop] waits for it. *)
Theorem stop_can_hang cfg :
  obeys cfg leaves (example_sys example_code) ∧
  ∃ X, exec cfg leaves (example_sys example_code) = Ok tt X ∧
    performed 1 (hist X) = example_code ∧
    ∀ k, ∃ Y, exec cfg (steps 0 (k * 14)) X = Ok tt Y ∧
      m_fibers (shared Y) = [second_task] ∧
      at_pc ∘ loc <$> workers Y = [Scan; Exited].
Proof.
  split; [apply obeysb_spec; by vm_compute|].
  assert (∃ X, exec cfg leaves (example_sys example_code) = Ok tt X ∧
    performed 1 (hist X) = example_code ∧ X = left_behind cfg (tickled (shared X)) (hist X)) as (X & HX & Hp & Hl).
  { eexists. split; [vm_compute; reflexivity|]. by split; vm_compute. }
  exists X. split_and!; [done|done|]. intros k. rewrite Hl.
  destruct (left_behind_rounds cfg k (tickled (shared X)) (hist X)) as (h & Hk).
  exists (left_behind cfg (k + tickled (shared X)) h). split; [done|]. by split; vm_compute.
Qed.
End WorkersSafe.
