(* ===== verification/IOManager.v ===== *)
(** The IO manager: [iomanager.h] and [iomanager.cc].

    Module [IOManager] extends the scheduler's state by the event contexts of
    the file descriptors and the timers; its [tickle], [stopping] and [idle] are
    the overriding ones. The kernel is a parameter: [epoll_ctl], [epoll_wait],
    the clock and the pipe are functions on a state [K] of its own. *)
From stdpp Require Import base list numbers option gmap.
From Stdlib Require Import ZArith Lia.
From S2P Require Import Prelude Fiber Scheduler Timer.

Module IOManager.
Local Open Scope Z_scope.

(** [IOManager::Event] and the bits of epoll. *)
Definition NONE : Z := 0.
Definition READ : Z := 1.
Definition WRITE : Z := 4.
Definition EPOLLIN : Z := 1.
Definition EPOLLOUT : Z := 4.
Definition EPOLLERR : Z := 8.
Definition EPOLLHUP : Z := 16.
Definition EPOLLET : Z := 2 ^ 31.
Inductive ctl := EPOLL_CTL_ADD | EPOLL_CTL_MOD | EPOLL_CTL_DEL.

(** [FdContext::EventContext]; the scheduler of an event is this manager, or
    null when it was registered outside of a scheduler's thread. *)
Record EventContext := mk_event {
  scheduler : bool;
  fiber : option Z;
  cb : option Fiber.script
}.
Definition no_event : EventContext := mk_event false None None.

Record FdContext := mk_ctx {
  read : EventContext;
  write : EventContext;
  events : Z;
  fd : Z
}.
Definition new_ctx (i : Z) : FdContext := mk_ctx no_event no_event NONE i.
Definition set_events v c := mk_ctx (read c) (write c) v (fd c).

(** What [epoll_wait] answers: the events with the context they belong to
    ([None] is the tickle pipe), an interruption, or another error. *)
Inductive wait_result :=
| Ready (evs : list (option Z * Z))
| Interrupted
| Failed.

Section manager.
Context {K W : Type}.
(** The kernel; [true] is success. *)
Variable epoll_ctl : ctl → Z → Z → K → bool * K.
Variable epoll_wait : Z → K → wait_result * K.
Variable GetCurrentMS : K → Z * K.
Variable pipe_write : K → bool * K.
(** Whether the object of a [weak_ptr] is alive when a callback is called. *)
Variable alive : W → bool.

Record io := mk_io {
  kernel : K;
  timers : Timer.t Fiber.script W;
  m_fdContexts : list FdContext;
  m_pendingEventCount : Z
}.
Definition set_kernel v x := mk_io v (timers x) (m_fdContexts x) (m_pendingEventCount x).
Definition set_timers v x := mk_io (kernel x) v (m_fdContexts x) (m_pendingEventCount x).
Definition set_ctxs v x := mk_io (kernel x) (timers x) v (m_pendingEventCount x).
Definition set_pending v x := mk_io (kernel x) (timers x) (m_fdContexts x) v.

Definition t : Type := Scheduler.t io.

Definition modify_io (g : io → io) : M t unit :=
  modify (λ s, Scheduler.set_ext (g (Scheduler.ext s)) s).
Definition ios {A} (g : io → A) : M t A := gets (λ s, g (Scheduler.ext s)).

Definition sys {A} (call : K → A * K) : M t A :=
  k ← ios kernel;
  let (a, k') := call k in
  _ ← modify_io (set_kernel k'); mret a.

Definition add_pending (d : Z) : M t unit :=
  modify_io (λ x, set_pending (m_pendingEventCount x + d) x).

(** *** tickle, stopping *)
Definition tickle : M t unit :=
  b ← Scheduler.hasIdleThreads;
  if negb b then mret tt else ok ← sys pipe_write; assertM ok.

Definition tim {A} (m : M (Timer.t Fiber.script W) A) : M t A :=
  x ← ios timers;
  match m x with
  | Ok a x' => _ ← modify_io (set_timers x'); mret a
  | Exn e x' => _ ← modify_io (set_timers x'); throw e
  | Fault f => faultM f
  end.

(** A timer operation that may call [onTimerInsertedAtFront]. *)
Definition timer_op {A} (m : M (Timer.t Fiber.script W) A) : M t A :=
  before ← ios (λ x, Timer.notified (timers x));
  a ← tim m;
  after ← ios (λ x, Timer.notified (timers x));
  _ ← (if (before =? after)%nat then mret tt else tickle);
  mret a.

Definition stopping_timeout : M t (bool * Z) :=
  now ← sys GetCurrentMS;
  timeout ← tim (Timer.getTimeOfNextTimer now);
  pending ← ios m_pendingEventCount;
  base ← Scheduler.base_stopping;
  mret ((timeout =? Timer.no_timer) && (pending =? 0) && base, timeout).

Definition stopping : M t bool := r ← stopping_timeout; mret r.1.

(** *** The contexts *)
Definition contextResize (size : nat) : M t unit :=
  modify_io (λ x,
    let l := m_fdContexts x in
    set_ctxs (take size l ++ (new_ctx ∘ Z.of_nat <$> seq (length l) (size - length l))) x).

(** [m_fdContexts[fd]]: outside of the vector there is nothing. *)
Definition nth_ctx (i : Z) : M t FdContext :=
  l ← ios m_fdContexts;
  if i <? 0 then faultM OutOfBounds
  else match l !! Z.to_nat i with Some c => mret c | None => faultM OutOfBounds end.

Definition store_ctx (i : Z) (c : FdContext) : M t unit :=
  modify_io (λ x, set_ctxs (<[Z.to_nat i := c]> (m_fdContexts x)) x).

Definition getContext (c : FdContext) (event : Z) : M t EventContext :=
  if event =? READ then mret (read c)
  else if event =? WRITE then mret (write c)
  else faultM AssertFailed.

Definition setContext (c : FdContext) (event : Z) (e : EventContext) : FdContext :=
  if event =? READ then mk_ctx e (write c) (events c) (fd c)
  else mk_ctx (read c) e (events c) (fd c).

Definition resetContext (c : FdContext) (event : Z) : FdContext := setContext c event no_event.

(** [triggerEvent]: the callback or the fiber moves into the queue. *)
Definition triggerEvent (i event : Z) : M t unit :=
  c ← nth_ctx i;
  _ ← assertM (negb (Z.land (events c) event =? 0));
  let c1 := set_events (Z.ldiff (events c) event) c in
  _ ← store_ctx i c1;
  ctx ← getContext c1 event;
  _ ← (if scheduler ctx then mret tt else faultM NullDeref);
  _ ← Scheduler.schedule tickle
        (match cb ctx with
         | Some f => Scheduler.mk_task None (Some f) (-1)
         | None => Scheduler.mk_task (fiber ctx) None (-1)
         end);
  store_ctx i (setContext c1 event
    (mk_event false (match cb ctx with Some _ => fiber ctx | None => None end) None)).

(** The constructor behind that of the scheduler: the pipe is watched, 32
    contexts are made and the threads [ids] started. *)
Definition construct (pipe_fd : Z) (ids : list Z) : M t unit :=
  ok ← sys (epoll_ctl EPOLL_CTL_ADD pipe_fd (Z.lor EPOLLIN EPOLLET));
  _ ← assertM ok;
  _ ← contextResize 32;
  Scheduler.start ids.

(** *** addEvent *)

(** [in_scheduler] tells whether the calling thread belongs to a scheduler. *)
Definition addEvent (i event : Z) (f : option Fiber.script) (in_scheduler : bool) : M t Z :=
  size ← ios (λ x, Z.of_nat (length (m_fdContexts x)));
  c ← (if i <? size then nth_ctx i
       else _ ← contextResize (Z.to_nat (i * 3 / 2)); nth_ctx i);
  _ ← assertM (Z.land (events c) event =? 0);
  let op := if events c =? NONE then EPOLL_CTL_ADD else EPOLL_CTL_MOD in
  ok ← sys (epoll_ctl op i (Z.lor EPOLLET (Z.lor (events c) event)));
  if negb ok then mret (-1)
  else
    _ ← add_pending 1;
    let c1 := set_events (Z.lor (events c) event) c in
    _ ← store_ctx i c1;
    ctx ← getContext c1 event;
    _ ← assertM (match scheduler ctx, fiber ctx, cb ctx with
                 | false, None, None => true
                 | _, _, _ => false
                 end);
    match f with
    | Some g =>
        _ ← store_ctx i (setContext c1 event (mk_event in_scheduler None (Some g))); mret 0
    | None =>
        s ← get;
        cur ← Scheduler.fib (Fiber.GetThis (Scheduler.next_addr s));
        _ ← store_ctx i (setContext c1 event (mk_event in_scheduler (Some cur) None));
        st ← Scheduler.fib (Fiber.getState cur);
        _ ← assertM (bool_decide (st = Fiber.EXEC));
        mret 0
    end.

(** *** delEvent, cancelEvent, cancelAll *)
Definition remove_op (new_event : Z) : ctl :=
  if new_event =? NONE then EPOLL_CTL_DEL else EPOLL_CTL_MOD.

Definition delEvent (i event : Z) : M t bool :=
  size ← ios (λ x, Z.of_nat (length (m_fdContexts x)));
  if size <=? i then mret false
  else
    c ← nth_ctx i;
    if Z.land (events c) event =? 0 then mret false
    else
      let new_event := Z.ldiff (events c) event in
      ok ← sys (epoll_ctl (remove_op new_event) i (Z.lor EPOLLET new_event));
      if negb ok then mret false
      else
        _ ← add_pending (-1);
        let c1 := set_events new_event c in
        _ ← store_ctx i c1;
        _ ← getContext c1 event;
        _ ← store_ctx i (resetContext c1 event);
        mret true.

Definition cancelEvent (i event : Z) : M t bool :=
  size ← ios (λ x, Z.of_nat (length (m_fdContexts x)));
  if size <=? i then mret false
  else
    c ← nth_ctx i;
    if Z.land (events c) event =? 0 then mret false
    else
      let new_event := Z.ldiff (events c) event in
      ok ← sys (epoll_ctl (remove_op new_event) i (Z.lor EPOLLET new_event));
      if negb ok then mret false
      else
        _ ← triggerEvent i event;
        _ ← add_pending (-1);
        mret true.

(** [if(fd_ctx->events & event) { triggerEvent(event); --pending; }] *)
Definition trigger_registered (i event : Z) : M t unit :=
  c ← nth_ctx i;
  if Z.land (events c) event =? 0 then mret tt
  else _ ← triggerEvent i event; add_pending (-1).

Definition cancelAll (i : Z) : M t bool :=
  size ← ios (λ x, Z.of_nat (length (m_fdContexts x)));
  if size <=? i then mret false
  else
    c ← nth_ctx i;
    if events c =? NONE then mret false
    else
      ok ← sys (epoll_ctl EPOLL_CTL_DEL i 0);
      if negb ok then mret false
      else
        _ ← trigger_registered i READ;
        _ ← trigger_registered i WRITE;
        mret true.

(** *** idle *)
Definition MAX_TIMEOUT : Z := 3000.

Definition clamp_timeout (next_timeout : Z) : Z :=
  if next_timeout =? Timer.no_timer then MAX_TIMEOUT
  else if MAX_TIMEOUT <? sint 32 next_timeout then MAX_TIMEOUT else next_timeout.

(** The loop around [epoll_wait]. *)
Fixpoint wait_loop (fuel : nat) (next_timeout : Z) : M t (option (list (option Z * Z))) :=
  match fuel with
  | O => faultM FuelExhausted
  | S fuel' =>
      let next_timeout := clamp_timeout next_timeout in
      r ← sys (epoll_wait (sint 32 next_timeout));
      match r with
      | Ready evs => mret (Some evs)
      | Interrupted => wait_loop fuel' next_timeout
      | Failed => mret None
      end
  end.

Definition callback_task (c : option (Timer.callback Fiber.script W)) : Scheduler.FiberAndThread :=
  Scheduler.mk_task None
    (match c with
     | Some c => Some (match Timer.invoke alive c with Some f => f | None => [] end)
     | None => None
     end) (-1).

Definition real_events (ev : Z) : Z :=
  let ev := if Z.land ev (Z.lor EPOLLERR EPOLLHUP) =? 0 then ev
            else Z.lor ev (Z.lor EPOLLIN EPOLLOUT) in
  Z.lor (if Z.land ev EPOLLIN =? 0 then NONE else READ)
        (if Z.land ev EPOLLOUT =? 0 then NONE else WRITE).

Definition handle_event (e : option Z * Z) : M t unit :=
  match e with
  | (None, _) => mret tt
  | (Some i, ev) =>
      c ← nth_ctx i;
      let real_event := real_events ev in
      if Z.land (events c) real_event =? NONE then mret tt
      else
        let left_events := Z.ldiff (events c) real_event in
        ok ← sys (epoll_ctl (remove_op left_events) (fd c) (Z.lor EPOLLET left_events));
        if negb ok then mret tt
        else
          _ ← (if Z.land real_event READ =? 0 then mret tt
               else _ ← triggerEvent i READ; add_pending (-1));
          if Z.land real_event WRITE =? 0 then mret tt
          else _ ← triggerEvent i WRITE; add_pending (-1)
  end.

(** One round of [idle], up to its switch: the code the idle fiber runs now. *)
Definition idle (fuel : nat) (now_timer : Z) : M t Fiber.script :=
  r ← stopping_timeout;
  let '(stop, next_timeout) := r in
  if stop : bool then mret []
  else
    evs ← wait_loop fuel next_timeout;
    now ← sys GetCurrentMS;
    cbs ← tim (Timer.listExpiredCbs now_timer now []);
    _ ← (match cbs with
         | [] => mret tt
         | _ => Scheduler.schedule_range tickle (callback_task <$> cbs)
         end);
    _ ← forM (match evs with Some l => l | None => [] end) handle_event;
    mret [Fiber.DoSwapOut].

(** *** The destructor *)

(** Scheduler::stop with this class's virtual functions. *)
Definition stop (g_fiber_config : Z) (fuel : nat) (now_timer tid : Z) (current : bool) : M t unit :=
  Scheduler.stop tickle stopping (idle fuel now_timer) g_fiber_config fuel tid current.

(** The descriptors of epoll and of the pipe are closed, the contexts deleted. *)
Definition destroy (close : Z → K → K) (epfd pipe_read pipe_write_fd : Z)
    (g_fiber_config : Z) (fuel : nat) (now_timer tid : Z) (current : bool) : M t unit :=
  _ ← stop g_fiber_config fuel now_timer tid current;
  _ ← sys (λ k, (tt, close epfd k));
  _ ← sys (λ k, (tt, close pipe_read k));
  _ ← sys (λ k, (tt, close pipe_write_fd k));
  modify_io (set_ctxs []).
End manager.
Arguments io : clear implicits.
Arguments t : clear implicits.
End IOManager.
