(* ===== verification/IOManagerProps.v ===== *)
(** Properties of the IO manager: the number of pending events, what adding,
    deleting, cancelling and delivering an event does, and the timeout of the
    waiting loop. *)
From stdpp Require Import base list numbers option gmap.
From Stdlib Require Import ZArith Lia.
From S2P Require Import Prelude Fiber Scheduler Timer IOManager.
Import IOManager.
Local Open Scope Z_scope.

Section props.
Context {K W : Type}.
Variable epoll_ctl : ctl → Z → Z → K → bool * K.
Variable pipe_write : K → bool * K.
(** A one-byte write to a blocking pipe succeeds. *)
Hypothesis pipe_ok : ∀ k, (pipe_write k).1 = true.
Abbreviation st := (IOManager.t K W).
Implicit Types (s : st) (c : FdContext).
Local Abbreviation addEvent := (addEvent (W := W) epoll_ctl).
Local Abbreviation delEvent := (delEvent (W := W) epoll_ctl).
Local Abbreviation cancelEvent := (cancelEvent (W := W) epoll_ctl pipe_write).
Local Abbreviation cancelAll := (cancelAll (W := W) epoll_ctl pipe_write).
Local Abbreviation handle_event := (handle_event (W := W) epoll_ctl pipe_write).
Local Abbreviation triggerEvent := (triggerEvent (W := W) pipe_write).

Definition ctxs s : list FdContext := m_fdContexts (Scheduler.ext s).
Definition pending s : Z := m_pendingEventCount (Scheduler.ext s).
Definition queue s : list Scheduler.FiberAndThread := Scheduler.m_fibers s.

Definition is_event (e : Z) : Prop := e = READ ∨ e = WRITE.
Definition registered c (e : Z) : bool := negb (Z.land (events c) e =? 0).
Definition slot c (e : Z) : EventContext := if e =? READ then read c else write c.

(** A slot is filled exactly while its event is registered. *)
Definition slot_ok (b : bool) (e : EventContext) : Prop :=
  if b then scheduler e = true ∧
    (is_Some (fiber e) ∧ cb e = None ∨ fiber e = None ∧ is_Some (cb e))
  else e = no_event.

Record ctx_ok (i : nat) c : Prop := {
  ok_fd : fd c = Z.of_nat i;
  ok_events : events c ∈ [0; 1; 4; 5];
  ok_read : slot_ok (registered c READ) (read c);
  ok_write : slot_ok (registered c WRITE) (write c)
}.

Definition count c : Z := Z.b2z (registered c READ) + Z.b2z (registered c WRITE).
Fixpoint total (l : list FdContext) : Z :=
  match l with [] => 0 | c :: l' => count c + total l' end.

(** The pending events are the registered ones. *)
Definition inv s : Prop :=
  (∀ i c, ctxs s !! i = Some c → ctx_ok i c) ∧ pending s = total (ctxs s) ∧
  (2 ≤ length (ctxs s))%nat.

(** The task an event context stands for. *)
Definition task_of (e : EventContext) : Scheduler.FiberAndThread :=
  match cb e with
  | Some f => Scheduler.mk_task None (Some f) (-1)
  | None => Scheduler.mk_task (fiber e) None (-1)
  end.

(** A context without an event. *)
Definition cleared c (e : Z) : FdContext :=
  setContext (set_events (Z.ldiff (events c) e) c) e no_event.

(** Everything but the kernel, the contexts, the pending events and the queue. *)
Definition same_rest s s' : Prop :=
  Scheduler.world s' = Scheduler.world s ∧ Scheduler.next_addr s' = Scheduler.next_addr s ∧
  timers (Scheduler.ext s') = timers (Scheduler.ext s) ∧
  Scheduler.m_idleThreadCount s' = Scheduler.m_idleThreadCount s.

Lemma same_rest_trans s1 s2 s3 : same_rest s1 s2 → same_rest s2 s3 → same_rest s1 s3.
Proof. unfold same_rest. intros (?&?&?&?) (?&?&?&?). split_and!; congruence. Qed.

Lemma events_total_insert l i c c' :
  l !! i = Some c → total (<[i := c']> l) = total l + count c' - count c.
Proof.
  revert i; induction l as [|d l IH]; intros [|i] Hi; [done..| |].
  - injection Hi as ->. change (<[0%nat := c']> (c :: l)) with (c' :: l). cbn [total]. lia.
  - change (<[S i := c']> (d :: l)) with (d :: <[i := c']> l). cbn [total]. rewrite (IH i Hi). lia.
Qed.

Lemma events_total_app l1 l2 : total (l1 ++ l2) = total l1 + total l2.
Proof. induction l1; cbn [total app]; lia. Qed.

Lemma nth_ctx_at i c s : ctxs s !! i = Some c → nth_ctx (Z.of_nat i) s = Ok c s.
Proof.
  intros Hi. unfold nth_ctx, ios. unfold_M.
  destruct (Z.ltb_spec (Z.of_nat i) 0); [lia|]. rewrite Nat2Z.id. unfold ctxs in Hi. by rewrite Hi.
Qed.

Lemma ctx_cases i c e :
  ctx_ok i c → is_event e →
  getContext c e = (mret (slot c e) : M st EventContext) ∧
  slot_ok (registered c e) (slot c e).
Proof.
  intros [H1 H2 H3 H4] [->| ->]; by split.
Qed.

Lemma cleared_ok i c e : ctx_ok i c → is_event e → registered c e = true →
  ctx_ok i (cleared c e) ∧ count (cleared c e) = count c - 1 ∧
  registered (cleared c e) e = false ∧
  (∀ e', is_event e' → e' ≠ e →
    registered (cleared c e) e' = registered c e' ∧ slot (cleared c e) e' = slot c e').
Proof.
  intros [H1 H2 H3 H4] He Hr.
  assert (events c = 0 ∨ events c = 1 ∨ events c = 4 ∨ events c = 5) as Hev by set_solver.
  unfold registered, count, cleared, setContext, is_event, slot in *.
  unfold registered in *. unfold READ, WRITE in *.
  destruct Hev as [E|[E|[E|E]]], He as [->| ->]; simpl in *; rewrite E in *; simpl in *; try done;
    (split_and!; [split; simpl; rewrite ?E; simpl; try done; set_solver|done|done|]);
    intros e' [->| ->] Hne; done.
Qed.

Lemma tickle_ok s :
  ∃ s', tickle (W := W) pipe_write s = Ok tt s' ∧
    ctxs s' = ctxs s ∧ pending s' = pending s ∧ queue s' = queue s ∧ same_rest s s'.
Proof.
  unfold tickle, Scheduler.hasIdleThreads, sys, ios, modify_io. unfold_M.
  destruct (negb _); [by exists s|].
  pose proof (pipe_ok (kernel (Scheduler.ext s))) as Hpipe.
  destruct (pipe_write _) as [okw k']. simpl in Hpipe. subst. simpl.
  eexists. split; [done|]. by unfold same_rest.
Qed.

Lemma schedule_ok tk s :
  Scheduler.fiber tk ≠ None ∨ Scheduler.cb tk ≠ None →
  ∃ s', Scheduler.schedule (tickle pipe_write) tk s = Ok tt s' ∧
    ctxs s' = ctxs s ∧ pending s' = pending s ∧ queue s' = queue s ++ [tk] ∧ same_rest s s'.
Proof.
  intros Hne. unfold Scheduler.schedule, Scheduler.scheduleNoLock. unfold_M.
  set (s2 := Scheduler.set_queue (Scheduler.m_fibers s ++ [tk]) s).
  assert (ctxs s2 = ctxs s ∧ pending s2 = pending s ∧ queue s2 = queue s ++ [tk] ∧ same_rest s s2)
    as (H1 & H2 & H3 & H4) by done.
  destruct (tickle_ok s2) as (s3 & He & H5 & H6 & H7 & H8).
  assert (∃ s', (if match Scheduler.m_fibers s with [] => true | _ => false end
    then tickle pipe_write else λ s0 : st, Ok tt s0) s2 = Ok tt s' ∧
    ctxs s' = ctxs s ∧ pending s' = pending s ∧ queue s' = queue s ++ [tk] ∧ same_rest s s')
    as (s' & Hs' & Hrest).
  { destruct (Scheduler.m_fibers s); [exists s3|exists s2]; [|by split_and!].
    split_and!; [done|congruence..|by eapply same_rest_trans]. }
  exists s'. split; [|done]. rewrite <-Hs'.
  destruct (Scheduler.fiber tk), (Scheduler.cb tk); try done. by destruct Hne.
Qed.

Lemma triggerEvent_ok i c e s :
  ctxs s !! i = Some c → ctx_ok i c → is_event e → registered c e = true →
  ∃ s', triggerEvent (Z.of_nat i) e s = Ok tt s' ∧
    ctxs s' = <[i := cleared c e]> (ctxs s) ∧ pending s' = pending s ∧
    queue s' = queue s ++ [task_of (slot c e)] ∧ same_rest s s'.
Proof.
  intros Hi Hok He Hr. destruct (ctx_cases i c e Hok He) as [Hget Hslot].
  rewrite Hr in Hslot. simpl in Hslot. destruct Hslot as [Hsch Hone].
  unfold triggerEvent. unfold_M. rewrite (nth_ctx_at i c) by done.
  unfold assertM, registered in *. rewrite Hr. unfold_M. unfold store_ctx, modify_io. unfold_M.
  set (s1 := Scheduler.set_ext _ s).
  assert (getContext (set_events (Z.ldiff (events c) e) c) e s1 = Ok (slot c e) s1) as ->
    by (destruct He as [->| ->]; done).
  rewrite Hsch. unfold_M. fold (task_of (slot c e)).
  destruct (schedule_ok (task_of (slot c e)) s1) as (s3 & -> & Hc3 & Hp3 & Hq3 & Hr3).
  { unfold task_of. destruct Hone as [[[p Hp] Hcb]|[Hp [g Hcb]]]; rewrite Hcb; naive_solver. }
  eexists. split; [done|]. unfold ctxs, pending, queue in *. simpl.
  rewrite Hc3, Hp3, Hq3. simpl. rewrite Nat2Z.id, list_insert_insert_eq.
  split_and!; [|done..|]; [|by destruct Hr3 as (?&?&?&?)].
  f_equal. unfold cleared, setContext. destruct He as [->| ->]; simpl;
    destruct Hone as [[[p Hp] Hcb]|[Hp [g Hcb]]]; unfold slot in *; simpl in *; rewrite Hcb, ?Hp; done.
Qed.

(** The kernel's answer to [epoll_ctl] in the state [s]. *)
Definition ctl_ok s op i ev : bool := (epoll_ctl op i ev (kernel (Scheduler.ext s))).1.

Lemma sys_ctl s op i ev :
  ∃ s', sys (W := W) (epoll_ctl op i ev) s = Ok (ctl_ok s op i ev) s' ∧
    ctxs s' = ctxs s ∧ pending s' = pending s ∧ queue s' = queue s ∧ same_rest s s'.
Proof.
  unfold sys, ios, modify_io, ctl_ok. unfold_M. destruct (epoll_ctl _ _ _ _) as [b k].
  eexists. split; [done|]. by unfold same_rest.
Qed.

Lemma size_lt i c s : ctxs s !! i = Some c → (Z.of_nat (length (ctxs s)) <=? Z.of_nat i) = false.
Proof. intros Hi. apply lookup_lt_Some in Hi. destruct (Z.leb_spec (Z.of_nat (length (ctxs s))) (Z.of_nat i)); [lia|done]. Qed.

(** [epoll_ctl] of a removal. *)
Definition removal_ok s i c e : bool :=
  ctl_ok s (remove_op (Z.ldiff (events c) e)) (Z.of_nat i) (Z.lor EPOLLET (Z.ldiff (events c) e)).

Lemma delEvent_spec i c e s :
  ctxs s !! i = Some c → ctx_ok i c → is_event e →
  wp (delEvent (Z.of_nat i) e) (λ b s',
    b = registered c e && removal_ok s i c e ∧ queue s' = queue s ∧ same_rest s s' ∧
    ctxs s' = (if b then <[i := cleared c e]> (ctxs s) else ctxs s) ∧
    pending s' = pending s - Z.b2z b) s.
Proof.
  intros Hi Hok He. unfold wp, delEvent, ios. unfold_M. fold (ctxs s).
  rewrite (size_lt i c) by done. rewrite (nth_ctx_at i c) by done. unfold registered, removal_ok.
  destruct (Z.land (events c) e =? 0); simpl; [split_and!; try done; lia|].
  destruct (sys_ctl s (remove_op (Z.ldiff (events c) e)) (Z.of_nat i)
    (Z.lor EPOLLET (Z.ldiff (events c) e))) as (s1 & -> & Hc & Hp & Hq & Hr).
  destruct (ctl_ok _ _ _ _); simpl; [|split_and!; try done; lia].
  unfold add_pending, store_ctx, modify_io, resetContext. unfold_M. simpl.
  set (s2 := Scheduler.set_ext _ (Scheduler.set_ext _ s1)).
  assert (getContext (set_events (Z.ldiff (events c) e) c) e s2 = Ok (slot c e) s2) as ->
    by (destruct He as [->| ->]; done).
  simpl. rewrite Nat2Z.id, list_insert_insert_eq. unfold ctxs, pending, queue in *. simpl.
  rewrite Hc, Hp, Hq. split_and!; try done.
Qed.

Lemma cancelEvent_spec i c e s :
  ctxs s !! i = Some c → ctx_ok i c → is_event e →
  wp (cancelEvent (Z.of_nat i) e) (λ b s',
    b = registered c e && removal_ok s i c e ∧ same_rest s s' ∧
    queue s' = (if b then queue s ++ [task_of (slot c e)] else queue s) ∧
    ctxs s' = (if b then <[i := cleared c e]> (ctxs s) else ctxs s) ∧
    pending s' = pending s - Z.b2z b) s.
Proof.
  intros Hi Hok He. unfold wp, cancelEvent, ios. unfold_M. fold (ctxs s).
  rewrite (size_lt i c) by done. rewrite (nth_ctx_at i c) by done. unfold removal_ok.
  destruct (registered c e) eqn:Hreg; unfold registered in Hreg.
  - apply negb_true_iff in Hreg as Hreg'. rewrite Hreg'. simpl.
    destruct (sys_ctl s (remove_op (Z.ldiff (events c) e)) (Z.of_nat i)
      (Z.lor EPOLLET (Z.ldiff (events c) e))) as (s1 & -> & Hc & Hp & Hq & Hr).
    destruct (ctl_ok _ _ _ _); simpl; [|split_and!; try done; lia].
    destruct (triggerEvent_ok i c e s1) as (s2 & -> & Hc2 & Hp2 & Hq2 & Hr2);
      [congruence|done..|].
    unfold add_pending, modify_io. unfold_M.
    unfold ctxs, pending, queue in *. simpl. rewrite Hc2, Hp2, Hq2, Hc, Hp, Hq.
    split_and!; try done; try lia. by eapply same_rest_trans.
  - apply negb_false_iff in Hreg. rewrite Hreg. simpl. split_and!; try done; lia.
Qed.

(** The tasks of the events [e] registered in [c]. *)
Definition tasks c (e : Z) : list Scheduler.FiberAndThread :=
  (if registered c READ && negb (Z.land e READ =? 0) then [task_of (read c)] else []) ++
  (if registered c WRITE && negb (Z.land e WRITE =? 0) then [task_of (write c)] else []).

Definition clear_if (b : bool) c (e : Z) : FdContext := if b then cleared c e else c.

Lemma trigger_registered_spec i c e s :
  ctxs s !! i = Some c → ctx_ok i c → is_event e →
  ∃ s', trigger_registered (W := W) pipe_write (Z.of_nat i) e s = Ok tt s' ∧ same_rest s s' ∧
    queue s' = queue s ++ (if registered c e then [task_of (slot c e)] else []) ∧
    ctxs s' = <[i := clear_if (registered c e) c e]> (ctxs s) ∧
    pending s' = pending s - Z.b2z (registered c e).
Proof.
  intros Hi Hok He. unfold trigger_registered. unfold_M. rewrite (nth_ctx_at i c) by done.
  destruct (registered c e) eqn:Hreg; unfold registered in Hreg.
  - apply negb_true_iff in Hreg as Hreg'. rewrite Hreg'.
    destruct (triggerEvent_ok i c e s) as (s2 & -> & Hc2 & Hp2 & Hq2 & Hr2); [done..|].
    unfold add_pending, modify_io. unfold_M. eexists. split; [done|].
    unfold ctxs, pending, queue in *. simpl. rewrite Hc2, Hp2, Hq2. split_and!; try done; try lia.
  - apply negb_false_iff in Hreg. rewrite Hreg. exists s. simpl. rewrite app_nil_r.
    split_and!; try done; try lia. by rewrite list_insert_id.
Qed.

Lemma clear_if_ok i c e : ctx_ok i c → is_event e →
  let c' := clear_if (registered c e) c e in
  ctx_ok i c' ∧ count c' = count c - Z.b2z (registered c e) ∧ registered c' e = false ∧
  (∀ e', is_event e' → e' ≠ e → registered c' e' = registered c e' ∧ slot c' e' = slot c e').
Proof.
  intros Hok He. unfold clear_if. destruct (registered c e) eqn:Hr; cbv zeta.
  - by apply cleared_ok.
  - split_and!; try done. simpl. lia.
Qed.

Lemma cancelAll_spec i c s :
  ctxs s !! i = Some c → ctx_ok i c →
  wp (cancelAll (Z.of_nat i)) (λ b s',
    b = negb (events c =? NONE) && ctl_ok s EPOLL_CTL_DEL (Z.of_nat i) 0 ∧ same_rest s s' ∧
    queue s' = (if b then queue s ++ tasks c 5 else queue s) ∧
    (∃ c', ctxs s' = <[i := c']> (ctxs s) ∧ ctx_ok i c' ∧
      (if b then count c' = 0 else c' = c)) ∧
    pending s' = pending s - (if b then count c else 0)) s.
Proof.
  intros Hi Hok. unfold wp, cancelAll, ios. unfold_M. fold (ctxs s).
  rewrite (size_lt i c) by done. rewrite (nth_ctx_at i c) by done.
  assert (∃ c', ctxs s = <[i:=c']> (ctxs s) ∧ ctx_ok i c' ∧ c' = c) as Hsame
    by (exists c; by rewrite list_insert_id).
  destruct (events c =? NONE); simpl; [split_and!; try done; lia|].
  destruct (sys_ctl s EPOLL_CTL_DEL (Z.of_nat i) 0) as (s1 & -> & Hc & Hp & Hq & Hr).
  destruct (ctl_ok _ _ _ _); simpl; [|rewrite Hc; split_and!; try done; lia].
  destruct (trigger_registered_spec i c READ s1) as (s2 & -> & Hr2 & Hq2 & Hc2 & Hp2);
    [congruence|done|by left|].
  destruct (clear_if_ok i c READ Hok) as (Hok2 & Hn2 & Hz2 & Ho2); [by left|].
  set (c2 := clear_if _ c READ) in *. destruct (Ho2 WRITE) as [Hw Hsw]; [by right|done|].
  destruct (trigger_registered_spec i c2 WRITE s2) as (s3 & -> & Hr3 & Hq3 & Hc3 & Hp3);
    [rewrite Hc2, list_lookup_insert_eq; [done|rewrite Hc; by eapply lookup_lt_Some]|done|by right|].
  destruct (clear_if_ok i c2 WRITE Hok2) as (Hok3 & Hn3 & Hz3 & Ho3); [by right|].
  set (c3 := clear_if _ c2 WRITE) in *. destruct (Ho3 READ) as [Hw3 _]; [by left|done|].
  split_and!; [done| | | |].
  - eapply same_rest_trans; [|done]. by eapply same_rest_trans.
  - rewrite Hq3, Hq2, Hq, Hw, Hsw. unfold tasks. simpl. rewrite !andb_true_r. by rewrite app_assoc.
  - exists c3. rewrite Hc3, Hc2, Hc, list_insert_insert_eq. split_and!; try done.
    unfold count. rewrite Hw3, Hz2, Hz3. done.
  - rewrite Hp3, Hp2, Hp, Hw. unfold count. lia.
Qed.

Lemma triggerEvent_unregistered i c e s :
  ctxs s !! i = Some c → registered c e = false →
  triggerEvent (Z.of_nat i) e s = Fault AssertFailed.
Proof.
  intros Hi Hr. unfold triggerEvent. unfold_M. rewrite (nth_ctx_at i c) by done.
  unfold registered in Hr. by rewrite Hr.
Qed.

Lemma real_events_cases ev :
  real_events ev = 0 ∨ real_events ev = 1 ∨ real_events ev = 4 ∨ real_events ev = 5.
Proof. unfold real_events. repeat case_match; simpl; auto. Qed.

(** [trigger_registered] without its test, as [idle] uses it. *)
Lemma trigger_step i c e s re :
  ctxs s !! i = Some c → ctx_ok i c → is_event e →
  let b := negb (Z.land re e =? 0) in
  let step := if Z.land re e =? 0 then mret tt
              else _ ← triggerEvent (Z.of_nat i) e; add_pending (-1) in
  (b = true → registered c e = true) →
  ∃ s', step s = Ok tt s' ∧ same_rest s s' ∧
    queue s' = queue s ++ (if registered c e && b then [task_of (slot c e)] else []) ∧
    ctxs s' = <[i := clear_if b c e]> (ctxs s) ∧ pending s' = pending s - Z.b2z b.
Proof.
  intros Hi Hok He b step Hb. subst step b. destruct (Z.land re e =? 0).
  - exists s. simpl. rewrite andb_false_r, app_nil_r, list_insert_id by done. split_and!; try done. lia.
  - destruct (triggerEvent_ok i c e s) as (s2 & H2 & Hc2 & Hp2 & Hq2 & Hr2); [auto..|].
    unfold_M. rewrite H2, Hb by done. unfold add_pending, modify_io. unfold_M. eexists. split; [done|].
    unfold ctxs, pending, queue in *. simpl. rewrite Hc2, Hp2, Hq2. split_and!; try done; try lia.
Qed.

(** Which bits a report and a context can have. *)
Lemma bits_cases i c ev :
  ctx_ok i c →
  (events c = 0 ∨ events c = 1 ∨ events c = 4 ∨ events c = 5) ∧
  (real_events ev = 0 ∨ real_events ev = 1 ∨ real_events ev = 4 ∨ real_events ev = 5).
Proof. intros [_ H _ _]. split; [set_solver|apply real_events_cases]. Qed.

Lemma clear_if_bit i c e b : ctx_ok i c → is_event e → (b = true → registered c e = true) →
  let c' := clear_if b c e in
  ctx_ok i c' ∧ count c' = count c - Z.b2z b ∧
  events c' = Z.ldiff (events c) (if b then e else 0) ∧
  (∀ e', is_event e' → e' ≠ e → registered c' e' = registered c e' ∧ slot c' e' = slot c e').
Proof.
  intros Hok He Hb. unfold clear_if. destruct b; cbv zeta.
  - destruct (cleared_ok i c e Hok He (Hb eq_refl)) as (H1 & H2 & _ & H3).
    split_and!; try done. destruct He as [->| ->]; done.
  - rewrite Z.ldiff_0_r. split_and!; try done. simpl. lia.
Qed.

Lemma inv_insert s s' i c c' :
  inv s → ctxs s !! i = Some c → ctx_ok i c' → ctxs s' = <[i := c']> (ctxs s) →
  pending s' = pending s + count c' - count c → inv s'.
Proof.
  intros (Hall & Hp & Hlen) Hi Hok Hc Hpd. split_and!.
  - intros j d. rewrite Hc. destruct (decide (i = j)) as [<-|Hne].
    + rewrite list_lookup_insert_eq by (by eapply lookup_lt_Some). by intros [= <-].
    + rewrite list_lookup_insert_ne by done. apply Hall.
  - rewrite Hc, (events_total_insert _ i c) by done. lia.
  - by rewrite Hc, length_insert.
Qed.

(** The events delivered for [c] are not all registered, and [epoll_ctl] was
    asked to drop them. *)
Definition unmasked s i c ev : bool :=
  let re := real_events ev in
  negb (Z.land (events c) re =? 0) && negb (Z.ldiff re (events c) =? 0) &&
  ctl_ok s (remove_op (Z.ldiff (events c) re)) (Z.of_nat i) (Z.lor EPOLLET (Z.ldiff (events c) re)).

(** Every other descriptor is as before, and so is what waits for another event
    of this one. *)
Definition others_kept s s' i c (re : Z) : Prop :=
  (∀ j, j ≠ i → ctxs s' !! j = ctxs s !! j) ∧
  ∀ c' e, ctxs s' !! i = Some c' → is_event e → Z.land re e = 0 → slot c' e = slot c e.

(** Both events, when all that is delivered is registered. *)
Lemma trigger_both i c ev s s1 :
  inv s → ctxs s !! i = Some c → ctx_ok i c → Z.ldiff (real_events ev) (events c) = 0 →
  ctxs s1 = ctxs s → pending s1 = pending s → queue s1 = queue s → same_rest s s1 →
  let re := real_events ev in
  wp (_ ← (if Z.land re READ =? 0 then mret tt else _ ← triggerEvent (Z.of_nat i) READ; add_pending (-1));
      if Z.land re WRITE =? 0 then mret tt else _ ← triggerEvent (Z.of_nat i) WRITE; add_pending (-1)) (λ _ s',
    inv s' ∧ same_rest s s' ∧
    (ctxs s' = ctxs s ∧ queue s' = queue s ∨
     Z.ldiff re (events c) = 0 ∧ queue s' = queue s ++ tasks c re ∧
     events <$> ctxs s' !! i = Some (Z.ldiff (events c) re) ∧
     others_kept s s' i c re)) s1.
Proof.
  intros Hinv Hi Hok Hsub Hc Hp Hq Hr re. pose proof (bits_cases i c ev Hok) as [Hev Hre].
  fold re in Hsub, Hre. unfold wp. unfold_M.
  assert (∀ e, is_event e → negb (Z.land re e =? 0) = true → registered c e = true) as Hin.
  { intros e He. unfold registered. clearbody re.
    destruct Hev as [E|[E|[E|E]]], Hre as [E'|[E'|[E'|E']]], He as [->| ->];
      rewrite E, E' in *; done. }
  destruct (trigger_step i c READ s1 re) as (s2 & He2 & Hr2 & Hq2 & Hc2 & Hp2);
    [congruence|done|by left|by apply Hin; left|].
  unfold_M. rewrite He2.
  destruct (clear_if_bit i c READ (negb (Z.land re READ =? 0)) Hok) as (Hok2 & Hn2 & He2' & Ho2);
    [by left|by apply Hin; left|].
  set (c2 := clear_if _ c READ) in *. destruct (Ho2 WRITE) as [Hw Hsw]; [by right|done|].
  destruct (trigger_step i c2 WRITE s2 re) as (s3 & He3 & Hr3 & Hq3 & Hc3 & Hp3);
    [rewrite Hc2, list_lookup_insert_eq; [done|rewrite Hc; by eapply lookup_lt_Some]|done|by right| |].
  { rewrite Hw. apply Hin. by right. }
  destruct (clear_if_bit i c2 WRITE (negb (Z.land re WRITE =? 0)) Hok2) as (Hok3 & Hn3 & He3' & _);
    [by right|rewrite Hw; apply Hin; by right|].
  set (c3 := clear_if _ c2 WRITE) in *. unfold_M. rewrite He3.
  rewrite Hc2, Hc, list_insert_insert_eq in Hc3.
  split_and!.
  * eapply inv_insert; [exact Hinv|done|exact Hok3|done|lia].
  * eapply same_rest_trans; [exact Hr|]. by eapply same_rest_trans.
  * right. split_and!; [done| | |].
    -- rewrite Hq3, Hq2, Hq, Hw, Hsw. unfold tasks. simpl. by rewrite app_assoc.
    -- rewrite Hc3, list_lookup_insert_eq by (by eapply lookup_lt_Some). simpl. f_equal.
       rewrite He3', He2'. clearbody re.
       destruct Hev as [E|[E|[E|E]]], Hre as [E'|[E'|[E'|E']]]; rewrite E, E'; done.
    -- split; [intros j Hj; rewrite Hc3; by apply list_lookup_insert_ne|].
       intros c' e. rewrite Hc3, list_lookup_insert_eq by (by eapply lookup_lt_Some).
       intros [= <-] He0 Hz. subst c3 c2. unfold clear_if. apply Z.eqb_eq in Hz.
       destruct He0 as [->| ->], (Z.land re READ =? 0), (Z.land re WRITE =? 0); by try discriminate Hz.
Qed.

Lemma handle_event_spec i c ev s :
  inv s → ctxs s !! i = Some c →
  if unmasked s i c ev then handle_event (Some (Z.of_nat i), ev) s = Fault AssertFailed
   else wp (handle_event (Some (Z.of_nat i), ev)) (λ _ s',
     inv s' ∧ same_rest s s' ∧
     (ctxs s' = ctxs s ∧ queue s' = queue s ∨
      Z.ldiff (real_events ev) (events c) = 0 ∧ queue s' = queue s ++ tasks c (real_events ev) ∧
      events <$> ctxs s' !! i = Some (Z.ldiff (events c) (real_events ev)) ∧
      others_kept s s' i c (real_events ev))) s.
Proof.
  intros Hinv Hi. pose proof Hinv as (Hall & _ & _). pose proof (Hall i c Hi) as Hok.
  pose proof (bits_cases i c ev Hok) as [Hev Hre].
  unfold wp, unmasked, handle_event. unfold_M. rewrite !(nth_ctx_at i c) by done. cbn zeta.
    rewrite (ok_fd _ _ Hok). set (re := real_events ev) in *.
    change NONE with 0. destruct (Z.land (events c) re =? 0) eqn:Hreg; simpl.
    { split_and!; try done. by left. }
    destruct (sys_ctl s (remove_op (Z.ldiff (events c) re)) (Z.of_nat i)
      (Z.lor EPOLLET (Z.ldiff (events c) re))) as (s1 & -> & Hc & Hp & Hq & Hr).
    destruct (ctl_ok _ _ _ _); simpl; rewrite ?andb_false_r, ?andb_true_r.
    2: { split_and!; [|done|by left]. eapply inv_insert; [exact Hinv|done|exact Hok| |lia].
         by rewrite Hc, list_insert_id. }
    destruct (Z.ldiff re (events c) =? 0) eqn:Hsub; simpl.
    + apply Z.eqb_eq in Hsub. by apply (trigger_both i c ev s s1).
    + unfold_M. destruct (Z.land re READ =? 0) eqn:Hr1.
      * assert (Z.land re WRITE =? 0 = false ∧ registered c WRITE = false) as [-> Hnw].
        { unfold registered. clearbody re.
          destruct Hev as [E|[E|[E|E]]], Hre as [E'|[E'|[E'|E']]]; rewrite E, E' in *; done. }
        rewrite (triggerEvent_unregistered i c WRITE s1); [done|congruence|done].
      * destruct (registered c READ) eqn:Hreg1.
        2: { rewrite (triggerEvent_unregistered i c READ s1); [done|congruence|done]. }
        assert (Z.land re WRITE =? 0 = false ∧ registered c WRITE = false) as [-> Hnw].
        { unfold registered in *. clearbody re.
          destruct Hev as [E|[E|[E|E]]], Hre as [E'|[E'|[E'|E']]]; rewrite E, E' in *; done. }
        destruct (triggerEvent_ok i c READ s1) as (s2 & -> & Hc2 & _); [congruence|done|by left|done|].
        unfold add_pending, modify_io. unfold_M.
        rewrite (triggerEvent_unregistered i (cleared c READ) WRITE); [done| |].
        { unfold ctxs in *. simpl. rewrite Hc2, Hc. apply list_lookup_insert_eq. by eapply lookup_lt_Some. }
        destruct (cleared_ok i c READ Hok (or_introl eq_refl) Hreg1) as (_ & _ & _ & Ho).
        by destruct (Ho WRITE (or_intror eq_refl)) as [-> _].
Qed.


(** *** Adding *)
Definition ctx_at s (i : nat) : FdContext := default (new_ctx (Z.of_nat i)) (ctxs s !! i).

Lemma new_ctx_ok i : ctx_ok i (new_ctx (Z.of_nat i)).
Proof. split; [done|simpl; set_solver|done..]. Qed.

(** The contexts are grown when the descriptor is behind their end. *)
Lemma grow_spec i s :
  inv s →
  ∃ s', (if Z.of_nat i <? Z.of_nat (length (ctxs s)) then nth_ctx (Z.of_nat i)
         else _ ← contextResize (Z.to_nat (Z.of_nat i * 3 / 2)); nth_ctx (Z.of_nat i)) s
        = Ok (ctx_at s i) s' ∧
    inv s' ∧ ctxs s' !! i = Some (ctx_at s i) ∧ (∀ j, ctx_at s' j = ctx_at s j) ∧
    pending s' = pending s ∧ queue s' = queue s ∧ same_rest s s' ∧
    kernel (Scheduler.ext s') = kernel (Scheduler.ext s).
Proof.
  intros Hinv. pose proof Hinv as (Hall & Hp & Hlen).
  destruct (Z.ltb_spec (Z.of_nat i) (Z.of_nat (length (ctxs s)))) as [Hlt|Hge].
  - destruct (lookup_lt_is_Some_2 (ctxs s) i) as [c Hc]; [lia|].
    exists s. rewrite (nth_ctx_at i c) by done. unfold ctx_at at 1 2. rewrite Hc. by split_and!.
  - assert (∃ n, Z.to_nat (Z.of_nat i * 3 / 2) = n ∧ (i < n)%nat ∧ (length (ctxs s) ≤ n)%nat) as (n & -> & Hn & Hn').
    { eexists. split; [done|]. pose proof (Z.div_mod (Z.of_nat i * 3) 2 ltac:(lia)).
      pose proof (Z.mod_pos_bound (Z.of_nat i * 3) 2 ltac:(lia)). lia. }
    unfold contextResize, modify_io. unfold_M.
    set (s' := Scheduler.set_ext _ s).
    assert (ctxs s' = ctxs s ++ (new_ctx ∘ Z.of_nat <$> seq (length (ctxs s)) (n - length (ctxs s)))) as Hc.
    { unfold ctxs. subst s'. simpl. by rewrite take_ge by exact Hn'. }
    assert (∀ j, ctxs s' !! j = Some (ctx_at s j) ∨ ctxs s' !! j = None ∧ ctxs s !! j = None) as Hlook.
    { intros j. rewrite Hc, lookup_app. unfold ctx_at.
      destruct (ctxs s !! j) as [d|] eqn:Hj; [by left|]. simpl.
      rewrite list_lookup_fmap. apply lookup_ge_None in Hj.
      destruct (decide (j < n)%nat).
      - left. rewrite lookup_seq_lt by lia. simpl. do 2 f_equal. lia.
      - right. by rewrite lookup_seq_ge by lia. }
    assert (∀ j, ctx_at s' j = ctx_at s j) as Hat.
    { intros j. unfold ctx_at at 1. destruct (Hlook j) as [->|[-> Hn0]]; [done|].
      unfold ctx_at. by rewrite Hn0. }
    assert (ctxs s' !! i = Some (ctx_at s i)) as Hi.
    { destruct (Hlook i) as [?|[H _]]; [done|]. apply lookup_ge_None in H.
      rewrite Hc, length_app, length_fmap, length_seq in H. lia. }
    exists s'. rewrite (nth_ctx_at i (ctx_at s i)) by done. split_and!; try done.
    split_and!.
    + intros j c Hj. destruct (Hlook j) as [E|[E _]]; [|congruence].
      rewrite Hj in E. injection E as ->. unfold ctx_at.
      destruct (ctxs s !! j) eqn:E; [by apply Hall|apply new_ctx_ok].
    + rewrite Hc, events_total_app. change (pending s') with (pending s). rewrite Hp.
      enough (∀ a b, total (new_ctx ∘ Z.of_nat <$> seq a b) = 0) as -> by lia.
      intros a b. revert a. induction b as [|b IH]; intros a; [done|]. cbn [seq fmap list_fmap total].
      by rewrite IH.
    + rewrite Hc, length_app. lia.
Qed.

(** The calling code may register [f], or itself when there is no [f]. *)
Definition caller_ok s (f : option Fiber.script) : Prop :=
  f ≠ None ∨ ∃ p g, Fiber.t_fiber (Scheduler.world s) = Some p ∧
    Fiber.fibers (Scheduler.world s) !! p = Some g ∧ Fiber.m_state g = Fiber.EXEC.

Definition new_slot s (f : option Fiber.script) : EventContext :=
  match f with
  | Some g => mk_event true None (Some g)
  | None => mk_event true (Fiber.t_fiber (Scheduler.world s)) None
  end.

Definition added c (e : Z) (x : EventContext) : FdContext :=
  setContext (set_events (Z.lor (events c) e) c) e x.

Lemma added_ok i c e x :
  ctx_ok i c → is_event e → registered c e = false → slot_ok true x →
  ctx_ok i (added c e x) ∧ count (added c e x) = count c + 1.
Proof.
  intros [H1 H2 H3 H4] He Hr Hx.
  assert (events c = 0 ∨ events c = 1 ∨ events c = 4 ∨ events c = 5) as Hev by set_solver.
  unfold registered, count, added, setContext, is_event in *. unfold registered in *.
  unfold READ, WRITE in *.
  destruct Hev as [E|[E|[E|E]]], He as [->| ->]; simpl in *; rewrite E in *; simpl in *; try done;
    (split; [split; simpl; rewrite ?E; simpl; try done; set_solver|done]).
Qed.

Lemma getThis_exec s p g :
  Fiber.t_fiber (Scheduler.world s) = Some p → Fiber.fibers (Scheduler.world s) !! p = Some g →
  (∀ n, Scheduler.fib (X := io K W) (Fiber.GetThis n) s = Ok p s) ∧
  Scheduler.fib (X := io K W) (Fiber.getState p) s = Ok (Fiber.m_state g) s.
Proof.
  intros Hp Hg. unfold Scheduler.fib, Fiber.GetThis, Fiber.getState, Fiber.deref. unfold_M.
  rewrite Hp, Hg. simpl. by destruct s.
Qed.

(** The state behind a registration. *)
Lemma added_end i e v s s2 s' c :
  inv s2 → ctxs s2 !! i = Some c → is_event e → registered c e = false → slot_ok true v →
  (∀ j, ctx_at s2 j = ctx_at s j) → ctxs s' = <[i := added c e v]> (ctxs s2) → pending s' = pending s2 + 1 →
  inv s' ∧ ctx_at s' i = added c e v ∧ ∀ j, j ≠ i → ctx_at s' j = ctx_at s j.
Proof.
  intros Hinv Hi He Hreg Hv Hat E1 E2. assert (ctx_ok i c) as Hok by by apply Hinv.
  destruct (added_ok i c e v Hok He Hreg Hv) as [Hok' Hcnt]. split_and!.
  - eapply inv_insert; [exact Hinv|exact Hi|exact Hok'|done|lia].
  - unfold ctx_at. rewrite E1, list_lookup_insert_eq; [done|by eapply lookup_lt_Some].
  - intros j Hj. rewrite <-Hat. unfold ctx_at. by rewrite E1, list_lookup_insert_ne.
Qed.

Lemma getContext_free i c e v s :
  ctx_ok i c → is_event e → registered c e = false → getContext (set_events v c) e s = Ok no_event s.
Proof.
  intros Hok He Hreg. destruct (ctx_cases i c e Hok He) as [_ Hs]. rewrite Hreg in Hs.
  destruct He as [->| ->]; unfold slot in Hs; simpl in Hs; unfold getContext; simpl; by rewrite Hs.
Qed.

Lemma new_slot_ok s f : caller_ok s f → slot_ok true (new_slot s f).
Proof.
  intros Hf. split; [by destruct f|]. unfold new_slot. destruct f as [g|]; simpl; [right; eauto|].
  destruct Hf as [?|(p & g & -> & _)]; [done|]. left. eauto.
Qed.

Lemma addEvent_spec i e f s :
  inv s → is_event e → registered (ctx_at s i) e = false → caller_ok s f →
  let ok := ctl_ok s (if events (ctx_at s i) =? NONE then EPOLL_CTL_ADD else EPOLL_CTL_MOD)
    (Z.of_nat i) (Z.lor EPOLLET (Z.lor (events (ctx_at s i)) e)) in
  wp (addEvent (Z.of_nat i) e f true) (λ r s',
    r = (if ok then 0 else -1) ∧ inv s' ∧ same_rest s s' ∧ queue s' = queue s ∧
    pending s' = pending s + Z.b2z ok ∧
    ctx_at s' i = (if ok then added (ctx_at s i) e (new_slot s f) else ctx_at s i) ∧
    ∀ j, j ≠ i → ctx_at s' j = ctx_at s j) s.
Proof.
  intros Hinv He Hreg Hf ok. unfold wp, addEvent, ios. unfold_M. fold (ctxs s).
  destruct (grow_spec i s Hinv) as (s1 & He1 & Hinv1 & Hi1 & Hat1 & Hp1 & Hq1 & Hr1 & Hk1).
  unfold_M. rewrite He1. set (c := ctx_at s i) in *.
  unfold registered in Hreg. apply negb_false_iff in Hreg. rewrite Hreg. unfold assertM. unfold_M.
  destruct (sys_ctl s1 (if events c =? NONE then EPOLL_CTL_ADD else EPOLL_CTL_MOD) (Z.of_nat i)
    (Z.lor EPOLLET (Z.lor (events c) e))) as (s2 & -> & Hc2 & Hp2 & Hq2 & Hr2).
  assert (ctl_ok s1 (if events c =? NONE then EPOLL_CTL_ADD else EPOLL_CTL_MOD) (Z.of_nat i)
    (Z.lor EPOLLET (Z.lor (events c) e)) = ok) as -> by (unfold ok, ctl_ok; by rewrite Hk1).
  assert (same_rest s s2) as Hr02 by by eapply same_rest_trans.
  assert (∀ j, ctx_at s2 j = ctx_at s j) as Hat2 by (intros j; unfold ctx_at at 1; rewrite Hc2; apply Hat1).
  assert (inv s2) as Hinv2.
  { eapply inv_insert; [exact Hinv1|exact Hi1|by apply Hinv1| |lia]. by rewrite Hc2, list_insert_id. }
  assert (ctxs s2 !! i = Some c) as Hi2 by by rewrite Hc2.
  assert (ctx_ok i c) as Hok by by apply Hinv1.
  destruct ok; simpl; [|split_and!; try done; first [congruence|rewrite Hp2, Hp1; lia|by rewrite Hat2]].
  unfold add_pending, store_ctx, modify_io. unfold_M.
  set (c1 := set_events (Z.lor (events c) e) c). set (s3 := Scheduler.set_ext _ (Scheduler.set_ext _ s2)).
  assert (getContext c1 e s3 = Ok no_event s3) as -> by
    (apply (getContext_free i); [done|done|unfold registered; by rewrite Hreg]). simpl.
  pose proof (new_slot_ok s f Hf) as Hslot.
  assert (∀ s', ctxs s' = <[i := added c e (new_slot s f)]> (ctxs s2) → pending s' = pending s + 1 →
    queue s' = queue s → same_rest s s' →
    0 = 0 ∧ inv s' ∧ same_rest s s' ∧ queue s' = queue s ∧ pending s' = pending s + 1 ∧
    ctx_at s' i = added c e (new_slot s f) ∧ ∀ j, j ≠ i → ctx_at s' j = ctx_at s j) as Hend.
  { intros s' E1 E2 E3 E4.
    destruct (added_end i e (new_slot s f) s s2 s' c) as (? & ? & ?);
      first [done|lia|unfold registered; by rewrite Hreg|by split_and!]. }
  assert (Z.of_nat i <? 0 = false) as Hpos by (destruct (Z.ltb_spec (Z.of_nat i) 0); [lia|done]).
  destruct f as [g|].
  - apply Hend; unfold ctxs, pending, queue in *; simpl;
      [by rewrite Nat2Z.id, list_insert_insert_eq|by rewrite Hp2, Hp1|congruence|done].
  - destruct Hf as [?|(p & g & Hp & Hg & Hst)]; [done|].
    assert (Scheduler.world s3 = Scheduler.world s) as Hw by (destruct Hr02; done).
    destruct (getThis_exec s3 p g) as [Hthis _]; [by rewrite Hw..|].
    rewrite Hthis.
    match goal with |- context [Scheduler.fib (Fiber.getState p) ?x] =>
      destruct (getThis_exec x p g) as [_ Hstate];
        [change (Fiber.t_fiber (Scheduler.world s3) = Some p); by rewrite Hw
        |change (Fiber.fibers (Scheduler.world s3) !! p = Some g); by rewrite Hw
        |rewrite Hstate] end.
    rewrite bool_decide_true by done.
    apply Hend; unfold ctxs, pending, queue in *; simpl;
      [|by rewrite Hp2, Hp1|congruence|done].
    rewrite Nat2Z.id, list_insert_insert_eq. unfold new_slot. by rewrite Hp.
Qed.

(** *** Requests on the manager *)
Inductive request :=
| Add (i : nat) (e : Z) (f : option Fiber.script)
| Del (i : nat) (e : Z)
| Cancel (i : nat) (e : Z)
| CancelAll (i : nat)
| Deliver (i : nat) (ev : Z).

Definition exec (r : request) : M st unit :=
  match r with
  | Add i e f => _ ← addEvent (Z.of_nat i) e f true; mret tt
  | Del i e => _ ← delEvent (Z.of_nat i) e; mret tt
  | Cancel i e => _ ← cancelEvent (Z.of_nat i) e; mret tt
  | CancelAll i => _ ← cancelAll (Z.of_nat i); mret tt
  | Deliver i ev => handle_event (Some (Z.of_nat i), ev)
  end.

(** An event is added once and by running code; a report names only registered
    events, or none of them. *)
Definition legal s (r : request) : Prop :=
  match r with
  | Add i e f => is_event e ∧ registered (ctx_at s i) e = false ∧ caller_ok s f
  | Del _ e | Cancel _ e => is_event e
  | CancelAll _ => True
  | Deliver i ev => (i < length (ctxs s))%nat ∧ unmasked s i (ctx_at s i) ev = false
  end.

Definition step s s' : Prop := ∃ r, legal s r ∧ exec r s = Ok tt s'.

Lemma ctx_at_lookup s i : (i < length (ctxs s))%nat → ctxs s !! i = Some (ctx_at s i).
Proof. intros Hi. unfold ctx_at. destruct (lookup_lt_is_Some_2 _ _ Hi) as [c ->]. done. Qed.

(** An operation on a descriptor without a context does nothing. *)
Lemma no_ctx i e s :
  (length (ctxs s) ≤ i)%nat →
  delEvent (Z.of_nat i) e s = Ok false s ∧ cancelEvent (Z.of_nat i) e s = Ok false s ∧
  cancelAll (Z.of_nat i) s = Ok false s.
Proof.
  intros Hi. unfold delEvent, cancelEvent, cancelAll, ios. unfold_M. fold (ctxs s).
  destruct (Z.leb_spec (Z.of_nat (length (ctxs s))) (Z.of_nat i)); [done|lia].
Qed.

Lemma exec_legal s r : inv s → legal s r → wp (exec r) (λ _ s', inv s') s.
Proof.
  intros Hinv Hl. pose proof Hinv as (Hall & Hp & Hlen).
  assert (∀ s' i c c' d, ctxs s !! i = Some c → ctx_ok i c → ctx_ok i c' →
    ctxs s' = <[i := c']> (ctxs s) → count c' = count c - d → pending s' = pending s - d → inv s') as Hfin.
  { intros s' i c c' d Hi Hok Hok' Hc Hcnt Hpd. eapply inv_insert; [exact Hinv|done..|lia]. }
  assert (∀ i c s', ctxs s !! i = Some c → ctxs s' = ctxs s → pending s' = pending s → inv s') as Hid.
  { intros i c s' Hi Hc Hpd. eapply (Hfin s' i c c 0); [done|by apply Hall..| |lia|lia].
    by rewrite Hc, list_insert_id. }
  destruct r as [i e f|i e|i e|i|i ev]; simpl in Hl; unfold exec.
  - destruct Hl as (He & Hr & Hf). apply wp_bind. eapply wp_mono; [by apply addEvent_spec|].
    simpl. intros r s' (_ & Hi & _). done.
  - apply wp_bind. destruct (decide (i < length (ctxs s))%nat) as [Hi|Hi].
    + apply ctx_at_lookup in Hi. eapply wp_mono; [apply delEvent_spec; [done|by apply Hall|done]|].
      intros b s' (-> & _ & _ & Hc & Hpd). unfold wp, mret, M_ret.
      destruct (registered (ctx_at s i) e) eqn:Hr; simpl in *; [|eapply Hid; [done..|lia]].
      destruct (removal_ok _ _ _ _); simpl in *; [|eapply Hid; [done..|lia]].
      destruct (cleared_ok i _ e (Hall _ _ Hi) Hl Hr) as (H1 & H2 & _).
      by eapply Hfin; [|apply Hall| | |exact H2|].
    + unfold wp. by rewrite (proj1 (no_ctx i e s ltac:(lia))).
  - apply wp_bind. destruct (decide (i < length (ctxs s))%nat) as [Hi|Hi].
    + apply ctx_at_lookup in Hi. eapply wp_mono; [apply cancelEvent_spec; [done|by apply Hall|done]|].
      intros b s' (-> & _ & _ & Hc & Hpd). unfold wp, mret, M_ret.
      destruct (registered (ctx_at s i) e) eqn:Hr; simpl in *; [|eapply Hid; [done..|lia]].
      destruct (removal_ok _ _ _ _); simpl in *; [|eapply Hid; [done..|lia]].
      destruct (cleared_ok i _ e (Hall _ _ Hi) Hl Hr) as (H1 & H2 & _).
      by eapply Hfin; [|apply Hall| | |exact H2|].
    + unfold wp. by rewrite (proj1 (proj2 (no_ctx i e s ltac:(lia)))).
  - apply wp_bind. destruct (decide (i < length (ctxs s))%nat) as [Hi|Hi].
    + apply ctx_at_lookup in Hi. eapply wp_mono; [apply cancelAll_spec; [done|by apply Hall]|].
      intros b s' (_ & _ & _ & (c' & Hc & Hok' & Hb) & Hpd). unfold wp, mret, M_ret.
      eapply (Hfin s' i _ c' (if b then count (ctx_at s i) else 0)); [done|by apply Hall|done|done| |done].
      destruct b; [lia|subst; lia].
    + unfold wp. by rewrite (proj2 (proj2 (no_ctx i 0 s ltac:(lia)))).
  - destruct Hl as [Hi Hu]. apply ctx_at_lookup in Hi.
    pose proof (handle_event_spec i _ ev s Hinv Hi) as H. rewrite Hu in H.
    eapply wp_mono; [exact H|]. by intros a s' (? & _).
Qed.

(** C15. In every state the manager can reach by adding, deleting, cancelling and
    delivering events, the number of pending events is the number of registered
    ones, a context holds a task exactly for its registered events, and every
    further legal request runs without fault. *)
Theorem pending_events_accounted s0 s :
  inv s0 → star step s0 s →
  pending s = total (ctxs s) ∧
  (∀ i c e, ctxs s !! i = Some c → is_event e → slot_ok (registered c e) (slot c e)) ∧
  ∀ r, legal s r → ∃ s', exec r s = Ok tt s'.
Proof.
  intros H0 Hstar. assert (inv s) as Hinv.
  { eapply star_invariant; [|exact Hstar|exact H0]. intros a b Ha (r & Hr & He).
    pose proof (exec_legal a r Ha Hr) as H. unfold wp in H. by rewrite He in H. }
  split_and!; [apply Hinv| |].
  - intros i c e Hi He. by eapply ctx_cases; [apply Hinv|].
  - intros r Hr. pose proof (exec_legal s r Hinv Hr) as H. apply wp_ok in H as ([] & s' & He & _). eauto.
Qed.

(** A task registered with addEvent is put into the queue exactly once by
    cancelEvent, and not at all by delEvent; both take the registration back.
    A refusal of epoll_ctl leaves the contexts, the count and the queue alone. *)
Theorem added_event_runs_once i e f s :
  inv s → is_event e → registered (ctx_at s i) e = false → caller_ok s f →
  (∀ op fd ev k, (epoll_ctl op fd ev k).1 = true) →
  wp (r ← addEvent (Z.of_nat i) e f true; b ← cancelEvent (Z.of_nat i) e; mret (r, b))
    (λ rb s', rb = (0, true) ∧ pending s' = pending s ∧
      queue s' = queue s ++ [task_of (new_slot s f)] ∧ registered (ctx_at s' i) e = false) s ∧
  wp (r ← addEvent (Z.of_nat i) e f true; b ← delEvent (Z.of_nat i) e; mret (r, b))
    (λ rb s', rb = (0, true) ∧ pending s' = pending s ∧
      queue s' = queue s ∧ registered (ctx_at s' i) e = false) s.
Proof.
  intros Hinv He Hr Hf Hctl.
  assert (∀ s op j ev, ctl_ok s op j ev = true) as Hok by (intros; apply Hctl).
  assert (wp (addEvent (Z.of_nat i) e f true) (λ r s', r = 0 ∧ inv s' ∧ pending s' = pending s + 1 ∧
    queue s' = queue s ∧ ∃ c, ctxs s' !! i = Some c ∧ slot c e = new_slot s f ∧ registered c e = true) s) as Hadd.
  { eapply wp_mono; [by apply addEvent_spec|]. simpl. intros r s'. rewrite Hok. simpl.
    intros (-> & Hi & _ & Hq & Hp & Hc & _). split_and!; try done.
    assert (i < length (ctxs s'))%nat as Hlt.
    { destruct (decide (i < length (ctxs s'))%nat); [done|]. exfalso.
      unfold ctx_at at 1 in Hc. rewrite (proj2 (lookup_ge_None _ _)) in Hc by lia. simpl in Hc.
      assert (events (new_ctx (Z.of_nat i)) = Z.lor (events (ctx_at s i)) e) as E
        by (rewrite Hc; by destruct He as [->| ->]).
      simpl in E. symmetry in E. apply Z.lor_eq_0_iff in E as [_ E]. by destruct He as [->| ->]. }
    exists (ctx_at s' i). split; [by apply ctx_at_lookup|]. rewrite Hc.
    unfold added, slot, registered, setContext. split; [by destruct He as [->| ->]|].
    apply negb_true_iff, Z.eqb_neq. intros E.
    assert (Z.land e e = 0) as E'; [|rewrite Z.land_diag in E'; by destruct He as [->| ->]].
    destruct He as [->| ->]; simpl in E; rewrite Z.land_lor_distr_l in E;
      by apply Z.lor_eq_0_iff in E as [_ E]. }
  assert (∀ s1 s2 c, inv s1 → ctxs s1 !! i = Some c → registered c e = true →
    ctxs s2 = <[i := cleared c e]> (ctxs s1) → registered (ctx_at s2 i) e = false) as Hend.
  { intros s1 s2 c H1 Hi Hreg Hc. unfold ctx_at. rewrite Hc, list_lookup_insert_eq by (by eapply lookup_lt_Some).
    simpl. by apply (cleared_ok i c e (proj1 H1 _ _ Hi) He Hreg). }
  split.
  - apply wp_bind. eapply wp_mono; [exact Hadd|]. intros r s1 (-> & H1 & Hp & Hq & c & Hc & Hs & Hreg).
    apply wp_bind. eapply wp_mono; [apply (cancelEvent_spec i c e); [done|by apply H1|done]|].
    simpl. unfold removal_ok. rewrite Hreg, Hok. simpl.
    intros b s2 (-> & _ & Hq2 & Hc2 & Hp2). unfold wp, mret, M_ret.
    split_and!; [done|simpl in Hp2; lia|by rewrite Hq2, Hq, Hs|by eapply Hend].
  - apply wp_bind. eapply wp_mono; [exact Hadd|]. intros r s1 (-> & H1 & Hp & Hq & c & Hc & Hs & Hreg).
    apply wp_bind. eapply wp_mono; [apply (delEvent_spec i c e); [done|by apply H1|done]|].
    simpl. unfold removal_ok. rewrite Hreg, Hok. simpl.
    intros b s2 (-> & Hq2 & _ & Hc2 & Hp2). unfold wp, mret, M_ret.
    split_and!; [done|simpl in Hp2; lia|by rewrite Hq2, Hq|by eapply Hend].
Qed.

(** A negative descriptor indexes in front of the vector. *)
Lemma negative_descriptor (z : Z) e f b s :
  z < 0 → addEvent z e f b s = Fault OutOfBounds ∧ delEvent z e s = Fault OutOfBounds ∧
  cancelAll z s = Fault OutOfBounds.
Proof.
  intros Hz. unfold addEvent, delEvent, cancelAll, nth_ctx, ios. unfold_M.
  destruct (Z.ltb_spec z (Z.of_nat (length (m_fdContexts (Scheduler.ext s))))); [|lia].
  destruct (Z.leb_spec (Z.of_nat (length (m_fdContexts (Scheduler.ext s)))) z); [lia|].
  by destruct (Z.ltb_spec z 0); [|lia].
Qed.
End props.

(** The waiting time handed to epoll_wait is the time to the next timer as a
    32-bit int, at most three seconds, and it does not change when the wait is
    interrupted and repeated; it is negative, which waits without limit, when
    bit 31 of the time is set. *)
Theorem wait_time_bounds (next_timeout : Z) :
  in_uint 64 next_timeout →
  let w := sint 32 (clamp_timeout next_timeout) in
  clamp_timeout (clamp_timeout next_timeout) = clamp_timeout next_timeout ∧
  w = (if next_timeout =? Timer.no_timer then 3000 else Z.min 3000 (sint 32 next_timeout)) ∧
  (w < 0 ↔ next_timeout ≠ Timer.no_timer ∧ 2 ^ 31 ≤ next_timeout `mod` 2 ^ 32).
Proof.
  intros Ht. cbv zeta. unfold clamp_timeout, MAX_TIMEOUT.
  assert (sint 32 3000 = 3000) as H3 by reflexivity.
  pose proof (Z.mod_pos_bound next_timeout (2 ^ 32) ltac:(lia)) as Hm.
  assert (sint 32 next_timeout = next_timeout `mod` 2 ^ 32 ∧ next_timeout `mod` 2 ^ 32 < 2 ^ 31 ∨
    sint 32 next_timeout = next_timeout `mod` 2 ^ 32 - 2 ^ 32 ∧ 2 ^ 31 ≤ next_timeout `mod` 2 ^ 32) as Hs.
  { rewrite <-(sint_uint 32) by lia. unfold uint. set (r := next_timeout `mod` 2 ^ 32) in *. clearbody r.
    destruct (Z.lt_ge_cases r (2 ^ 31)).
    - left. split; [|done]. apply sint_id; [lia|]. unfold in_sint. lia.
    - right. split; [|done]. unfold sint.
      rewrite <-(Z.mod_unique (r + 2 ^ (32 - 1)) (2 ^ 32) 1 (r + 2 ^ 31 - 2 ^ 32)); lia. }
  destruct (Z.eqb_spec next_timeout Timer.no_timer) as [->|Hne].
  { change (3000 =? Timer.no_timer) with false. rewrite H3. simpl. split_and!; try done; lia. }
  destruct (Z.ltb_spec 3000 (sint 32 next_timeout)) as [Hlt|Hle].
  - change (3000 =? Timer.no_timer) with false. rewrite H3. simpl. split_and!; try done; lia.
  - replace (next_timeout =? Timer.no_timer) with false by lia.
    replace (3000 <? sint 32 next_timeout) with false by lia. split_and!; try done; lia.
Qed.

Lemma wait_time_bounds_witness :
  sint 32 (clamp_timeout (2 ^ 31)) = - 2 ^ 31 ∧ sint 32 (clamp_timeout 100000) = 3000.
Proof.
  assert (in_uint 64 (2 ^ 31)) as H1 by (unfold in_uint; lia).
  assert (in_uint 64 100000) as H2 by (unfold in_uint; lia).
  destruct (wait_time_bounds _ H1) as (_ & -> & _). destruct (wait_time_bounds _ H2) as (_ & -> & _).
  split; reflexivity.
Defined.

(** A kernel that always succeeds, and a manager with four contexts: the
    descriptor 2 waits for input. *)
Definition always (op : ctl) (fd ev : Z) (k : unit) : bool * unit := (true, k).
Definition pipe_always (k : unit) : bool * unit := (true, k).
Lemma pipe_always_ok (k : unit) : (pipe_always k).1 = true.
Proof. done. Qed.

Definition waiting_ctx : FdContext := mk_ctx (mk_event true None (Some [])) no_event READ 2.
Definition example_io : io unit unit :=
  mk_io tt (Timer.new 0) [new_ctx 0; new_ctx 1; waiting_ctx; new_ctx 3] 1.
Definition example_manager : t unit unit :=
  Scheduler.mk (Fiber.mk ∅ 0 0 ∅ None None None) 50 [] [] [] 1 0 0 false false (-1) None 0 example_io.

Lemma example_inv : inv example_manager.
Proof.
  split_and!; [|done|simpl; lia].
  intros i c Hi. destruct i as [|[|[|[|i]]]]; simplify_eq/=; try (split; [done|simpl; set_solver|done..]).
  split; [done|simpl; set_solver| |done]. split; [done|right; eauto].
Qed.


Lemma pending_events_accounted_witness :
  ∃ s, star (step always pipe_always) example_manager s ∧ pending s = total (ctxs s).
Proof.
  assert (is_event WRITE) as Hw by by right.
  assert (caller_ok example_manager (Some [])) as Hc by by left.
  assert (legal always example_manager (Add 2 WRITE (Some []))) as Hl by (split_and!; done).
  destruct (pending_events_accounted always pipe_always pipe_always_ok example_manager
    example_manager example_inv (star_refl _ _)) as (_ & _ & Hrun).
  destruct (Hrun _ Hl) as [s' He]. exists s'.
  assert (star (step always pipe_always) example_manager s') as Hs
    by (apply star_one; by exists (Add 2 WRITE (Some []))).
  split; [exact Hs|].
  by apply (pending_events_accounted always pipe_always pipe_always_ok example_manager s' example_inv Hs).
Defined.

Lemma added_event_runs_once_witness :
  wp (r ← addEvent always 40 READ (Some [Fiber.DoThrow]) true;
      b ← cancelEvent always pipe_always 40 READ; mret (r, b))
    (λ rb s', rb = (0, true) ∧ queue s' = [Scheduler.mk_task None (Some [Fiber.DoThrow]) (-1)])
    example_manager.
Proof.
  assert (is_event READ) as He by by left.
  assert (caller_ok example_manager (Some [Fiber.DoThrow])) as Hc by by left.
  destruct (added_event_runs_once always pipe_always pipe_always_ok 40 READ (Some [Fiber.DoThrow])
    example_manager example_inv He eq_refl Hc (λ _ _ _ _, eq_refl)) as [H _].
  eapply wp_mono; [exact H|]. intros rb s' (H1 & _ & H2 & _). by split.
Defined.
