(* ===== verification/Waiting.v ===== *)
(** A hooked call that waits, over the IO manager itself: the part of [do_io]
    ([hook.cc]) from the label [retry] on.

    [Hook] has the whole of [do_io], with what the IO manager does for it as an
    interface. Here the IO manager is that of [IOManager]: the call leaves its
    condition timer, its event and its fiber there, gives up the processor, and
    is resumed when a thread takes its fiber out of the scheduler's queue. What
    runs in between is any sequence of other operations on the manager. The
    objects of [timer_cond] live at addresses; one that has no owner any more is
    not in the table. The body of the timer's callback is [on_timeout]; the
    scheduler sees a function that returns without switching. *)
From stdpp Require Import base list gmap numbers option.
From Stdlib Require Import ZArith Lia.
From S2P Require Import Prelude Fiber Scheduler Timer IOManager.

Module Waiting.
Local Open Scope Z_scope.

Definition EINTR : Z := 4.
Definition EAGAIN : Z := 11.
Definition ETIMEDOUT : Z := 110.
(** [(uint64_t)-1]. *)
Definition no_timeout : Z := 2 ^ 64 - 1.

Section waiting.
Context {K : Type}.
Variable epoll_ctl : IOManager.ctl → Z → Z → K → bool * K.
Variable pipe_write : K → bool * K.
Variable GetCurrentMS : K → Z * K.

(** The IO manager, the [cancelled] field of each [timer_cond], and [errno]. *)
Record t := mk {
  iom : IOManager.t K Z;
  conds : gmap Z Z;
  errno : Z
}.
Definition set_iom v s := mk v (conds s) (errno s).
Definition set_conds v s := mk (iom s) v (errno s).
Definition set_errno v s := mk (iom s) (conds s) v.

Definition on_iom {A} (m : M (IOManager.t K Z) A) : M t A := λ s,
  match m (iom s) with
  | Ok a x => Ok a (set_iom x s)
  | Exn e x => Exn e (set_iom x s)
  | Fault f => Fault f
  end.

(** [std::shared_ptr<timer_cond> tcond(new timer_cond)]. *)
Definition new_cond (p : Z) : M t unit := modify (λ s, set_conds (<[p := 0]> (conds s)) s).

(** The timer's callback: the condition is locked, marked, and the event
    cancelled. *)
Definition on_timeout (wcond fd event : Z) : M t unit :=
  c ← gets (λ s, conds s !! wcond);
  match c with
  | None => mret tt
  | Some cancelled =>
      if negb (cancelled =? 0) then mret tt
      else
        _ ← modify (λ s, set_conds (<[wcond := ETIMEDOUT]> (conds s)) s);
        _ ← on_iom (IOManager.cancelEvent epoll_ctl pipe_write fd event);
        mret tt
  end.

(** An original function: its value and, when that is [-1], its [errno]. *)
Definition syscall : Type := K → Z * Z * K.

Definition call (func : syscall) : M t Z :=
  r ← on_iom (IOManager.sys (λ k, let '(n, e, k') := func k in ((n, e), k')));
  let '(n, e) := r in
  _ ← (if n =? -1 then modify (set_errno e) else mret tt);
  mret n.

Fixpoint call_uninterrupted (fuel : nat) (func : syscall) : M t Z :=
  match fuel with
  | O => faultM FuelExhausted
  | S fuel' =>
      n ← call func;
      e ← gets errno;
      if (n =? -1) && (e =? EINTR) then call_uninterrupted fuel' func else mret n
  end.

(** [iom->addCondTimer(to, callback, wcond)]: the new timer is at [p]. *)
Definition addCondTimer (p to wcond : Z) : M t unit :=
  now ← on_iom (IOManager.sys GetCurrentMS);
  _ ← on_iom (IOManager.timer_op pipe_write (Timer.addCondTimer (F := Fiber.script) p to [] wcond false now));
  mret tt.

(** [if(timer) timer->cancel()]. *)
Definition cancel_timer (timer : option Z) : M t unit :=
  match timer with
  | Some p => _ ← on_iom (IOManager.tim (Timer.cancel p)); mret tt
  | None => mret tt
  end.

(** How a run of the call's code ends. *)
Inductive progress :=
| Returned (n : Z)
| Switched (timer : option Z).

(** From [retry] to the return or to the switch; [p] is where a new timer would
    be, [k] what is left of the fiber's code. *)
Definition attempt (fuel : nat) (func : syscall) (fd event to tcond p : Z) (k : Fiber.context)
    : M t progress :=
  n ← call_uninterrupted fuel func;
  e ← gets errno;
  if (n =? -1) && (e =? EAGAIN) then
    let timer := if to =? no_timeout then None else Some p in
    _ ← (match timer with Some _ => addCondTimer p to tcond | None => mret tt end);
    ret ← on_iom (IOManager.addEvent epoll_ctl fd event None true);
    if negb (ret =? 0) then _ ← cancel_timer timer; mret (Returned (-1))
    else
      fresh ← gets (λ s, Scheduler.next_addr (iom s));
      _ ← on_iom (Scheduler.fib (Fiber.YieldToHold fresh k));
      mret (Switched timer)
  else mret (Returned n).

(** Behind the switch: the value returned, or [None] for [goto retry]. *)
Definition resumed (timer : option Z) (tcond : Z) : M t (option Z) :=
  _ ← cancel_timer timer;
  s ← get;
  cancelled ← derefM (conds s !! tcond);
  if negb (cancelled =? 0) then
    _ ← modify (set_errno cancelled); mret (Some (-1))
  else mret None.
End waiting.
Arguments t : clear implicits.
End Waiting.
