(* ===== verification/WaitingProps.v ===== *)
(** A call that waits in [Waiting] is woken once, whatever the rest of the program
    does with the IO manager, its timers and the queue in the meantime.

    Module [WaitingPlaces] has the law behind it: what waits for an event is in
    exactly one place - the slot of its event or the scheduler's queue - until a
    thread takes it. Module [WaitingProps] follows a call. *)
From stdpp Require Import base list gmap numbers option.
From Stdlib Require Import ZArith Lia.
From S2P Require Import Prelude Fiber Scheduler Timer TimerFacts TimerRun TimerProps IOManager IOManagerProps Waiting.
Import IOManager.
Local Open Scope Z_scope.

Module WaitingPlaces.

(** *** Sums over lists *)
Fixpoint sumZ {A} (f : A → Z) (l : list A) : Z :=
  match l with [] => 0 | x :: l' => f x + sumZ f l' end.

Lemma sumZ_app {A} (f : A → Z) l1 l2 : sumZ f (l1 ++ l2) = sumZ f l1 + sumZ f l2.
Proof. induction l1; cbn [sumZ app]; lia. Qed.

Lemma sumZ_insert {A} (f : A → Z) l i c c' :
  l !! i = Some c → sumZ f (<[i := c']> l) = sumZ f l + f c' - f c.
Proof.
  revert i; induction l as [|d l IH]; intros [|i] Hi; [done..| |].
  - injection Hi as ->. change (<[0%nat := c']> (c :: l)) with (c' :: l). cbn [sumZ]. lia.
  - change (<[S i := c']> (d :: l)) with (d :: <[i := c']> l). cbn [sumZ]. rewrite (IH i Hi). lia.
Qed.

Lemma sumZ_zero {A} (f : A → Z) l : (∀ x, x ∈ l → f x = 0) → sumZ f l = 0.
Proof.
  induction l as [|x l IH]; intros H; [done|]. cbn [sumZ]. rewrite (H x) by left.
  rewrite IH; [done|]. intros y Hy. apply H. by right.
Qed.

(** A list as a function with a default of no weight. *)
Lemma sumZ_default {A} (f : A → Z) (d : nat → A) l n :
  (∀ j, f (d j) = 0) → (length l ≤ n)%nat →
  sumZ f l = sumZ (λ j, f (default (d j) (l !! j))) (seq 0 n).
Proof.
  intros Hd. revert n d Hd. induction l as [|x l IH]; intros n d Hd Hn.
  - symmetry. apply sumZ_zero. intros j _. cbn. apply Hd.
  - destruct n as [|n]; [cbn in Hn; lia|]. cbn [seq sumZ]. cbn [lookup list_lookup default].
    rewrite (IH n (d ∘ S)); [|intros j; apply Hd|cbn in Hn; lia].
    f_equal. rewrite <-(fmap_S_seq 0 n). generalize (seq 0 n). intros k.
    induction k as [|j k IHk]; [done|]. cbn [fmap list_fmap sumZ]. by rewrite IHk.
Qed.

Lemma sumZ_ext {A} (f g : A → Z) l : (∀ x, x ∈ l → f x = g x) → sumZ f l = sumZ g l.
Proof.
  induction l as [|x l IH]; intros H; [done|]. cbn [sumZ]. rewrite (H x) by left.
  rewrite IH; [done|]. intros y Hy. apply H. by right.
Qed.

(** Functions that differ at one point. *)
Lemma sumZ_point (f g : nat → Z) i n : (i < n)%nat → (∀ j, j ≠ i → f j = g j) →
  sumZ f (seq 0 n) = sumZ g (seq 0 n) + f i - g i.
Proof.
  intros Hi Hne. rewrite <-(take_drop i (seq 0 n)).
  assert (drop i (seq 0 n) = i :: seq (S i) (n - S i)) as ->.
  { rewrite drop_seq. destruct (n - i)%nat eqn:E; [lia|]. cbn. do 2 f_equal. lia. }
  rewrite !sumZ_app. cbn [sumZ].
  rewrite (sumZ_ext f g (take i _)), (sumZ_ext f g (seq (S i) _)); [lia| |].
  - intros j Hj%elem_of_seq. apply Hne. lia.
  - intros j Hj. apply Hne. intros ->. rewrite take_seq in Hj. apply elem_of_seq in Hj. lia.
Qed.

Section conserved.
Context {K : Type}.
Variable epoll_ctl : ctl → Z → Z → K → bool * K.
Variable pipe_write : K → bool * K.
Hypothesis pipe_ok : ∀ k, (pipe_write k).1 = true.
Abbreviation st := (IOManager.t K Z).
Implicit Types (s : st) (c : FdContext).
Abbreviation ctxs := (IOManagerProps.ctxs (K := K) (W := Z)).
Abbreviation queue := (IOManagerProps.queue (K := K) (W := Z)).
Abbreviation inv := (IOManagerProps.inv (K := K) (W := Z)).

(** *** Where a fiber is *)
Definition is_fiber (p : Z) (o : option Z) : Z := Z.b2z (bool_decide (o = Some p)).
Definition in_ctx (p : Z) c : Z := is_fiber p (fiber (read c)) + is_fiber p (fiber (write c)).
Definition in_queue (p : Z) (tk : Scheduler.FiberAndThread) : Z := is_fiber p (Scheduler.fiber tk).

(** The number of slots and of tasks that hold the fiber. *)
Definition places (p : Z) s : Z := sumZ (in_ctx p) (ctxs s) + sumZ (in_queue p) (queue s).

Lemma is_fiber_none p : is_fiber p None = 0.
Proof. done. Qed.
Lemma is_fiber_ne p o : o ≠ Some p → is_fiber p o = 0.
Proof. intros H. unfold is_fiber. by rewrite bool_decide_false. Qed.
Lemma is_fiber_self p : is_fiber p (Some p) = 1.
Proof. unfold is_fiber. by rewrite bool_decide_true. Qed.
Lemma is_fiber_pos p o : 0 ≤ is_fiber p o.
Proof. unfold is_fiber. destruct (bool_decide _); simpl; lia. Qed.

Lemma free_slot p e : slot_ok false e → is_fiber p (fiber e) = 0.
Proof. intros ->. apply is_fiber_none. Qed.

Lemma task_place p e : slot_ok true e → in_queue p (task_of e) = is_fiber p (fiber e).
Proof.
  unfold in_queue, task_of. intros [_ [[_ ->]|[-> [f ->]]]]; done.
Qed.

Lemma unregistered_place p i c e :
  ctx_ok i c → is_event e → registered c e = false → is_fiber p (fiber (slot c e)) = 0.
Proof.
  intros Hok He Hr. destruct (ctx_cases (K := K) (W := Z) i c e Hok He) as [_ H].
  rewrite Hr in H. by apply free_slot.
Qed.

Lemma cleared_place p c e : is_event e →
  in_ctx p (cleared c e) = in_ctx p c - is_fiber p (fiber (slot c e)).
Proof. unfold in_ctx. intros [->| ->]; cbn; rewrite is_fiber_none; lia. Qed.

Lemma added_place p c e x : is_event e →
  in_ctx p (added c e x) = in_ctx p c - is_fiber p (fiber (slot c e)) + is_fiber p (fiber x).
Proof. unfold in_ctx. intros [->| ->]; cbn; lia. Qed.

Lemma registered_place p i c e :
  ctx_ok i c → is_event e → registered c e = true →
  in_queue p (task_of (slot c e)) = is_fiber p (fiber (slot c e)).
Proof.
  intros Hok He Hr. destruct (ctx_cases (K := K) (W := Z) i c e Hok He) as [_ H].
  rewrite Hr in H. by apply task_place.
Qed.

(** The tasks of the events in [re] take what the slots held. *)
Lemma tasks_place p i c re : ctx_ok i c →
  sumZ (in_queue p) (tasks c re) =
    (if Z.land re READ =? 0 then 0 else is_fiber p (fiber (read c))) +
    (if Z.land re WRITE =? 0 then 0 else is_fiber p (fiber (write c))).
Proof.
  intros Hok.
  assert (∀ e, is_event e →
    sumZ (in_queue p) (if registered c e && negb (Z.land re e =? 0) then [task_of (slot c e)] else []) =
    if Z.land re e =? 0 then 0 else is_fiber p (fiber (slot c e))) as H.
  { intros e He. destruct (Z.land re e =? 0); [by rewrite andb_false_r|]. rewrite andb_true_r.
    destruct (registered c e) eqn:Hr; cbn [sumZ].
    - rewrite (registered_place p i) by done. lia.
    - by rewrite (unregistered_place p i). }
  unfold tasks. rewrite sumZ_app. exact (f_equal2 Z.add (H READ (or_introl eq_refl)) (H WRITE (or_intror eq_refl))).
Qed.

(** *** Counting after a change of one context *)
Lemma places_insert p s s' i c c' tks :
  ctxs s !! i = Some c → ctxs s' = <[i := c']> (ctxs s) → queue s' = queue s ++ tks →
  places p s' = places p s + in_ctx p c' - in_ctx p c + sumZ (in_queue p) tks.
Proof.
  intros Hi Hc Hq. unfold places. rewrite Hc, Hq, sumZ_app, (sumZ_insert _ _ i c) by done. lia.
Qed.

Lemma places_same p s s' : ctxs s' = ctxs s → queue s' = queue s → places p s' = places p s.
Proof. intros Hc Hq. unfold places. by rewrite Hc, Hq. Qed.

Lemma places_at p s s' i :
  (∀ j, j ≠ i → ctx_at s' j = ctx_at s j) → queue s' = queue s →
  places p s' = places p s + in_ctx p (ctx_at s' i) - in_ctx p (ctx_at s i).
Proof.
  intros Hne Hq. unfold places. rewrite Hq.
  set (n := S (i + length (ctxs s) + length (ctxs s'))).
  rewrite (sumZ_default (in_ctx p) (λ j, new_ctx (Z.of_nat j)) (ctxs s') n) by (try done; lia).
  rewrite (sumZ_default (in_ctx p) (λ j, new_ctx (Z.of_nat j)) (ctxs s) n) by (try done; lia).
  rewrite (sumZ_point _ (λ j, in_ctx p (ctx_at s j)) i n); [|lia|].
  - unfold ctx_at at 1 2 3. unfold ctx_at. lia.
  - intros j Hj. fold (ctx_at s' j). by rewrite Hne.
Qed.

(** *** Requests by others *)

(** The request is not the fiber's own, and does not take its event back. *)
Definition quiet (p : Z) s (r : request) : Prop :=
  match r with
  | Add _ _ None => Fiber.t_fiber (Scheduler.world s) ≠ Some p
  | Del i e => fiber (slot (ctx_at s i) e) ≠ Some p
  | _ => True
  end.

(** What a request keeps. *)
Definition preserved (p : Z) s s' : Prop :=
  places p s' = places p s ∧ timers (Scheduler.ext s') = timers (Scheduler.ext s).

Lemma preserved_refl p s : preserved p s s.
Proof. done. Qed.

Lemma add_places p i e f s :
  inv s → is_event e → registered (ctx_at s i) e = false → caller_ok s f →
  wp (addEvent (W := Z) epoll_ctl (Z.of_nat i) e f true) (λ r s',
    inv s' ∧ same_rest s s' ∧
    (r = 0 ∧ places p s' = places p s + is_fiber p (fiber (new_slot s f)) ∨
     r = -1 ∧ places p s' = places p s)) s.
Proof.
  intros Hinv He Hr Hf.
  eapply wp_mono; [exact (addEvent_spec epoll_ctl pipe_write pipe_ok i e f s Hinv He Hr Hf)|]. cbv zeta.
  intros r s' (-> & Hi & Hrest & Hq & _ & Hc & Hne). split_and!; [done|done|].
  rewrite (places_at p s s' i Hne Hq), Hc.
  destruct (ctl_ok _ _ _ _ _); [left|right]; (split; [done|]); [|lia].
  assert (ctx_ok i (ctx_at s i)) as Hok.
  { unfold ctx_at. destruct (ctxs s !! i) eqn:E; [by apply Hinv|exact (new_ctx_ok pipe_write pipe_ok i)]. }
  rewrite added_place, (unregistered_place p i) by done. lia.
Qed.

Lemma cancel_places p i e s :
  inv s → is_event e →
  wp (cancelEvent (W := Z) epoll_ctl pipe_write (Z.of_nat i) e) (λ b s', preserved p s s' ∧
    (b = true → fiber (slot (ctx_at s i) e) = Some p → Scheduler.mk_task (Some p) None (-1) ∈ queue s') ∧
    b = registered (ctx_at s i) e && removal_ok epoll_ctl s i (ctx_at s i) e) s.
Proof.
  intros Hinv He. destruct (decide (i < length (ctxs s))%nat) as [Hi|Hi].
  - apply ctx_at_lookup in Hi. assert (ctx_ok i (ctx_at s i)) as Hok by by apply Hinv.
    eapply wp_mono; [exact (cancelEvent_spec epoll_ctl pipe_write pipe_ok i _ e s Hi Hok He)|].
    intros b s' (Hb & (_ & _ & Ht & _) & Hq & Hc & _).
    destruct (registered (ctx_at s i) e) eqn:Hr; simpl in Hb.
    + destruct b; [|split; [split; [by apply places_same|done]|by split]].
      split; [split; [|done]|split; [|done]].
      * rewrite (places_insert p s s' i (ctx_at s i) _ _ Hi Hc Hq), cleared_place by done.
        cbn [sumZ]. rewrite (registered_place p i) by done. lia.
      * intros _ Hp. rewrite Hq. apply elem_of_app. right. apply list_elem_of_singleton.
        destruct (ctx_cases (K := K) (W := Z) i _ e Hok He) as [_ Hs]. rewrite Hr in Hs.
        unfold task_of. destruct Hs as [_ [[_ ->]|[Hn _]]]; [by rewrite Hp|congruence].
    + subst b. split; [split; [by apply places_same|done]|done].
  - destruct (no_ctx epoll_ctl pipe_write i e s ltac:(lia)) as (_ & E & _).
    unfold wp. rewrite E. split; [done|]. split; [done|].
    unfold ctx_at. rewrite lookup_ge_None_2 by lia. cbn. unfold registered. cbn. by rewrite Z.land_0_l.
Qed.

Lemma del_places p i e s :
  inv s → is_event e → fiber (slot (ctx_at s i) e) ≠ Some p →
  wp (delEvent (W := Z) epoll_ctl (Z.of_nat i) e) (λ _ s', preserved p s s') s.
Proof.
  intros Hinv He Hp. destruct (decide (i < length (ctxs s))%nat) as [Hi|Hi].
  - apply ctx_at_lookup in Hi. assert (ctx_ok i (ctx_at s i)) as Hok by by apply Hinv.
    eapply wp_mono; [exact (delEvent_spec epoll_ctl i _ e s Hi Hok He)|].
    intros b s' (Hb & Hq & (_ & _ & Ht & _) & Hc & _). split; [|done].
    destruct b; [|by apply places_same]. rewrite <-(app_nil_r (queue s)) in Hq.
    rewrite (places_insert p s s' i (ctx_at s i) _ _ Hi Hc Hq), cleared_place by done.
    rewrite (is_fiber_ne p _ Hp). cbn [sumZ]. lia.
  - destruct (no_ctx epoll_ctl pipe_write i e s ltac:(lia)) as (E & _).
    unfold wp. by rewrite E.
Qed.

Lemma empty_place p i c : ctx_ok i c → count c = 0 → in_ctx p c = 0.
Proof.
  intros Hok Hc. unfold count in Hc.
  assert (registered c READ = false ∧ registered c WRITE = false) as [Hr Hw]
    by (destruct (registered c READ), (registered c WRITE); simpl in Hc; first [discriminate Hc|done]).
  unfold in_ctx. pose proof (unregistered_place p i c READ Hok (or_introl eq_refl) Hr) as E1.
  pose proof (unregistered_place p i c WRITE Hok (or_intror eq_refl) Hw) as E2.
  change (slot c READ) with (read c) in E1. change (slot c WRITE) with (write c) in E2. lia.
Qed.

Lemma cancelAll_places p i s :
  inv s → wp (cancelAll (W := Z) epoll_ctl pipe_write (Z.of_nat i)) (λ _ s', preserved p s s') s.
Proof.
  intros Hinv. destruct (decide (i < length (ctxs s))%nat) as [Hi|Hi].
  - apply ctx_at_lookup in Hi. assert (ctx_ok i (ctx_at s i)) as Hok by by apply Hinv.
    eapply wp_mono; [exact (cancelAll_spec epoll_ctl pipe_write pipe_ok i _ s Hi Hok)|].
    intros b s' (_ & (_ & _ & Ht & _) & Hq & (c' & Hc & Hok' & Hb) & _). split; [|done].
    destruct b.
    + rewrite (places_insert p s s' i (ctx_at s i) _ _ Hi Hc Hq), (empty_place p i c') by done.
      rewrite (tasks_place p i) by done. unfold in_ctx.
      change (Z.land 5 READ =? 0) with false. change (Z.land 5 WRITE =? 0) with false. cbv iota. lia.
    + subst c'. apply places_same; [|done]. by rewrite Hc, list_insert_id.
  - destruct (no_ctx epoll_ctl pipe_write i 0 s ltac:(lia)) as (_ & _ & E).
    unfold wp. by rewrite E.
Qed.

Lemma deliver_places p i ev s :
  inv s → (i < length (ctxs s))%nat → unmasked epoll_ctl s i (ctx_at s i) ev = false →
  wp (handle_event (W := Z) epoll_ctl pipe_write (Some (Z.of_nat i), ev)) (λ _ s', preserved p s s') s.
Proof.
  intros Hinv Hi Hu. apply ctx_at_lookup in Hi.
  assert (ctx_ok i (ctx_at s i)) as Hok by by apply Hinv.
  pose proof (handle_event_spec epoll_ctl pipe_write pipe_ok i _ ev s Hinv Hi) as H. rewrite Hu in H.
  eapply wp_mono; [exact H|].
  intros _ s' (Hinv' & (_ & _ & Ht & _) & [[Hc Hq]|(Hsub & Hq & Hev & Hne & Hkeep)]); (split; [|done]);
    [by apply places_same|].
  destruct (ctxs s' !! i) as [c'|] eqn:Hi'; [|discriminate Hev]. injection Hev as Hev.
  assert (ctx_ok i c') as Hok' by by apply Hinv'.
  assert (ctxs s' = <[i := c']> (ctxs s)) as Hc.
  { apply list_eq. intros j. destruct (decide (j = i)) as [->|Hj].
    - by rewrite list_lookup_insert_eq by (by eapply lookup_lt_Some).
    - by rewrite list_lookup_insert_ne, Hne. }
  rewrite (places_insert p s s' i _ c' _ Hi Hc Hq), (tasks_place p i) by done.
  set (re := real_events ev) in *.
  assert (∀ e, is_event e → is_fiber p (fiber (slot c' e)) +
    (if Z.land re e =? 0 then 0 else is_fiber p (fiber (slot (ctx_at s i) e))) =
    is_fiber p (fiber (slot (ctx_at s i) e))) as Hone.
  { intros e He. destruct (Z.eqb_spec (Z.land re e) 0) as [Hz|Hz].
    - rewrite (Hkeep c' e eq_refl He Hz). lia.
    - rewrite (unregistered_place p i c' e Hok' He); [lia|].
      unfold registered. rewrite Hev. apply negb_false_iff, Z.eqb_eq.
      pose proof (real_events_cases ev) as Hre. fold re in Hre.
      pose proof (ok_events _ _ Hok) as Hev0.
      assert (events (ctx_at s i) = 0 ∨ events (ctx_at s i) = 1 ∨
        events (ctx_at s i) = 4 ∨ events (ctx_at s i) = 5) as Hevs by set_solver.
      clearbody re. destruct Hevs as [E|[E|[E|E]]], Hre as [E'|[E'|[E'|E']]], He as [->| ->];
        rewrite E, E' in *; done. }
  pose proof (Hone READ (or_introl eq_refl)) as H1. pose proof (Hone WRITE (or_intror eq_refl)) as H2.
  unfold in_ctx. change (slot c' READ) with (read c') in H1. change (slot c' WRITE) with (write c') in H2.
  change (slot (ctx_at s i) READ) with (read (ctx_at s i)) in H1.
  change (slot (ctx_at s i) WRITE) with (write (ctx_at s i)) in H2. lia.
Qed.

(** No request of another moves the fiber anywhere but into the queue. *)
Lemma request_keeps p r s :
  inv s → legal epoll_ctl s r → quiet p s r →
  wp (exec epoll_ctl pipe_write r) (λ _ s', inv s' ∧ preserved p s s') s.
Proof.
  intros Hinv Hl Hq. apply wp_and; [exact (exec_legal epoll_ctl pipe_write pipe_ok s r Hinv Hl)|].
  destruct r as [i e f|i e|i e|i|i ev]; cbn [exec legal quiet] in *; [apply wp_bind..|].
  - destruct Hl as (He & Hr & Hf). eapply wp_mono; [exact (add_places p i e f s Hinv He Hr Hf)|].
    intros b s' (_ & (_ & _ & Ht & _) & H). split; [|done].
    destruct H as [[_ ->]|[_ ->]]; [|done]. destruct f; [rewrite is_fiber_none; lia|].
    cbn. rewrite is_fiber_ne by done. lia.
  - eapply wp_mono; [exact (del_places p i e s Hinv Hl Hq)|]. by intros b s'.
  - eapply wp_mono; [exact (cancel_places p i e s Hinv Hl)|]. by intros b s' [? _].
  - eapply wp_mono; [exact (cancelAll_places p i s Hinv)|]. by intros b s'.
  - destruct Hl. by apply deliver_places.
Qed.

End conserved.
End WaitingPlaces.

Module WaitingProps.
Import Waiting WaitingPlaces.

Section waiting.
Context {K : Type}.
Variable epoll_ctl : ctl → Z → Z → K → bool * K.
Variable pipe_write : K → bool * K.
Variable GetCurrentMS : K → Z * K.
Hypothesis pipe_ok : ∀ k, (pipe_write k).1 = true.
Hypothesis clock_ok : ∀ k, in_uint 64 (GetCurrentMS k).1.
Abbreviation io_t := (IOManager.t K Z).
Abbreviation st := (Waiting.t K).
Implicit Types (x y : io_t) (s : st).
Abbreviation ctxs := (IOManagerProps.ctxs (K := K) (W := Z)).
Abbreviation queue := (IOManagerProps.queue (K := K) (W := Z)).
Abbreviation pending := (IOManagerProps.pending (K := K) (W := Z)).
Abbreviation inv := (IOManagerProps.inv (K := K) (W := Z)).
Abbreviation timers_of x := (IOManager.timers (Scheduler.ext x)).
Abbreviation on_timeout := (Waiting.on_timeout epoll_ctl pipe_write).
Abbreviation attempt := (Waiting.attempt epoll_ctl pipe_write GetCurrentMS).

(** *** What the operations leave alone *)
Definition calm x y : Prop :=
  ctxs y = ctxs x ∧ pending y = pending x ∧ queue y = queue x ∧
  Scheduler.world y = Scheduler.world x.

Lemma calm_refl x : calm x x.
Proof. done. Qed.

Lemma calm_trans x y z : calm x y → calm y z → calm x z.
Proof. unfold calm. intros (?&?&?&?) (?&?&?&?). split_and!; congruence. Qed.

Lemma inv_same x y : ctxs y = ctxs x → pending y = pending x → inv x → inv y.
Proof. intros H1 H2. unfold IOManagerProps.inv. by rewrite H1, H2. Qed.

Lemma calm_inv x y : calm x y → inv x → inv y.
Proof. intros (H1 & H2 & _). by apply inv_same. Qed.

Lemma calm_places p x y : calm x y → places p y = places p x.
Proof. intros (H1 & _ & H3 & _). by apply places_same. Qed.

Lemma sys_calm {A} (call : K → A * K) x :
  wp (sys (W := Z) call) (λ a y, a = (call (kernel (Scheduler.ext x))).1 ∧ calm x y ∧ timers_of y = timers_of x) x.
Proof. unfold wp, sys, ios, modify_io. unfold_M. by destruct (call _). Qed.

Lemma tim_calm {A} (m : M (Timer.t Fiber.script Z) A) x a z : m (timers_of x) = Ok a z →
  wp (tim m) (λ b y, b = a ∧ calm x y ∧ timers_of y = z) x.
Proof. intros H. unfold wp, tim, ios, modify_io. unfold_M. rewrite H. done. Qed.

Lemma tickle_calm x : wp (tickle (W := Z) pipe_write) (λ _ y, calm x y ∧ timers_of y = timers_of x) x.
Proof.
  destruct (tickle_ok pipe_write pipe_ok x) as (y & E & H1 & H2 & H3 & (H4 & _ & H5 & _)).
  unfold wp. rewrite E. done.
Qed.

Lemma timer_op_calm {A} (m : M (Timer.t Fiber.script Z) A) x a z : m (timers_of x) = Ok a z →
  wp (timer_op pipe_write m) (λ b y, b = a ∧ calm x y ∧ timers_of y = z) x.
Proof.
  intros H. pose proof (tim_calm m x a z H) as (b & y & E & -> & Hc & Ht)%wp_ok.
  unfold wp, timer_op, ios. unfold_M. rewrite E. destruct (_ =? _)%nat; [done|].
  pose proof (tickle_calm y) as (u & y' & -> & Hc' & Ht')%wp_ok. split; [done|].
  split; [by eapply calm_trans|congruence].
Qed.

(** The tasks that [scheduleNoLock] accepts. *)
Definition nonempty_task (tk : Scheduler.FiberAndThread) : bool :=
  match Scheduler.fiber tk, Scheduler.cb tk with None, None => false | _, _ => true end.

(** All but the queue. *)
Definition queued x y (tks : list Scheduler.FiberAndThread) : Prop :=
  ctxs y = ctxs x ∧ pending y = pending x ∧ timers_of y = timers_of x ∧ queue y = queue x ++ tks.

Lemma scheduleNoLock_queued tk x :
  wp (Scheduler.scheduleNoLock tk) (λ _ y, queued x y (filter (λ t, nonempty_task t = true) [tk])) x.
Proof.
  unfold wp, Scheduler.scheduleNoLock, nonempty_task. unfold_M. rewrite filter_cons, filter_nil.
  destruct (Scheduler.fiber tk) eqn:E1, (Scheduler.cb tk) eqn:E2; cbn; rewrite ?E1, ?E2; unfold queued;
    rewrite ?app_nil_r; done.
Qed.

Lemma queued_trans x y z l1 l2 : queued x y l1 → queued y z l2 → queued x z (l1 ++ l2).
Proof. unfold queued. intros (?&?&?&?) (?&?&?&Hq). split_and!; try congruence. rewrite Hq. rewrite assoc by apply _. congruence. Qed.

Lemma calm_queued x y : calm x y → timers_of y = timers_of x → queued x y [].
Proof. intros (?&?&?&?) ?. unfold queued. by rewrite app_nil_r. Qed.

Lemma maybe_tickle (b : bool) x :
  wp (if b then tickle (W := Z) pipe_write else mret tt) (λ _ y, queued x y []) x.
Proof.
  destruct b; [|by apply calm_queued].
  eapply wp_mono; [apply tickle_calm|]. intros u y [? ?]. by apply calm_queued.
Qed.

Lemma schedule_queued tk x :
  wp (Scheduler.schedule (tickle (W := Z) pipe_write) tk)
    (λ _ y, queued x y (filter (λ t, nonempty_task t = true) [tk])) x.
Proof.
  unfold Scheduler.schedule. apply wp_bind. eapply wp_mono; [apply scheduleNoLock_queued|].
  intros b y Hy. eapply wp_mono; [apply maybe_tickle|]. intros u z Hz.
  rewrite <-(app_nil_r (filter _ _)). exact (queued_trans _ _ _ _ _ Hy Hz).
Qed.

Definition anywhere (tk : Scheduler.FiberAndThread) : Scheduler.FiberAndThread :=
  Scheduler.mk_task (Scheduler.fiber tk) (Scheduler.cb tk) (-1).

Lemma range_loop_queued fcs b x :
  wp (Scheduler.schedule_range_loop fcs b)
    (λ _ y, queued x y (filter (λ t, nonempty_task t = true) (anywhere <$> fcs))) x.
Proof.
  revert b x; induction fcs as [|tk fcs IH]; intros b x; cbn [Scheduler.schedule_range_loop].
  - unfold wp, mret, M_ret, queued. cbn. by rewrite app_nil_r.
  - apply wp_bind. eapply wp_mono; [apply (scheduleNoLock_queued (anywhere tk))|]. intros c y Hy.
    eapply wp_mono; [apply IH|]. intros d z Hz. rewrite fmap_cons.
    change (anywhere tk :: (anywhere <$> fcs)) with ([anywhere tk] ++ (anywhere <$> fcs)).
    rewrite list.filter_app. exact (queued_trans _ _ _ _ _ Hy Hz).
Qed.

Lemma schedule_range_queued fcs x :
  wp (Scheduler.schedule_range (tickle (W := Z) pipe_write) fcs)
    (λ _ y, queued x y (filter (λ t, nonempty_task t = true) (anywhere <$> fcs))) x.
Proof.
  unfold Scheduler.schedule_range. apply wp_bind. eapply wp_mono; [apply range_loop_queued|].
  intros b y Hy. eapply wp_mono; [apply maybe_tickle|]. intros u z Hz.
  rewrite <-(app_nil_r (filter _ _)). exact (queued_trans _ _ _ _ _ Hy Hz).
Qed.

Lemma others_tasks p tks : Forall (λ tk, Scheduler.fiber tk ≠ Some p) tks →
  sumZ (in_queue p) (filter (λ t, nonempty_task t = true) tks) = 0.
Proof.
  intros H. apply sumZ_zero. intros tk [_ Htk]%list_elem_of_filter.
  apply is_fiber_ne. rewrite list.Forall_forall in H. exact (H tk Htk).
Qed.

Lemma queued_places p x y tks : queued x y tks →
  sumZ (in_queue p) tks = 0 → places p y = places p x.
Proof. intros (H1 & _ & _ & H4) Hz. unfold places. rewrite H1, H4, sumZ_app. lia. Qed.

(** *** Taking a task *)
Lemma getState_same p x v y : Scheduler.fib (Fiber.getState p) x = Ok v y → y = x.
Proof.
  unfold Scheduler.fib, Fiber.getState, Fiber.deref. unfold_M.
  destruct (_ !! p); intros H; inversion H. by destruct x.
Qed.

Lemma scan_takes tid q : ∀ b x ft rest tk y,
  Scheduler.scan tid q b x = Ok (ft, rest, tk) y →
  y = x ∧ match ft with
          | Some it => ∃ q1 q2, q = q1 ++ it :: q2 ∧ rest = q1 ++ q2
          | None => rest = q
          end.
Proof.
  induction q as [|it q IH]; intros b x ft rest tk y E; cbn [Scheduler.scan] in E.
  { unfold_M. by injection E as <- <- <- <-. }
  assert (∀ c x', (r ← Scheduler.scan tid q c; let '(ft, rest, tk) := r in mret (ft, it :: rest, tk)) x' =
    Ok (ft, rest, tk) y → y = x' ∧ match ft with
      | Some it0 => ∃ q1 q2, it :: q = q1 ++ it0 :: q2 ∧ rest = q1 ++ q2
      | None => rest = it :: q end) as Hskip.
  { intros c x' E'. unfold_M.
    destruct (Scheduler.scan tid q c x') as [[[ft' rest'] tk'] y'| |] eqn:Es; try discriminate E'.
    apply IH in Es as [-> Hft]. injection E' as <- <- <- <-. split; [done|].
    destruct ft' as [it0|]; [|by rewrite Hft]. destruct Hft as (q1 & q2 & -> & ->).
    by exists (it :: q1), q2. }
  assert (∀ t, Ok (Some it, q, t) x = Ok (ft, rest, tk) y → y = x ∧ match ft with
      | Some it0 => ∃ q1 q2, it :: q = q1 ++ it0 :: q2 ∧ rest = q1 ++ q2
      | None => rest = it :: q end) as Htake.
  { intros t E'. injection E' as <- <- _ <-. split; [done|]. by exists [], q. }
  destruct (negb (Scheduler.threadId it =? -1) && _); [by apply (Hskip true)|].
  destruct (Scheduler.fiber it) as [p|].
  - unfold mbind, M_bind in E.
    destruct (Scheduler.fib (Fiber.getState p) x) as [v x1| |] eqn:Ef; try discriminate E.
    apply getState_same in Ef as ->. destruct (decide (v = Fiber.EXEC)); [by apply (Hskip b)|].
    by eapply Htake.
  - destruct (Scheduler.cb it); [by eapply Htake|discriminate E].
Qed.

Lemma dequeue_takes tid x ft tk y : Scheduler.dequeue tid x = Ok (ft, tk) y →
  ctxs y = ctxs x ∧ pending y = pending x ∧ timers_of y = timers_of x ∧
  match ft with
  | Some it => ∃ q1 q2, queue x = q1 ++ it :: q2 ∧ queue y = q1 ++ q2
  | None => queue y = queue x
  end.
Proof.
  unfold Scheduler.dequeue. unfold_M. intros E.
  destruct (Scheduler.scan tid (Scheduler.m_fibers x) false x) as [[[ft' rest] tk'] x1| |] eqn:Es;
    try discriminate E.
  apply scan_takes in Es as [-> Hft]. destruct ft' as [it|]; injection E as <- <- <-.
  - destruct Hft as (q1 & q2 & H1 & ->). split_and!; try done. by exists q1, q2.
  - done.
Qed.
(** *** The rest of the program *)

(** What a step means to the waiting call: its own callback ran, or a thread took
    its fiber. *)
Inductive effect := Nothing | Fired | Took.

Definition taken (p : Z) (ft : option Scheduler.FiberAndThread) : effect :=
  match ft with
  | Some it => if decide (Scheduler.fiber it = Some p) then Took else Nothing
  | None => Nothing
  end.

(** One operation of anyone: a request on the IO manager, the callback of this
    call or of another, a request on the timers, tasks put into the queue or
    taken out of it, and whatever leaves all that alone. *)
Inductive step (p tcond : Z) (i : nat) (e : Z) : effect → st → st → Prop :=
| Request r s x :
    legal epoll_ctl (iom s) r → quiet p (iom s) r → exec epoll_ctl pipe_write r (iom s) = Ok tt x →
    step p tcond i e Nothing s (set_iom x s)
| Timeout s s' :
    on_timeout tcond (Z.of_nat i) e s = Ok tt s' → step p tcond i e Fired s s'
| OtherTimeout wcond j e' s s' :
    wcond ≠ tcond → is_event e' → on_timeout wcond (Z.of_nat j) e' s = Ok tt s' →
    step p tcond i e Nothing s s'
| TimerRequest now r a x s :
    in_uint 64 now → possible (dom (Timer.heap (timers_of (iom s)))) r →
    timer_op pipe_write (Timer.serve now r) (iom s) = Ok a x →
    step p tcond i e Nothing s (set_iom x s)
| Enqueue tk x s :
    Scheduler.fiber tk ≠ Some p → Scheduler.schedule (tickle pipe_write) tk (iom s) = Ok tt x →
    step p tcond i e Nothing s (set_iom x s)
| EnqueueAll fcs x s :
    Forall (λ tk, Scheduler.fiber tk ≠ Some p) fcs →
    Scheduler.schedule_range (tickle pipe_write) fcs (iom s) = Ok tt x →
    step p tcond i e Nothing s (set_iom x s)
| Dequeue tid ft tk x s :
    Scheduler.dequeue tid (iom s) = Ok (ft, tk) x → step p tcond i e (taken p ft) s (set_iom x s)
| Elsewhere s s' :
    ctxs (iom s') = ctxs (iom s) → pending (iom s') = pending (iom s) →
    queue (iom s') = queue (iom s) → timers_of (iom s') = timers_of (iom s) →
    conds s' !! tcond = conds s !! tcond → step p tcond i e Nothing s s'.

(** Many steps: whether the call's callback was among them, and how often the
    fiber was taken. *)
Inductive runs (p tcond : Z) (i : nat) (e : Z) : bool → nat → st → st → Prop :=
| runs_refl s : runs p tcond i e false 0 s s
| runs_snoc b n eff s1 s2 s3 :
    runs p tcond i e b n s1 s2 → step p tcond i e eff s2 s3 →
    runs p tcond i e (match eff with Fired => true | _ => b end)
      (match eff with Took => S n | _ => n end) s1 s3.

(** *** The callback *)
Definition marked (wcond : Z) s : gmap Z Z :=
  match conds s !! wcond with
  | Some 0 => <[wcond := ETIMEDOUT]> (conds s)
  | _ => conds s
  end.

Lemma cancel_spec_inv p i e x : inv x → is_event e →
  wp (cancelEvent (W := Z) epoll_ctl pipe_write (Z.of_nat i) e) (λ b y, inv y ∧ preserved p x y ∧
    (b = true → fiber (slot (ctx_at x i) e) = Some p → Scheduler.mk_task (Some p) None (-1) ∈ queue y) ∧
    b = registered (ctx_at x i) e && removal_ok epoll_ctl x i (ctx_at x i) e) x.
Proof.
  intros Hinv He. apply wp_and; [|by apply (cancel_places epoll_ctl pipe_write pipe_ok)].
  pose proof (exec_legal epoll_ctl pipe_write pipe_ok x (Cancel i e) Hinv He) as H.
  unfold wp, exec in *. unfold_M. by destruct (cancelEvent _ _ _ _ _).
Qed.

Lemma on_timeout_spec p wcond i e s : inv (iom s) → is_event e →
  wp (on_timeout wcond (Z.of_nat i) e) (λ _ s', inv (iom s') ∧ preserved p (iom s) (iom s') ∧
    conds s' = marked wcond s ∧
    (conds s !! wcond = Some 0 → fiber (slot (ctx_at (iom s) i) e) = Some p →
      removal_ok epoll_ctl (iom s) i (ctx_at (iom s) i) e = true →
      Scheduler.mk_task (Some p) None (-1) ∈ queue (iom s'))) s.
Proof.
  intros Hinv He. unfold wp, Waiting.on_timeout, marked. unfold_M.
  destruct (conds s !! wcond) as [c|] eqn:Ec; [|by split_and!].
  destruct (Z.eqb_spec c 0) as [->|Hc]; cbn [negb].
  2: { destruct c; [done|..]; (split_and!; [done|done|done|intros [=]]). }
  unfold on_iom. cbn [iom set_conds].
  pose proof (cancel_spec_inv p i e (iom s) Hinv He) as (b & y & -> & Hi & Hp & Hb & ->)%wp_ok.
  split_and!; [done|done|done|]. intros _ Hf Hr. apply Hb; [|done]. rewrite Hr, andb_true_r.
  destruct (registered (ctx_at (iom s) i) e) eqn:Hreg; [done|].
  assert (ctx_ok i (ctx_at (iom s) i)) as Hok.
  { unfold ctx_at. destruct (ctxs (iom s) !! i) eqn:E; [by apply Hinv|].
    exact (new_ctx_ok pipe_write pipe_ok i). }
  destruct (ctx_cases (K := K) (W := Z) i _ e Hok He) as [_ Hs]. rewrite Hreg in Hs.
  rewrite Hs in Hf. discriminate Hf.
Qed.

(** *** What a waiting call can rely on *)
Record holds (p tcond : Z) (timer : option Z) (b : bool) (n : nat) s : Prop := {
  h_inv : inv (iom s);
  h_good : TimerProps.good (timers_of (iom s));
  h_timer : match timer with Some q => q ∈ dom (Timer.heap (timers_of (iom s))) | None => True end;
  h_cond : conds s !! tcond = Some (if b then ETIMEDOUT else 0);
  h_places : places p (iom s) + Z.of_nat n = 1
}.

Lemma holds_iom p tcond timer b n s x :
  holds p tcond timer b n s → inv x → places p x = places p (iom s) → timers_of x = timers_of (iom s) →
  holds p tcond timer b n (set_iom x s).
Proof. intros [? ? ? ? ?] Hx Hp Ht. split; cbn; rewrite ?Ht; try done. lia. Qed.

Lemma holds_timeout p tcond timer b n s wcond i e s' :
  holds p tcond timer b n s → is_event e → on_timeout wcond (Z.of_nat i) e s = Ok tt s' →
  holds p tcond timer (bool_decide (wcond = tcond) || b) n s'.
Proof.
  intros [Hi Hg Ht Hc Hp] He E. pose proof (on_timeout_spec p wcond i e s Hi He) as H.
  unfold wp in H. rewrite E in H. destruct H as (Hi' & [Hpl Htm] & Hm & _).
  split; rewrite ?Htm; [done|done|done| |lia].
  rewrite Hm. unfold marked. destruct (decide (wcond = tcond)) as [->|Hne].
  - rewrite Hc, bool_decide_true by done. destruct b; cbn; [done|]. by rewrite lookup_insert_eq.
  - rewrite bool_decide_false by done. destruct (conds s !! wcond) as [[]|]; [|done..].
    by rewrite lookup_insert_ne.
Qed.

Lemma holds_queued p tcond timer b n s x tks :
  holds p tcond timer b n s → queued (iom s) x tks → sumZ (in_queue p) tks = 0 →
  holds p tcond timer b n (set_iom x s).
Proof.
  intros H Hq Hz. pose proof Hq as (H1 & H2 & H3 & _). apply holds_iom; [done| |by eapply queued_places|done].
  by apply (inv_same (iom s)); [..|apply H].
Qed.

Lemma holds_timers p tcond timer b n s now r a x :
  holds p tcond timer b n s → in_uint 64 now → possible (dom (Timer.heap (timers_of (iom s)))) r →
  timer_op pipe_write (Timer.serve now r) (iom s) = Ok a x →
  holds p tcond timer b n (set_iom x s).
Proof.
  intros [Hi Hg Ht Hc Hp] Hn Hr E.
  pose proof (TimerProps.serve_spec now r _ Hg Hn Hr) as (a' & z & Ez & Hg' & Hd & _)%wp_ok.
  pose proof (timer_op_calm _ (iom s) a' z Ez) as H. unfold wp in H. rewrite E in H.
  destruct H as (_ & Hcalm & Htm). split; cbn; rewrite ?Htm; [by eapply calm_inv|done| |done|].
  - destruct timer; [|done]. rewrite Hd. set_solver.
  - rewrite (calm_places p (iom s)); [done|exact Hcalm].
Qed.

Lemma holds_dequeue p tcond timer b n s tid ft tk x :
  holds p tcond timer b n s → Scheduler.dequeue tid (iom s) = Ok (ft, tk) x →
  holds p tcond timer b (match taken p ft with Took => S n | _ => n end) (set_iom x s).
Proof.
  intros [Hi Hg Ht Hc Hp] (H1 & H2 & H3 & H4)%dequeue_takes.
  split; cbn; rewrite ?H3; [by apply (inv_same (iom s))|done|done|done|].
  unfold places in *. rewrite H1. destruct ft as [it|]; cbn [taken].
  - destruct H4 as (q1 & q2 & E1 & E2). rewrite E1, sumZ_app in Hp. cbn [sumZ] in Hp.
    rewrite E2, sumZ_app. unfold in_queue at 2 in Hp. case_decide as Hit.
    + rewrite Hit, is_fiber_self in Hp. lia.
    + rewrite is_fiber_ne in Hp by done. lia.
  - rewrite H4. done.
Qed.

Lemma step_holds p tcond timer i e b n eff s s' :
  is_event e → holds p tcond timer b n s → step p tcond i e eff s s' →
  holds p tcond timer (match eff with Fired => true | _ => b end)
    (match eff with Took => S n | _ => n end) s'.
Proof.
  intros He H Hst. destruct Hst as [r s x Hl Hq E|s s' E|wcond j e' s s' Hne He' E|now r a x s Hn Hr E
    |tk x s Hf E|fcs x s Hf E|tid ft tk x s E|s s' H1 H2 H3 H4 H5].
  - pose proof (request_keeps epoll_ctl pipe_write pipe_ok p r (iom s) (h_inv _ _ _ _ _ _ H) Hl Hq) as Hk.
    unfold wp in Hk. rewrite E in Hk. destruct Hk as (Hi & Hp & Ht). by apply holds_iom.
  - pose proof (holds_timeout _ _ _ _ _ _ _ i e s' H He E) as H'. by rewrite bool_decide_true in H'.
  - pose proof (holds_timeout _ _ _ _ _ _ _ j e' s' H He' E) as H'. by rewrite bool_decide_false in H'.
  - by eapply holds_timers.
  - pose proof (schedule_queued tk (iom s)) as Hk. unfold wp in Hk. rewrite E in Hk.
    eapply holds_queued; [done|exact Hk|]. apply others_tasks. by constructor.
  - pose proof (schedule_range_queued fcs (iom s)) as Hk. unfold wp in Hk. rewrite E in Hk.
    eapply holds_queued; [done|exact Hk|]. apply others_tasks. rewrite list.Forall_fmap.
    by eapply list.Forall_impl.
  - pose proof (holds_dequeue _ _ _ _ _ _ _ _ _ _ H E) as H'. unfold taken in *.
    destruct ft as [it|]; [case_decide|]; exact H'.
  - destruct H as [Hi Hg Ht Hc Hp]. split; rewrite ?H4, ?H5; try done.
    + by apply (inv_same (iom s)).
    + unfold places in *. by rewrite H1, H3.
Qed.

Lemma runs_hold p tcond timer i e b n s1 s2 :
  is_event e → holds p tcond timer false 0 s1 → runs p tcond i e b n s1 s2 → holds p tcond timer b n s2.
Proof.
  intros He H. induction 1; [done|]. eapply step_holds; [done| |done]. auto.
Qed.
(** *** The call *)

(** Fiber [p] runs, waits nowhere, and nobody waits for the event. *)
Record running (p : Z) (i : nat) (e : Z) x : Prop := {
  r_inv : inv x;
  r_places : places p x = 0;
  r_event : is_event e;
  r_free : registered (ctx_at x i) e = false;
  r_this : Fiber.t_fiber (Scheduler.world x) = Some p;
  r_exec : ∃ g, Fiber.fibers (Scheduler.world x) !! p = Some g ∧ Fiber.m_state g = Fiber.EXEC;
  r_main : is_Some (Fiber.t_scheduler_fiber (Scheduler.world x))
}.

(** The state in which [do_io] reaches [retry]; [q] is free for a timer. *)
Record ready (p tcond q : Z) (i : nat) (e : Z) s : Prop := {
  r_running : running p i e (iom s);
  r_good : TimerProps.good (timers_of (iom s));
  r_timer : Timer.heap (timers_of (iom s)) !! q = None;
  r_cond : conds s !! tcond = Some 0
}.

Lemma running_calm p i e x y : running p i e x → calm x y → running p i e y.
Proof.
  intros [H1 H2 H3 H4 H5 H6 H7] Hc. pose proof Hc as (E1 & _ & _ & E4).
  split; rewrite ?E4; try done.
  - by eapply calm_inv.
  - by rewrite (calm_places p x).
  - unfold ctx_at in *. by rewrite E1.
Qed.

Lemma ready_calm p tcond q i e s s' :
  ready p tcond q i e s → calm (iom s) (iom s') → timers_of (iom s') = timers_of (iom s) →
  conds s' = conds s → ready p tcond q i e s'.
Proof.
  intros [H1 H2 H3 H4] Hc Ht Hcd. split; rewrite ?Ht, ?Hcd; try done. by eapply running_calm.
Qed.

Lemma call_calm func s : ∃ n s', Waiting.call func s = Ok n s' ∧
  calm (iom s) (iom s') ∧ timers_of (iom s') = timers_of (iom s) ∧ conds s' = conds s.
Proof.
  unfold Waiting.call, on_iom. unfold_M.
  pose proof (sys_calm (λ k, let '(n, e, k') := func k in ((n, e), k')) (iom s)) as ([n e] & x & -> & _ & Hc & Ht)%wp_ok.
  cbn [fst snd]. destruct (n =? -1); eexists _, _; split; [reflexivity|done|reflexivity|done].
Qed.

Lemma calls_calm fuel func : ∀ s n s', Waiting.call_uninterrupted fuel func s = Ok n s' →
  calm (iom s) (iom s') ∧ timers_of (iom s') = timers_of (iom s) ∧ conds s' = conds s.
Proof.
  induction fuel as [|fuel IH]; intros s n s' E; [discriminate E|].
  cbn [Waiting.call_uninterrupted] in E. unfold_M.
  destruct (call_calm func s) as (m & s1 & Ec & H1 & H2 & H3). rewrite Ec in E.
  destruct ((m =? -1) && _).
  - apply IH in E as (H4 & H5 & H6). split_and!; [by eapply calm_trans|congruence|congruence].
  - by injection E as <- <-.
Qed.

(** The condition timer is armed: [to] milliseconds from now, with this call's
    condition. *)
Definition armed (q to tcond : Z) s : Prop :=
  ∃ now, in_uint 64 now ∧ Timer.heap (timers_of (iom s)) !! q =
    Some (Timer.mk_timer false to (uint 64 (now + to)) (Some (Timer.Bound tcond []))).

Lemma addCondTimer_spec p tcond q i e to s : ready p tcond q i e s →
  wp (Waiting.addCondTimer pipe_write GetCurrentMS q to tcond) (λ _ s',
    calm (iom s) (iom s') ∧ conds s' = conds s ∧ TimerProps.good (timers_of (iom s')) ∧ armed q to tcond s') s.
Proof.
  intros H. unfold wp, Waiting.addCondTimer, on_iom. unfold_M.
  pose proof (sys_calm GetCurrentMS (iom s)) as (now & x & -> & Hnow & Hc & Ht)%wp_ok. cbn [iom set_iom].
  pose proof (clock_ok (kernel (Scheduler.ext (iom s)))) as Hn. rewrite <-Hnow in Hn.
  pose proof H as [_ Hg Hq _]. rewrite <-Ht in Hg, Hq.
  pose proof (TimerProps.serve_spec (F := Fiber.script) (W := Z) now (Timer.AddCondTimer q to [] tcond false) _ Hg Hn) as Hs.
  specialize (Hs (proj2 (not_elem_of_dom _ _) Hq)).
  pose proof (TimerRun.addTimer_spec (F := Fiber.script) (W := Z) (timers_of x) q to (Some (Timer.Bound tcond [])) false now (proj1 Hg) Hq)
    as (a & z & E & _ & _ & Hh & _)%wp_ok.
  cbn [Timer.serve] in Hs. apply wp_fmap_inv in Hs. apply wp_ok in Hs as (a' & z' & E' & Hg' & _).
  assert (Ok a' z' = Ok a z) as Ez by exact (eq_trans (eq_sym E') E). injection Ez as -> ->.
  pose proof (timer_op_calm (Timer.addCondTimer (F := Fiber.script) q to [] tcond false now) x a z E) as (b & y & -> & _ & Hc' & Ht')%wp_ok.
  cbn [iom set_iom conds]. subst z. split_and!; [by eapply calm_trans|done|exact Hg'|].
  exists now. split; [done|]. cbn [iom set_iom]. rewrite Hh, lookup_insert_eq. done.
Qed.

Lemma cancel_timer_spec timer s :
  TimerProps.good (timers_of (iom s)) →
  match timer with Some q => q ∈ dom (Timer.heap (timers_of (iom s))) | None => True end →
  wp (Waiting.cancel_timer timer) (λ _ s', calm (iom s) (iom s') ∧ conds s' = conds s ∧
    TimerProps.good (timers_of (iom s'))) s.
Proof.
  intros Hg Hd. unfold wp, Waiting.cancel_timer, on_iom. destruct timer as [q|]; [|done].
  pose proof (TimerProps.cancel_good _ q Hg Hd) as (b & z & E & Hg')%wp_ok. unfold_M.
  pose proof (tim_calm _ (iom s) b z E) as (c & y & -> & _ & Hc & Ht)%wp_ok.
  cbn [iom set_iom conds]. by rewrite Ht.
Qed.

(** Giving up the processor changes nothing but the fibers. *)
Lemma yield_spec p (fresh : Z) k x g :
  Fiber.t_fiber (Scheduler.world x) = Some p → Fiber.fibers (Scheduler.world x) !! p = Some g →
  Fiber.m_state g = Fiber.EXEC → is_Some (Fiber.t_scheduler_fiber (Scheduler.world x)) →
  wp (Scheduler.fib (Fiber.YieldToHold fresh k)) (λ _ y,
    ctxs y = ctxs x ∧ pending y = pending x ∧ queue y = queue x ∧ timers_of y = timers_of x) x.
Proof.
  intros H1 H2 H3 [m H4]. unfold wp, Scheduler.fib, Fiber.YieldToHold, Fiber.GetThis, Fiber.getState,
    Fiber.deref, Fiber.update, Fiber.swapOut, Fiber.SetThis. unfold_M. rewrite H1. cbn. rewrite H2. cbn.
  rewrite H3, bool_decide_true by done. cbn. rewrite H4. done.
Qed.

Definition timer_of (to q : Z) : option Z := if to =? no_timeout then None else Some q.

(** What a call leaves behind when it returns or switches. *)
Definition left_behind (p tcond q : Z) (i : nat) (e to : Z) (r : progress) s : Prop :=
  match r with
  | Returned _ => places p (iom s) = 0
  | Switched timer => timer = timer_of to q ∧ holds p tcond timer false 0 s ∧
      (timer = Some q → armed q to tcond s) ∧
      slot (ctx_at (iom s) i) e = mk_event true (Some p) None
  end.
Lemma arm_spec p tcond q i e to s : ready p tcond q i e s →
  wp (match timer_of to q with
      | Some _ => Waiting.addCondTimer pipe_write GetCurrentMS q to tcond
      | None => mret tt
      end) (λ _ s', calm (iom s) (iom s') ∧ conds s' = conds s ∧ TimerProps.good (timers_of (iom s')) ∧
    (timer_of to q = Some q → armed q to tcond s')) s.
Proof.
  intros H. unfold timer_of. destruct (to =? no_timeout).
  - split_and!; [done|done|apply H|done].
  - eapply wp_mono; [by apply (addCondTimer_spec p tcond q i e)|]. intros _ s' (?&?&?&?). by split_and!.
Qed.

Lemma armed_dom to q tcond s :
  (timer_of to q = Some q → armed q to tcond s) →
  match timer_of to q with Some q' => q' ∈ dom (Timer.heap (timers_of (iom s))) | None => True end.
Proof.
  unfold timer_of. destruct (to =? no_timeout); [done|]. intros H.
  destruct (H eq_refl) as (now & _ & E). apply elem_of_dom. by eexists.
Qed.

Lemma armed_same q to tcond s s' :
  timers_of (iom s') = timers_of (iom s) → armed q to tcond s → armed q to tcond s'.
Proof. intros E (now & ? & Hh). exists now. by rewrite E. Qed.

(** The event of the running fiber. *)
Lemma own_event p i e x : running p i e x →
  wp (addEvent (W := Z) epoll_ctl (Z.of_nat i) e None true) (λ r y,
    inv y ∧ same_rest x y ∧
    (r = 0 ∧ places p y = 1 ∧ slot (ctx_at y i) e = mk_event true (Some p) None ∨
     r = -1 ∧ places p y = 0)) x.
Proof.
  intros [Hi Hp He Hf Ht (g & Hg & Hx) _].
  assert (caller_ok x None) as Hc by (right; by exists p, g).
  pose proof (addEvent_spec epoll_ctl pipe_write pipe_ok i e None x Hi He Hf Hc) as H1.
  pose proof (add_places epoll_ctl pipe_write pipe_ok p i e None x Hi He Hf Hc) as H2.
  eapply wp_mono; [exact (wp_and _ _ _ _ H1 H2)|]. cbv zeta.
  intros r y [(Hr & _ & _ & _ & _ & Hat & _) (Hinv & Hrest & Hpl)]. split_and!; [done|done|].
  unfold new_slot in *. rewrite Ht in *. cbn [fiber] in Hpl. rewrite is_fiber_self, Hp in Hpl.
  destruct Hpl as [[-> Hpl]|[-> Hpl]]; [left|by right]. split_and!; [done|done|].
  destruct (ctl_ok _ _ _ _ _); [|discriminate Hr]. rewrite Hat. by destruct He as [->| ->].
Qed.

(** The event is added, and the fiber gives up the processor. *)
Lemma attempt_spec p tcond q i e to fuel func k s :
  ready p tcond q i e s → (∃ n s0, Waiting.call_uninterrupted fuel func s = Ok n s0) →
  wp (attempt fuel func (Z.of_nat i) e to tcond q k) (left_behind p tcond q i e to) s.
Proof.
  intros H (n & s0 & E). unfold Waiting.attempt. apply wp_bind. unfold wp at 1. rewrite E.
  apply calls_calm in E as (Hc & Ht & Hcd).
  pose proof (ready_calm _ _ _ _ _ _ _ H Hc Ht Hcd) as H0. clear H Hc Ht Hcd s.
  apply wp_bind. unfold wp at 1, gets. destruct (_ && _); [|apply H0].
  fold (timer_of to q). cbv zeta. apply wp_bind. eapply wp_mono; [by apply (arm_spec p tcond q i e)|].
  intros u s1 (Hc1 & Hcd1 & Hg1 & Ha1). pose proof (armed_dom to q tcond s1 Ha1) as Hd1.
  pose proof (running_calm _ _ _ _ _ (r_running _ _ _ _ _ _ H0) Hc1) as Hrun.
  pose proof (own_event p i e (iom s1) Hrun) as (r & y & Ea & Hi & (Hw & _ & Htm & _) & Hr)%wp_ok.
  apply wp_bind. unfold wp at 1, on_iom at 1. rewrite Ea.
  destruct Hr as [(-> & Hp & Hs)|(-> & Hp)]; cbn [Z.eqb negb].
  - destruct Hrun as [_ _ _ _ Hthis (g & Hg & Hx) Hmain]. rewrite <-Hw in Hthis, Hg, Hmain.
    apply wp_bind. unfold wp at 1, gets. apply wp_bind. unfold wp at 1, on_iom. cbn [iom set_iom].
    pose proof (yield_spec p (Scheduler.next_addr y) k y g Hthis Hg Hx Hmain)
      as (v & z & -> & H1 & H2 & H3 & H4)%wp_ok.
    unfold wp, mret, M_ret. split; [done|]. split; [|split].
    + split; cbn [iom set_iom conds]; rewrite ?H4, ?Htm; [by apply (inv_same y)|done|exact Hd1| |].
      * rewrite Hcd1. apply H0.
      * rewrite (places_same p y z H1 H3). lia.
    + intros Hq. eapply armed_same; [|exact (Ha1 Hq)]. cbn [iom set_iom]. congruence.
    + cbn [iom set_iom]. unfold ctx_at in *. by rewrite H1.
  - apply wp_bind. eapply wp_mono; [apply cancel_timer_spec; cbn [iom set_iom]; rewrite Htm; done|].
    intros w s2 (Hc2 & _). unfold wp, mret, M_ret. cbn [left_behind].
    rewrite (calm_places p y); [done|exact Hc2].
Qed.

Lemma resumed_spec p tcond timer b n s : holds p tcond timer b n s →
  wp (Waiting.resumed timer tcond) (λ v s', v = (if b then Some (-1) else None) ∧
    (b = true → errno s' = ETIMEDOUT)) s.
Proof.
  intros [Hi Hg Ht Hc _]. unfold Waiting.resumed. apply wp_bind.
  eapply wp_mono; [by apply cancel_timer_spec|]. intros u s1 (_ & Hcd & _).
  unfold wp. unfold_M. rewrite Hcd, Hc. by destruct b.
Qed.

(** C17. A call that has to wait for its event - it armed its timer, registered the
    event for its fiber and gave up the processor - is woken once. Whatever the
    other fibers, timers and threads do meanwhile, in any order, its fiber is in
    exactly one place, the slot of the event or the scheduler's queue, until a
    thread takes it, and nobody takes it twice. The timer's callback never faults,
    however late it runs; when it is the first to come it puts the fiber into the
    queue. When the fiber goes on, it fails with ETIMEDOUT exactly if the callback
    has run, even if the event came before it, and else tries again. If adding the
    event fails, nothing of the fiber is left behind. *)
Theorem waiting_call_woken_once (p tcond q : Z) (i : nat) (e to : Z) (fuel : nat)
    (func : Waiting.syscall) (k : Fiber.context) s :
  ready p tcond q i e s →
  (∃ n s0, Waiting.call_uninterrupted fuel func s = Ok n s0) →
  wp (attempt fuel func (Z.of_nat i) e to tcond q k) (λ r s1,
    match r with
    | Returned _ => places p (iom s1) = 0
    | Switched timer =>
        timer = timer_of to q ∧ (timer = Some q → armed q to tcond s1) ∧
        slot (ctx_at (iom s1) i) e = mk_event true (Some p) None ∧
        ∀ b n s2, runs p tcond i e b n s1 s2 →
          places p (iom s2) + Z.of_nat n = 1 ∧
          wp (on_timeout tcond (Z.of_nat i) e) (λ _ s3,
            b = false → fiber (slot (ctx_at (iom s2) i) e) = Some p →
            removal_ok epoll_ctl (iom s2) i (ctx_at (iom s2) i) e = true →
            Scheduler.mk_task (Some p) None (-1) ∈ queue (iom s3)) s2 ∧
          wp (Waiting.resumed timer tcond) (λ v s3, v = (if b then Some (-1) else None) ∧
            (b = true → errno s3 = ETIMEDOUT)) s2
    end) s.
Proof.
  intros H Hfunc. assert (is_event e) as He by apply H.
  eapply wp_mono; [by apply (attempt_spec p tcond q i e to fuel func k s)|].
  intros [n|timer] s1; [done|]. intros (-> & Hh & Ha & Hs). split_and!; [done|done|done|].
  intros b n s2 Hr. pose proof (runs_hold _ _ _ _ _ _ _ _ _ He Hh Hr) as H2. split_and!.
  - apply H2.
  - eapply wp_mono; [exact (on_timeout_spec p tcond i e s2 (h_inv _ _ _ _ _ _ H2) He)|].
    intros u s3 (_ & _ & _ & Hq) ->. apply Hq, (h_cond _ _ _ _ _ _ H2).
  - by eapply resumed_spec.
Qed.
End waiting.

(** *** A call that times out although its event came *)
Definition example_clock (k : unit) : Z * unit := (1000, k).
Lemma example_clock_ok (k : unit) : in_uint 64 (example_clock k).1.
Proof. unfold in_uint. simpl. lia. Qed.

Definition no_data (k : unit) : Z * Z * unit := (-1, EAGAIN, k).

(** Fiber 7 runs; 8 is the scheduler's fiber of the thread. *)
Definition example_world : Fiber.t :=
  Fiber.mk (<[7 := Fiber.mk_fiber 1 0 Fiber.EXEC (Fiber.Entry false) (Some 70) None]>
    (<[8 := Fiber.mk_fiber 0 0 Fiber.EXEC Fiber.Unsaved None None]> ∅)) 1 2 ∅ (Some 7) (Some 8) (Some 8).
Definition example_iom : IOManager.t unit Z :=
  Scheduler.mk example_world 50 [] [] [] 1 1 0 false false (-1) None 0
    (mk_io tt (Timer.new 0) [new_ctx 0; new_ctx 1; new_ctx 2; new_ctx 3] 0).
Definition example_call : Waiting.t unit := Waiting.mk example_iom {[5 := 0]} 0.

Lemma example_ready : ready 7 5 100 2 READ example_call.
Proof.
  split; [|by apply new_good|done|done]. split; [|done|by left|done|done| |by eexists].
  - split_and!; [|done|cbn; lia]. intros i c Hi.
    destruct i as [|[|[|[|i]]]]; simplify_eq/=; (split; [done|simpl; set_solver|done..]).
  - by eexists.
Qed.

Definition example_attempt : outcome (Waiting.t unit) progress :=
  Waiting.attempt always pipe_always example_clock 1 no_data (Z.of_nat 2) READ 500 5 100 (Fiber.At [] false) example_call.
Definition state_of {A} (o : outcome (Waiting.t unit) A) : Waiting.t unit :=
  match o with Ok _ s => s | _ => example_call end.
Definition example_waits : Waiting.t unit := state_of example_attempt.
(** The event is reported, and then the timer's callback runs. *)
Definition example_reported : Waiting.t unit :=
  match exec always pipe_always (Deliver 2 EPOLLIN) (iom example_waits) with
  | Ok _ x => set_iom x example_waits
  | _ => example_waits
  end.
Definition example_late : Waiting.t unit :=
  state_of (Waiting.on_timeout always pipe_always 5 (Z.of_nat 2) READ example_reported).

Lemma example_attempted :
  Waiting.attempt always pipe_always example_clock 1 no_data (Z.of_nat 2) READ 500 5 100
    (Fiber.At [] false) example_call = Ok (Switched (Some 100)) example_waits.
Proof. vm_compute. reflexivity. Qed.

Lemma example_runs : runs always pipe_always 7 5 2 READ true 0 example_waits example_late.
Proof.
  apply (runs_snoc always pipe_always 7 5 2 READ false 0 Fired example_waits example_reported).
  - apply (runs_snoc always pipe_always 7 5 2 READ false 0 Nothing example_waits example_waits);
      [constructor|].
    replace example_reported with (set_iom (iom example_reported) example_waits) by (vm_compute; reflexivity).
    apply (Request always pipe_always 7 5 2 READ (Deliver 2 EPOLLIN));
      [split; [apply Nat.ltb_lt|]; vm_compute; reflexivity|exact I|vm_compute; reflexivity].
  - apply Timeout. vm_compute. reflexivity.
Qed.

Lemma waiting_call_woken_once_witness :
  Waiting.attempt always pipe_always example_clock 1 no_data (Z.of_nat 2) READ 500 5 100
    (Fiber.At [] false) example_call = Ok (Switched (Some 100)) example_waits ∧
  queue example_waits.(iom) = [] ∧ queue example_reported.(iom) = [Scheduler.mk_task (Some 7) None (-1)] ∧
  places 7 (iom example_late) + Z.of_nat 0 = 1 ∧
  wp (Waiting.resumed (Some 100) 5) (λ v s, v = Some (-1) ∧ (true = true → errno s = ETIMEDOUT)) example_late.
Proof.
  pose proof example_attempted as E.
  assert (∃ n s0, Waiting.call_uninterrupted 1 no_data example_call = Ok n s0) as Hf by (do 2 eexists; reflexivity).
  pose proof (waiting_call_woken_once always pipe_always example_clock pipe_always_ok example_clock_ok
    7 5 100 2 READ 500 1 no_data (Fiber.At [] false) example_call example_ready Hf) as H.
  apply wp_ok in H as (r & s1 & E1 & H).
  rewrite E in E1. injection E1 as <- <-. destruct H as (_ & _ & _ & H).
  destruct (H true 0%nat example_late example_runs) as (Hp & _ & Hres).
  split; [exact E|]. split; [vm_compute; reflexivity|]. split; [vm_compute; reflexivity|].
  split; [exact Hp|exact Hres].
Defined.
End WaitingProps.
