(* ===== verification/FdManager.v ===== *)
(** File descriptor contexts: [fd_manager.h] and [fd_manager.cc].

    Module [FdManager] holds the context of a descriptor and the table of all
    of them. [fstat] and [fcntl_f] are the kernel's, on a state [K]; a context
    that a caller holds and the entry of the table are the same object, so
    setters act on the table. *)
From stdpp Require Import base list numbers option.
From Stdlib Require Import ZArith Lia.
From S2P Require Import Prelude.

Module FdManager.
Local Open Scope Z_scope.

Definition O_NONBLOCK : Z := 2048.
Definition F_GETFL : Z := 3.
Definition F_SETFL : Z := 4.
Definition SO_RCVTIMEO : Z := 20.
Definition SO_SNDTIMEO : Z := 21.

Record FdCtx := mk_ctx {
  m_isInit : bool;
  m_isSocket : bool;
  m_sysNonblock : bool;
  m_userNonblock : bool;
  m_isClosed : bool;
  m_fd : Z;
  m_recvTimeout : Z;
  m_sendTimeout : Z
}.

(** The value of [(uint64_t)-1]. *)
Definition no_timeout : Z := 2 ^ 64 - 1.

Definition setUserNonblock (v : bool) (c : FdCtx) : FdCtx :=
  mk_ctx (m_isInit c) (m_isSocket c) (m_sysNonblock c) v (m_isClosed c) (m_fd c)
    (m_recvTimeout c) (m_sendTimeout c).

Definition setTimeout (type v : Z) (c : FdCtx) : FdCtx :=
  if type =? SO_RCVTIMEO
  then mk_ctx (m_isInit c) (m_isSocket c) (m_sysNonblock c) (m_userNonblock c) (m_isClosed c)
         (m_fd c) v (m_sendTimeout c)
  else mk_ctx (m_isInit c) (m_isSocket c) (m_sysNonblock c) (m_userNonblock c) (m_isClosed c)
         (m_fd c) (m_recvTimeout c) v.

Definition getTimeout (type : Z) (c : FdCtx) : Z :=
  if type =? SO_RCVTIMEO then m_recvTimeout c else m_sendTimeout c.

Section manager.
Context {K : Type}.
(** The kind of a descriptor: [None] when [fstat] fails, else whether it is a
    socket; [fcntl_f fd cmd arg] answers a value. *)
Variable fstat : Z → K → option bool.
Variable fcntl_f : Z → Z → Z → K → Z * K.

Record t := mk { kernel : K; m_fds : list (option FdCtx) }.

Definition sys {A} (call : K → A * K) : M t A := λ s,
  let (a, k) := call (kernel s) in Ok a (mk k (m_fds s)).

(** [FdCtx::init] on a context that is not initialised. *)
Definition init (c : FdCtx) : M t (FdCtx * bool) :=
  if m_isInit c then mret (c, true)
  else
    s ← get;
    let st := fstat (m_fd c) (kernel s) in
    let isInit := match st with Some _ => true | None => false end in
    let isSocket := match st with Some b => b | None => false end in
    _ ← (if isSocket then
           flags ← sys (fcntl_f (m_fd c) F_GETFL 0);
           if Z.land flags O_NONBLOCK =? 0
           then _ ← sys (fcntl_f (m_fd c) F_SETFL (Z.lor flags O_NONBLOCK)); mret tt
           else mret tt
         else mret tt);
    mret (mk_ctx isInit isSocket isSocket false false (m_fd c) no_timeout no_timeout, isInit).

Definition FdCtx_new (fd : Z) : M t FdCtx :=
  r ← init (mk_ctx false false false false false fd no_timeout no_timeout); mret r.1.

Definition new (k : K) : t := mk k (replicate 64 None).

(** [m_fds[fd]] *)
Definition index (fd : Z) : M t (option FdCtx) :=
  s ← get;
  if fd <? 0 then faultM OutOfBounds
  else match m_fds s !! Z.to_nat fd with Some o => mret o | None => faultM OutOfBounds end.

Definition get_fd (fd : Z) (auto_create : bool) : M t (option FdCtx) :=
  if fd =? -1 then mret None
  else
    s ← get;
    let size := Z.of_nat (length (m_fds s)) in
    let create : M t (option FdCtx) :=
      ctx ← FdCtx_new fd;
      s ← get;
      let l := if size <=? fd
               then resize (Z.to_nat (fd * 3 / 2)) None (m_fds s) else m_fds s in
      if fd <? 0 then faultM OutOfBounds
      else if (Z.to_nat fd <? length l)%nat
      then _ ← put (mk (kernel s) (<[Z.to_nat fd := Some ctx]> l)); mret (Some ctx)
      else faultM OutOfBounds in
    if size <=? fd then if auto_create then create else mret None
    else
      o ← index fd;
      match o with
      | Some c => mret (Some c)
      | None => if auto_create then create else mret None
      end.

Definition del (fd : Z) : M t unit :=
  s ← get;
  if Z.of_nat (length (m_fds s)) <=? fd then mret tt
  else if fd <? 0 then faultM OutOfBounds
  else put (mk (kernel s) (<[Z.to_nat fd := None]> (m_fds s))).

(** A setter called on the context of [fd]. *)
Definition update (fd : Z) (g : FdCtx → FdCtx) : M t unit :=
  modify (λ s, mk (kernel s) (alter (fmap g) (Z.to_nat fd) (m_fds s))).
End manager.
Arguments t : clear implicits.
End FdManager.
