(* ===== verification/Hook.v ===== *)
(** Hooked system calls: [hook.h] and [hook.cc].

    Module [Hook] models the functions that replace those of the C library. A
    kernel [K] answers the original functions; what the IO manager and the
    fibers do for a waiting call is the interface [IOM]: arming and cancelling
    the condition timer, registering the event, and [iom_yield], which lets the
    others run until this fiber is resumed and tells whether the timer's
    callback, the only writer of [timer_cond], ran meanwhile. *)
From stdpp Require Import base list numbers option.
From Stdlib Require Import ZArith Lia.
From S2P Require Import Prelude FdManager.

Module Hook.
Local Open Scope Z_scope.

Definition EINTR : Z := 4.
Definition EBADF : Z := 9.
Definition EAGAIN : Z := 11.
Definition ETIMEDOUT : Z := 110.
Definition EINPROGRESS : Z := 115.
Definition READ : Z := 1.
Definition WRITE : Z := 4.
Definition FIONBIO : Z := 21537.
Definition SOL_SOCKET : Z := 1.

(** What a waiting call needs of the IO manager of its thread. *)
Class IOM (K : Type) := {
  iom_addCondTimer : Z → Z → Z → K → K;
  iom_cancelTimer : K → K;
  iom_addEvent : Z → Z → K → Z * K;
  iom_yield : K → bool * K;
  iom_addTimer : Z → K → K;
  iom_hold : K → K;
  iom_cancelAll : Z → K → K
}.

Section hook.
Context {K : Type} `{IOM K}.
Variable fstat : Z → K → option bool.
Variable fcntl_f : Z → Z → Z → K → Z * K.

(** The state of a thread: the table, [errno] and [t_hook_enable]. *)
Record t := mk { fds : FdManager.t K; errno : Z; t_hook_enable : bool }.

Definition k_of (s : t) : K := FdManager.kernel (fds s).
Definition set_kernel (k : K) (s : t) : t :=
  mk (FdManager.mk k (FdManager.m_fds (fds s))) (errno s) (t_hook_enable s).
Definition set_errno (e : Z) : M t unit := modify (λ s, mk (fds s) e (t_hook_enable s)).
Definition set_hook_enable (b : bool) : M t unit := modify (λ s, mk (fds s) (errno s) b).
Definition is_hook_enable : M t bool := gets t_hook_enable.

(** An original function: its value and, when that is [-1], its [errno]. *)
Definition syscall : Type := K → Z * Z * K.

Definition call (func : syscall) : M t Z := λ s,
  let '(n, e, k) := func (k_of s) in
  let s' := set_kernel k s in
  Ok n (if n =? -1 then mk (fds s') e (t_hook_enable s') else s').

Definition iom (f : K → K) : M t unit := modify (λ s, set_kernel (f (k_of s)) s).
Definition iom_ask {A} (f : K → A * K) : M t A := λ s,
  let (a, k) := f (k_of s) in Ok a (set_kernel k s).

Definition fdm {A} (m : M (FdManager.t K) A) : M t A := λ s,
  match m (fds s) with
  | Ok a x => Ok a (mk x (errno s) (t_hook_enable s))
  | Exn e x => Exn e (mk x (errno s) (t_hook_enable s))
  | Fault f => Fault f
  end.

Definition FdMgr_get (fd : Z) (auto_create : bool) : M t (option FdManager.FdCtx) :=
  fdm (FdManager.get_fd fstat fcntl_f fd auto_create).

(** *** do_io *)

(** [while(n == -1 && errno == EINTR)], with the first call. *)
Fixpoint call_uninterrupted (fuel : nat) (func : syscall) : M t Z :=
  match fuel with
  | O => faultM FuelExhausted
  | S fuel' =>
      n ← call func;
      e ← gets errno;
      if (n =? -1) && (e =? EINTR) then call_uninterrupted fuel' func else mret n
  end.

(** From the label [retry] on. *)
Fixpoint do_io_retry (fuel : nat) (func : syscall) (fd event to : Z) : M t Z :=
  match fuel with
  | O => faultM FuelExhausted
  | S fuel' =>
      n ← call_uninterrupted fuel func;
      e ← gets errno;
      if (n =? -1) && (e =? EAGAIN) then
        let timer := negb (to =? FdManager.no_timeout) in
        _ ← (if timer then iom (iom_addCondTimer to fd event) else mret tt);
        ret ← iom_ask (iom_addEvent fd event);
        if negb (ret =? 0) then
          _ ← (if timer then iom iom_cancelTimer else mret tt);
          mret (-1)
        else
          cancelled ← iom_ask iom_yield;
          _ ← (if timer then iom iom_cancelTimer else mret tt);
          if cancelled : bool then _ ← set_errno ETIMEDOUT; mret (-1)
          else do_io_retry fuel' func fd event to
      else mret n
  end.

Definition do_io (fuel : nat) (fd : Z) (func : syscall) (event timeout_type : Z) : M t Z :=
  b ← is_hook_enable;
  if negb b then call func
  else
    ctx ← FdMgr_get fd false;
    match ctx with
    | None => call func
    | Some c =>
        if FdManager.m_isClosed c then _ ← set_errno EBADF; mret (-1)
        else if negb (FdManager.m_isSocket c) || FdManager.m_userNonblock c then call func
        else do_io_retry fuel func fd event (FdManager.getTimeout timeout_type c)
    end.

(** *** Reading, writing, accepting *)
Definition read (fuel : nat) (fd : Z) (f : syscall) := do_io fuel fd f READ FdManager.SO_RCVTIMEO.
Definition readv (fuel : nat) (fd : Z) (f : syscall) := do_io fuel fd f READ FdManager.SO_RCVTIMEO.
Definition recv (fuel : nat) (fd : Z) (f : syscall) := do_io fuel fd f READ FdManager.SO_RCVTIMEO.
Definition recvfrom (fuel : nat) (fd : Z) (f : syscall) := do_io fuel fd f READ FdManager.SO_RCVTIMEO.
Definition recvmsg (fuel : nat) (fd : Z) (f : syscall) := do_io fuel fd f READ FdManager.SO_RCVTIMEO.
Definition write (fuel : nat) (fd : Z) (f : syscall) := do_io fuel fd f WRITE FdManager.SO_SNDTIMEO.
Definition writev (fuel : nat) (fd : Z) (f : syscall) := do_io fuel fd f WRITE FdManager.SO_SNDTIMEO.
Definition send (fuel : nat) (fd : Z) (f : syscall) := do_io fuel fd f WRITE FdManager.SO_SNDTIMEO.
Definition sendto (fuel : nat) (fd : Z) (f : syscall) := do_io fuel fd f WRITE FdManager.SO_SNDTIMEO.
Definition sendmsg (fuel : nat) (fd : Z) (f : syscall) := do_io fuel fd f WRITE FdManager.SO_SNDTIMEO.

Definition accept (fuel : nat) (sockfd : Z) (accept_f : syscall) : M t Z :=
  fd ← do_io fuel sockfd accept_f READ FdManager.SO_RCVTIMEO;
  _ ← (if 0 <=? fd then _ ← FdMgr_get fd true; mret tt else mret tt);
  mret fd.

(** *** Sleeping: the timer's period in milliseconds, then the wait *)
Definition sleep_ms (seconds : Z) : Z := uint 32 (seconds * 1000).
Definition usleep_ms (usec : Z) : Z := usec / 1000.
Definition nanosleep_ms (tv_sec tv_nsec : Z) : M t Z :=
  a ← signed 64 (tv_sec * 1000);
  b ← signed 64 (a + Z.quot (Z.quot tv_nsec 1000) 1000);
  mret (uint 64 (sint 32 b)).

Definition sleep_timer (ms : Z) : M t Z :=
  _ ← iom (iom_addTimer ms); _ ← iom iom_hold; mret 0.

Definition sleep (sleep_f : syscall) (seconds : Z) : M t Z :=
  b ← is_hook_enable;
  if negb b then call sleep_f else sleep_timer (sleep_ms seconds).

Definition usleep (usleep_f : syscall) (usec : Z) : M t Z :=
  b ← is_hook_enable;
  if negb b then call usleep_f else sleep_timer (usleep_ms usec).

Definition nanosleep (nanosleep_f : syscall) (tv_sec tv_nsec : Z) : M t Z :=
  b ← is_hook_enable;
  if negb b then call nanosleep_f
  else ms ← nanosleep_ms tv_sec tv_nsec; sleep_timer ms.

(** *** socket, connect, close *)
Definition socket (socket_f : syscall) : M t Z :=
  b ← is_hook_enable;
  if negb b then call socket_f
  else
    fd ← call socket_f;
    if fd =? -1 then mret fd else _ ← FdMgr_get fd true; mret fd.

(** [so_error] is [getsockopt(SOL_SOCKET, SO_ERROR)]: its value and the option. *)
Definition connect_with_timeout (connect_f : syscall) (so_error : K → Z * Z * K) (sockfd : Z)
    (timeout_ms : Z) : M t Z :=
  b ← is_hook_enable;
  if negb b then call connect_f
  else
    ctx ← FdMgr_get sockfd false;
    match ctx with
    | None => _ ← set_errno EBADF; mret (-1)
    | Some c =>
        if FdManager.m_isClosed c then _ ← set_errno EBADF; mret (-1)
        else if negb (FdManager.m_isSocket c) then call connect_f
        else if FdManager.m_userNonblock c then call connect_f
        else
          n ← call connect_f;
          e ← gets errno;
          if n =? 0 then mret 0
          else if negb (n =? -1) || negb (e =? EINPROGRESS) then mret n
          else
            let timer := negb (timeout_ms =? FdManager.no_timeout) in
            let ask_socket : M t Z :=
              r ← iom_ask so_error;
              let '(rc, error) := r in
              if rc =? -1 then mret (-1)
              else if error =? 0 then mret 0
              else _ ← set_errno error; mret (-1) in
            _ ← (if timer then iom (iom_addCondTimer timeout_ms sockfd WRITE) else mret tt);
            ret ← iom_ask (iom_addEvent sockfd WRITE);
            if ret =? 0 then
              cancelled ← iom_ask iom_yield;
              _ ← (if timer then iom iom_cancelTimer else mret tt);
              if cancelled : bool then _ ← set_errno ETIMEDOUT; mret (-1) else ask_socket
            else
              _ ← (if timer then iom iom_cancelTimer else mret tt);
              ask_socket
    end.

Definition connect (connect_f : syscall) (so_error : K → Z * Z * K) (s_connect_timeout : Z)
    (sockfd : Z) : M t Z :=
  connect_with_timeout connect_f so_error sockfd s_connect_timeout.

(** [in_iom] tells whether the thread belongs to an IO manager. *)
Definition close (close_f : syscall) (in_iom : bool) (fd : Z) : M t Z :=
  b ← is_hook_enable;
  if negb b then call close_f
  else
    ctx ← FdMgr_get fd false;
    match ctx with
    | Some _ =>
        _ ← (if in_iom then iom (iom_cancelAll fd) else mret tt);
        _ ← fdm (FdManager.del fd);
        call close_f
    | None => call close_f
    end.

(** *** fcntl, ioctl, setsockopt *)
Definition sys_fcntl (fd cmd arg : Z) : M t Z := iom_ask (fcntl_f fd cmd arg).

Definition plain (ctx : option FdManager.FdCtx) : bool :=
  match ctx with
  | None => true
  | Some c => FdManager.m_isClosed c || negb (FdManager.m_isSocket c)
  end.

(** The commands whose argument is passed on. *)
Definition with_argument (cmd : Z) : bool :=
  bool_decide (cmd ∈ [0; 1030; 2; 8; 10; 1024; 1026; 1031; 6; 7; 5; 16; 15]).

Definition fcntl (fd cmd arg : Z) : M t Z :=
  if cmd =? FdManager.F_SETFL then
    ctx ← FdMgr_get fd false;
    if plain ctx then sys_fcntl fd cmd arg
    else
      _ ← fdm (FdManager.update fd
            (FdManager.setUserNonblock (negb (Z.land arg FdManager.O_NONBLOCK =? 0))));
      let sysNonblock := match ctx with Some c => FdManager.m_sysNonblock c | None => false end in
      sys_fcntl fd cmd (if sysNonblock then Z.lor arg FdManager.O_NONBLOCK
                        else Z.ldiff arg FdManager.O_NONBLOCK)
  else if cmd =? FdManager.F_GETFL then
    r ← sys_fcntl fd cmd 0;
    ctx ← FdMgr_get fd false;
    if plain ctx then mret r
    else
      let user := match ctx with Some c => FdManager.m_userNonblock c | None => false end in
      mret (if user then Z.lor r FdManager.O_NONBLOCK else Z.ldiff r FdManager.O_NONBLOCK)
  else sys_fcntl fd cmd (if with_argument cmd then arg else 0).

Definition ioctl (ioctl_f : syscall) (fd request arg : Z) : M t Z :=
  if request =? FIONBIO then
    ctx ← FdMgr_get fd false;
    if plain ctx then call ioctl_f
    else
      _ ← fdm (FdManager.update fd (FdManager.setUserNonblock (negb (arg =? 0))));
      call ioctl_f
  else call ioctl_f.

Definition timeval_ms (tv_sec tv_usec : Z) : M t Z :=
  a ← signed 64 (tv_sec * 1000);
  b ← signed 64 (a + Z.quot tv_usec 1000);
  mret (uint 64 b).

Definition getsockopt (getsockopt_f : syscall) : M t Z := call getsockopt_f.

Definition setsockopt (setsockopt_f : syscall) (sockfd level optname tv_sec tv_usec : Z) : M t Z :=
  b ← is_hook_enable;
  if negb b then call setsockopt_f
  else if (level =? SOL_SOCKET)
          && ((optname =? FdManager.SO_RCVTIMEO) || (optname =? FdManager.SO_SNDTIMEO)) then
    ctx ← FdMgr_get sockfd false;
    match ctx with
    | Some _ =>
        v ← timeval_ms tv_sec tv_usec;
        _ ← fdm (FdManager.update sockfd (FdManager.setTimeout optname v));
        call setsockopt_f
    | None => call setsockopt_f
    end
  else call setsockopt_f.
End hook.
Arguments t : clear implicits.
End Hook.
