(* ===== verification/HookProps.v ===== *)
(** Properties of the hooked system calls: waiting calls, the two views of
    O_NONBLOCK, durations, and connecting. *)
From stdpp Require Import base list numbers option.
From Stdlib Require Import ZArith Lia.
From S2P Require Import Prelude FdManager Hook.
Import Hook.
Local Open Scope Z_scope.

(** What the IO manager promises to a waiting call: [armed] counts the condition
    timers that are not cancelled; [work] is what the kernel still has to do
    before the call succeeds or fails for good. *)
Class IOMLaws (K : Type) `{IOM K} := {
  armed : K → nat;
  work : K → nat;
  armed_add : ∀ ms fd ev k, armed (iom_addCondTimer ms fd ev k) = S (armed k);
  armed_cancel : ∀ k, armed (iom_cancelTimer k) = pred (armed k);
  armed_event : ∀ fd ev k, armed (iom_addEvent fd ev k).2 = armed k;
  armed_yield : ∀ k, armed (iom_yield k).2 = armed k;
  work_add : ∀ ms fd ev k, (work (iom_addCondTimer ms fd ev k) ≤ work k)%nat;
  work_cancel : ∀ k, (work (iom_cancelTimer k) ≤ work k)%nat;
  work_event : ∀ fd ev k, (work (iom_addEvent fd ev k).2 ≤ work k)%nat;
  work_yield : ∀ k, (work (iom_yield k).2 ≤ work k)%nat
}.

Section props.
Context {K : Type} `{IOMLaws K}.
Variable fstat : Z → K → option bool.
Variable fcntl_f : Z → Z → Z → K → Z * K.
Abbreviation st := (Hook.t K).
Implicit Types (s : st) (func : syscall (K := K)).

(** The original function: every interruption and every "try again" brings it
    nearer to its end, and it leaves the timers alone. *)
Record io_function func : Prop := {
  io_work : ∀ k n e k', func k = (n, e, k') → n = -1 → e = EINTR ∨ e = EAGAIN →
    (work k' < work k)%nat;
  io_armed : ∀ k n e k', func k = (n, e, k') → armed k' = armed k
}.

(** The rest of the thread's state. *)
Definition same_thread s s' : Prop :=
  FdManager.m_fds (fds s') = FdManager.m_fds (fds s) ∧ t_hook_enable s' = t_hook_enable s.

Lemma same_thread_trans s1 s2 s3 : same_thread s1 s2 → same_thread s2 s3 → same_thread s1 s3.
Proof. unfold same_thread. intros [] []. split; congruence. Qed.

Definition returned func (n : Z) : Prop := ∃ k e k', func k = (n, e, k').

Lemma call_spec func s :
  ∃ n e k', func (k_of s) = (n, e, k') ∧ ∃ s', call func s = Ok n s' ∧ k_of s' = k' ∧
    same_thread s s' ∧ (n = -1 → errno s' = e).
Proof.
  unfold call. destruct (func (k_of s)) as [[n e] k'] eqn:E. exists n, e, k'. split; [done|].
  eexists. split; [done|]. destruct (Z.eqb_spec n (-1)); by split_and!.
Qed.

Lemma call_uninterrupted_spec func fuel s :
  io_function func → (work (k_of s) < fuel)%nat →
  ∃ n s', call_uninterrupted fuel func s = Ok n s' ∧ same_thread s s' ∧
    armed (k_of s') = armed (k_of s) ∧ returned func n ∧
    (n = -1 → errno s' ≠ EINTR) ∧
    (n = -1 → errno s' = EAGAIN → (work (k_of s') < work (k_of s))%nat).
Proof.
  intros Hf. revert s. induction fuel as [|fuel IH]; intros s Hfuel; [lia|]. simpl.
  destruct (call_spec func s) as (n & e & k' & Hfun & s1 & Hc & Hk & Hst & He).
  unfold_M. rewrite Hc. simpl.
  destruct (Z.eqb_spec n (-1)) as [->|Hn]; simpl.
  - rewrite He by done. destruct (Z.eqb_spec e EINTR) as [->|Hne].
    + assert (work (k_of s1) < work (k_of s))%nat as Hw
        by (rewrite Hk; eapply io_work; [done|done|done|by left]).
      destruct (IH s1) as (n & s2 & -> & H1 & H2 & H4 & H5 & H6); [lia|].
      exists n, s2. split; [done|]. split_and!; try done.
      * by eapply same_thread_trans.
      * rewrite H2, Hk. by eapply io_armed.
      * intros Hn Hea. specialize (H6 Hn Hea). lia.
    + exists (-1), s1. split; [done|]. split_and!; try done.
      * rewrite Hk. by eapply io_armed.
      * unfold returned. eauto.
      * intros _. by rewrite He.
      * intros _. rewrite He by done. intros ->. rewrite Hk. eapply io_work; [done|done|done|by right].
  - exists n, s1. split; [done|]. split_and!; try done.
    + rewrite Hk. by eapply io_armed.
    + unfold returned. eauto.
Qed.

Lemma iom_spec (f : K → K) s :
  iom f s = Ok tt (set_kernel (f (k_of s)) s) ∧ same_thread s (set_kernel (f (k_of s)) s).
Proof. done. Qed.

(** The outcome of a waiting call. *)
Definition settled func s (n : Z) s' : Prop :=
  same_thread s s' ∧ armed (k_of s') = armed (k_of s) ∧
  (returned func n ∨ n = -1) ∧
  (n = -1 → errno s' ≠ EINTR) ∧
  ((∀ fd ev k, (iom_addEvent fd ev k).1 = 0) → n = -1 → errno s' ≠ EAGAIN).

(** Arming the timer, if there is one. *)
Lemma timer_spec (b : bool) (f : K → K) s :
  ∃ s', (if b then iom f else mret tt) s = Ok tt s' ∧ same_thread s s' ∧ errno s' = errno s ∧
    k_of s' = (if b then f (k_of s) else k_of s).
Proof. destruct b; eexists; (split; [done|]); by destruct s as [[k l] e h]. Qed.

Lemma do_io_retry_spec func fd event to fuel s :
  io_function func → (work (k_of s) < fuel)%nat →
  ∃ n s', do_io_retry fuel func fd event to s = Ok n s' ∧ settled func s n s'.
Proof.
  intros Hf. revert s. induction fuel as [|fuel IH]; intros s Hfuel; [lia|].
  cbn [do_io_retry].
  destruct (call_uninterrupted_spec func (S fuel) s Hf Hfuel)
    as (n & s1 & Hc & Hst & Har & Hret & Hint & Hag).
  unfold_M. rewrite Hc. cbn beta iota.
  destruct (Z.eqb_spec n (-1)) as [->|Hn]; cbn [andb].
  2: { exists n, s1. split; [done|]. unfold settled. split_and!; try done. by left. }
  destruct (Z.eqb_spec (errno s1) EAGAIN) as [Ha|Hna].
  2: { exists (-1), s1. split; [done|]. unfold settled. split_and!; auto. }
  set (b := negb (to =? FdManager.no_timeout)).
  destruct (timer_spec b (iom_addCondTimer to fd event) s1) as (s2 & H2 & Hst2 & Her2 & Hk2).
  unfold_M. rewrite H2. cbn beta iota. unfold iom_ask at 1.
  destruct (iom_addEvent fd event (k_of s2)) as [ret k3] eqn:Hev. cbn beta iota.
  assert (armed k3 = armed (k_of s2) ∧ (work k3 ≤ work (k_of s2))%nat) as [Har3 Hw3].
  { split; [by rewrite <-(armed_event fd event (k_of s2)), Hev|].
    pose proof (work_event fd event (k_of s2)) as Hw. by rewrite Hev in Hw. }
  assert (armed (k_of s2) = (if b then S (armed (k_of s1)) else armed (k_of s1)) ∧
    (work (k_of s2) ≤ work (k_of s1))%nat) as [Har2 Hw2].
  { rewrite Hk2. destruct b; [|done]. split; [apply armed_add|apply work_add]. }
  specialize (Hag eq_refl Ha).
  destruct (ret =? 0) eqn:Hr; cbn [negb].
  - unfold iom_ask. change (k_of (set_kernel k3 s2)) with k3.
    destruct (iom_yield k3) as [c k4] eqn:Hy. cbn beta iota.
    assert (armed k4 = armed k3 ∧ (work k4 ≤ work k3)%nat) as [Har4 Hw4].
    { split; [by rewrite <-(armed_yield k3), Hy|]. pose proof (work_yield k3) as Hw. by rewrite Hy in Hw. }
    set (s4 := set_kernel k4 (set_kernel k3 s2)).
    destruct (timer_spec b iom_cancelTimer s4) as (s5 & H5 & Hst5 & Her5 & Hk5).
    unfold_M. rewrite H5. cbn beta iota. change (k_of s4) with k4 in Hk5.
    assert (armed (k_of s5) = armed (k_of s) ∧ (work (k_of s5) ≤ work k4)%nat) as [Har5 Hw5].
    { rewrite Hk5. destruct b; [|split; [congruence|done]]. split; [|apply work_cancel].
      rewrite armed_cancel, Har4, Har3, Har2. simpl. done. }
    assert (same_thread s s5) as Hst05.
    { eapply same_thread_trans; [exact Hst|]. eapply same_thread_trans; [exact Hst2|]. exact Hst5. }
    destruct c.
    + eexists (-1), _. split; [done|]. split_and!; [exact Hst05|exact Har5|by right|done|done].
    + destruct (IH s5) as (n & s6 & -> & Hst6 & Har6 & Hrest); [lia|].
      exists n, s6. split; [done|]. split; [by eapply same_thread_trans|]. split; [congruence|done].
  - destruct (timer_spec b iom_cancelTimer (set_kernel k3 s2)) as (s5 & H5 & Hst5 & Her5 & Hk5).
    unfold_M. rewrite H5. cbn beta iota. change (k_of (set_kernel k3 s2)) with k3 in Hk5.
    exists (-1), s5. split; [done|]. split_and!.
    + eapply same_thread_trans; [exact Hst|]. eapply same_thread_trans; [exact Hst2|]. exact Hst5.
    + rewrite Hk5. destruct b; [rewrite armed_cancel, Har3, Har2; simpl; done|congruence].
    + by right.
    + intros _. rewrite Her5. simpl. rewrite Her2, Ha. done.
    + intros Hok. specialize (Hok fd event (k_of s2)). rewrite Hev in Hok. simpl in Hok. lia.
Qed.

(** The context of a descriptor in the table. *)
Definition ctx_of s (fd : Z) : option FdManager.FdCtx :=
  if fd <? 0 then None else match FdManager.m_fds (fds s) !! Z.to_nat fd with
                            | Some o => o
                            | None => None
                            end.

Lemma FdMgr_get_spec s fd : -1 ≤ fd → FdMgr_get fstat fcntl_f fd false s = Ok (ctx_of s fd) s.
Proof.
  intros Hfd. unfold FdMgr_get, fdm, FdManager.get_fd, FdManager.index, ctx_of. unfold_M.
  destruct (Z.eqb_spec fd (-1)) as [->|]; [simpl; by destruct s|].
  destruct (Z.ltb_spec fd 0); [lia|].
  destruct (Z.leb_spec (Z.of_nat (length (FdManager.m_fds (fds s)))) fd).
  - rewrite (proj2 (lookup_ge_None _ _)) by lia. by destruct s.
  - destruct (lookup_lt_is_Some_2 (FdManager.m_fds (fds s)) (Z.to_nat fd)) as [o ->]; [lia|].
    destruct o; by destruct s.
Qed.

(** The call is left to the kernel as it is. *)
Definition passes s (fd : Z) : Prop :=
  t_hook_enable s = false ∨
  match ctx_of s fd with
  | None => True
  | Some c => FdManager.m_isClosed c = false ∧
      (FdManager.m_isSocket c = false ∨ FdManager.m_userNonblock c = true)
  end.

(** The call may wait in the IO manager. *)
Definition waits s (fd : Z) : Prop :=
  t_hook_enable s = true ∧ ∃ c, ctx_of s fd = Some c ∧ FdManager.m_isClosed c = false ∧
    FdManager.m_isSocket c = true ∧ FdManager.m_userNonblock c = false.

(** C16. A hooked call on a blocking socket always comes back with an answer of
    the original function or with an error, and never with EINTR; it never
    reports EAGAIN while registering events works; and it leaves no condition
    timer behind. Everything else goes to the original function unchanged. *)
Theorem do_io_answers (fuel : nat) (fd : Z) func (event timeout_type : Z) s :
  -1 ≤ fd → io_function func → (work (k_of s) < fuel)%nat →
  (waits s fd → wp (do_io fstat fcntl_f fuel fd func event timeout_type)
     (λ n s', settled func s n s') s) ∧
  (passes s fd → do_io fstat fcntl_f fuel fd func event timeout_type s = call func s).
Proof.
  intros Hfd Hf Hfuel. split.
  - intros (Hh & c & Hc & Hcl & Hs & Hu). unfold wp, do_io, is_hook_enable. unfold_M. rewrite Hh.
    simpl. rewrite FdMgr_get_spec, Hc by done. rewrite Hcl, Hs, Hu. simpl.
    destruct (do_io_retry_spec func fd event (FdManager.getTimeout timeout_type c) fuel s Hf Hfuel)
      as (n & s' & -> & Hset). done.
  - intros Hp. unfold do_io, is_hook_enable. unfold_M.
    destruct (t_hook_enable s) eqn:Hh; simpl; [|done].
    rewrite FdMgr_get_spec by done. destruct Hp as [?|Hp]; [congruence|].
    destruct (ctx_of s fd) as [c|]; [|done].
    destruct Hp as [-> [-> | ->]]; [done|]. by rewrite orb_true_r.
Qed.

(** *** The two views of O_NONBLOCK *)
Definition NB : Z := FdManager.O_NONBLOCK.

Lemma nb_set a : Z.land a NB ≠ 0 → Z.lor a NB = a.
Proof.
  intros Ha. apply Z.bits_inj'. intros n Hn. rewrite Z.lor_spec.
  change NB with (2 ^ 11) in *. rewrite Z.pow2_bits_eqb by lia.
  destruct (Z.eqb_spec 11 n) as [<-|]; [|by rewrite orb_false_r].
  destruct (Z.testbit a 11) eqn:E; [done|]. exfalso. apply Ha.
  apply Z.bits_inj'. intros m Hm. rewrite Z.land_spec, Z.pow2_bits_eqb, Z.bits_0 by lia.
  destruct (Z.eqb_spec 11 m) as [<-|]; [by rewrite E|by rewrite andb_false_r].
Qed.

Lemma nb_clear a : Z.land a NB = 0 → Z.ldiff (Z.lor a NB) NB = a.
Proof.
  intros Ha. apply Z.bits_inj'. intros n Hn. rewrite Z.ldiff_spec, Z.lor_spec.
  assert (Z.testbit (Z.land a NB) n = false) as Hb by (by rewrite Ha, Z.bits_0).
  rewrite Z.land_spec in Hb. destruct (Z.testbit a n), (Z.testbit NB n); simpl in *; done.
Qed.

Lemma nb_present a : Z.land (Z.lor a NB) NB ≠ 0.
Proof.
  intros E. assert (Z.testbit (Z.land (Z.lor a NB) NB) 11 = false) as Hb by by rewrite E, Z.bits_0.
  rewrite Z.land_spec, Z.lor_spec in Hb. change (Z.testbit NB 11) with true in Hb.
  by rewrite orb_true_r in Hb.
Qed.

(** On a socket that the hooks keep non-blocking, F_GETFL shows exactly the
    flags the user gave to F_SETFL, with or without O_NONBLOCK, while the
    kernel's descriptor stays non-blocking. FIONBIO is passed on as it is: it
    records the user's wish, but also makes the kernel's descriptor follow. *)
Theorem fcntl_shows_user_flags (fd a : Z) s (c : FdManager.FdCtx) (ioctl_f : syscall (K := K)) (v : Z) :
  (∀ b k, (fcntl_f fd FdManager.F_GETFL 0 (fcntl_f fd FdManager.F_SETFL b k).2).1 = b) →
  ctx_of s fd = Some c → FdManager.m_isClosed c = false → FdManager.m_isSocket c = true →
  FdManager.m_sysNonblock c = true →
  wp (_ ← fcntl fstat fcntl_f fd FdManager.F_SETFL a; fcntl fstat fcntl_f fd FdManager.F_GETFL 0)
    (λ r s', r = a) s ∧
  wp (fcntl fstat fcntl_f fd FdManager.F_SETFL a) (λ _ s',
    Z.land (fcntl_f fd FdManager.F_GETFL 0 (k_of s')).1 NB ≠ 0 ∧
    FdManager.m_userNonblock <$> ctx_of s' fd = Some (negb (Z.land a NB =? 0))) s ∧
  wp (ioctl fstat fcntl_f ioctl_f fd FIONBIO v) (λ r s',
    FdManager.m_userNonblock <$> ctx_of s' fd = Some (negb (v =? 0)) ∧
    ∃ e, ioctl_f (k_of s) = (r, e, k_of s')) s.
Proof.
  intros Hlaw Hc Hcl Hs Hsys.
  assert (0 ≤ fd) as Hfd.
  { unfold ctx_of in Hc. destruct (Z.ltb_spec fd 0); [done|lia]. }
  set (u := negb (Z.land a FdManager.O_NONBLOCK =? 0)).
  assert (∀ s0 (b : bool), ctx_of s0 fd = Some c →
    ∃ s1, fdm (FdManager.update fd (FdManager.setUserNonblock b)) s0 = Ok tt s1 ∧ k_of s1 = k_of s0 ∧
    ctx_of s1 fd = Some (FdManager.setUserNonblock b c)) as Hup.
  { intros s0 b Hc0. eexists. split; [done|]. split; [done|]. unfold ctx_of in *. simpl.
    destruct (Z.ltb_spec fd 0); [lia|]. rewrite list_lookup_alter_eq.
    destruct (FdManager.m_fds (fds s0) !! Z.to_nat fd); simplify_eq/=. done. }
  assert (∃ s1, fcntl fstat fcntl_f fd FdManager.F_SETFL a s =
      Ok (fcntl_f fd FdManager.F_SETFL (Z.lor a NB) (k_of s)).1 s1 ∧
    k_of s1 = (fcntl_f fd FdManager.F_SETFL (Z.lor a NB) (k_of s)).2 ∧
    ctx_of s1 fd = Some (FdManager.setUserNonblock u c)) as (s1 & Hset & Hk1 & Hc1).
  { unfold fcntl. rewrite Z.eqb_refl. unfold_M. rewrite FdMgr_get_spec, Hc by lia. unfold plain.
    cbn beta iota. rewrite Hcl, Hs, Hsys. cbn [orb negb]. fold u. destruct (Hup s u Hc) as (s1 & -> & Hk & Hc1).
    unfold sys_fcntl, iom_ask. rewrite Hk. fold NB.
    destruct (fcntl_f fd FdManager.F_SETFL (Z.lor a NB) (k_of s)) as [r k]. simpl.
    eexists. split; [done|]. by destruct s1. }
  split_and!.
  - unfold wp, mbind, M_bind. rewrite Hset. unfold fcntl. unfold_M. simpl. unfold sys_fcntl, iom_ask at 1.
    pose proof (Hlaw (Z.lor a NB) (k_of s)) as Hg. rewrite <-Hk1 in Hg.
    destruct (fcntl_f fd FdManager.F_GETFL 0 (k_of s1)) as [r k2]. simpl in Hg. subst r. simpl.
    rewrite FdMgr_get_spec by lia.
    change (ctx_of (set_kernel k2 s1) fd) with (ctx_of s1 fd). rewrite Hc1. unfold plain. simpl.
    rewrite Hcl, Hs. simpl. fold NB. subst u. fold NB.
    destruct (Z.eqb_spec (Z.land a NB) 0); simpl; [by apply nb_clear|].
    rewrite <-Z.lor_assoc, Z.lor_diag. by apply nb_set.
  - unfold wp. rewrite Hset. rewrite Hk1, Hlaw, Hc1. split; [apply nb_present|done].
  - unfold wp, ioctl. rewrite Z.eqb_refl. unfold_M.
    rewrite FdMgr_get_spec by lia. rewrite Hc. unfold plain.
    cbn beta iota. rewrite Hcl, Hs. cbn [orb negb]. destruct (Hup s (negb (v =? 0)) Hc) as (s2 & -> & Hk & Hc2).
    unfold call. rewrite Hk.
    destruct (ioctl_f (k_of s)) as [[r e] k]. simpl.
    destruct (r =? -1); (split; [unfold ctx_of in *; simpl; by rewrite Hc2|by exists e]).
Qed.

(** *** Connecting *)

(** What the kernel says about a connection that was in progress. *)
Definition verdict (so_error : K → Z * Z * K) (k : K) : Z :=
  let '(rc, error, _) := so_error k in if (rc =? -1) || negb (error =? 0) then -1 else 0.

(** The question for the socket's error after the wait. *)
Lemma ask_error (so_error : K → Z * Z * K) k n s :
  k_of s = k → armed (so_error k).2 = n →
  match match iom_ask so_error s with
    | Ok a s' => (let '(rc, error) := a in
        if rc =? -1 then λ s0, Ok (-1) s0
        else if error =? 0 then λ s0, Ok 0 s0
        else λ s0, match set_errno error s0 with
                   | Ok _ s' => Ok (-1) s' | Exn e s' => Exn e s' | Fault f => Fault f end) s'
    | Exn e s' => Exn e s'
    | Fault f => Fault f
    end with
  | Ok r s' => armed (k_of s') = n ∧ r = verdict so_error k
  | _ => False
  end.
Proof.
  intros <- <-. unfold iom_ask, verdict. destruct (so_error (k_of s)) as [[rc er] k6].
  destruct (rc =? -1); [by split|]. by destruct (er =? 0).
Qed.

(** A connection in progress is waited for with one write event and, with a
    timeout, one timer that is cancelled again. It fails with ETIMEDOUT when
    the timer woke the fiber, and else the socket's SO_ERROR decides - also
    when the event could not be registered, so that nobody waited: a connection
    still in progress is then reported as established. *)
Theorem connect_outcome (connect_f : syscall (K := K)) (so_error : K → Z * Z * K)
    (fd timeout_ms e : Z) s k1 :
  waits s fd → -1 ≤ fd → connect_f (k_of s) = (-1, e, k1) → e = EINPROGRESS →
  (∀ k, armed (so_error k).2 = armed k) →
  let timer := negb (timeout_ms =? FdManager.no_timeout) in
  let k2 := if timer then iom_addCondTimer timeout_ms fd WRITE k1 else k1 in
  let '(ret, k3) := iom_addEvent fd WRITE k2 in
  let '(cancelled, k4) := if ret =? 0 then iom_yield k3 else (false, k3) in
  let k5 := if timer then iom_cancelTimer k4 else k4 in
  wp (connect_with_timeout fstat fcntl_f connect_f so_error fd timeout_ms) (λ r s',
    armed (k_of s') = armed k1 ∧
    if cancelled then r = -1 ∧ errno s' = ETIMEDOUT else r = verdict so_error k5) s.
Proof.
  intros (Hh & c & Hc & Hcl & Hs & Hu) Hfd Hcon -> Hso timer k2.
  destruct (iom_addEvent fd WRITE k2) as [ret k3] eqn:Hev.
  destruct (if ret =? 0 then iom_yield k3 else (false, k3)) as [cancelled k4] eqn:Hy.
  intros k5.
  assert (armed k5 = armed k1) as Harm.
  { assert (armed k3 = armed k2) as E3 by (by rewrite <-(armed_event fd WRITE k2), Hev).
    assert (armed k4 = armed k3) as E4.
    { destruct (ret =? 0); [by rewrite <-(armed_yield k3), Hy|by injection Hy as _ <-]. }
    subst k5 k2. destruct timer; [by rewrite armed_cancel, E4, E3, armed_add|by rewrite E4, E3]. }
  unfold wp, connect_with_timeout, is_hook_enable. unfold_M. rewrite Hh. cbn [negb].
  rewrite FdMgr_get_spec, Hc by done. cbn beta iota. rewrite Hcl, Hs, Hu. cbn [negb].
  unfold call at 1. rewrite Hcon. cbn beta iota. change (-1 =? -1) with true.
  change (-1 =? 0) with false. cbn [negb orb]. unfold gets. cbn [errno].
  change (EINPROGRESS =? EINPROGRESS) with true. cbn [negb]. fold timer.
  set (s1 := Hook.mk (fds (set_kernel k1 s)) EINPROGRESS (t_hook_enable (set_kernel k1 s))).
  destruct (timer_spec timer (iom_addCondTimer timeout_ms fd WRITE) s1) as (s2 & H2 & _ & _ & Hk2).
  unfold mret, M_ret in H2. rewrite H2. cbn beta iota. unfold iom_ask at 1.
  change (k_of s1) with k1 in Hk2. fold k2 in Hk2. rewrite Hk2, Hev. cbn beta iota.
  assert (∀ s4, k_of s4 = k4 →
    ∃ s5, (if timer then iom iom_cancelTimer else λ s0, Ok tt s0) s4 = Ok tt s5 ∧ k_of s5 = k5) as Hcancel.
  { intros s4 Hk4. destruct (timer_spec timer iom_cancelTimer s4) as (s5 & H5 & _ & _ & Hk5).
    unfold mret, M_ret in H5. exists s5. split; [done|]. by rewrite Hk5, Hk4. }
  destruct (ret =? 0) eqn:Hret.
  - unfold iom_ask at 1. change (k_of (set_kernel k3 s2)) with k3. rewrite Hy. cbn beta iota.
    destruct (Hcancel (set_kernel k4 (set_kernel k3 s2)) eq_refl) as (s5 & -> & Hk5). cbn beta iota.
    destruct cancelled; [|by apply ask_error; rewrite ?Hso]. unfold set_errno, modify. cbn. split; [|done].
    by rewrite <-Harm, <-Hk5.
  - injection Hy as <- <-. destruct (Hcancel (set_kernel k3 s2) eq_refl) as (s5 & -> & Hk5).
    cbn beta iota. by apply ask_error; rewrite ?Hso.
Qed.
End props.

(** Durations are handed to the timers in milliseconds: sleep is exact below
    2^32 ms and wraps around above, usleep rounds down, nanosleep is exact
    below 2^31 ms but from there up to 2^32 ms its timer never fires; a zero
    receive or send timeout, and every one below a millisecond, is stored as 0,
    which expires at once where the socket option means no limit. *)
Theorem durations_in_milliseconds {K : Type} (s : Hook.t K) (a b : Z) :
  0 ≤ a < 2 ^ 32 → 0 ≤ b < 10 ^ 9 →
  (sleep_ms a = a * 1000 ↔ a * 1000 < 2 ^ 32) ∧
  usleep_ms a * 1000 ≤ a < usleep_ms a * 1000 + 1000 ∧
  (let ms := a * 1000 + b / 10 ^ 6 in
   nanosleep_ms a b s = Ok (if ms <? 2 ^ 31 then ms else uint 64 (sint 32 ms)) s ∧
   (2 ^ 31 ≤ ms < 2 ^ 32 → uint 64 (sint 32 ms) = 2 ^ 64 - 2 ^ 32 + ms)) ∧
  (b < 10 ^ 6 → timeval_ms a b s = Ok (a * 1000 + b / 1000) s) ∧
  (b < 1000 → timeval_ms 0 b s = Ok 0 s).
Proof.
  intros Ha Hb. cbv zeta.
  assert (∀ z, 0 ≤ z < 2 ^ 63 → signed (S := Hook.t K) 64 z = mret z) as Hsig.
  { intros z Hz. unfold signed. rewrite decide_True; [done|]. unfold in_sint. lia. }
  split_and!.
  - unfold sleep_ms, uint. split; [|intros; apply Z.mod_small; lia].
    intros E. pose proof (Z.mod_pos_bound (a * 1000) (2 ^ 32)). lia.
  - unfold usleep_ms. pose proof (Z.div_mod a 1000 ltac:(lia)).
    pose proof (Z.mod_pos_bound a 1000 ltac:(lia)). lia.
  - unfold usleep_ms. pose proof (Z.div_mod a 1000 ltac:(lia)).
    pose proof (Z.mod_pos_bound a 1000 ltac:(lia)). lia.
  - unfold nanosleep_ms. rewrite (Z.quot_div_nonneg b 1000) by lia.
    assert (0 ≤ b / 1000) as Hq0 by (apply Z.div_pos; lia).
    rewrite Z.quot_div_nonneg, Z.div_div by lia.
    change (1000 * 1000) with (10 ^ 6). set (q := b / 10 ^ 6).
    assert (0 ≤ q < 1000) as Hq.
    { split; [apply Z.div_pos; lia|]. apply Z.div_lt_upper_bound; lia. }
    rewrite Hsig by lia. unfold_M. rewrite Hsig by lia. unfold_M.
    destruct (Z.ltb_spec (a * 1000 + q) (2 ^ 31)); [|done].
    rewrite sint_id by (unfold in_sint; lia). by rewrite uint_id by (unfold in_uint; lia).
  - intros Hms. set (ms := a * 1000 + b / 10 ^ 6) in *.
    assert (sint 32 ms = ms - 2 ^ 32) as ->.
    { unfold sint. rewrite <-(Z.mod_unique (ms + 2 ^ (32 - 1)) (2 ^ 32) 1 (ms + 2 ^ 31 - 2 ^ 32)); lia. }
    unfold uint. symmetry. apply (Z.mod_unique _ _ (-1)); lia.
  - intros Hb'. unfold timeval_ms. rewrite Z.quot_div_nonneg by lia.
    assert (0 ≤ b / 1000 < 1000) by (split; [apply Z.div_pos; lia|apply Z.div_lt_upper_bound; lia]).
    rewrite Hsig by lia. unfold_M. rewrite Hsig by lia. unfold_M. f_equal.
    apply uint_id. unfold in_uint. lia.
  - intros Hb'. unfold timeval_ms. rewrite Z.quot_small by lia. simpl.
    rewrite Hsig by lia. unfold_M. rewrite Hsig by lia. done.
Qed.

(** A kernel that answers "try again" [more] times and then five bytes; it keeps
    the flags of the descriptor and counts the armed timers. *)
Record toy := mk_toy { more : nat; flags : Z; timers : nat }.
#[local] Instance toy_iom : IOM toy := {
  iom_addCondTimer ms fd ev k := mk_toy (more k) (flags k) (S (timers k));
  iom_cancelTimer k := mk_toy (more k) (flags k) (pred (timers k));
  iom_addEvent fd ev k := (0, k);
  iom_yield k := (false, k);
  iom_addTimer ms k := k;
  iom_hold k := k;
  iom_cancelAll fd k := k
}.
#[local] Instance toy_laws : IOMLaws toy.
Proof. by refine {| armed := timers; work := more |}. Defined.

Definition toy_read : syscall (K := toy) := λ k,
  match more k with O => (5, 0, k) | S n => (-1, EAGAIN, mk_toy n (flags k) (timers k)) end.
Definition toy_fcntl (fd cmd arg : Z) (k : toy) : Z * toy :=
  if cmd =? FdManager.F_SETFL then (0, mk_toy (more k) arg (timers k)) else (flags k, k).
Definition toy_stat (fd : Z) (k : toy) : option bool := Some true.
Definition toy_ctx : FdManager.FdCtx := FdManager.mk_ctx true true true false false 3 1000 1000.
Definition toy_state : Hook.t toy :=
  Hook.mk (FdManager.mk (mk_toy 2 2050 0) [None; None; None; Some toy_ctx]) 0 true.

Lemma toy_io : io_function toy_read.
Proof.
  split; intros [[|m] fl tm] n e k'; unfold toy_read; simpl; intros [= <- <- <-]; simpl; lia || done.
Qed.

Lemma toy_waits : waits toy_state 3.
Proof. split; [done|]. by exists toy_ctx. Qed.

Lemma do_io_answers_witness :
  ∃ s', read toy_stat toy_fcntl 5 3 toy_read toy_state = Ok 5 s' ∧ armed (k_of s') = 0%nat.
Proof.
  assert (-1 ≤ 3) as Hfd by lia.
  assert (work (k_of toy_state) < 5)%nat as Hw by (simpl; lia).
  destruct (do_io_answers toy_stat toy_fcntl 5 3 toy_read READ FdManager.SO_RCVTIMEO toy_state
    Hfd toy_io Hw) as [H _].
  specialize (H toy_waits). apply wp_ok in H as (n & s' & He & _ & Har & _).
  exists s'. split; [|exact Har]. unfold read. rewrite He. f_equal.
  vm_compute in He. by injection He as <- _.
Defined.

Lemma fcntl_shows_user_flags_witness :
  wp (_ ← fcntl toy_stat toy_fcntl 3 FdManager.F_SETFL 2; fcntl toy_stat toy_fcntl 3 FdManager.F_GETFL 0)
    (λ r s', r = 2) toy_state.
Proof.
  apply (fcntl_shows_user_flags toy_stat toy_fcntl 3 2 toy_state toy_ctx toy_read 0); done.
Defined.

Definition toy_connect : syscall (K := toy) := λ k, (-1, EINPROGRESS, k).

Lemma connect_outcome_witness :
  wp (connect_with_timeout toy_stat toy_fcntl toy_connect (λ k, (0, 111, k)) 3 500) (λ r s',
    r = -1 ∧ armed (k_of s') = 0%nat) toy_state.
Proof.
  assert (-1 ≤ 3) as Hfd by lia.
  pose proof (connect_outcome toy_stat toy_fcntl toy_connect (λ k, (0, 111, k)) 3 500 EINPROGRESS
    toy_state (mk_toy 2 2050 0) toy_waits Hfd eq_refl eq_refl (λ _, eq_refl)) as H.
  eapply (wp_mono _ (λ r s', armed (k_of s') = 0%nat ∧ r = -1)); [exact H|].
  intros r s' [Ha Hr]. by split.
Defined.

Lemma durations_in_milliseconds_witness :
  sleep_ms 10 = 10000 ∧ nanosleep_ms 3000000 0 toy_state = Ok (2 ^ 64 - 2 ^ 32 + 3000000000) toy_state ∧
  timeval_ms 0 999 toy_state = Ok 0 toy_state.
Proof.
  assert (0 ≤ 10 < 2 ^ 32) as H1 by lia. assert (0 ≤ 3000000 < 2 ^ 32) as H2 by lia.
  assert (0 ≤ 0 < 10 ^ 9) as H3 by lia. assert (0 ≤ 999 < 10 ^ 9) as H4 by lia.
  destruct (durations_in_milliseconds toy_state 10 0 H1 H3) as (Hs & _).
  destruct (durations_in_milliseconds toy_state 3000000 0 H2 H3) as (_ & _ & (Hn & _) & _).
  destruct (durations_in_milliseconds toy_state 10 999 H1 H4) as (_ & _ & _ & _ & Ht).
  split_and!; [by apply Hs|by rewrite Hn|apply Ht; lia].
Defined.
