(* ===== verification/CString.v ===== *)
(** * C strings

    Bytes are numbers below 256. [c_str] is what a function that takes a
    [const char*] sees of a [std::string]: the bytes in front of the first zero.
    The comparisons of [<string.h>] and [<strings.h>] return the order of the
    first difference, in the C locale. *)
From stdpp Require Import base list numbers option strings.
From Stdlib Require Import ZArith Lia.
From S2P Require Import Prelude.

Local Open Scope Z_scope.

(** The bytes of a literal. *)
Fixpoint str (s : string) : list Z :=
  match s with
  | EmptyString => []
  | String c s' => Z.of_nat (Ascii.nat_of_ascii c) :: str s'
  end.

Fixpoint c_str (l : list Z) : list Z :=
  match l with
  | [] => []
  | c :: l' => if c =? 0 then [] else c :: c_str l'
  end.

(** [memchr]: the position of the first [c]. *)
Fixpoint memchr (l : list Z) (c : Z) : option nat :=
  match l with
  | [] => None
  | x :: l' => if x =? c then Some O else S <$> memchr l' c
  end.

(** The order of the first difference of two byte strings; a string is in
    front of its extensions. *)
Fixpoint compare_bytes (l r : list Z) : comparison :=
  match l, r with
  | [], [] => Eq
  | [], _ :: _ => Lt
  | _ :: _, [] => Gt
  | x :: l', y :: r' => match x ?= y with Eq => compare_bytes l' r' | c => c end
  end.

Definition tolower (c : Z) : Z := if (65 <=? c) && (c <=? 90) then c + 32 else c.

(** What [strcasecmp] looks at. *)
Definition fold_case (l : list Z) : list Z := tolower <$> c_str l.

Definition strcmp (l r : list Z) : comparison := compare_bytes (c_str l) (c_str r).
Definition strcasecmp (l r : list Z) : comparison := compare_bytes (fold_case l) (fold_case r).
Definition strncmp (l r : list Z) (n : nat) : comparison :=
  compare_bytes (take n (c_str l)) (take n (c_str r)).

Definition is_eq (c : comparison) : bool := match c with Eq => true | _ => false end.
Definition is_lt (c : comparison) : bool := match c with Lt => true | _ => false end.

Lemma compare_bytes_eq l r : compare_bytes l r = Eq ↔ l = r.
Proof.
  revert r; induction l as [|x l IH]; intros [|y r]; simpl; try done.
  destruct (Z.compare_spec x y) as [->|H|H].
  - rewrite IH. split; [by intros ->|by intros [= ->]].
  - split; [done|]. intros [= -> _]. lia.
  - split; [done|]. intros [= -> _]. lia.
Qed.

Lemma compare_bytes_antisym l r : compare_bytes r l = CompOpp (compare_bytes l r).
Proof.
  revert r; induction l as [|x l IH]; intros [|y r]; simpl; try done.
  rewrite (Z.compare_antisym x y). destruct (x ?= y); simpl; try done.
Qed.

Lemma compare_bytes_trans l1 l2 l3 :
  compare_bytes l1 l2 = Lt → compare_bytes l2 l3 = Lt → compare_bytes l1 l3 = Lt.
Proof.
  revert l2 l3; induction l1 as [|x l1 IH]; intros [|y l2] [|z l3]; simpl; try done.
  destruct (Z.compare_spec x y) as [->|H|H]; try done;
    destruct (Z.compare_spec y z) as [->|H'|H']; try done; intros H1 H2.
  - by eapply IH.
  - by replace (x ?= z) with Lt by (symmetry; apply Z.compare_lt_iff; lia).
  - by replace (x ?= z) with Lt by (symmetry; apply Z.compare_lt_iff; lia).
Qed.

Lemma strcmp_eq l r : is_eq (strcmp l r) = bool_decide (c_str l = c_str r).
Proof.
  unfold strcmp. pose proof (compare_bytes_eq (c_str l) (c_str r)) as H.
  case_bool_decide as E; destruct (compare_bytes _ _); simpl; try done; exfalso;
    try (by apply H in E); by apply E, H.
Qed.

Lemma strcasecmp_eq l r : is_eq (strcasecmp l r) = bool_decide (fold_case l = fold_case r).
Proof.
  unfold strcasecmp. pose proof (compare_bytes_eq (fold_case l) (fold_case r)) as H.
  case_bool_decide as E; destruct (compare_bytes _ _); simpl; try done; exfalso;
    try (by apply H in E); by apply E, H.
Qed.
