(* ===== verification/Thread.v ===== *)
(** Threads: [thread.h] and [thread.cc].

    One Thread object is shared by the thread that creates it and the thread it
    starts. Each side is a program whose steps are the statements of the code
    that touch shared state, and an order of steps, given as a list, interleaves
    them: the constructor with [Thread::run], then the calls the creator makes
    on the object with the callback. The object can be destroyed while the new
    thread still runs; touching it afterwards is the fault [Dangling]. The
    answers of the POSIX functions, a thread's number [tid] and its handle, are
    parameters. *)
From stdpp Require Import base list numbers option strings.
From Stdlib Require Import ZArith Lia.
From S2P Require Import Prelude CString Mutex.

Module Thread.
Local Open Scope Z_scope.

(** What the callback does: [SetName] and [GetThis()->getId()] touch the object
    through [t_thread]; everything else does not. *)
Inductive act :=
| SetName (name : list Z)
| LookAtThis
| Other.

Record Thread := mk_Thread {
  m_id : Z;
  m_threadId : Z;
  m_cb : option (list act);
  m_name : list Z;
  m_sem : Z
}.

(** Where the new thread is: before a statement of [run], within the callback,
    with what it has done and what is left, or at its end. *)
Inductive pc :=
| Entry
| CopyName
| SetId
| SetKernelName
| SwapCb
| Notify
| Call
| Calling (did left : list act)
| Exited.

(** The new thread: its thread-local variables, the name it gave itself in the kernel, and
    the local [cb]. *)
Record runner := mk_runner {
  at_pc : pc;
  t_thread : bool;
  t_thread_name : list Z;
  kernel_name : option (list Z);
  cb : option (list act)
}.

(** Where the creator is: before pthread_create, before its answer is stored,
    at [m_sem.wait()], behind the constructor. *)
Inductive ctor :=
| Creating
| Storing
| Waiting
| Returned.

(** What the creator does with the object. *)
Inductive call :=
| look
| join
| destroy.

Record sys := mk_sys {
  object : option Thread;
  thread : option runner;
  creator : ctor;
  calls : list call;
  joined : bool
}.

Definition set_object o (s : sys) := mk_sys o (thread s) (creator s) (calls s) (joined s).
Definition set_thread r (s : sys) := mk_sys (object s) r (creator s) (calls s) (joined s).
Definition set_creator c (s : sys) := mk_sys (object s) (thread s) c (calls s) (joined s).
Definition set_calls l (s : sys) := mk_sys (object s) (thread s) (creator s) l (joined s).
Definition set_joined b (s : sys) := mk_sys (object s) (thread s) (creator s) (calls s) b.

(** Access to the object. *)
Definition this : M sys Thread :=
  s ← get; match object s with Some x => mret x | None => faultM Dangling end.

Definition assign (x : Thread) : M sys unit :=
  _ ← this; modify (set_object (Some x)).

Definition set_name v (x : Thread) := mk_Thread (m_id x) (m_threadId x) (m_cb x) v (m_sem x).

Definition unknown : list Z := str "UNKNOWN".

Definition set_sem v (x : Thread) := mk_Thread (m_id x) (m_threadId x) (m_cb x) (m_name x) v.

(** The operations on a semaphore, on the one in the object. *)
Definition with_sem {A} (x : Thread) (m : M Z A) : M sys A := λ s,
  match m (m_sem x) with
  | Ok a v => Ok a (set_object (Some (set_sem v x)) s)
  | Exn e v => Exn e (set_object (Some (set_sem v x)) s)
  | Fault f => Fault f
  end.

Definition on_sem {A} (m : M Z A) : M sys A := x ← this; with_sem x m.

Section machine.
(** The kernel's number of the new thread, its handle, and the answer of
    pthread_create. *)
Context (tid handle retVal : Z).

Definition GetThreadId : Z := tid.

(** *** Thread::run *)
Definition go (r : runner) : M sys bool := _ ← modify (set_thread (Some r)); mret true.

Definition at_next p (r : runner) :=
  mk_runner p (t_thread r) (t_thread_name r) (kernel_name r) (cb r).

(** Thread::SetName. *)
Definition Thread_SetName (name : list Z) (r : runner) : M sys runner :=
  _ ← (if t_thread r then x ← this; assign (set_name name x) else mret tt);
  mret (mk_runner (at_pc r) (t_thread r) name (kernel_name r) (cb r)).

Definition perform (a : act) (r : runner) : M sys runner :=
  match a with
  | SetName name => Thread_SetName name r
  | LookAtThis => _ ← (if t_thread r then this else faultM NullDeref); mret r
  | Other => mret r
  end.

(** The next statement of the new thread; the answer is whether there was one. *)
Definition run_step : M sys bool :=
  s ← get;
  match thread s with
  | None => mret false
  | Some r =>
      match at_pc r with
      | Entry => go (mk_runner CopyName true (t_thread_name r) (kernel_name r) (cb r))
      | CopyName => x ← this; go (mk_runner SetId (t_thread r) (m_name x) (kernel_name r) (cb r))
      | SetId =>
          x ← this; _ ← assign (mk_Thread GetThreadId (m_threadId x) (m_cb x) (m_name x) (m_sem x));
          go (at_next SetKernelName r)
      | SetKernelName =>
          x ← this; go (mk_runner SwapCb (t_thread r) (t_thread_name r) (Some (take 15 (m_name x))) (cb r))
      | SwapCb =>
          x ← this; _ ← assign (mk_Thread (m_id x) (m_threadId x) (cb r) (m_name x) (m_sem x));
          go (mk_runner Notify (t_thread r) (t_thread_name r) (kernel_name r) (m_cb x))
      | Notify => _ ← on_sem Mutex.Semaphore_notify; go (at_next Call r)
      | Call => match cb r with Some l => go (at_next (Calling [] l) r) | None => faultM Terminate end
      | Calling did (a :: l) => r' ← perform a r; go (at_next (Calling (did ++ [a]) l) r')
      | Calling did [] => go (at_next Exited r)
      | Exited => mret false
      end
  end.

(** *** The creator *)

(** The constructor's initializers and its first statement. *)
Definition Thread_new (cb : option (list act)) (name : list Z) : Thread :=
  mk_Thread (-1) 0 cb (match name with [] => unknown | _ => name end) 0.

Definition ended (o : option runner) : bool :=
  match o with Some r => match at_pc r with Exited => true | _ => false end | None => false end.

(** join(). pthread_join waits for the end of the thread; joining a thread a
    second time would be undefined. *)
Definition Thread_join : M sys bool :=
  x ← this;
  if negb (m_threadId x =? 0) then
    s ← get;
    if joined s then faultM Dangling
    else if ended (thread s) then
      _ ← modify (set_joined true);
      _ ← assign (mk_Thread (m_id x) 0 (m_cb x) (m_name x) (m_sem x)); mret true
    else mret false
  else mret true.

(** The destructor. Detaching needs a thread that was not joined. *)
Definition Thread_destroy : M sys bool :=
  x ← this; s ← get;
  _ ← (if negb (m_threadId x =? 0) && joined s then faultM Dangling else mret tt);
  _ ← modify (set_object None); mret true.

Definition make_call (k : call) : M sys bool :=
  match k with
  | look => _ ← this; mret true
  | join => Thread_join
  | destroy => Thread_destroy
  end.

Definition create_step : M sys bool :=
  s ← get;
  match creator s with
  | Creating =>
      if negb (retVal =? 0) then throw logic_error
      else
        _ ← modify (set_thread (Some (mk_runner Entry false unknown None None)));
        _ ← modify (set_creator Storing); mret true
  | Storing =>
      x ← this; _ ← assign (mk_Thread (m_id x) handle (m_cb x) (m_name x) (m_sem x));
      _ ← modify (set_creator Waiting); mret true
  | Waiting =>
      b ← on_sem Mutex.Semaphore_wait;
      if b : bool then _ ← modify (set_creator Returned); mret true else mret false
  | Returned =>
      match calls s with
      | [] => mret false
      | k :: l => b ← make_call k; if b : bool then _ ← modify (set_calls l); mret true else mret false
      end
  end.

(** Who goes next: the creator or the new thread. *)
Inductive side := creates | runs.

Definition step (w : side) : M sys bool :=
  match w with creates => create_step | runs => run_step end.

Definition steps (ws : list side) : M sys unit := forM ws (λ w, _ ← step w; mret tt).
End machine.

Definition start (cb : option (list act)) (name : list Z) (l : list call) : sys :=
  mk_sys (Some (Thread_new cb name)) None Creating l false.

End Thread.
