(* ===== verification/ThreadProps.v ===== *)
(** Threads: the handshake of the constructor with the new thread, and how long
    the object must live. Every state the two sides can reach is determined by
    where each of them stands; [snapshot] is that function. *)
From stdpp Require Import base list numbers option strings.
From Stdlib Require Import ZArith Lia.
From S2P Require Import Prelude CString Mutex Thread.

Module ThreadProps.
Import Thread.

Definition is_other (a : act) : bool := match a with Other => true | _ => false end.

(** The callback does not touch the object. *)
Definition harmless (l : list act) : bool := forallb is_other l.

Definition is_destroy (k : call) : bool := match k with destroy => true | _ => false end.
Definition is_join (k : call) : bool := match k with join => true | _ => false end.

(** Nothing is done with an object that was destroyed. *)
Fixpoint valid (l : list call) : bool :=
  match l with
  | [] => true
  | k :: l' => (negb (is_destroy k) || match l' with [] => true | _ => false end) && valid l'
  end.

(** Destroyed only after a join, or beside a callback that leaves it alone. *)
Definition safe (acts : list act) (l : list call) : bool :=
  negb (existsb is_destroy l) || existsb is_join l || harmless acts.

(** The name after some actions. *)
Definition named (n : list Z) (l : list act) : list Z :=
  foldl (λ n a, match a with SetName m => m | _ => n end) n l.

Definition first_name (name : list Z) : list Z := match name with [] => unknown | _ => name end.

Section run.
Context (tid handle : Z) (acts : list act) (name : list Z).
Notation nm := (first_name name).

(** ** What a state looks like *)
Definition id_at (p : option pc) : Z :=
  match p with None | Some Entry | Some CopyName | Some SetId => -1 | _ => tid end.

Definition cb_at (p : option pc) : option (list act) :=
  match p with
  | None | Some Entry | Some CopyName | Some SetId | Some SetKernelName | Some SwapCb => Some acts
  | _ => None
  end.

Definition name_at (p : option pc) : list Z :=
  match p with Some (Calling did _) => named nm did | Some Exited => named nm acts | _ => nm end.

Definition notified (p : option pc) : bool :=
  match p with Some Call | Some (Calling _ _) | Some Exited => true | _ => false end.

Definition sem_at (p : option pc) (c : ctor) : Z :=
  match c with Returned => 0 | _ => if notified p then 1 else 0 end.

Definition handle_at (c : ctor) (j : bool) : Z :=
  match c with Creating | Storing => 0 | _ => if j then 0 else handle end.

Definition runner_at (p : pc) : runner :=
  mk_runner p
    (match p with Entry => false | _ => true end)
    (match p with Entry | CopyName => unknown | _ => name_at (Some p) end)
    (match p with Entry | CopyName | SetId | SetKernelName => None | _ => Some (take 15 nm) end)
    (match p with Entry | CopyName | SetId | SetKernelName | SwapCb => None | _ => Some acts end).

Definition snapshot (p : option pc) (c : ctor) (l : list call) (j alive : bool) : sys :=
  mk_sys (if alive then Some (mk_Thread (id_at p) (handle_at c j) (cb_at p) (name_at p) (sem_at p c)) else None)
    (runner_at <$> p) c l j.

Definition left_at (p : option pc) : list act :=
  match p with Some (Calling _ l) => l | Some Exited => [] | _ => acts end.

Record possible (p : option pc) (c : ctor) (l : list call) (j alive : bool) : Prop := {
  p_none : c = Creating ↔ p = None;
  p_notified : c = Returned → notified p = true;
  p_early : c ≠ Returned → alive = true ∧ j = false;
  p_joined : j = true → p = Some Exited;
  p_dead : alive = false → l = [] ∧ harmless (left_at p) = true;
  p_did : ∀ did left, p = Some (Calling did left) → did ++ left = acts;
  p_valid : valid l = true;
  p_safe : j = true ∨ safe acts l = true
}.

(** ** One step *)
Definition pc_left (p : option pc) : nat :=
  match p with
  | None | Some Entry => 8 + length acts
  | Some CopyName => 7 + length acts
  | Some SetId => 6 + length acts
  | Some SetKernelName => 5 + length acts
  | Some SwapCb => 4 + length acts
  | Some Notify => 3 + length acts
  | Some Call => 2 + length acts
  | Some (Calling _ l) => 1 + length l
  | Some Exited => 0
  end.

Definition ctor_left (c : ctor) : nat :=
  match c with Creating => 3 | Storing => 2 | Waiting => 1 | Returned => 0 end.

Definition todo (p : option pc) (c : ctor) (l : list call) : nat := pc_left p + ctor_left c + length l.

Definition follows (m : M sys bool) p c l j alive (b : bool) : Prop :=
  ∃ p' c' l' j' alive', m (snapshot p c l j alive) = Ok b (snapshot p' c' l' j' alive') ∧
    possible p' c' l' j' alive' ∧ (if b then todo p' c' l' < todo p c l else todo p' c' l' = todo p c l)%nat.

Definition active (p : option pc) : bool :=
  match p with None | Some Exited => false | _ => true end.

Lemma dead_late p c l j alive : possible p c l j alive → notified p = false → alive = true.
Proof.
  intros Hp Hn. destruct c; try apply (p_early _ _ _ _ _ Hp); try done.
  by rewrite (p_notified _ _ _ _ _ Hp) in Hn.
Qed.

(** A step of the new thread that changes nothing but where it stands. *)
Lemma possible_runs p p' c l j alive :
  possible p c l j alive → active p = true → p' ≠ None → (notified p = true → notified p' = true) →
  (harmless (left_at p) = true → harmless (left_at p') = true) →
  (∀ did left, p' = Some (Calling did left) → did ++ left = acts) →
  possible p' c l j alive.
Proof.
  intros [H1 H2 H3 H4 H5 H6 H7 H8] Ha Hn Hp Hh Hd. split; auto.
  - rewrite H1. split; [intros ->; done|done].
  - intros ->. rewrite H4 in Ha by done. done.
  - intros He. destruct (H5 He). auto.
Qed.

Lemma named_snoc n l a : named n (l ++ [a]) = match a with SetName m => m | _ => named n l end.
Proof. unfold named. by rewrite foldl_app. Qed.

Ltac exec := unfold follows, step, run_step, create_step, go, at_next, this, assign, on_sem, with_sem, perform, Thread_SetName,
  get, modify, mbind, M_bind, mret, M_ret; simpl.

Ltac run_at Hp := split; [by apply (possible_runs _ _ _ _ _ _ Hp)|unfold todo; simpl; lia].
Ltac run_to Hp := split; [done|]; run_at Hp.

Lemma act_ok a did left c l j alive :
  possible (Some (Calling did (a :: left))) c l j alive →
  follows (run_step tid) (Some (Calling did (a :: left))) c l j alive true.
Proof.
  intros Hp. exists (Some (Calling (did ++ [a]) left)), c, l, j, alive.
  split; [|split].
  - assert (is_other a = false → alive = true) as Ha.
    { intros Ha. destruct alive; [done|]. destruct (p_dead _ _ _ _ _ Hp eq_refl) as [_ Hh].
      simpl in Hh. by rewrite Ha in Hh. }
    unfold snapshot, runner_at; cbn [name_at fmap option_fmap option_map]. rewrite named_snoc.
    destruct a; try (rewrite Ha by done); by exec.
  - apply (possible_runs _ _ _ _ _ _ Hp); try done.
    + by intros [_ ?]%andb_prop.
    + intros d lf [= <- <-]. rewrite <-app_assoc. by apply (p_did _ _ _ _ _ Hp).
  - unfold todo. simpl. lia.
Qed.

Lemma run_step_ok p c l j alive :
  possible p c l j alive → follows (run_step tid) p c l j alive (active p).
Proof.
  intros Hp. destruct p as [p|].
  2:{ exists None, c, l, j, alive. done. }
  pose proof (dead_late _ _ _ _ _ Hp) as Hal.
  destruct p as [| | | | | | |did [|a left]|]; try (rewrite Hal in * by done); simpl.
  - exists (Some CopyName), c, l, j, true. run_to Hp.
  - exists (Some SetId), c, l, j, true. run_to Hp.
  - exists (Some SetKernelName), c, l, j, true. run_to Hp.
  - exists (Some SwapCb), c, l, j, true. run_to Hp.
  - exists (Some Notify), c, l, j, true. run_to Hp.
  - exists (Some Call), c, l, j, true. split.
    { destruct c; try done. by pose proof (p_notified _ _ _ _ _ Hp eq_refl). }
    run_at Hp.
  - exists (Some (Calling [] acts)), c, l, j, alive. split; [done|].
    split; [apply (possible_runs _ _ _ _ _ _ Hp); try done; by intros ?? [= <- <-]|unfold todo; simpl; lia].
  - exists (Some Exited), c, l, j, alive. split.
    { assert (did = acts) as -> by (rewrite <-(p_did _ _ _ _ _ Hp _ _ eq_refl); by rewrite app_nil_r).
      by destruct c. }
    run_at Hp.
  - by apply act_ok.
  - exists (Some Exited), c, l, j, alive. done.
Qed.

Definition is_exited (p : option pc) : bool := match p with Some Exited => true | _ => false end.

Definition ready (p : option pc) (c : ctor) (l : list call) (j : bool) : bool :=
  match c with
  | Creating | Storing => true
  | Waiting => notified p
  | Returned => match l with [] => false | join :: _ => j || is_exited p | _ => true end
  end.

Context (Hhandle : handle ≠ 0%Z).

Lemma first_call_alive p k l j alive : possible p Returned (k :: l) j alive → alive = true.
Proof. intros Hp. destruct alive; [done|]. by destruct (p_dead _ _ _ _ _ Hp eq_refl). Qed.

Lemma call_ok p k l j alive :
  possible p Returned (k :: l) j alive →
  follows (create_step handle 0) p Returned (k :: l) j alive (ready p Returned (k :: l) j).
Proof.
  intros Hp. pose proof (first_call_alive _ _ _ _ _ Hp) as ->.
  pose proof Hp as [H1 H2 _ H4 _ H6 [Hv1 Hv2]%andb_prop H8].
  assert (p ≠ None) as Hn by (intros Hx; by apply H1 in Hx).
  destruct k.
  - exists p, Returned, l, j, true. split; [done|]. split; [|unfold todo; simpl; lia].
    by split.
  - destruct j; simpl.
    + exists p, Returned, l, true, true. split; [done|]. split; [|unfold todo; simpl; lia].
      split; try done. by left.
    + destruct (is_exited p) eqn:He.
      * destruct p as [[]|]; try done. exists (Some Exited), Returned, l, true, true. split.
        { unfold create_step, snapshot, make_call, Thread_join, this, assign, get, modify, mbind, M_bind, mret, M_ret.
          cbn -[Z.eqb]. by rewrite (proj2 (Z.eqb_neq _ _) Hhandle). }
        split; [|unfold todo; simpl; lia]. split; try done. by left.
      * exists p, Returned, (join :: l), false, true. split; [|done].
        unfold create_step, snapshot, make_call, Thread_join, this, assign, get, modify, mbind, M_bind, mret, M_ret.
        cbn -[Z.eqb]. rewrite (proj2 (Z.eqb_neq _ _) Hhandle). cbn. by destruct p as [[]|].
  - exists p, Returned, l, j, false. split.
    { unfold create_step, snapshot, make_call, Thread_destroy, this, assign, get, modify, mbind, M_bind, mret, M_ret.
      cbn -[Z.eqb]. destruct j; cbn; [done|]. by rewrite andb_false_r. }
    split; [|unfold todo; simpl; lia]. assert (l = []) as -> by (simpl in Hv1; by destruct l).
    split; try done.
    + intros _. split; [done|]. destruct H8 as [->|H8]; [by rewrite H4|]. unfold safe in H8. simpl in H8.
      destruct p as [[| | | | | | |did left|]|]; try done.
      rewrite <-(H6 _ _ eq_refl) in H8. unfold harmless in H8. rewrite forallb_app in H8.
      by apply andb_prop in H8 as [_ ?].
    + by right.
Qed.

Ltac exec_wait :=
  unfold create_step, snapshot, this, on_sem, with_sem, Mutex.Semaphore_wait, get, modify, mbind, M_bind, mret, M_ret; cbn.

Lemma create_step_ok p c l j alive :
  possible p c l j alive → follows (create_step handle 0) p c l j alive (ready p c l j).
Proof.
  intros Hp. pose proof Hp as [H1 H2 H3 H4 H5 H6 H7 H8]. destruct c.
  - destruct (H3 ltac:(done)) as [-> ->]. rewrite (proj1 H1 eq_refl) in *.
    exists (Some Entry), Storing, l, false, true. split; [done|]. split; [by split|unfold todo; simpl; lia].
  - destruct (H3 ltac:(done)) as [-> ->]. exists p, Waiting, l, false, true. split; [done|].
    split; [split; try done|unfold todo; simpl; lia]. split; [done|]. intros Hx. by apply H1 in Hx.
  - destruct (H3 ltac:(done)) as [-> ->]. simpl. destruct (notified p) eqn:Hn.
    + exists p, Returned, l, false, true. split.
      { exec_wait. by rewrite Hn. }
      split; [split; try done|unfold todo; simpl; lia]. split; [done|]. intros Hx. by apply H1 in Hx.
    + exists p, Waiting, l, false, true. split; [|done].
      exec_wait. by rewrite Hn.
  - destruct l as [|k l]; [by exists p, Returned, [], j, alive|]. by apply call_ok.
Qed.

(** ** Any order of steps *)
Definition reachable (s : sys) : Prop :=
  ∃ p c l j alive, s = snapshot p c l j alive ∧ possible p c l j alive.

Definition settled (s : sys) : Prop :=
  creator s = Returned ∧ calls s = [] ∧ thread s = Some (runner_at Exited).

Lemma step_ok w s : reachable s → ∃ b s', step tid handle 0 w s = Ok b s' ∧ reachable s'.
Proof.
  intros (p & c & l & j & alive & -> & Hp). destruct w.
  - destruct (create_step_ok _ _ _ _ _ Hp) as (p' & c' & l' & j' & alive' & Hr & Hp' & _).
    eexists _, _. split; [exact Hr|]. by eexists _, _, _, _, _.
  - destruct (run_step_ok _ _ _ _ _ Hp) as (p' & c' & l' & j' & alive' & Hr & Hp' & _).
    eexists _, _. split; [exact Hr|]. by eexists _, _, _, _, _.
Qed.

Lemma steps_cons w ws b s s' :
  step tid handle 0 w s = Ok b s' → steps tid handle 0 (w :: ws) s = steps tid handle 0 ws s'.
Proof. intros Hr. unfold steps, forM, mbind, M_bind, mret, M_ret in *. by rewrite Hr. Qed.

Lemma steps_ok ws s : reachable s → ∃ s', steps tid handle 0 ws s = Ok tt s' ∧ reachable s'.
Proof.
  revert s. induction ws as [|w ws IH]; intros s Hs; [by exists s|].
  destruct (step_ok w s Hs) as (b & s1 & Hr & Hs1). rewrite (steps_cons _ _ _ _ _ Hr). by apply IH.
Qed.

(** Unless everything is done, one of the two can go on. *)
Lemma somebody_ready p c l j alive :
  possible p c l j alive → (p = Some Exited ∧ c = Returned ∧ l = []) ∨ active p = true ∨ ready p c l j = true.
Proof.
  intros Hp. destruct (active p) eqn:Ha; [by right; left|].
  assert (p = None ∨ p = Some Exited) as [-> | ->] by (destruct p as [[]|]; auto; done).
  - right; right. by rewrite (proj2 (p_none _ _ _ _ _ Hp) eq_refl).
  - destruct c; [by right; right..|]. destruct l as [|[]]; [by left|by right; right|right; right|by right; right].
    simpl. by rewrite orb_true_r.
Qed.

Lemma both_finish n p c l j alive : possible p c l j alive → (todo p c l ≤ n)%nat →
  ∃ ws s', (length ws ≤ n)%nat ∧ steps tid handle 0 ws (snapshot p c l j alive) = Ok tt s' ∧ settled s'.
Proof.
  revert p c l j alive. induction n as [|n IH]; intros p c l j alive Hp Hn.
  all: destruct (somebody_ready _ _ _ _ _ Hp) as [(-> & -> & ->)|Hr];
    [by exists [], (snapshot (Some Exited) Returned [] j alive); repeat split; simpl; lia|].
  all: assert (∃ w, follows (step tid handle 0 w) p c l j alive true)
    as (w & p' & c' & l' & j' & alive' & Hs & Hp' & Hlt).
  1,3: destruct Hr as [Hr|Hr];
    [exists runs; rewrite <-Hr; by apply run_step_ok|exists creates; rewrite <-Hr; by apply create_step_ok].
  - lia.
  - destruct (IH _ _ _ _ _ Hp' ltac:(lia)) as (ws & s' & Hl & Hws & Hset).
    exists (w :: ws), s'. split; [simpl; lia|]. split; [|done]. by rewrite (steps_cons _ _ _ _ _ Hs).
Qed.

Lemma todo_bound p c l j alive : possible p c l j alive → (todo p c l ≤ 11 + length acts + length l)%nat.
Proof.
  intros Hp. unfold todo. assert (ctor_left c ≤ 3)%nat by (destruct c; simpl; lia).
  assert (pc_left p ≤ 8 + length acts)%nat; [|lia]. destruct p as [[| | | | | | |did left|]|]; simpl; try lia.
  rewrite <-(p_did _ _ _ _ _ Hp _ _ eq_refl), length_app. lia.
Qed.

Lemma start_possible l : valid l = true → safe acts l = true → possible None Creating l false true.
Proof. intros Hv Hs. split; try done. by right. Qed.

End run.

(** The order in which the object is destroyed before the callback goes on. *)
Definition early_end : list side :=
  [creates; creates; runs; runs; runs; runs; runs; runs; creates; creates; runs].

Lemma touches_dead tid handle s r did left :
  object s = None → thread s = Some r → at_pc r = Calling did left → t_thread r = true → harmless left = false →
  ∃ ws, steps tid handle 0 ws s = Fault Dangling.
Proof.
  revert s r did. induction left as [|a left IH]; intros s r did Ho Ht Hp Hr Hh; [done|].
  destruct (is_other a) eqn:Ha.
  - destruct a; try done. simpl in Hh.
    destruct (IH (set_thread (Some (at_next (Calling (did ++ [Other]) left) r)) s)
      (at_next (Calling (did ++ [Other]) left) r) (did ++ [Other])) as [ws Hws]; try done.
    exists (runs :: ws). rewrite <-Hws. apply (steps_cons _ _ _ _ true).
    unfold step, run_step, get, mbind, M_bind. rewrite Ht, Hp. done.
  - exists [runs]. unfold steps, forM, step, run_step, get, mbind, M_bind. rewrite Ht, Hp.
    destruct a; try done; unfold perform, Thread_SetName, this, get, mbind, M_bind; by rewrite Hr, Ho.
Qed.

Lemma early_end_ok tid handle acts name :
  steps tid handle 0 early_end (start (Some acts) name [destroy]) =
  Ok tt (mk_sys None (Some (runner_at acts name (Calling [] acts))) Returned [] false).
Proof. by destruct handle, name; vm_compute. Qed.

Lemma steps_app tid handle ws1 ws2 s :
  steps tid handle 0 (ws1 ++ ws2) s =
  match steps tid handle 0 ws1 s with
  | Ok _ s' => steps tid handle 0 ws2 s' | Exn e s' => Exn e s' | Fault f => Fault f
  end.
Proof.
  revert s. induction ws1 as [|w ws1 IH]; intros s; [done|].
  unfold steps in *. simpl. unfold mbind, M_bind, mret, M_ret in *. destruct (step _ _ _ w s). all: try done.
Qed.

(** The creator and the new thread interleave in any order. If
    pthread_create fails, the constructor throws and no thread exists. If it
    succeeds, and the object is destroyed, if at all, as the last call and
    either after a join or with a callback that never uses the object, then:
    nothing is undefined; once the constructor has returned the object has the
    new thread's number and no callback any more; a join returns only after the
    callback has run to its end; and from wherever the two stand, both come to
    their end in at most as many steps as they have left, the callback's actions
    having run once each, in order, the thread named after the last SetName and
    the kernel having the first 15 characters of the name (UNKNOWN for an empty
    one). If instead the callback does use the object, destroying the object
    right behind the constructor can leave the new thread with a dangling
    pointer. *)
Theorem thread_handshake (tid handle : Z) (acts : list act) (name : list Z) (l : list call) (ws : list side) :
  handle ≠ 0%Z →
  (∀ retVal, retVal ≠ 0%Z → create_step handle retVal (start (Some acts) name l) =
    Exn logic_error (start (Some acts) name l)) ∧
  (valid l = true → safe acts l = true →
    ∃ s, steps tid handle 0 ws (start (Some acts) name l) = Ok tt s ∧
      (creator s = Returned → ∀ x, object s = Some x → m_id x = tid ∧ m_cb x = None) ∧
      (joined s = true → ended (thread s) = true) ∧
      ∃ ws' s' r, (length ws' ≤ 11 + length acts + length (calls s))%nat ∧
        steps tid handle 0 ws' s = Ok tt s' ∧ creator s' = Returned ∧ calls s' = [] ∧
        thread s' = Some r ∧ at_pc r = Exited ∧ cb r = Some acts ∧
        t_thread_name r = named (first_name name) acts ∧ kernel_name r = Some (take 15 (first_name name))) ∧
  (harmless acts = false → ∃ ws, steps tid handle 0 ws (start (Some acts) name [destroy]) = Fault Dangling).
Proof.
  intros Hh. split; [|split].
  - intros retVal Hr. unfold create_step, start, get, throw, mbind, M_bind. simpl.
    by rewrite (proj2 (Z.eqb_neq _ _) Hr).
  - intros Hv Hs. pose proof (start_possible acts l Hv Hs) as Hp.
    assert (reachable tid handle acts name (start (Some acts) name l)) as Hstart.
    { by exists None, Creating, l, false, true. }
    destruct (steps_ok tid handle acts name Hh ws _ Hstart) as (s & Hr & p & c & l' & j & alive & -> & Hp').
    exists (snapshot tid handle acts name p c l' j alive). split; [exact Hr|]. split; [|split].
    + intros Hc x Hx. simpl in Hc. subst c. pose proof (p_notified _ _ _ _ _ _ Hp' eq_refl) as Hn.
      destruct alive; [|done]. injection Hx as <-. by destruct p as [[]|].
    + intros Hj. simpl in Hj. by rewrite (p_joined _ _ _ _ _ _ Hp' Hj).
    + destruct (both_finish tid handle acts name Hh (todo acts p c l') p c l' j alive Hp' ltac:(lia))
        as (ws' & s' & Hl & Hr' & Hc' & Hl' & Ht').
      exists ws', s', (runner_at acts name Exited). split; [|by repeat split].
      pose proof (todo_bound _ _ _ _ _ _ Hp'). simpl. lia.
  - intros Ha.
    destruct (touches_dead tid handle (mk_sys None (Some (runner_at acts name (Calling [] acts))) Returned [] false)
      (runner_at acts name (Calling [] acts)) [] acts) as [ws' Hws]; try done.
    exists (early_end ++ ws'). by rewrite steps_app, early_end_ok.
Qed.

Lemma thread_handshake_witness :
  ∃ s r, steps 42 7 0 [creates; runs; runs; creates; runs; creates; runs; runs; runs; runs; runs]
      (start (Some [SetName [104; 105]; Other]) [] [look; join; destroy])%Z = Ok tt s ∧
    thread s = Some r ∧ at_pc r = Calling [SetName [104; 105]%Z] [Other] ∧
    ∃ ws' s', steps 42 7 0 ws' s = Ok tt s' ∧ creator s' = Returned ∧ calls s' = [].
Proof.
  destruct (thread_handshake 42 7 [SetName [104; 105]; Other]%Z [] [look; join; destroy]
    [creates; runs; runs; creates; runs; creates; runs; runs; runs; runs; runs] ltac:(lia)) as (_ & H & _).
  destruct (H eq_refl eq_refl) as (s & Hs & _ & _ & ws' & s' & r' & _ & Hws & Hc & Hl & _).
  vm_compute in Hs. injection Hs as <-. eexists _, _. split; [by vm_compute|]. split; [done|].
  split; [done|]. by exists ws', s'.
Defined.

End ThreadProps.
