(* ===== verification/Address.v ===== *)
(** Socket addresses: [address.h] and [address.cc].

    Module [Address] models the four kinds of addresses with their fields as
    they lie in memory (ports and addresses are byte-swapped on little-endian
    hosts), their comparison as byte strings, prefixes and masks, printing, and
    the lookups, for which [getaddrinfo], [inet_pton] and [getifaddrs] are
    parameters. Bytes are numbers below 256, and so are characters. *)
From stdpp Require Import base list numbers option strings pretty.
From Stdlib Require Import ZArith Lia.
From S2P Require Import Prelude Endian CString.

Module Address.
Local Open Scope Z_scope.

Definition AF_UNSPEC : Z := 0.
Definition AF_UNIX : Z := 1.
Definition AF_INET : Z := 2.
Definition AF_INET6 : Z := 10.

Record sockaddr_in := mk_in { sin_family : Z; sin_port : Z; s_addr : Z }.
Record sockaddr_in6 := mk_in6 {
  sin6_family : Z; sin6_port : Z; sin6_flowinfo : Z; s6_addr : list Z; sin6_scope_id : Z
}.
Record sockaddr_un := mk_un { sun_family : Z; sun_path : list Z }.
Record sockaddr_any := mk_any { sa_family : Z; sa_data : list Z }.

Inductive Addr :=
| IPv4Address (m_addr : sockaddr_in)
| IPv6Address (m_addr : sockaddr_in6)
| UnixAddress (m_addr : sockaddr_un) (m_len : Z)
| UnknownAddress (m_addr : sockaddr_any).

(** A [sockaddr] as the system hands it out. *)
Inductive sockaddr :=
| SIn (a : sockaddr_in)
| SIn6 (a : sockaddr_in6)
| SAny (a : sockaddr_any).

(** Code that throws or is undefined, without a state. *)
Abbreviation R A := (M unit A).

Section address.
Context {host : Host}.

(** *** Masks *)

(** [(1 << (sizeof(T) * 8 - bits)) - 1] in int, with the count in size_t. *)
Definition CreateMask (width : Z) (bits : Z) : R Z :=
  let count := uint 64 (width - bits) in
  if 32 <=? count then faultM BadShift
  else m ← signed 32 (sint 32 (2 ^ count) - 1); mret (uint width m).

Fixpoint CountBytes_loop (fuel : nat) (value result : Z) : R Z :=
  match fuel with
  | O => faultM FuelExhausted
  | S fuel' =>
      if value =? 0 then mret result
      else CountBytes_loop fuel' (Z.land value (value - 1)) (result + 1)
  end.

Definition CountBytes (width : nat) (value : Z) : R Z := CountBytes_loop (S width) value 0.

(** *** Address::Create *)
Definition Create (addr : option sockaddr) : option Addr :=
  match addr with
  | None => None
  | Some (SIn a) => Some (IPv4Address a)
  | Some (SIn6 a) => Some (IPv6Address a)
  | Some (SAny a) => Some (UnknownAddress a)
  end.

(** *** IPv4 *)
Definition IPv4Address_new (address port : Z) : sockaddr_in :=
  mk_in AF_INET (byteswapOnLittleEndian 2 port) (byteswapOnLittleEndian 4 address).

Definition IPv4_broadcastaAddress (a : sockaddr_in) (prefix_len : Z) : R (option sockaddr_in) :=
  if 32 <? prefix_len then mret None
  else
    m ← CreateMask 32 prefix_len;
    mret (Some (mk_in (sin_family a) (sin_port a) (Z.lor (s_addr a) (byteswapOnLittleEndian 4 m)))).

Definition IPv4_networkAddress (a : sockaddr_in) (prefix_len : Z) : R (option sockaddr_in) :=
  if 32 <? prefix_len then mret None
  else
    m ← CreateMask 32 prefix_len;
    mret (Some (mk_in (sin_family a) (sin_port a) (Z.land (s_addr a) (byteswapOnLittleEndian 4 m)))).

Definition IPv4_subNetMask (prefix_len : Z) : R (option sockaddr_in) :=
  m ← CreateMask 32 prefix_len;
  mret (Some (mk_in AF_INET 0 (uint 32 (Z.lnot (byteswapOnLittleEndian 4 m))))).

Definition IPv4_getPort (a : sockaddr_in) : Z := byteswapOnLittleEndian 2 (sin_port a).
Definition IPv4_setPort (val : Z) (a : sockaddr_in) : sockaddr_in :=
  mk_in (sin_family a) (byteswapOnLittleEndian 2 val) (s_addr a).

(** *** IPv6 *)
Definition IPv6Address_new : sockaddr_in6 := mk_in6 AF_INET6 0 0 (replicate 16 0) 0.
Definition IPv6Address_bytes (address : list Z) (port : Z) : sockaddr_in6 :=
  mk_in6 AF_INET6 (byteswapOnLittleEndian 2 port) 0 (take 16 address) 0.

Definition with_bytes (l : list Z) (a : sockaddr_in6) : sockaddr_in6 :=
  mk_in6 (sin6_family a) (sin6_port a) (sin6_flowinfo a) l (sin6_scope_id a).

(** An element of the sixteen bytes. *)
Definition byte_at (l : list Z) (i : nat) : R Z :=
  match l !! i with Some b => mret b | None => faultM OutOfBounds end.

(** [for(int i = prefix_len / 8; i < 16; ++i) s6_addr[i] = v] *)
Definition fill_from (i : nat) (v : Z) (l : list Z) : list Z :=
  take i l ++ replicate (length l - i) v.

Definition IPv6_broadcastaAddress (a : sockaddr_in6) (prefix_len : Z) : R sockaddr_in6 :=
  let i := Z.to_nat (prefix_len / 8) in
  m ← CreateMask 8 (prefix_len `mod` 8);
  b ← byte_at (s6_addr a) i;
  let l := <[i := Z.lor b m]> (s6_addr a) in
  mret (with_bytes (fill_from i 255 l) a).

Definition IPv6_networkAddress (a : sockaddr_in6) (prefix_len : Z) : R sockaddr_in6 :=
  let i := Z.to_nat (prefix_len / 8) in
  m ← CreateMask 8 (prefix_len `mod` 8);
  b ← byte_at (s6_addr a) i;
  let l := <[i := Z.land b m]> (s6_addr a) in
  mret (with_bytes (fill_from i 0 l) a).

Definition IPv6_subNetMask (prefix_len : Z) : R sockaddr_in6 :=
  let subnet := IPv6Address_new in
  let i := Z.to_nat (prefix_len / 8) in
  m ← CreateMask 8 (prefix_len `mod` 8);
  _ ← byte_at (s6_addr subnet) i;
  let l := <[i := uint 8 (Z.lnot m)]> (s6_addr subnet) in
  mret (with_bytes (fill_from i 255 l) subnet).

Definition IPv6_getPort (a : sockaddr_in6) : Z := byteswapOnLittleEndian 2 (sin6_port a).
Definition IPv6_setPort (val : Z) (a : sockaddr_in6) : sockaddr_in6 :=
  mk_in6 (sin6_family a) (byteswapOnLittleEndian 2 val) (sin6_flowinfo a) (s6_addr a)
    (sin6_scope_id a).

(** *** Unix *)
Definition sun_path_size : Z := 108.
Definition sun_path_offset : Z := 2.
Definition MAX_PATH_LEN : Z := sun_path_size - 1.

Definition UnixAddress_new : Addr :=
  UnixAddress (mk_un AF_UNIX (replicate 108 0)) (sun_path_offset + MAX_PATH_LEN).

Definition UnixAddress_path (path : list Z) : R Addr :=
  let m_len := uint 32 (Z.of_nat (length path) + 1) in
  let m_len := match path with 0 :: _ => uint 32 (m_len - 1) | _ => m_len end in
  if sun_path_size <? m_len then throw logic_error
  else mret (UnixAddress
    (mk_un AF_UNIX (splice (replicate 108 0) 0 (take (Z.to_nat m_len) (path ++ [0]))))
    (m_len + sun_path_offset)).

Definition setAddrLen (val : Z) (a : Addr) : Addr :=
  match a with UnixAddress u _ => UnixAddress u val | _ => a end.

Definition UnknownAddress_family (family : Z) : Addr :=
  UnknownAddress (mk_any family (replicate 14 0)).

(** *** The bytes of an address and their order *)
Definition getAddr (a : Addr) : list Z :=
  match a with
  | IPv4Address a =>
      object_bytes 2 (sin_family a) ++ object_bytes 2 (sin_port a) ++ object_bytes 4 (s_addr a)
      ++ replicate 8 0
  | IPv6Address a =>
      object_bytes 2 (sin6_family a) ++ object_bytes 2 (sin6_port a)
      ++ object_bytes 4 (sin6_flowinfo a) ++ s6_addr a ++ object_bytes 4 (sin6_scope_id a)
  | UnixAddress a _ => object_bytes 2 (sun_family a) ++ sun_path a
  | UnknownAddress a => object_bytes 2 (sa_family a) ++ sa_data a
  end.

Definition getAddrLen (a : Addr) : Z :=
  match a with
  | IPv4Address _ => 16
  | IPv6Address _ => 28
  | UnixAddress _ m_len => m_len
  | UnknownAddress _ => 16
  end.

Definition getFamily (a : Addr) : Z :=
  match a with
  | IPv4Address a => sin_family a
  | IPv6Address a => sin6_family a
  | UnixAddress a _ => sun_family a
  | UnknownAddress a => sa_family a
  end.

(** [memcmp] on lists of the same length. *)
Fixpoint memcmp (l r : list Z) : comparison :=
  match l, r with
  | x :: l', y :: r' => match x ?= y with Eq => memcmp l' r' | c => c end
  | _, _ => Eq
  end.

Definition addr_lt (a b : Addr) : bool :=
  let minLen := Z.min (getAddrLen a) (getAddrLen b) in
  let n := Z.to_nat minLen in
  match memcmp (take n (getAddr a)) (take n (getAddr b)) with
  | Lt => true
  | Gt => false
  | Eq => minLen =? getAddrLen a
  end.

Definition addr_eq (a b : Addr) : bool :=
  (getAddrLen a =? getAddrLen b) &&
  let n := Z.to_nat (getAddrLen a) in
  match memcmp (take n (getAddr a)) (take n (getAddr b)) with Eq => true | _ => false end.

Definition addr_neq (a b : Addr) : bool := negb (addr_eq a b).

(** *** Printing *)
Definition hex_digit (z : Z) : string :=
  nth (Z.to_nat z)
    ["0"; "1"; "2"; "3"; "4"; "5"; "6"; "7"; "8"; "9"; "a"; "b"; "c"; "d"; "e"; "f"]%string EmptyString.

Fixpoint to_hex (fuel : nat) (z : Z) : string :=
  match fuel with
  | O => EmptyString
  | S fuel' =>
      if z <? 16 then hex_digit z
      else (to_hex fuel' (z / 16) +:+ hex_digit (z `mod` 16))%string
  end.

Definition IPv4_insert (a : sockaddr_in) : string :=
  let addr := byteswapOnLittleEndian 4 (s_addr a) in
  let part n := pretty (Z.land (Z.shiftr addr n) 255) in
  (part 24 +:+ "." +:+ part 16 +:+ "." +:+ part 8 +:+ "." +:+ part 0 +:+ ":" +:+
   pretty (byteswapOnLittleEndian 2 (sin_port a)))%string.

(** The eight groups, two bytes each. *)
Fixpoint groups (l : list Z) : list Z :=
  match l with
  | x :: y :: l' => object_value [x; y] :: groups l'
  | _ => []
  end.

Fixpoint insert_groups (i : nat) (prev : Z) (l : list Z) (used_aeros : bool) : string * bool :=
  match l with
  | [] => (EmptyString, used_aeros)
  | g :: l' =>
      if (g =? 0) && negb used_aeros then insert_groups (S i) g l' used_aeros
      else
        let gap := negb (i =? 0)%nat && (prev =? 0) && negb used_aeros in
        let used := used_aeros || gap in
        let '(rest, u) := insert_groups (S i) g l' used in
        let sep := if (i =? 0)%nat then EmptyString else ":"%string in
        (((if gap then ":" else EmptyString) +:+ sep +:+
          to_hex 8 (byteswapOnLittleEndian 2 g) +:+ rest)%string, u)
  end.

Definition IPv6_insert (a : sockaddr_in6) : string :=
  let gs := groups (s6_addr a) in
  let '(body, used) := insert_groups 0 0 gs false in
  let tail := negb used && (nth 7 gs 0 =? 0) in
  ("[" +:+ body +:+ (if tail then "::" else EmptyString) +:+ "]:" +:+
   pretty (byteswapOnLittleEndian 2 (sin6_port a)))%string.

Fixpoint bytes_string (l : list Z) : string :=
  match l with [] => EmptyString | c :: l' => String (Ascii.ascii_of_nat (Z.to_nat c)) (bytes_string l') end.

Definition Unix_insert (a : sockaddr_un) (m_len : Z) : R string :=
  match sun_path a with
  | 0 :: rest =>
      if sun_path_offset <? m_len then
        let n := m_len - sun_path_offset - 1 in
        if sun_path_size - 1 <? n then faultM OutOfBounds
        else mret ("\0" +:+ bytes_string (take (Z.to_nat n) rest))%string
      else mret EmptyString
  | l => mret (bytes_string (c_str l))
  end.

Definition toString (a : Addr) : R string :=
  match a with
  | IPv4Address a => mret (IPv4_insert a)
  | IPv6Address a => mret (IPv6_insert a)
  | UnixAddress a m_len => Unix_insert a m_len
  | UnknownAddress a => mret ("[UnknownAddress family = " +:+ pretty (sa_family a) +:+ "]")%string
  end.

(** *** Looking up hosts *)
Definition colon : Z := 58.
Definition lbracket : Z := 91.
Definition rbracket : Z := 93.

(** The node and the service that are handed to [getaddrinfo]. *)
Definition split_host (host : list Z) : list Z * option (list Z) :=
  let '(node, service) :=
    match host with
    | 91 :: rest =>
        match memchr rest rbracket with
        | Some e =>
            (take e rest,
             match drop (S e) rest with
             | 58 :: sv => Some sv
             | _ => None
             end)
        | None => ([], None)
        end
    | _ => ([], None)
    end in
  let '(node, service) :=
    match node with
    | [] =>
        match memchr host colon with
        | None => ([], None)
        | Some i =>
            match memchr (drop (S i) host) colon with
            | None => (take i host, Some (drop (S i) host))
            | Some _ => ([], Some (drop i host))
            end
        end
    | _ => (node, service)
    end in
  (match node with [] => host | _ => node end, service).

Definition nonempty {A} (l : list A) : bool := match l with [] => false | _ => true end.

Section lookup.
(** [getaddrinfo] by node, service and hints; [None] is an error. *)
Variable getaddrinfo : list Z → option (list Z) → Z → Z → Z → option (list sockaddr).
Variable inet_pton4 : list Z → option Z.
Variable inet_pton6 : list Z → option (list Z).

(** The result vector starts with what the caller passed. *)
Definition getAllAddrFromHost (res : list (option Addr)) (host : list Z) (family type protocol : Z)
    : list (option Addr) * bool :=
  let '(node, service) := split_host host in
  match getaddrinfo (c_str node) (c_str <$> service) family type protocol with
  | None => (res, false)
  | Some l =>
      let res := res ++ ((λ a, Create (Some a)) <$> l) in
      (res, nonempty res)
  end.

Definition getAnyAddrFromHost (host : list Z) (family type protocol : Z) : option Addr :=
  let '(res, ok) := getAllAddrFromHost [] host family type protocol in
  if ok then match res with a :: _ => a | [] => None end else None.

Definition is_ip (a : option Addr) : bool :=
  match a with Some (IPv4Address _) | Some (IPv6Address _) => true | _ => false end.

Definition getAnyIPAddrFromHost (host : list Z) (family type protocol : Z) : option Addr :=
  let '(res, ok) := getAllAddrFromHost [] host family type protocol in
  if ok then match List.find is_ip res with Some a => a | None => None end else None.

Definition setPort (val : Z) (a : Addr) : Addr :=
  match a with
  | IPv4Address x => IPv4Address (IPv4_setPort val x)
  | IPv6Address x => IPv6Address (IPv6_setPort val x)
  | _ => a
  end.

(** [numeric] is [getaddrinfo] with AI_NUMERICHOST. *)
Definition IPAddress_Create (numeric : list Z → option (list sockaddr)) (address : list Z) (port : Z)
    : R (option Addr) :=
  match numeric (c_str address) with
  | None => mret None
  | Some [] => faultM NullDeref
  | Some (a :: _) =>
      match Create (Some a) with
      | Some x => if is_ip (Some x) then mret (Some (setPort port x)) else mret None
      | None => mret None
      end
  end.

Definition IPv4Address_Create (address : list Z) (port : Z) : option sockaddr_in :=
  match inet_pton4 (c_str address) with
  | Some a => Some (mk_in AF_INET (byteswapOnLittleEndian 2 port) a)
  | None => None
  end.

Definition IPv6Address_Create (address : list Z) (port : Z) : option sockaddr_in6 :=
  match inet_pton6 (c_str address) with
  | Some l => Some (mk_in6 AF_INET6 (byteswapOnLittleEndian 2 port) 0 l 0)
  | None => None
  end.
End lookup.

(** *** Interfaces: name, address and netmask as [getifaddrs] lists them

    The mask is read as the kind of the address; reading one of another kind
    is left undefined. *)
Definition interface : Type := string * option sockaddr * option sockaddr.

Definition family_of (a : sockaddr) : Z :=
  match a with SIn a => sin_family a | SIn6 a => sin6_family a | SAny a => sa_family a end.

Fixpoint count_all (l : list Z) : R Z :=
  match l with
  | [] => mret 0
  | b :: l' => n ← CountBytes 8 b; m ← count_all l'; mret (n + m)
  end.

Definition interface_entry (family : Z) (i : interface) : R (option (string * (Addr * Z))) :=
  let '(name, addr, mask) := i in
  a ← derefM addr;
  if negb (family =? AF_UNSPEC) && negb (family =? family_of a) then mret None
  else
    match a with
    | SIn x =>
        m ← derefM mask;
        match m with
        | SIn y => n ← CountBytes 32 (s_addr y); mret (Some (name, (IPv4Address x, n)))
        | _ => faultM OutOfBounds
        end
    | SIn6 x =>
        m ← derefM mask;
        match m with
        | SIn6 y => n ← count_all (s6_addr y); mret (Some (name, (IPv6Address x, n)))
        | _ => faultM OutOfBounds
        end
    | SAny _ => mret None
    end.

Fixpoint interface_loop (family : Z) (l : list interface) : R (list (string * (Addr * Z))) :=
  match l with
  | [] => mret []
  | i :: l' =>
      e ← interface_entry family i;
      r ← interface_loop family l';
      mret (match e with Some x => x :: r | None => r end)
  end.

(** The multimap as the list of its entries; [res] is what the caller passed. *)
Definition getInterfaceAddress (getifaddrs : option (list interface))
    (res : list (string * (Addr * Z))) (family : Z) : R (list (string * (Addr * Z)) * bool) :=
  match getifaddrs with
  | None => mret (res, false)
  | Some l => r ← interface_loop family l; mret (res ++ r, nonempty (res ++ r))
  end.

Definition getInterfaceAddress_of (getifaddrs : option (list interface)) (res : list (Addr * Z))
    (iface : string) (family : Z) : R (list (Addr * Z) * bool) :=
  if bool_decide (iface = EmptyString) || bool_decide (iface = "*"%string) then
    mret (res ++
          (if (family =? AF_INET) || (family =? AF_UNSPEC)
           then [(IPv4Address (IPv4Address_new 0 0), 0)] else []) ++
          (if (family =? AF_INET6) || (family =? AF_UNSPEC)
           then [(IPv6Address IPv6Address_new, 0)] else []), true)
  else
    r ← getInterfaceAddress getifaddrs [] family;
    let '(results, ok) := r in
    if negb ok then mret (res, false)
    else
      let res := res ++ (snd <$> filter (λ e, e.1 = iface) results) in
      mret (res, nonempty res).
End address.
End Address.
