(* ===== verification/AddressProps.v ===== *)
(** Properties of the addresses: prefixes of both families, the order of
    addresses, and how a host string is split. *)
From stdpp Require Import base list numbers option strings sets.
From Stdlib Require Import ZArith Lia.
From S2P Require Import Prelude Endian CString Address.
Import Address.
Local Open Scope Z_scope.

(** *** Swapping bytes moves bits *)
Lemma le_bytes_testbit n z k j :
  (k < n)%nat → 0 ≤ j < 8 →
  Z.testbit (nth k (le_bytes n z) 0) j = Z.testbit z (8 * Z.of_nat k + j).
Proof.
  intros Hk Hj. revert z k Hk. induction n as [|n IH]; intros z [|k] Hk; try lia; cbn [le_bytes nth].
  - rewrite (Z.mod_pow2_bits_low z 8) by lia. f_equal; lia.
  - rewrite IH by lia. change 256 with (2 ^ 8). rewrite Z.div_pow2_bits by lia. f_equal. lia.
Qed.

Lemma le_value_testbit l i :
  bytes l → 0 ≤ i → Z.testbit (le_value l) i = Z.testbit (nth (Z.to_nat (i / 8)) l 0) (i `mod` 8).
Proof.
  intros Hl. revert i. induction Hl as [|b l Hb Hl IH]; intros i Hi; cbn [le_value].
  { rewrite Z.bits_0. destruct (Z.to_nat (i / 8)); simpl; by rewrite Z.bits_0. }
  destruct (Z.lt_ge_cases i 8) as [H8|H8].
  - rewrite Z.div_small, Z.mod_small by lia. simpl nth.
    rewrite <-(Z.mod_pow2_bits_low (b + 256 * le_value l) 8 i) by lia. change (2 ^ 8) with 256.
    rewrite (Z.mul_comm 256), Z.mod_add, Z.mod_small by lia. done.
  - replace (Z.to_nat (i / 8)) with (S (Z.to_nat ((i - 8) / 8))).
    2: { replace (i / 8) with ((i - 8) / 8 + 1); [|rewrite <-Z.div_add by lia; f_equal; lia].
         assert (0 ≤ (i - 8) / 8) by (apply Z.div_pos; lia). lia. }
    cbn [nth]. replace (i `mod` 8) with ((i - 8) `mod` 8); [|rewrite <-(Z.mod_add (i - 8) 1) by lia; f_equal; lia].
    rewrite <-IH by lia. replace i with ((i - 8) + 8) at 1 by lia.
    rewrite <-Z.div_pow2_bits by lia. f_equal. change (2 ^ 8) with 256.
    rewrite Z.mul_comm, Z.div_add, Z.div_small by lia. lia.
Qed.

Lemma bswap_testbit n z i :
  0 ≤ i →
  Z.testbit (byteswap n z) i =
  (i <? 8 * Z.of_nat n) && Z.testbit z (8 * (Z.of_nat n - 1 - i / 8) + i `mod` 8).
Proof.
  intros Hi. unfold byteswap, bswap, uint.
  destruct (Z.ltb_spec i (8 * Z.of_nat n)) as [Hlt|Hge]; simpl;
    [|by rewrite Z.mod_pow2_bits_high by lia].
  rewrite Z.mod_pow2_bits_low by lia.
  assert (0 ≤ i / 8 < Z.of_nat n) as Hq.
  { split; [apply Z.div_pos; lia|apply Z.div_lt_upper_bound; lia]. }
  rewrite le_value_testbit by (done || apply bytes_rev, le_bytes_bytes).
  rewrite rev_nth by (rewrite length_le_bytes; lia). rewrite length_le_bytes.
  rewrite le_bytes_testbit by (try apply Z.mod_pos_bound; lia). f_equal. lia.
Qed.

Section address.
Context {host : Host}.
Abbreviation swap4 := (byteswapOnLittleEndian 4).

Lemma swap_testbit n z i :
  0 ≤ i → in_uint (8 * Z.of_nat n) z →
  Z.testbit (byteswapOnLittleEndian n z) i =
  (i <? 8 * Z.of_nat n) &&
  Z.testbit z (if decide (WINDGENT_BYTE_ORDER = WINDGENT_BIG_ENDIAN) then i
               else 8 * (Z.of_nat n - 1 - i / 8) + i `mod` 8).
Proof.
  intros Hi Hz. unfold byteswapOnLittleEndian. case_decide; [|by apply bswap_testbit].
  destruct (Z.ltb_spec i (8 * Z.of_nat n)); simpl; [done|].
  rewrite <-(Z.mod_small z (2 ^ (8 * Z.of_nat n))) by exact Hz.
  by rewrite Z.mod_pow2_bits_high by lia.
Qed.

Lemma swap_range n z : in_uint (8 * Z.of_nat n) z → in_uint (8 * Z.of_nat n) (byteswapOnLittleEndian n z).
Proof. intros Hz. unfold byteswapOnLittleEndian. case_decide; [done|]. apply uint_range. lia. Qed.

Lemma swap_swap n z : in_uint (8 * Z.of_nat n) z →
  byteswapOnLittleEndian n (byteswapOnLittleEndian n z) = z.
Proof.
  intros Hz. unfold byteswapOnLittleEndian. case_decide; [done|].
  rewrite byteswap_involutive. by apply uint_id.
Qed.

Lemma in_uint_testbit w z : 0 ≤ w → 0 ≤ z → (∀ i, w ≤ i → Z.testbit z i = false) → in_uint w z.
Proof.
  intros Hw Hz Hb. split; [done|]. destruct (Z.eq_dec z 0) as [->|]; [apply Z.pow_pos_nonneg; lia|].
  apply Z.log2_lt_pow2; [lia|]. destruct (Z.lt_ge_cases (Z.log2 z) w) as [|Hge]; [done|].
  specialize (Hb _ Hge). rewrite Z.bit_log2 in Hb by lia. done.
Qed.

Lemma in_uint_high w z i : in_uint w z → w ≤ i → Z.testbit z i = false.
Proof.
  intros [H0 Hlt] Hi. destruct (Z.eq_dec z 0) as [->|]; [apply Z.bits_0|].
  apply Z.bits_above_log2; [done|]. apply Z.log2_lt_pow2; [lia|].
  eapply Z.lt_le_trans; [exact Hlt|]. apply Z.pow_le_mono_r; lia.
Qed.

(** Bitwise operations commute with swapping. *)
Lemma swap_lor n a b : in_uint (8 * Z.of_nat n) a → in_uint (8 * Z.of_nat n) b →
  byteswapOnLittleEndian n (Z.lor a b) = Z.lor (byteswapOnLittleEndian n a) (byteswapOnLittleEndian n b).
Proof.
  intros Ha Hb. assert (in_uint (8 * Z.of_nat n) (Z.lor a b)) as Hab.
  { apply in_uint_testbit; [lia|apply Z.lor_nonneg; split; apply Ha || apply Hb|].
    intros i Hi. rewrite Z.lor_spec, (in_uint_high (8 * Z.of_nat n) a i), (in_uint_high (8 * Z.of_nat n) b i); done. }
  apply Z.bits_inj'. intros i Hi. rewrite Z.lor_spec, !swap_testbit by done. rewrite Z.lor_spec.
  by rewrite andb_orb_distrib_r.
Qed.

Lemma swap_land n a b : in_uint (8 * Z.of_nat n) a → in_uint (8 * Z.of_nat n) b →
  byteswapOnLittleEndian n (Z.land a b) = Z.land (byteswapOnLittleEndian n a) (byteswapOnLittleEndian n b).
Proof.
  intros Ha Hb. assert (in_uint (8 * Z.of_nat n) (Z.land a b)) as Hab.
  { apply in_uint_testbit; [lia|apply Z.land_nonneg; left; apply Ha|].
    intros i Hi. by rewrite Z.land_spec, (in_uint_high (8 * Z.of_nat n) a i). }
  apply Z.bits_inj'. intros i Hi. rewrite Z.land_spec, !swap_testbit by done. rewrite Z.land_spec.
  by destruct (i <? _).
Qed.

(** *** Masks *)
Lemma CreateMask32_ok p u : 2 ≤ p ≤ 32 → CreateMask 32 p u = Ok (2 ^ (32 - p) - 1) u.
Proof.
  intros Hp. unfold CreateMask. rewrite uint_id by (unfold in_uint; lia).
  destruct (Z.leb_spec 32 (32 - p)); [lia|].
  assert (0 < 2 ^ (32 - p) ≤ 2 ^ 30) as Hpow.
  { split; [apply Z.pow_pos_nonneg; lia|apply Z.pow_le_mono_r; lia]. }
  rewrite sint_id by (unfold in_sint; lia). unfold signed. rewrite decide_True by (unfold in_sint; lia).
  unfold_M. f_equal. apply uint_id. unfold in_uint. lia.
Qed.

Lemma CreateMask32_bad p u :
  0 ≤ p < 2 ^ 32 → p < 2 ∨ 32 < p →
  CreateMask 32 p u = Fault (if decide (p = 1) then SignedOverflow else BadShift).
Proof.
  intros Hp Hbad. unfold CreateMask. case_decide as H1.
  - subst. vm_compute. done.
  - destruct (decide (p = 0)) as [->|H0]; [by vm_compute|].
    assert (uint 64 (32 - p) = 2 ^ 64 + (32 - p)) as ->.
    { unfold uint. symmetry. apply (Z.mod_unique _ _ (-1)); lia. }
    destruct (Z.leb_spec 32 (2 ^ 64 + (32 - p))); [done|lia].
Qed.

Lemma lor_ones a n : 0 ≤ n →
  Z.lor a (2 ^ n - 1) / 2 ^ n = a / 2 ^ n ∧ Z.lor a (2 ^ n - 1) `mod` 2 ^ n = 2 ^ n - 1.
Proof.
  intros Hn. replace (2 ^ n - 1) with (Z.ones n) by (rewrite Z.ones_equiv; lia). split.
  - rewrite <-!Z.shiftr_div_pow2, Z.shiftr_lor, (Z.shiftr_div_pow2 (Z.ones n)) by done.
    rewrite Z.ones_div_pow2 by lia. rewrite Z.sub_diag. by rewrite Z.lor_0_r.
  - rewrite <-Z.land_ones by done. apply Z.bits_inj'. intros i Hi.
    rewrite Z.land_spec, Z.lor_spec. by destruct (Z.testbit (Z.ones n) i); rewrite ?orb_true_r, ?andb_false_r.
Qed.

(** The numeric value of an address, most significant byte first. *)
Definition ip (a : sockaddr_in) : Z := swap4 (s_addr a).

Definition mask_ok (p : Z) : bool :=
  match IPv4_subNetMask p tt with
  | Ok (Some a) _ => (ip a =? 2 ^ 32 - 2 ^ (32 - p)) &&
      match CountBytes 32 (s_addr a) tt with Ok n _ => n =? p | _ => false end
  | _ => false
  end.


End address.

Lemma all_masks_little : forallb (@mask_ok WINDGENT_LITTLE_ENDIAN) (seqZ 2 31) = true.
Proof. vm_compute. reflexivity. Qed.
Lemma all_masks_big : forallb (@mask_ok WINDGENT_BIG_ENDIAN) (seqZ 2 31) = true.
Proof. vm_compute. reflexivity. Qed.

Section prefixes.
Context {host : Host}.

Lemma mask_ok_all p : 2 ≤ p ≤ 32 → mask_ok p = true.
Proof.
  intros Hp. assert (forallb mask_ok (seqZ 2 31) = true) as H.
  { clear. destruct host as [|]; [apply all_masks_little|apply all_masks_big]. } rewrite forallb_forall in H. apply H.
  apply list_elem_of_In, elem_of_seqZ. lia.
Qed.

(** For a prefix length from 2 to 32 the broadcast address keeps the network
    part and sets the rest, the mask is that of the prefix and its bits count
    the prefix; networkAddress, however, keeps the host part and clears the
    network. Lengths 0 and 1 are undefined arithmetic, longer ones give no
    address or, for the mask, an undefined shift. *)
Theorem ipv4_prefixes (a : sockaddr_in) (p : Z) :
  in_uint 32 (s_addr a) → in_uint 32 p →
  let n := 32 - p in
  if decide (2 ≤ p ≤ 32) then
    wp (IPv4_broadcastaAddress a p) (λ r _, ∃ b, r = Some b ∧ sin_port b = sin_port a ∧
      ip b / 2 ^ n = ip a / 2 ^ n ∧ ip b `mod` 2 ^ n = 2 ^ n - 1) tt ∧
    wp (IPv4_networkAddress a p) (λ r _, ∃ b, r = Some b ∧ sin_port b = sin_port a ∧
      ip b = ip a `mod` 2 ^ n) tt ∧
    wp (IPv4_subNetMask p) (λ r _, ∃ b, r = Some b ∧ ip b = 2 ^ 32 - 2 ^ n ∧
      CountBytes 32 (s_addr b) tt = Ok p tt) tt
  else
    let f := if decide (p = 1) then SignedOverflow else BadShift in
    IPv4_broadcastaAddress a p tt = (if decide (p < 2) then Fault f else Ok None tt) ∧
    IPv4_networkAddress a p tt = (if decide (p < 2) then Fault f else Ok None tt) ∧
    IPv4_subNetMask p tt = Fault f.
Proof.
  intros Ha Hp n. change 32 with (8 * Z.of_nat 4) in Ha. case_decide as Hr.
  - assert (CreateMask 32 p tt = Ok (2 ^ n - 1) tt) as Hm by by apply CreateMask32_ok.
    assert (in_uint (8 * Z.of_nat 4) (2 ^ n - 1)) as Hmr.
    { unfold in_uint. assert (0 < 2 ^ n ≤ 2 ^ 30); [|lia].
      split; [apply Z.pow_pos_nonneg; lia|apply Z.pow_le_mono_r; lia]. }
    split_and!.
    + unfold wp, IPv4_broadcastaAddress. destruct (Z.ltb_spec 32 p); [lia|]. unfold_M. rewrite Hm.
      eexists. split; [done|]. split; [done|]. unfold ip. simpl s_addr.
      rewrite swap_lor, swap_swap by (done || by apply swap_range). apply lor_ones. lia.
    + unfold wp, IPv4_networkAddress. destruct (Z.ltb_spec 32 p); [lia|]. unfold_M. rewrite Hm.
      eexists. split; [done|]. split; [done|]. unfold ip. simpl s_addr.
      rewrite swap_land, swap_swap by (done || by apply swap_range).
      rewrite <-Z.land_ones by lia. f_equal. rewrite Z.ones_equiv. lia.
    + pose proof (mask_ok_all p Hr) as Hk. unfold mask_ok in Hk. unfold wp.
      destruct (IPv4_subNetMask p tt) as [[b|] []| |]; try done.
      apply andb_true_iff in Hk as [H1%Z.eqb_eq H2].
      exists b. split; [done|]. split; [done|].
      destruct (CountBytes 32 (s_addr b) tt) as [k []| |]; try done. by apply Z.eqb_eq in H2 as ->.
  - cbv zeta. assert (p < 2 ∨ 32 < p) as Hbad by lia.
    assert (CreateMask 32 p tt = Fault (if decide (p = 1) then SignedOverflow else BadShift)) as Hm
      by (apply CreateMask32_bad; [apply Hp|done]).
    unfold IPv4_broadcastaAddress, IPv4_networkAddress, IPv4_subNetMask. unfold_M. rewrite Hm.
    destruct (Z.ltb_spec 32 p).
    + rewrite !(decide_False (P := p < 2)) by lia. done.
    + rewrite !(decide_True (P := p < 2)) by lia. rewrite Hm. done.
Qed.

Lemma CreateMask8_ok p u : 0 ≤ p → CreateMask 8 (p `mod` 8) u = Ok (2 ^ (8 - p `mod` 8) - 1) u.
Proof.
  intros Hp. pose proof (Z.mod_pos_bound p 8 ltac:(lia)) as Hm. set (r := p `mod` 8) in *. clearbody r.
  unfold CreateMask. rewrite uint_id by (unfold in_uint; lia).
  destruct (Z.leb_spec 32 (8 - r)); [lia|].
  assert (0 < 2 ^ (8 - r) ≤ 2 ^ 8) as Hpow.
  { split; [apply Z.pow_pos_nonneg; lia|apply Z.pow_le_mono_r; lia]. }
  rewrite sint_id by (unfold in_sint; lia). unfold signed. rewrite decide_True by (unfold in_sint; lia).
  unfold_M. f_equal. apply uint_id. unfold in_uint. lia.
Qed.

Lemma fill_insert i x v l : (i < length l)%nat →
  fill_from i v (<[i := x]> l) = take i l ++ replicate (length l - i) v.
Proof. intros Hi. unfold fill_from. by rewrite length_insert, take_insert_ge by lia. Qed.

(** The IPv6 operations work on whole bytes: below 128 the prefix is rounded
    down to a multiple of eight for the broadcast and the network address, and
    the mask comes out inverted, with zeros for the network; from 128 on, also
    for the full length 128, a byte behind the address is accessed. *)
Theorem ipv6_prefixes (a : sockaddr_in6) (p : Z) :
  length (s6_addr a) = 16%nat → in_uint 32 p →
  let q := Z.to_nat (p / 8) in
  if decide (p < 128) then
    IPv6_broadcastaAddress a p tt
      = Ok (with_bytes (take q (s6_addr a) ++ replicate (16 - q) 255) a) tt ∧
    IPv6_networkAddress a p tt
      = Ok (with_bytes (take q (s6_addr a) ++ replicate (16 - q) 0) a) tt ∧
    IPv6_subNetMask p tt
      = Ok (with_bytes (replicate q 0 ++ replicate (16 - q) 255) IPv6Address_new) tt
  else
    IPv6_broadcastaAddress a p tt = Fault OutOfBounds ∧
    IPv6_networkAddress a p tt = Fault OutOfBounds ∧
    IPv6_subNetMask p tt = Fault OutOfBounds.
Proof.
  intros Hlen [Hp _] q.
  unfold IPv6_broadcastaAddress, IPv6_networkAddress, IPv6_subNetMask, byte_at. fold q.
  unfold_M. rewrite !CreateMask8_ok by done. case_decide as Hlt.
  - assert (q < 16)%nat as Hq.
    { subst q. assert (p / 8 < 16) by (apply Z.div_lt_upper_bound; lia). lia. }
    destruct (lookup_lt_is_Some_2 (s6_addr a) q) as [b ->]; [lia|].
    change (s6_addr IPv6Address_new) with (replicate 16 0 : list Z).
    rewrite lookup_replicate_2 by lia. rewrite !fill_insert by (rewrite ?length_replicate; lia).
    rewrite Hlen, length_replicate, take_replicate, Nat.min_l by lia. done.
  - assert (16 ≤ q)%nat as Hq.
    { subst q. assert (16 ≤ p / 8) by (apply Z.div_le_lower_bound; lia). lia. }
    rewrite !(proj2 (lookup_ge_None _ _)) by (simpl; lia). done.
Qed.

(** *** Order *)
Definition key (a : Addr) : list Z := take (Z.to_nat (getAddrLen a)) (getAddr a).

(** The length does not exceed the bytes there are. *)
Definition wf (a : Addr) : Prop :=
  0 ≤ getAddrLen a ∧ (Z.to_nat (getAddrLen a) ≤ length (getAddr a))%nat.

(** The reflexive lexicographic order. *)
Fixpoint lex_le (l r : list Z) : bool :=
  match l, r with
  | [], _ => true
  | _ :: _, [] => false
  | x :: l', y :: r' => (x <? y) || (x =? y) && lex_le l' r'
  end.

Lemma memcmp_eq l r : length l = length r → memcmp l r = Eq ↔ l = r.
Proof.
  revert r; induction l as [|x l IH]; intros [|y r] Hl; simplify_eq/=; try done.
  destruct (Z.compare_spec x y) as [->|H|H].
  - rewrite IH by done. split; [by intros ->|by intros [= ->]].
  - split; [done|]. intros [= -> _]. lia.
  - split; [done|]. intros [= -> _]. lia.
Qed.

Lemma memcmp_lex l r n :
  n = Nat.min (length l) (length r) →
  lex_le l r = match memcmp (take n l) (take n r) with
               | Lt => true | Gt => false | Eq => (n =? length l)%nat end.
Proof.
  intros ->. revert r; induction l as [|x l IH]; intros [|y r]; try done. simpl.
  destruct (Z.compare_spec x y) as [->|H|H].
  - rewrite Z.ltb_irrefl, Z.eqb_refl. simpl. apply IH.
  - by replace (x <? y) with true by lia.
  - replace (x <? y) with false by lia. by replace (x =? y) with false by lia.
Qed.

Lemma take_key a n : n ≤ getAddrLen a → take (Z.to_nat n) (getAddr a) = take (Z.to_nat n) (key a).
Proof. intros Hn. unfold key. rewrite take_take. f_equal. lia. Qed.

Lemma length_key a : wf a → length (key a) = Z.to_nat (getAddrLen a).
Proof. intros [_ H]. unfold key. rewrite length_take. lia. Qed.

(** Equality of addresses is equality of their bytes, and operator< is the
    lexicographic order of the bytes - the reflexive one: every address is
    less than itself, and of two equal addresses each is less than the other,
    which the ordered containers of the library do not allow. *)
Theorem address_order (a b : Addr) :
  wf a → wf b →
  addr_eq a b = bool_decide (key a = key b) ∧ addr_neq a b = negb (addr_eq a b) ∧
  addr_lt a b = lex_le (key a) (key b) ∧ addr_lt a a = true.
Proof.
  intros Ha Hb.
  assert (∀ x y, wf x → wf y → addr_lt x y = lex_le (key x) (key y)) as Hlt.
  { intros x y Hx Hy. pose proof (length_key x Hx) as Lx. pose proof (length_key y Hy) as Ly.
    destruct Hx as [Hx _], Hy as [Hy _]. unfold addr_lt. rewrite !take_key by lia.
    rewrite (memcmp_lex _ _ (Z.to_nat (Z.min (getAddrLen x) (getAddrLen y)))) by lia.
    destruct (memcmp _ _); try done. rewrite Lx. apply eq_true_iff_eq.
    rewrite Z.eqb_eq, Nat.eqb_eq. lia. }
  split_and!; [|done|by apply Hlt|].
  - pose proof (length_key a Ha) as La. pose proof (length_key b Hb) as Lb.
    destruct Ha as [Ha _], Hb as [Hb _]. unfold addr_eq.
    destruct (Z.eqb_spec (getAddrLen a) (getAddrLen b)) as [E|E]; simpl.
    + rewrite (take_key a), (take_key b) by lia.
      rewrite (take_ge (key a)), (take_ge (key b)) by lia.
      pose proof (memcmp_eq (key a) (key b) ltac:(lia)) as Hm.
      destruct (memcmp _ _) eqn:Hc; symmetry; [apply bool_decide_eq_true|apply bool_decide_eq_false..].
      * by apply Hm.
      * intros Hk. by apply Hm in Hk.
      * intros Hk. by apply Hm in Hk.
    + symmetry. apply bool_decide_eq_false. intros Hk. rewrite Hk in La. lia.
  - rewrite Hlt by done. clear. induction (key a) as [|x l IH]; [done|]. simpl.
    by rewrite Z.eqb_refl, IH, orb_true_r.
Qed.
End prefixes.

(** *** Host strings *)
Lemma memchr_none l c : c ∉ l → memchr l c = None.
Proof.
  induction l as [|x l IH]; intros Hc; [done|]. simpl.
  destruct (Z.eqb_spec x c) as [->|]; [set_solver|]. by rewrite IH by set_solver.
Qed.

Lemma memchr_first l c r : c ∉ l → memchr (l ++ c :: r) c = Some (length l).
Proof.
  induction l as [|x l IH]; intros Hc; simpl; [by rewrite Z.eqb_refl|].
  destruct (Z.eqb_spec x c) as [->|]; [set_solver|]. by rewrite IH by set_solver.
Qed.

Lemma drop_first {A} (l : list A) c r : drop (S (length l)) (l ++ c :: r) = r.
Proof. change (S (length l)) with (1 + length l)%nat. by rewrite Nat.add_comm, <-drop_drop, drop_app_length. Qed.

(** Not a bracketed address. *)
Definition unbracketed (h : list Z) : Prop := head h ≠ Some lbracket.

Lemma split_unbracketed h : unbracketed h →
  split_host h =
  let '(node, service) :=
    match memchr h colon with
    | None => ([], None)
    | Some i =>
        match memchr (drop (S i) h) colon with
        | None => (take i h, Some (drop (S i) h))
        | Some _ => ([], Some (drop i h))
        end
    end in
  (match node with [] => h | _ => node end, service).
Proof.
  intros Hh. unfold split_host, unbracketed, lbracket in *.
  destruct h as [|x h]; [done|]. simpl in Hh.
  assert (x ≠ 91) as Hx by congruence.
  destruct x as [|x|x]; try done. by repeat (destruct x as [x|x|]; try done).
Qed.

(** A host string without colon is the node; "name:port" and, in brackets,
    "[address]:port" give node and service. An IPv6 address without brackets
    becomes the node as a whole, but everything from its first colon on is
    passed as the service. *)
Theorem host_strings (name port : list Z) :
  name ≠ [] → colon ∉ port →
  (colon ∉ name → unbracketed name →
     split_host name = (name, None) ∧ split_host (name ++ colon :: port) = (name, Some port)) ∧
  (rbracket ∉ name →
     split_host (lbracket :: name ++ [rbracket]) = (name, None) ∧
     split_host (lbracket :: name ++ rbracket :: colon :: port) = (name, Some port)) ∧
  (colon ∉ name → unbracketed name → ∀ rest, colon ∈ rest →
     split_host (name ++ colon :: rest) = (name ++ colon :: rest, Some (colon :: rest))).
Proof.
  intros Hne Hport. split_and!.
  - intros Hc Hu. assert (∀ r, unbracketed (name ++ r)) as Hu' by (intros r; by destruct name).
    split.
    + rewrite split_unbracketed by done. by rewrite memchr_none.
    + rewrite split_unbracketed by done. rewrite memchr_first, drop_first, memchr_none by done.
      rewrite take_app_length. by destruct name.
  - intros Hb. unfold split_host, lbracket, rbracket, colon in *. split.
    + rewrite memchr_first, take_app_length, drop_first by done. by destruct name.
    + rewrite memchr_first, take_app_length, drop_first by done. by destruct name.
  - intros Hc Hu rest Hr. assert (∀ r, unbracketed (name ++ r)) as Hu' by (intros r; by destruct name).
    rewrite split_unbracketed by done. rewrite memchr_first, drop_first by done.
    destruct (memchr rest colon) as [j|] eqn:E.
    + by rewrite drop_app_length.
    + exfalso. clear -Hr E. induction rest as [|x l IH]; [by apply elem_of_nil in Hr|]. simpl in E.
      destruct (Z.eqb_spec x colon) as [->|]; [done|].
      destruct (memchr l colon); [done|]. apply IH; [set_solver|done].
Qed.

(** *** Witnesses *)
#[local] Instance little_host : Host := WINDGENT_LITTLE_ENDIAN.

(** 192.168.1.77, port 80. *)
Definition example_v4 : sockaddr_in := IPv4Address_new 3232235853 80.

Lemma ipv4_prefixes_witness :
  (∃ b, IPv4_networkAddress example_v4 24 tt = Ok (Some b) tt ∧ IPv4_insert b = "0.0.0.77:80"%string) ∧
  IPv4_subNetMask 0 tt = Fault BadShift.
Proof.
  assert (in_uint 32 (s_addr example_v4)) as Ha by (vm_compute; split; congruence).
  assert (in_uint 32 24) as H24 by (unfold in_uint; lia). assert (in_uint 32 0) as H0 by (unfold in_uint; lia).
  pose proof (ipv4_prefixes example_v4 24 Ha H24) as H. rewrite decide_True in H by lia.
  pose proof (ipv4_prefixes example_v4 0 Ha H0) as H'. rewrite decide_False in H' by lia.
  split; [|apply H'].
  destruct H as (_ & Hn & _). apply wp_ok in Hn as (r & [] & He & b & -> & _).
  exists b. split; [exact He|]. vm_compute in He. injection He as <-. vm_compute. reflexivity.
Defined.

Lemma ipv6_prefixes_witness :
  IPv6_subNetMask 24 tt = Ok (with_bytes (replicate 3 0 ++ replicate 13 255) IPv6Address_new) tt ∧
  IPv6_broadcastaAddress IPv6Address_new 128 tt = Fault OutOfBounds.
Proof.
  assert (in_uint 32 24) as H24 by (unfold in_uint; lia).
  assert (in_uint 32 128) as H128 by (unfold in_uint; lia).
  pose proof (ipv6_prefixes IPv6Address_new 24 eq_refl H24) as H. rewrite decide_True in H by lia.
  pose proof (ipv6_prefixes IPv6Address_new 128 eq_refl H128) as H'. rewrite decide_False in H' by lia.
  split; [apply H|apply H'].
Defined.

Lemma address_order_witness :
  addr_lt (IPv4Address example_v4) (IPv4Address example_v4) = true ∧
  addr_eq (IPv4Address example_v4) (UnknownAddress_family 2) = false.
Proof.
  assert (wf (IPv4Address example_v4)) as H1 by (split; simpl; lia).
  assert (wf (UnknownAddress_family 2)) as H2 by (split; simpl; lia).
  destruct (address_order _ _ H1 H2) as (-> & _ & _ & H). split; [exact H|].
  vm_compute. reflexivity.
Defined.

(** "db:80" and "fe80::1". *)
Lemma host_strings_witness :
  split_host [100; 98; 58; 56; 48] = ([100; 98], Some [56; 48]) ∧
  split_host [102; 101; 56; 48; 58; 58; 49] = ([102; 101; 56; 48; 58; 58; 49], Some [58; 58; 49]).
Proof.
  assert (∀ l : list Z, forallb (λ x, negb (x =? colon)) l = true → colon ∉ l) as Hno.
  { intros l Hl Hin. rewrite forallb_forall in Hl. apply list_elem_of_In, Hl in Hin. done. }
  split.
  - assert (colon ∉ [56; 48]) as Hp by (by apply Hno). assert (colon ∉ [100; 98]) as Hn by (by apply Hno).
    destruct (host_strings [100; 98] [56; 48] ltac:(done) Hp) as (H & _ & _). by apply H.
  - assert (colon ∉ []) as Hp by (by apply Hno).
    assert (colon ∉ [102; 101; 56; 48]) as Hn by (by apply Hno).
    destruct (host_strings [102; 101; 56; 48] [] ltac:(done) Hp) as (_ & _ & H).
    apply (H Hn ltac:(done) [58; 49]). by apply elem_of_cons; left.
Defined.
