(* ===== verification/Stream.v ===== *)
(** Streams: [stream.h], [stream.cc], [socket_stream.h] and [socket_stream.cc].

    [Stream] is the abstract class: reading into and writing from memory, the
    same for a byte array, and closing. Memory is the list of bytes of an
    object, and a pointer into it is an index, which may be negative. The loops
    [readFixedSize] and [writeFixedSize] are written against the class; module
    [SocketStream] is its implementation on a socket, whose system calls are
    parameters on a state [K] of kernel and scheduler. *)
From stdpp Require Import base list numbers option.
From Stdlib Require Import ZArith Lia.
From S2P Require Import Prelude Endian Buffer ByteArray.

Local Open Scope Z_scope.

(** Bytes stored at and loaded from a pointer; [None] is an access outside. *)
Definition store_at (mem : list Z) (p : Z) (d : list Z) : option (list Z) :=
  match d with
  | [] => Some mem
  | _ => if (0 <=? p) && (p + Z.of_nat (length d) <=? Z.of_nat (length mem))
         then Some (splice mem (Z.to_nat p) d) else None
  end.

Definition load_at (mem : list Z) (p n : Z) : option (list Z) :=
  if (0 <=? p) && (0 <=? n) && (p + n <=? Z.of_nat (length mem))
  then Some (take (Z.to_nat n) (drop (Z.to_nat p) mem)) else None.

Definition in_boundsM {S A} (o : option A) : M S A :=
  match o with Some a => mret a | None => faultM OutOfBounds end.

(** [read mem p length] answers the result and the memory afterwards. *)
Class Stream (S : Type) := {
  read : list Z → Z → Z → M S (Z * list Z);
  read_ba : Z → M S Z;
  write : list Z → Z → Z → M S Z;
  write_ba : Z → M S Z;
  close : M S unit
}.

Section stream.
Context {S : Type} `{!Stream S}.

(** [buffer + offset]: the sum wraps, so an offset of [-1] in size_t is one
    byte before the buffer. *)
Definition at_offset (buffer offset : Z) : Z := buffer + sint 64 offset.

Fixpoint readFixedSize_loop (fuel : nat) (mem : list Z) (buffer length left offset : Z)
    : M S (Z * list Z) :=
  match fuel with
  | O => faultM FuelExhausted
  | Datatypes.S fuel' =>
      if 0 <? left then
        r ← read mem (at_offset buffer offset) left;
        let '(n, mem) := r in
        let len := uint 64 n in
        if len <=? 0 then mret (sint 32 len, mem)
        else readFixedSize_loop fuel' mem buffer length (uint 64 (left - len)) (uint 64 (offset + len))
      else mret (sint 32 length, mem)
  end.

Definition readFixedSize (fuel : nat) (mem : list Z) (buffer length : Z) : M S (Z * list Z) :=
  readFixedSize_loop fuel mem buffer length length 0.

Fixpoint readFixedSize_ba_loop (fuel : nat) (length left : Z) : M S Z :=
  match fuel with
  | O => faultM FuelExhausted
  | Datatypes.S fuel' =>
      if 0 <? left then
        n ← read_ba left;
        let len := uint 64 n in
        if len <=? 0 then mret (sint 32 len)
        else readFixedSize_ba_loop fuel' length (uint 64 (left - len))
      else mret (sint 32 length)
  end.

Definition readFixedSize_ba (fuel : nat) (length : Z) : M S Z :=
  readFixedSize_ba_loop fuel length length.

Fixpoint writeFixedSize_loop (fuel : nat) (mem : list Z) (buffer length left offset : Z) : M S Z :=
  match fuel with
  | O => faultM FuelExhausted
  | Datatypes.S fuel' =>
      if 0 <? left then
        n ← write mem (at_offset buffer offset) left;
        let len := uint 64 n in
        if len <=? 0 then mret (sint 32 len)
        else writeFixedSize_loop fuel' mem buffer length (uint 64 (left - len)) (uint 64 (offset + len))
      else mret (sint 32 length)
  end.

Definition writeFixedSize (fuel : nat) (mem : list Z) (buffer length : Z) : M S Z :=
  writeFixedSize_loop fuel mem buffer length length 0.

Fixpoint writeFixedSize_ba_loop (fuel : nat) (length left : Z) : M S Z :=
  match fuel with
  | O => faultM FuelExhausted
  | Datatypes.S fuel' =>
      if 0 <? left then
        n ← write_ba left;
        let len := uint 64 n in
        if len <=? 0 then mret (sint 32 len)
        else writeFixedSize_ba_loop fuel' length (uint 64 (left - len))
      else mret (sint 32 length)
  end.

Definition writeFixedSize_ba (fuel : nat) (length : Z) : M S Z :=
  writeFixedSize_ba_loop fuel length length.
End stream.

(** ** SocketStream *)
Module SocketStream.
Section socket.
Context {K : Type}.
(** The (hooked) calls on a descriptor: the result of [recv] with the bytes it
    received, of [send] for the bytes it was given, and [close]. *)
Variable recv_f : Z → Z → K → Z * list Z * K.
Variable send_f : Z → list (option Z) → K → Z * K.
Variable close_f : Z → K → K.

(** The socket as [socket.h] keeps it, as far as a stream uses it, and the
    byte array that the [ba] operations are given. *)
Record t := mk {
  kernel : K;
  m_sockfd : Z;
  m_isConnected : bool;
  ba : ByteArray.t
}.

Definition set_kernel (k : K) (s : t) : t := mk k (m_sockfd s) (m_isConnected s) (ba s).

Definition in_ba {A} (m : M ByteArray.t A) : M t A := λ s,
  match m (ba s) with
  | Ok a b => Ok a (mk (kernel s) (m_sockfd s) (m_isConnected s) b)
  | Exn e b => Exn e (mk (kernel s) (m_sockfd s) (m_isConnected s) b)
  | Fault f => Fault f
  end.

(** Socket::recv(buffer, length) *)
Definition recv (length : Z) : M t (Z * list Z) := λ s,
  if m_isConnected s then
    let '(n, d, k) := recv_f (m_sockfd s) length (kernel s) in Ok (n, d) (set_kernel k s)
  else Ok (-1, []) s.

(** Socket::send *)
Definition send (d : list (option Z)) : M t Z := λ s,
  if m_isConnected s then
    let (n, k) := send_f (m_sockfd s) d (kernel s) in Ok n (set_kernel k s)
  else Ok (-1) s.

(** The kernel fills the vectors one after the other. *)
Fixpoint scatter (iovs : list ByteArray.iovec) (d : list Z) : M ByteArray.t unit :=
  match iovs, d with
  | v :: iovs', _ :: _ =>
      let n := ByteArray.iov_len v in
      _ ← ByteArray.memcpy_to (ByteArray.iov_node v) (ByteArray.iov_offset v) (take n d);
      scatter iovs' (drop n d)
  | _, _ => mret tt
  end.

Fixpoint gather (iovs : list ByteArray.iovec) : M ByteArray.t (list (option Z)) :=
  match iovs with
  | [] => mret []
  | v :: iovs' =>
      d ← ByteArray.memcpy_from (ByteArray.iov_node v) (ByteArray.iov_offset v) (ByteArray.iov_len v);
      d' ← gather iovs';
      mret (d ++ d')
  end.

Definition total_len (iovs : list ByteArray.iovec) : Z :=
  Z.of_nat (sum_list (ByteArray.iov_len <$> iovs)).

(** [ba->setPosition(ba->getPosition() + ret)] when something was transferred *)
Definition advance (ret : Z) : M t unit :=
  if 0 <? ret
  then s ← get; in_ba (ByteArray.setPosition (ByteArray.m_position (ba s) + Z.to_nat ret))
  else mret tt.

Definition isConnected : M t bool := gets m_isConnected.

Definition ss_read (mem : list Z) (buffer length : Z) : M t (Z * list Z) :=
  c ← isConnected;
  if negb c then mret (-1, mem)
  else
    r ← recv length;
    m ← in_boundsM (store_at mem buffer r.2);
    mret (r.1, m).

Definition ss_read_ba (length : Z) : M t Z :=
  c ← isConnected;
  if negb c then mret (-1)
  else
    r ← in_ba (ByteArray.getWriteBuffers (Z.to_nat length));
    let iovs := r.2 in
    a ← recv (total_len iovs);
    _ ← in_ba (scatter iovs a.2);
    _ ← advance a.1;
    mret a.1.

Definition ss_write (mem : list Z) (buffer length : Z) : M t Z :=
  c ← isConnected;
  if negb c then mret (-1)
  else d ← in_boundsM (load_at mem buffer length); send (Some <$> d).

Definition ss_write_ba (length : Z) : M t Z :=
  c ← isConnected;
  if negb c then mret (-1)
  else
    r ← in_ba (ByteArray.getWriteBuffers (Z.to_nat length));
    d ← in_ba (gather r.2);
    ret ← send d;
    _ ← advance ret;
    mret ret.

(** Socket::close *)
Definition ss_close : M t unit :=
  modify (λ s,
    if negb (m_isConnected s) && (m_sockfd s =? -1) then s
    else if m_sockfd s =? -1 then mk (kernel s) (-1) false (ba s)
    else mk (close_f (m_sockfd s) (kernel s)) (-1) false (ba s)).

(** The destructor of a stream that owns its socket. *)
Definition destroy (m_owner : bool) : M t unit := if m_owner then ss_close else mret tt.

#[export] Instance socket_stream : Stream t := {|
  read := ss_read; read_ba := ss_read_ba; write := ss_write; write_ba := ss_write_ba;
  close := ss_close
|}.
End socket.
Arguments t : clear implicits.
End SocketStream.
