(* ===== verification/StreamProps.v ===== *)
(** Properties of the streams: what the fixed-size loops do when the data
    arrive in pieces, when the stream ends, and when it fails. *)
From stdpp Require Import base list numbers option.
From Stdlib Require Import ZArith Lia.
From S2P Require Import Prelude Endian Buffer ByteArray Stream.

Local Open Scope Z_scope.

Lemma splice_append mem p (d1 d2 : list Z) :
  (p ≤ length mem)%nat → splice (splice mem p d1) (p + length d1) d2 = splice mem p (d1 ++ d2).
Proof. apply splice_splice. Qed.

Lemma store_at_ok mem p d :
  0 ≤ p → p + Z.of_nat (length d) ≤ Z.of_nat (length mem) →
  store_at mem p d = Some (splice mem (Z.to_nat p) d).
Proof.
  intros Hp Hd. unfold store_at. destruct d as [|x d]; [by rewrite splice_nil|].
  destruct (Z.leb_spec 0 p); [|lia]. by destruct (Z.leb_spec (p + Z.of_nat (length (x :: d))) (Z.of_nat (length mem))); [|lia].
Qed.

Section stream.
Context {S : Type} `{!Stream S}.

(** One read of at most [left] bytes answers [n] and stores [d]. *)
Definition reads (s : S) (left n : Z) (d : list Z) (s' : S) : Prop :=
  ∀ mem p, read mem p left s =
    match store_at mem p d with Some m => Ok (n, m) s' | None => Fault OutOfBounds end.

(** [left] bytes are asked for and [chunks] arrive, one per read. *)
Inductive delivers : S → Z → list (list Z) → S → Prop :=
| delivers_none s left : delivers s left [] s
| delivers_chunk s left d chunks s1 s' :
    d ≠ [] → Z.of_nat (length d) ≤ left → reads s left (Z.of_nat (length d)) d s1 →
    delivers s1 (left - Z.of_nat (length d)) chunks s' →
    delivers s left (d :: chunks) s'.

Definition received (chunks : list (list Z)) : Z := Z.of_nat (length (concat chunks)).

Lemma delivers_le s left chunks s' : 0 ≤ left → delivers s left chunks s' → received chunks ≤ left.
Proof.
  intros Hl. induction 1 as [|s left d chunks s1 s' Hd Hle Hr H IH]; [done|].
  unfold received in *. cbn [concat]. rewrite length_app. lia.
Qed.

(** The loop has stored [off] bytes of [length] and [left] are missing. *)
Lemma loop_delivers s left chunks s' fuel mem p length off :
  delivers s left chunks s' →
  0 ≤ p → 0 ≤ off → 0 ≤ left → off + left < 2 ^ 31 →
  p + off + left ≤ Z.of_nat (List.length mem) →
  readFixedSize_loop (List.length chunks + fuel) mem p length left off s =
  readFixedSize_loop fuel (splice mem (Z.to_nat (p + off)) (concat chunks)) p length
    (left - received chunks) (off + received chunks) s'.
Proof.
  intros H. revert mem off. induction H as [|s left d chunks s1 s' Hd Hle Hr H IH];
    intros mem off Hp Ho Hl Hb Hm; unfold received.
  - simpl. by rewrite splice_nil, Z.sub_0_r, Z.add_0_r.
  - assert (0 < Z.of_nat (List.length d)) as Hpos by (destruct d; [done|simpl; lia]).
    cbn [List.length Nat.add readFixedSize_loop concat].
    destruct (Z.ltb_spec 0 left); [|lia]. unfold_M. rewrite Hr.
    unfold at_offset. rewrite sint_id by (unfold in_sint; lia).
    rewrite store_at_ok by lia. rewrite (uint_id 64) by (unfold in_uint; lia).
    destruct (Z.leb_spec (Z.of_nat (List.length d)) 0); [lia|].
    rewrite !uint_id by (unfold in_uint; lia).
    assert (Z.to_nat (p + off) + List.length d ≤ List.length mem)%nat as Hroom by lia.
    rewrite IH; [|lia|lia|lia|lia|rewrite length_splice; lia].
    unfold received. rewrite length_app.
    replace (Z.to_nat (p + (off + Z.of_nat (List.length d)))) with (Z.to_nat (p + off) + List.length d)%nat by lia.
    rewrite splice_append by lia. f_equal; lia.
Qed.

(** A stream that fails for good: [left] grows until it wraps to zero. *)
Lemma loop_failing s fuel mem p length left off :
  (∀ l, reads s l (-1) [] s) → 0 < left ≤ 2 ^ 64 → 
  readFixedSize_loop fuel mem p length (uint 64 left) off s =
  if Z.of_nat fuel <=? 2 ^ 64 - left then Fault FuelExhausted else Ok (sint 32 length, mem) s.
Proof.
  intros Hf. revert left off. induction fuel as [|fuel IH]; intros left off Hl.
  { change (Z.of_nat 0) with 0. destruct (Z.leb_spec 0 (2 ^ 64 - left)); [done|lia]. }
  cbn [readFixedSize_loop]. destruct (Z.eq_dec left (2 ^ 64)) as [->|Hne].
  - rewrite Z.sub_diag. change (uint 64 (2 ^ 64)) with 0. cbn [Z.ltb Z.compare].
    destruct (Z.leb_spec (Z.of_nat (Datatypes.S fuel)) 0); [lia|done].
  - rewrite (uint_id 64 left) by (unfold in_uint; lia).
    destruct (Z.ltb_spec 0 left); [|lia]. unfold_M. rewrite (Hf left mem _). cbn [store_at].
    change (uint 64 (-1) <=? 0) with false. cbv iota.
    change (uint 64 (-1)) with (2 ^ 64 - 1).
    replace (uint 64 (left - (2 ^ 64 - 1))) with (uint 64 (left + 1)).
    2: { unfold uint. rewrite <-(Z.mod_add (left - (2 ^ 64 - 1)) 1) by lia. f_equal; lia. }
    rewrite IH by lia.
    destruct (Z.leb_spec (Z.of_nat fuel) (2 ^ 64 - (left + 1))),
      (Z.leb_spec (Z.of_nat (Datatypes.S fuel)) (2 ^ 64 - left)); try lia; done.
Qed.

(** What has arrived is in place, whatever comes next. *)
Lemma readFixedSize_prefix s s' mem p length chunks f :
  0 ≤ p → 0 < length < 2 ^ 31 → p + length ≤ Z.of_nat (List.length mem) →
  delivers s length chunks s' →
  readFixedSize (List.length chunks + f) mem p length s =
  readFixedSize_loop f (splice mem (Z.to_nat p) (concat chunks)) p length
    (length - received chunks) (received chunks) s'.
Proof.
  intros Hp Hl Hm Hd. unfold readFixedSize. rewrite (loop_delivers s length chunks s') by (done || lia).
  by rewrite Z.add_0_r.
Qed.

Lemma readFixedSize_complete s s' mem p length chunks f :
  0 ≤ p → 0 < length < 2 ^ 31 → p + length ≤ Z.of_nat (List.length mem) →
  delivers s length chunks s' → received chunks = length →
  readFixedSize (List.length chunks + Datatypes.S f) mem p length s =
  Ok (length, splice mem (Z.to_nat p) (concat chunks)) s'.
Proof.
  intros Hp Hl Hm Hd E. rewrite (readFixedSize_prefix s s') by done. rewrite E, Z.sub_diag.
  cbn [readFixedSize_loop Z.ltb Z.compare]. rewrite sint_id by (unfold in_sint; lia). done.
Qed.

Lemma readFixedSize_eof s s' s'' mem p length chunks f :
  0 ≤ p → 0 < length < 2 ^ 31 → p + length ≤ Z.of_nat (List.length mem) →
  delivers s length chunks s' → received chunks < length → reads s' (length - received chunks) 0 [] s'' →
  readFixedSize (List.length chunks + Datatypes.S f) mem p length s =
  Ok (0, splice mem (Z.to_nat p) (concat chunks)) s''.
Proof.
  intros Hp Hl Hm Hd E Hr. rewrite (readFixedSize_prefix s s') by done. cbn [readFixedSize_loop].
  destruct (Z.ltb_spec 0 (length - received chunks)); [|lia]. unfold_M. by rewrite Hr.
Qed.

(** readFixedSize stores the pieces one behind the other in the
    place it was given, and nothing else: it answers the length once all have
    arrived and 0 when the stream ends before. When the stream fails before -
    a read answers -1 and keeps doing so - the result is converted to an
    unsigned number that passes the test [len <= 0]: the loop goes on, asking for
    one byte more each time, for 2^64 minus the missing bytes rounds, and then
    reports success. *)
Theorem fixed_size_read (s s' : S) (mem : list Z) (p length : Z) (chunks : list (list Z)) :
  0 ≤ p → 0 < length < 2 ^ 31 → p + length ≤ Z.of_nat (List.length mem) →
  delivers s length chunks s' →
  let mem' := splice mem (Z.to_nat p) (concat chunks) in
  let missing := length - received chunks in
  if missing =? 0 then
    ∀ f, readFixedSize (List.length chunks + Datatypes.S f) mem p length s = Ok (length, mem') s'
  else
    (∀ s'' f, reads s' missing 0 [] s'' →
       readFixedSize (List.length chunks + Datatypes.S f) mem p length s = Ok (0, mem') s'') ∧
    ((∀ l, reads s' l (-1) [] s') → ∀ f,
       readFixedSize (List.length chunks + f) mem p length s =
         if Z.of_nat f <=? 2 ^ 64 - missing then Fault FuelExhausted else Ok (length, mem') s').
Proof.
  intros Hp Hl Hm Hd mem' missing.
  pose proof (delivers_le s length chunks s' ltac:(lia) Hd) as Hle.
  destruct (Z.eqb_spec missing 0) as [E|E].
  - intros f. apply readFixedSize_complete; done || unfold missing in E; lia.
  - assert (0 < missing < 2 ^ 31) as Hpos by (unfold missing, received in *; lia). split.
    + intros s'' f Hr. apply (readFixedSize_eof s s'); done || unfold missing in Hpos; lia.
    + intros Hf f. rewrite (readFixedSize_prefix s s') by done. fold missing mem'.
      rewrite <-(uint_id 64 missing) by (unfold in_uint; lia).
      rewrite loop_failing by (done || lia). rewrite (uint_id 64 missing) by (unfold in_uint; lia).
      by rewrite sint_id by (unfold in_sint; lia).
Qed.
End stream.

(** *** SocketStream under the contract *)
Section socket.
Context {K : Type}.
Variable recv_f : Z → Z → K → Z * list Z * K.
Variable send_f : Z → list (option Z) → K → Z * K.
Variable close_f : Z → K → K.
#[local] Instance the_stream : Stream (SocketStream.t K) := SocketStream.socket_stream recv_f send_f close_f.

Lemma connected_reads s left n d k :
  SocketStream.m_isConnected s = true →
  recv_f (SocketStream.m_sockfd s) left (SocketStream.kernel s) = (n, d, k) →
  reads s left n d (SocketStream.set_kernel k s).
Proof.
  intros Hc Hr mem p. unfold read, the_stream, SocketStream.socket_stream, SocketStream.ss_read,
    SocketStream.isConnected, SocketStream.recv. unfold_M. rewrite Hc. cbn [negb]. cbn beta iota. rewrite Hc, Hr.
  unfold in_boundsM. unfold_M. cbn [fst snd]. by destruct (store_at mem p d).
Qed.

(** A closed socket fails for good. *)
Lemma closed_reads s : SocketStream.m_isConnected s = false → ∀ l, reads s l (-1) [] s.
Proof.
  intros Hc l mem p. unfold read, the_stream, SocketStream.socket_stream, SocketStream.ss_read,
    SocketStream.isConnected. unfold_M. by rewrite Hc.
Qed.
End socket.

(** *** Witness: a kernel that hands out what it has, at most [left] bytes *)
Definition toy_recv (fd left : Z) (k : list (list Z)) : Z * list Z * list (list Z) :=
  match k with
  | [] => (0, [], [])
  | d :: k' => (Z.of_nat (length d), d, k')
  end.
Definition toy_send (fd : Z) (d : list (option Z)) (k : list (list Z)) := (Z.of_nat (length d), k).
Definition toy_close (fd : Z) (k : list (list Z)) := k.
#[local] Instance toy_stream : Stream (SocketStream.t (list (list Z))) :=
  SocketStream.socket_stream toy_recv toy_send toy_close.
Definition toy (k : list (list Z)) (connected : bool) : SocketStream.t (list (list Z)) :=
  SocketStream.mk k 5 connected (ByteArray.new 4).

Lemma fixed_size_read_witness :
  readFixedSize 3 [0; 0; 0; 0; 0; 0] 1 4 (toy [[7; 8]; [9; 10]] true)
    = Ok (4, [0; 7; 8; 9; 10; 0]) (toy [] true) ∧
  readFixedSize 1000 [0; 0; 0; 0; 0; 0] 1 4 (toy [] false) = Fault FuelExhausted.
Proof.
  assert (delivers (toy [[7; 8]; [9; 10]] true) 4 [[7; 8]; [9; 10]] (toy [] true)) as Hd.
  { eapply (delivers_chunk _ _ [7; 8] _ (toy [[9; 10]] true)); [done|simpl; lia| |].
    { by apply (connected_reads toy_recv toy_send toy_close (toy _ true)). }
    eapply (delivers_chunk _ _ [9; 10] _ (toy [] true)); [done|simpl; lia| |constructor].
    by apply (connected_reads toy_recv toy_send toy_close (toy _ true)). }
  pose proof (fixed_size_read _ _ [0; 0; 0; 0; 0; 0] 1 4 _ ltac:(lia) ltac:(lia) ltac:(simpl; lia) Hd) as H.
  split; [exact (H 0%nat)|].
  pose proof (fixed_size_read _ _ [0; 0; 0; 0; 0; 0] 1 4 [] ltac:(lia) ltac:(lia) ltac:(simpl; lia)
    (delivers_none (toy [] false) 4)) as [_ H'].
  exact (H' (closed_reads toy_recv toy_send toy_close (toy [] false) eq_refl) 1000%nat).
Defined.
