(* ===== verification/Http.v ===== *)
(** HTTP messages: [http/http.h] and [http/http.cc].

    Module [Http] models the method and status tables, the maps of header
    fields, parameters and cookies, which are ordered and ignore case, and
    requests and responses with their accessors and their text. Strings are
    lists of bytes. A map is the list of its entries in the order of the keys;
    [operator\[\]], [find] and [erase] look for the entry whose key is neither
    before nor behind the given one. *)
From stdpp Require Import base list numbers option strings pretty.
From Stdlib Require Import ZArith Lia.
From S2P Require Import Prelude CString.

Module Http.
Local Open Scope Z_scope.

(** *** Methods *)
Inductive HttpMethod :=
| DELETE | GET | HEAD | POST | PUT | CONNECT | OPTIONS
| TRACE | COPY | LOCK | MKCOL | MOVE | PROPFIND | PROPPATCH
| SEARCH | UNLOCK | BIND | REBIND | UNBIND | ACL | REPORT
| MKACTIVITY | CHECKOUT | MERGE | MSEARCH | NOTIFY | SUBSCRIBE | UNSUBSCRIBE
| PATCH | PURGE | MKCALENDAR | LINK | UNLINK | SOURCE
| INVALID_METHOD.

(** HTTP_METHOD_MAP, in the order of the numbers. *)
Definition HTTP_METHOD_MAP : list (HttpMethod * list Z) :=
   [(DELETE, str "DELETE"); (GET, str "GET"); (HEAD, str "HEAD"); (POST, str "POST");
    (PUT, str "PUT"); (CONNECT, str "CONNECT"); (OPTIONS, str "OPTIONS"); (TRACE, str "TRACE");
    (COPY, str "COPY"); (LOCK, str "LOCK"); (MKCOL, str "MKCOL"); (MOVE, str "MOVE");
    (PROPFIND, str "PROPFIND"); (PROPPATCH, str "PROPPATCH"); (SEARCH, str "SEARCH"); (UNLOCK, str "UNLOCK");
    (BIND, str "BIND"); (REBIND, str "REBIND"); (UNBIND, str "UNBIND"); (ACL, str "ACL");
    (REPORT, str "REPORT"); (MKACTIVITY, str "MKACTIVITY"); (CHECKOUT, str "CHECKOUT"); (MERGE, str "MERGE");
    (MSEARCH, str "M-SEARCH"); (NOTIFY, str "NOTIFY"); (SUBSCRIBE, str "SUBSCRIBE"); (UNSUBSCRIBE, str "UNSUBSCRIBE");
    (PATCH, str "PATCH"); (PURGE, str "PURGE"); (MKCALENDAR, str "MKCALENDAR"); (LINK, str "LINK");
    (UNLINK, str "UNLINK"); (SOURCE, str "SOURCE")].

#[global] Instance HttpMethod_eq_dec : EqDecision HttpMethod.
Proof. solve_decision. Defined.

(** The number of a method. *)
Definition number (m : HttpMethod) : nat :=
  match list_find (λ e, e.1 = m) HTTP_METHOD_MAP with
  | Some (i, _) => i
  | None => length HTTP_METHOD_MAP
  end.

(** The chain of tests that the macro expands to. *)
Fixpoint first_method (test : list Z → bool) (l : list (HttpMethod * list Z)) : HttpMethod :=
  match l with
  | [] => INVALID_METHOD
  | (m, name) :: l' => if test name then m else first_method test l'
  end.

Definition String2HttpMethod (m : list Z) : HttpMethod :=
  first_method (λ name, is_eq (strcmp name m)) HTTP_METHOD_MAP.

Definition Chars2HttpMethod (m : list Z) : HttpMethod :=
  first_method (λ name, is_eq (strncmp name m (length name))) HTTP_METHOD_MAP.

Definition HttpMethod2String (m : HttpMethod) : list Z :=
  match HTTP_METHOD_MAP !! number m with
  | Some (_, name) => name
  | None => str "<unknown>"
  end.

(** *** Status codes: an enum that is also cast from any int *)
Definition OK : Z := 200.
Definition NOT_FOUND : Z := 404.

Definition HTTP_STATUS_MAP : list (Z * list Z) :=
   [(100, str "Continue"); (101, str "Switching Protocols");
    (102, str "Processing"); (200, str "OK");
    (201, str "Created"); (202, str "Accepted");
    (203, str "Non-Authoritative Information"); (204, str "No Content");
    (205, str "Reset Content"); (206, str "Partial Content");
    (207, str "Multi-Status"); (208, str "Already Reported");
    (226, str "IM Used"); (300, str "Multiple Choices");
    (301, str "Moved Permanently"); (302, str "Found");
    (303, str "See Other"); (304, str "Not Modified");
    (305, str "Use Proxy"); (307, str "Temporary Redirect");
    (308, str "Permanent Redirect"); (400, str "Bad Request");
    (401, str "Unauthorized"); (402, str "Payment Required");
    (403, str "Forbidden"); (404, str "Not Found");
    (405, str "Method Not Allowed"); (406, str "Not Acceptable");
    (407, str "Proxy Authentication Required"); (408, str "Request Timeout");
    (409, str "Conflict"); (410, str "Gone");
    (411, str "Length Required"); (412, str "Precondition Failed");
    (413, str "Payload Too Large"); (414, str "URI Too Long");
    (415, str "Unsupported Media Type"); (416, str "Range Not Satisfiable");
    (417, str "Expectation Failed"); (421, str "Misdirected Request");
    (422, str "Unprocessable Entity"); (423, str "Locked");
    (424, str "Failed Dependency"); (426, str "Upgrade Required");
    (428, str "Precondition Required"); (429, str "Too Many Requests");
    (431, str "Request Header Fields Too Large"); (451, str "Unavailable For Legal Reasons");
    (500, str "Internal Server Error"); (501, str "Not Implemented");
    (502, str "Bad Gateway"); (503, str "Service Unavailable");
    (504, str "Gateway Timeout"); (505, str "HTTP Version Not Supported");
    (506, str "Variant Also Negotiates"); (507, str "Insufficient Storage");
    (508, str "Loop Detected"); (510, str "Not Extended");
    (511, str "Network Authentication Required")].

Definition HttpStatus2String (s : Z) : list Z :=
  match List.find (λ e, e.1 =? s) HTTP_STATUS_MAP with
  | Some (_, msg) => msg
  | None => str "<unknown"
  end.

(** *** Maps that ignore case *)
Definition CaseInsentiveLess (lhs rhs : list Z) : bool := is_lt (strcasecmp lhs rhs).

Abbreviation MapType := (list (list Z * list Z)).

Definition equivalent (k key : list Z) : bool :=
  negb (CaseInsentiveLess k key) && negb (CaseInsentiveLess key k).

(** [find] *)
Definition map_find (m : MapType) (key : list Z) : option (list Z) :=
  snd <$> List.find (λ e, equivalent e.1 key) m.

(** [m\[key\] = val]: an entry that is there keeps its key. *)
Fixpoint map_set (key val : list Z) (m : MapType) : MapType :=
  match m with
  | [] => [(key, val)]
  | (k, v) :: m' =>
      if CaseInsentiveLess k key then (k, v) :: map_set key val m'
      else if CaseInsentiveLess key k then (key, val) :: m
      else (k, val) :: m'
  end.

Definition map_erase (key : list Z) (m : MapType) : MapType :=
  filter (λ e, equivalent e.1 key = false) m.

Definition map_get (m : MapType) (key def : list Z) : list Z :=
  match map_find m key with Some v => v | None => def end.

(** hasHeader and its likes: whether, and what is stored at [val]. *)
Definition map_has (m : MapType) (key : list Z) : bool * option (list Z) :=
  match map_find m key with Some v => (true, Some v) | None => (false, None) end.

(** getAs and checkGetAs; [lexical_cast] is Boost's, [None] when it throws. *)
Definition getAs {T} (lexical_cast : list Z → option T) (m : MapType) (key : list Z) (def : T) : T :=
  match map_find m key with
  | None => def
  | Some s => match lexical_cast s with Some v => v | None => def end
  end.

Definition checkGetAs {T} (lexical_cast : list Z → option T) (m : MapType) (key : list Z) (def : T)
    : T * bool :=
  match map_find m key with
  | None => (def, false)
  | Some s => match lexical_cast s with Some v => (v, true) | None => (def, false) end
  end.

(** *** Requests *)
Record HttpRequest := mk_request {
  m_method : HttpMethod;
  rq_version : Z;
  rq_close : bool;
  m_path : list Z;
  m_query : list Z;
  m_fragment : list Z;
  rq_body : list Z;
  rq_headers : MapType;
  m_params : MapType;
  m_cookies : MapType
}.

Definition HttpRequest_new (version : Z) (close : bool) : HttpRequest :=
  mk_request GET version close (str "/") [] [] [] [] [] [].

Definition setMethod v r := mk_request v (rq_version r) (rq_close r) (m_path r) (m_query r)
  (m_fragment r) (rq_body r) (rq_headers r) (m_params r) (m_cookies r).
Definition rq_setVersion v r := mk_request (m_method r) v (rq_close r) (m_path r) (m_query r)
  (m_fragment r) (rq_body r) (rq_headers r) (m_params r) (m_cookies r).
Definition rq_setClose v r := mk_request (m_method r) (rq_version r) v (m_path r) (m_query r)
  (m_fragment r) (rq_body r) (rq_headers r) (m_params r) (m_cookies r).
Definition setPath v r := mk_request (m_method r) (rq_version r) (rq_close r) v (m_query r)
  (m_fragment r) (rq_body r) (rq_headers r) (m_params r) (m_cookies r).
Definition setQuery v r := mk_request (m_method r) (rq_version r) (rq_close r) (m_path r) v
  (m_fragment r) (rq_body r) (rq_headers r) (m_params r) (m_cookies r).
Definition setFragment v r := mk_request (m_method r) (rq_version r) (rq_close r) (m_path r)
  (m_query r) v (rq_body r) (rq_headers r) (m_params r) (m_cookies r).
Definition rq_setBody v r := mk_request (m_method r) (rq_version r) (rq_close r) (m_path r)
  (m_query r) (m_fragment r) v (rq_headers r) (m_params r) (m_cookies r).
Definition rq_setHeaders v r := mk_request (m_method r) (rq_version r) (rq_close r) (m_path r)
  (m_query r) (m_fragment r) (rq_body r) v (m_params r) (m_cookies r).
Definition setParams v r := mk_request (m_method r) (rq_version r) (rq_close r) (m_path r)
  (m_query r) (m_fragment r) (rq_body r) (rq_headers r) v (m_cookies r).
Definition setCookies v r := mk_request (m_method r) (rq_version r) (rq_close r) (m_path r)
  (m_query r) (m_fragment r) (rq_body r) (rq_headers r) (m_params r) v.

Definition rq_getHeader r key def := map_get (rq_headers r) key def.
Definition getParam r key def := map_get (m_params r) key def.
Definition getCookie r key def := map_get (m_cookies r) key def.
Definition rq_setHeader key val r := rq_setHeaders (map_set key val (rq_headers r)) r.
Definition setParam key val r := setParams (map_set key val (m_params r)) r.
Definition setCookie key val r := setCookies (map_set key val (m_cookies r)) r.
Definition rq_delHeader key r := rq_setHeaders (map_erase key (rq_headers r)) r.
Definition delParam key r := setParams (map_erase key (m_params r)) r.
Definition delCookie key r := setCookies (map_erase key (m_cookies r)) r.
Definition hasHeader r key := map_has (rq_headers r) key.
Definition hasParam r key := map_has (m_params r) key.
Definition hasCookie r key := map_has (m_cookies r) key.

(** The typed accessors: the value stored at [val], and the answer. *)
Definition rq_checkGetHeaderAs {T} (lexical_cast : list Z → option T) r key def :=
  checkGetAs lexical_cast (rq_headers r) key def.
Definition rq_getHeaderAs {T} (lexical_cast : list Z → option T) r key def :=
  getAs lexical_cast (rq_headers r) key def.
Definition checkGetParamAs {T} (lexical_cast : list Z → option T) r key def :=
  checkGetAs lexical_cast (m_params r) key def.
Definition getParamAs {T} (lexical_cast : list Z → option T) r key def :=
  getAs lexical_cast (m_params r) key def.
Definition checkGetCookieAs {T} (lexical_cast : list Z → option T) r key def :=
  checkGetAs lexical_cast (m_cookies r) key def.
Definition getCookieAs {T} (lexical_cast : list Z → option T) r key def :=
  getAs lexical_cast (m_cookies r) key def.

(** A number in decimal. *)
Definition dec (n : Z) : list Z := str (pretty n).

Definition crlf : list Z := [13; 10].

(** [HTTP/major.minor] of the version byte. *)
Definition version_text (v : Z) : list Z :=
  str "HTTP/" ++ dec (Z.shiftr v 4) ++ str "." ++ dec (Z.land v 15).

Definition connection_line (close : bool) : list Z :=
  str "Connection: " ++ (if close then str "close" else str "keep-alive") ++ crlf.

Definition header_lines (m : MapType) : list Z :=
  concat ((λ e, e.1 ++ str ": " ++ e.2 ++ crlf) <$> m).

Definition body_part (body : list Z) : list Z :=
  match body with
  | [] => crlf
  | _ => str "Content-Length: " ++ dec (Z.of_nat (length body)) ++ crlf ++ crlf ++ body
  end.

Definition mark_if_some (mark : list Z) (l : list Z) : list Z := match l with [] => [] | _ => mark end.

Definition rq_dump (r : HttpRequest) : list Z :=
  HttpMethod2String (m_method r) ++ str " " ++ m_path r ++
  mark_if_some (str "?") (m_query r) ++ m_query r ++
  mark_if_some (str "#") (m_fragment r) ++ m_fragment r ++ str " " ++
  version_text (rq_version r) ++ crlf ++
  connection_line (rq_close r) ++ header_lines (rq_headers r) ++ body_part (rq_body r).

Definition rq_toString (r : HttpRequest) : list Z := rq_dump r.

Definition init (r : HttpRequest) : HttpRequest :=
  let conn := rq_getHeader r (str "connection") [] in
  match conn with
  | [] => r
  | _ => if is_eq (strcasecmp conn (str "keep-alive")) then rq_setClose false r else rq_setClose true r
  end.

(** *** Responses *)
Record HttpResponse := mk_response {
  m_status : Z;
  rs_version : Z;
  rs_close : bool;
  m_reason : list Z;
  rs_body : list Z;
  rs_headers : MapType
}.

Definition HttpResponse_new (version : Z) (close : bool) : HttpResponse :=
  mk_response OK version close [] [] [].

Definition setStatus v r := mk_response v (rs_version r) (rs_close r) (m_reason r) (rs_body r) (rs_headers r).
Definition rs_setVersion v r := mk_response (m_status r) v (rs_close r) (m_reason r) (rs_body r) (rs_headers r).
Definition rs_setClose v r := mk_response (m_status r) (rs_version r) v (m_reason r) (rs_body r) (rs_headers r).
Definition setReason v r := mk_response (m_status r) (rs_version r) (rs_close r) v (rs_body r) (rs_headers r).
Definition rs_setBody v r := mk_response (m_status r) (rs_version r) (rs_close r) (m_reason r) v (rs_headers r).
Definition rs_setHeaders v r := mk_response (m_status r) (rs_version r) (rs_close r) (m_reason r) (rs_body r) v.

Definition rs_getHeader r key def := map_get (rs_headers r) key def.
Definition rs_setHeader key val r := rs_setHeaders (map_set key val (rs_headers r)) r.
Definition rs_delHeader key r := rs_setHeaders (map_erase key (rs_headers r)) r.

Definition rs_checkGetHeaderAs {T} (lexical_cast : list Z → option T) r key def :=
  checkGetAs lexical_cast (rs_headers r) key def.
Definition rs_getHeaderAs {T} (lexical_cast : list Z → option T) r key def :=
  getAs lexical_cast (rs_headers r) key def.

Definition rs_dump (r : HttpResponse) : list Z :=
  version_text (rs_version r) ++ str " " ++ dec (uint 32 (m_status r)) ++ str " " ++
  (match m_reason r with [] => HttpStatus2String (m_status r) | reason => reason end) ++ crlf ++
  header_lines (filter (λ e, is_eq (strcasecmp e.1 (str "connection")) = false) (rs_headers r)) ++
  connection_line (rs_close r) ++ body_part (rs_body r).

Definition rs_toString (r : HttpResponse) : list Z := rs_dump r.
End Http.
