(* ===== verification/HttpProps.v ===== *)
(** Properties of HTTP messages: the method table in both directions, and
    the header maps as finite maps on keys without case. *)
From stdpp Require Import base list numbers option strings gmap.
From Stdlib Require Import ZArith Lia Sorted.
From S2P Require Import Prelude CString Http.
Import Http.
Local Open Scope Z_scope.

(** *** Methods *)
Definition names : list (list Z) := HTTP_METHOD_MAP.*2.

(** The tables, checked by computation: no zero bytes, no name is the
    beginning of another entry's name, and every method has its entry. *)
Lemma names_zero_free : forallb (λ n, bool_decide (c_str n = n)) names = true.
Proof. vm_compute. reflexivity. Qed.

Lemma names_prefix_free :
  forallb (λ e, forallb (λ e', negb (bool_decide (take (length e.2) e'.2 = e.2)) || bool_decide (e = e'))
    HTTP_METHOD_MAP) HTTP_METHOD_MAP = true.
Proof. vm_compute. reflexivity. Qed.

Lemma method_entry m : m ≠ INVALID_METHOD → (m, HttpMethod2String m) ∈ HTTP_METHOD_MAP.
Proof.
  intros Hm. apply list_elem_of_lookup. exists (number m).
  destruct m; try done; vm_compute; reflexivity.
Qed.

Lemma entry_name m name : (m, name) ∈ HTTP_METHOD_MAP → m ≠ INVALID_METHOD ∧ name = HttpMethod2String m.
Proof.
  intros H. assert (forallb (λ e, negb (bool_decide (e.1 = INVALID_METHOD)) &&
    bool_decide (e.2 = HttpMethod2String e.1)) HTTP_METHOD_MAP = true) as Hall by (vm_compute; reflexivity).
  rewrite forallb_forall in Hall. apply list_elem_of_In, Hall in H. simpl in H.
  apply andb_true_iff in H as [H1 H2]. apply bool_decide_eq_true in H2.
  apply negb_true_iff, bool_decide_eq_false in H1. done.
Qed.

Lemma name_zero_free m name : (m, name) ∈ HTTP_METHOD_MAP → c_str name = name.
Proof.
  intros H. pose proof names_zero_free as Hall. rewrite forallb_forall in Hall.
  assert (name ∈ names) as Hn by (apply list_elem_of_fmap; by exists (m, name)).
  apply list_elem_of_In, Hall in Hn. by apply bool_decide_eq_true in Hn.
Qed.

Lemma prefix_take {A} (l1 l2 : list A) : l1 `prefix_of` l2 ↔ take (length l1) l2 = l1.
Proof.
  split; [intros [k ->]; apply take_app_length|]. intros H. exists (drop (length l1) l2).
  by rewrite <-H at 1; rewrite take_drop.
Qed.

Lemma prefix_unique e e' (s : list Z) :
  e ∈ HTTP_METHOD_MAP → e' ∈ HTTP_METHOD_MAP → e.2 `prefix_of` s → e'.2 `prefix_of` s → e = e'.
Proof.
  assert (∀ a b, a ∈ HTTP_METHOD_MAP → b ∈ HTTP_METHOD_MAP → a.2 `prefix_of` b.2 → a = b) as Hfree.
  { intros a b Ha%list_elem_of_In Hb%list_elem_of_In Hp%prefix_take. pose proof names_prefix_free as H.
    rewrite forallb_forall in H. apply H in Ha. rewrite forallb_forall in Ha. apply Ha in Hb.
    rewrite bool_decide_eq_true_2 in Hb by done. by apply bool_decide_eq_true in Hb. }
  intros He He' Hp Hp'. destruct (prefix_weak_total _ _ _ Hp Hp') as [H|H];
    [by apply Hfree|symmetry; by apply Hfree].
Qed.

(** The chain of tests finds the entry if only one passes. *)
Lemma first_method_spec test l m :
  m ≠ INVALID_METHOD →
  (∀ e e', e ∈ l → e' ∈ l → test e.2 = true → test e'.2 = true → e = e') →
  first_method test l = m ↔ ∃ name, (m, name) ∈ l ∧ test name = true.
Proof.
  intros Hm. induction l as [|[m0 n0] l IH]; intros Huniq; simpl.
  { split; [intros <-; done|]. intros (? & []%elem_of_nil & _). }
  destruct (test n0) eqn:E.
  - split; [intros ->; exists n0; split; [left|done]|]. intros (name & Hin & Ht).
    assert ((m0, n0) = (m, name)) as [= -> _]; [|done]. apply Huniq; try done. left.
  - rewrite IH.
    + split; intros (name & Hin & Ht); exists name; (split; [|done]).
      * by right.
      * apply elem_of_cons in Hin as [[= -> ->]|]; [congruence|done].
    + intros e e' He He'. apply Huniq; by right.
Qed.

Lemma strncmp_prefix m name s :
  (m, name) ∈ HTTP_METHOD_MAP →
  is_eq (strncmp name s (length name)) = true ↔ name `prefix_of` c_str s.
Proof.
  intros Hn. unfold strncmp. rewrite (name_zero_free m) by done. rewrite (take_ge name) by done.
  rewrite prefix_take.
  pose proof (compare_bytes_eq name (take (length name) (c_str s))) as H.
  assert (take (length name) (c_str s) = name ↔ compare_bytes name (take (length name) (c_str s)) = Eq) as ->
    by (rewrite H; split; intros E; symmetry; exact E).
  by destruct (compare_bytes _ _).
Qed.

Lemma Chars2HttpMethod_spec m s :
  m ≠ INVALID_METHOD → Chars2HttpMethod s = m ↔ HttpMethod2String m `prefix_of` c_str s.
Proof.
  intros Hm. unfold Chars2HttpMethod. rewrite first_method_spec; [|done|].
  + split.
    * intros (name & Hin & Ht). apply (strncmp_prefix m) in Ht; [|done].
      apply entry_name in Hin as [_ ->]. done.
    * intros Hp. exists (HttpMethod2String m). pose proof (method_entry m Hm) as He. split; [done|].
      by apply (strncmp_prefix m).
  + intros [m1 n1] [m2 n2] H1 H2 T1 T2. simpl in *.
    apply (strncmp_prefix m1) in T1; [|done]. apply (strncmp_prefix m2) in T2; [|done].
    by apply (prefix_unique _ _ (c_str s)).
Qed.

(** String2HttpMethod accepts exactly the names of the table, and every
    name gives its method. Chars2HttpMethod, which the request parser uses,
    accepts every text that begins with a name: the method is decided by the
    only name that is a beginning of the text, whatever follows. *)
Theorem method_names (m : HttpMethod) (s : list Z) :
  m ≠ INVALID_METHOD →
  (String2HttpMethod s = m ↔ c_str s = HttpMethod2String m) ∧
  (Chars2HttpMethod s = m ↔ HttpMethod2String m `prefix_of` c_str s).
Proof.
  intros Hm. split.
  - unfold String2HttpMethod. rewrite first_method_spec; [|done|].
    + split.
      * intros (name & Hin & Ht). rewrite strcmp_eq in Ht. apply bool_decide_eq_true in Ht.
        rewrite (name_zero_free m) in Ht by done. apply entry_name in Hin as [_ ->]. done.
      * intros E. exists (HttpMethod2String m). split; [by apply method_entry|].
        rewrite strcmp_eq. apply bool_decide_eq_true. rewrite E. by apply (name_zero_free m), method_entry.
    + intros [m1 n1] [m2 n2] H1 H2 T1 T2. simpl in *. rewrite strcmp_eq in T1, T2.
      apply bool_decide_eq_true in T1, T2. rewrite (name_zero_free m1) in T1 by done.
      rewrite (name_zero_free m2) in T2 by done. apply (prefix_unique _ _ (c_str s)); try done; simpl; by subst.
  - by apply Chars2HttpMethod_spec.
Qed.

(** *** Maps *)
Definition sorted_map (m : MapType) : Prop :=
  StronglySorted (λ e e' : list Z * list Z, compare_bytes (fold_case e.1) (fold_case e'.1) = Lt) m.

(** The finite map on folded keys. *)
Fixpoint to_map (m : MapType) : gmap (list Z) (list Z) :=
  match m with [] => ∅ | (k, v) :: m' => <[fold_case k := v]> (to_map m') end.

Lemma equivalent_spec k key : equivalent k key = bool_decide (fold_case k = fold_case key).
Proof.
  rewrite <-strcasecmp_eq. unfold equivalent, CaseInsentiveLess, strcasecmp.
  rewrite (compare_bytes_antisym (fold_case k)). by destruct (compare_bytes _ _).
Qed.

Lemma map_find_spec m key : map_find m key = to_map m !! fold_case key.
Proof.
  unfold map_find. induction m as [|[k v] m IH]; [done|]. cbn [List.find to_map fst].
  rewrite equivalent_spec. case_bool_decide as E.
  - rewrite E. simpl. by rewrite lookup_insert_eq.
  - by rewrite lookup_insert_ne.
Qed.

Lemma Forall_sorted_absent k m :
  Forall (λ e', compare_bytes (fold_case k) (fold_case e'.1) = Lt) m → to_map m !! fold_case k = None.
Proof.
  induction 1 as [|[k' v'] m Hk _ IH]; [done|]. simpl in *. rewrite lookup_insert_ne; [done|].
  intros E. rewrite E, (proj2 (compare_bytes_eq _ _) eq_refl) in Hk. done.
Qed.

Lemma map_set_key key val m e : e ∈ map_set key val m → e ∈ m ∨ fold_case e.1 = fold_case key.
Proof.
  induction m as [|[k v] m IH]; cbn [map_set]; [intros ->%list_elem_of_singleton; by right|].
  destruct (CaseInsentiveLess k key) eqn:E1; [|destruct (CaseInsentiveLess key k) eqn:E2];
    intros [->|He]%elem_of_cons.
  - left. left.
  - destruct (IH He); [left; by right|by right].
  - by right.
  - by left.
  - right. assert (equivalent k key = true) as Hq by (unfold equivalent; by rewrite E1, E2).
    rewrite equivalent_spec in Hq. by apply bool_decide_eq_true in Hq.
  - left. by right.
Qed.

Lemma map_set_spec key val m :
  sorted_map m → sorted_map (map_set key val m) ∧ to_map (map_set key val m) = <[fold_case key := val]> (to_map m).
Proof.
  induction 1 as [|[k v] m Hs [IHs IHm] Hall]; cbn [map_set].
  { split; [constructor; [constructor|constructor]|done]. }
  destruct (CaseInsentiveLess k key) eqn:E1; [|destruct (CaseInsentiveLess key k) eqn:E2].
  - assert (compare_bytes (fold_case k) (fold_case key) = Lt) as Hlt.
    { unfold CaseInsentiveLess, strcasecmp in E1. by destruct (compare_bytes _ _). }
    split.
    + constructor; [exact IHs|]. rewrite Forall_forall in *. intros e He.
      destruct (map_set_key _ _ _ _ He) as [|Ek]; [by apply Hall|]. simpl. by rewrite Ek.
    + cbn [to_map]. rewrite IHm, insert_insert_ne; [done|].
      intros E. rewrite E, (proj2 (compare_bytes_eq _ _) eq_refl) in Hlt. done.
  - assert (compare_bytes (fold_case key) (fold_case k) = Lt) as Hlt.
    { unfold CaseInsentiveLess, strcasecmp in E2. by destruct (compare_bytes _ _). }
    split; [|done]. constructor; [by constructor|]. constructor; [done|].
    eapply Forall_impl; [exact Hall|]. intros e He. by eapply compare_bytes_trans.
  - assert (fold_case k = fold_case key) as E.
    { assert (equivalent k key = true) as Hq by (unfold equivalent; by rewrite E1, E2).
      rewrite equivalent_spec in Hq. by apply bool_decide_eq_true in Hq. }
    split; [by constructor|]. cbn [to_map]. rewrite E. by rewrite insert_insert_eq.
Qed.

Lemma map_erase_spec key m :
  sorted_map m → sorted_map (map_erase key m) ∧ to_map (map_erase key m) = delete (fold_case key) (to_map m).
Proof.
  unfold map_erase. induction 1 as [|[k v] m Hs [IHs IHm] Hall]; [split; [constructor|done]|].
  rewrite filter_cons. cbn [fst]. rewrite equivalent_spec.
  destruct (bool_decide_reflect (fold_case k = fold_case key)) as [E|E].
  - rewrite decide_False by done. split; [done|]. cbn [to_map]. rewrite IHm, E. by rewrite delete_insert_eq.
  - rewrite decide_True by done. split.
    + constructor; [done|]. rewrite Forall_forall in *. intros e [_ He]%list_elem_of_filter. by apply Hall.
    + cbn [to_map]. rewrite IHm. by rewrite delete_insert_ne.
Qed.

(** A use of a map: header fields, parameters or cookies. *)
Inductive map_op := Set_ (key val : list Z) | Del (key : list Z).

Definition run_map (m : MapType) (o : map_op) : MapType :=
  match o with Set_ k v => map_set k v m | Del k => map_erase k m end.
Definition spec_map (g : gmap (list Z) (list Z)) (o : map_op) : gmap (list Z) (list Z) :=
  match o with Set_ k v => <[fold_case k := v]> g | Del k => delete (fold_case k) g end.

(** After any sequence of sets and deletions a map is in strictly
    ascending order of its keys without case, and every lookup - get with a
    default, has, and the conversions - answers as the finite map on keys
    without case does that underwent the same sequence. *)
Theorem maps_ignore_case (ops : list map_op) (key def : list Z) :
  let m := foldl run_map [] ops in
  let g := foldl spec_map ∅ ops in
  sorted_map m ∧
  map_get m key def = default def (g !! fold_case key) ∧
  map_has m key = (bool_decide (is_Some (g !! fold_case key)), g !! fold_case key) ∧
  ∀ T (cast : list Z → option T) (d : T),
    getAs cast m key d = default d (g !! fold_case key ≫= cast) ∧
    checkGetAs cast m key d = (default d (g !! fold_case key ≫= cast),
      bool_decide (is_Some (g !! fold_case key ≫= cast))).
Proof.
  intros m g. assert (sorted_map m ∧ to_map m = g) as [Hs Hm].
  { subst m g. cut (∀ m g, sorted_map m → to_map m = g →
      sorted_map (foldl run_map m ops) ∧ to_map (foldl run_map m ops) = foldl spec_map g ops).
    { intros H. apply H; [constructor|done]. }
    induction ops as [|[k v|k] ops IH]; intros m g Hs Hm; [done|..]; cbn [foldl].
    - destruct (map_set_spec k v m Hs) as [H1 H2]. apply IH; [exact H1|]. cbn [spec_map run_map]. by rewrite H2, Hm.
    - destruct (map_erase_spec k m Hs) as [H1 H2]. apply IH; [exact H1|]. cbn [spec_map run_map]. by rewrite H2, Hm. }
  split_and!; [done| | |].
  - unfold map_get. rewrite map_find_spec, Hm. by destruct (g !! _).
  - unfold map_has. rewrite map_find_spec, Hm. by destruct (g !! _).
  - intros T cast d. unfold getAs, checkGetAs. rewrite map_find_spec, Hm.
    destruct (g !! _) as [s|]; [|done]. simpl. by destruct (cast s).
Qed.

(** *** Witnesses *)

(** "GETX /" is a GET for the parser and nothing for String2HttpMethod. *)
Lemma method_names_witness :
  Chars2HttpMethod (str "GETX /") = GET ∧ String2HttpMethod (str "GETX /") ≠ GET.
Proof.
  assert (GET ≠ INVALID_METHOD) as H by done.
  destruct (method_names GET (str "GETX /") H) as [H1 H2]. split.
  - apply H2. exists (str "X /"). vm_compute. reflexivity.
  - rewrite H1. vm_compute. congruence.
Defined.
