(* ===== verification/HttpParser.v ===== *)
(** The parsers of requests and responses: [http/http_parser.h] and
    [http/http_parser.cc].

    The state machines are parameters here; Http11Parser.v and
    HttpClientParser.v model them, and HttpRoundTrip.v puts them in place. A run
    over the first bytes of a buffer answers the new state, how much was consumed,
    and the callbacks it made, in order, with their positions in the text, or
    nothing when an assertion fails. Module [HttpParser] models the callbacks, which fill in the message, and the two
    classes around them. [lexical_cast] is Boost's conversion to uint64_t. *)
From stdpp Require Import base list numbers option strings.
From Stdlib Require Import ZArith Lia.
From S2P Require Import Prelude CString Http.

Module HttpParser.
Local Open Scope Z_scope.

(** A call out of the state machine: [at] and [length]. *)
Inductive callback :=
| http_field (field flen value vlen : nat)
| request_method (at_ length : nat)
| request_uri (at_ length : nat)
| fragment (at_ length : nat)
| request_path (at_ length : nat)
| query_string (at_ length : nat)
| http_version (at_ length : nat)
| header_done (at_ length : nat)
| reason_phrase (at_ length : nat)
| status_code (at_ length : nat)
| chunk_size (at_ length : nat)
| last_chunk (at_ length : nat).

(** [std::string(at, length)] *)
Definition text (buffer : list Z) (at_ length : nat) : list Z := take length (drop at_ buffer).

(** What [strncmp(at, "HTTP/1.x", length)] decides. *)
Definition version_of (buffer : list Z) (at_ length : nat) : option Z :=
  let at_p := drop at_ buffer in
  if is_eq (strncmp at_p (str "HTTP/1.1") length) then Some 17
  else if is_eq (strncmp at_p (str "HTTP/1.0") length) then Some 16
  else None.

(** [atoi]: blanks, a sign, digits; the value goes through a long. *)
Definition is_space (c : Z) : bool := (c =? 32) || ((9 <=? c) && (c <=? 13)).
Definition is_digit (c : Z) : bool := (48 <=? c) && (c <=? 57).

Fixpoint digits (acc : Z) (l : list Z) : Z :=
  match l with
  | c :: l' => if is_digit c then digits (10 * acc + (c - 48)) l' else acc
  | [] => acc
  end.

Fixpoint skip_spaces (l : list Z) : list Z :=
  match l with
  | c :: l' => if is_space c then skip_spaces l' else l
  | [] => []
  end.

Definition atoi (l : list Z) : Z :=
  let n := match skip_spaces l with
           | 45 :: l' => - digits 0 l'
           | 43 :: l' => digits 0 l'
           | l' => digits 0 l'
           end in
  sint 32 (Z.max (- 2 ^ 63) (Z.min (2 ^ 63 - 1) n)).

(** [memmove(data, data + offset, len - offset)] *)
Definition moved (data : list Z) (len offset : nat) : list Z :=
  drop offset (take len data) ++ drop (len - offset) data.

Section parsers.
Context {C : Type}.
Variable lexical_cast : list Z → option Z.

(** *** Requests *)
Section request.
Variable http_parser_init : C.
Variable http_parser_execute : C → list Z → nat → option (C * nat * list callback).
Variable http_parser_has_error http_parser_is_finished : C → bool.

Record HttpRequestParser := mk_request_parser {
  m_parser : C;
  m_data : Http.HttpRequest;
  m_error : Z
}.

Definition on_data (f : Http.HttpRequest → Http.HttpRequest) (p : HttpRequestParser) : HttpRequestParser :=
  mk_request_parser (m_parser p) (f (m_data p)) (m_error p).
Definition setError (v : Z) (p : HttpRequestParser) : HttpRequestParser :=
  mk_request_parser (m_parser p) (m_data p) v.

Definition on_request_http_field (b : list Z) (field flen value vlen : nat) (p : HttpRequestParser) :=
  if (flen =? 0)%nat then p
  else on_data (Http.rq_setHeader (text b field flen) (text b value vlen)) p.

Definition on_request_method (b : list Z) (at_ length : nat) (p : HttpRequestParser) :=
  match Http.Chars2HttpMethod (drop at_ b) with
  | Http.INVALID_METHOD => setError 1000 p
  | m => on_data (Http.setMethod m) p
  end.

Definition on_request_fragment b at_ length := on_data (Http.setFragment (text b at_ length)).
Definition on_request_path b at_ length := on_data (Http.setPath (text b at_ length)).
Definition on_request_query b at_ length := on_data (Http.setQuery (text b at_ length)).

Definition on_request_version (b : list Z) (at_ length : nat) (p : HttpRequestParser) :=
  match version_of b at_ length with
  | Some v => on_data (Http.rq_setVersion v) p
  | None => setError 1001 p
  end.

(** The pointers that the constructor installs; the others are null. *)
Definition request_callback (b : list Z) (p : HttpRequestParser) (c : callback) : HttpRequestParser :=
  match c with
  | http_field f fl v vl => on_request_http_field b f fl v vl p
  | request_method a l => on_request_method b a l p
  | fragment a l => on_request_fragment b a l p
  | request_path a l => on_request_path b a l p
  | query_string a l => on_request_query b a l p
  | http_version a l => on_request_version b a l p
  | _ => p
  end.

Definition HttpRequestParser_new : HttpRequestParser :=
  mk_request_parser http_parser_init (Http.HttpRequest_new 17 true) 0.

(** [execute(data, len)]: what was consumed, the memory, the parser. *)
Definition execute (data : list Z) (len : nat) (p : HttpRequestParser)
    : option (nat * list Z * HttpRequestParser) :=
  match http_parser_execute (m_parser p) data len with
  | None => None
  | Some (c, offset, calls) =>
      let p := foldl (request_callback data) p calls in
      Some (offset, moved data len offset, mk_request_parser c (m_data p) (m_error p))
  end.

Definition isFinished (p : HttpRequestParser) : bool := http_parser_is_finished (m_parser p).
Definition hasError (p : HttpRequestParser) : bool :=
  negb (m_error p =? 0) || http_parser_has_error (m_parser p).

Definition getContentLength (p : HttpRequestParser) : Z :=
  Http.getAs lexical_cast (Http.rq_headers (m_data p)) (str "content-length") 0.
End request.

(** *** Responses *)
Section response.
Variable httpclient_parser_init : C.
Variable httpclient_parser_execute : C → list Z → nat → option (C * nat * list callback).
Variable httpclient_parser_has_error httpclient_parser_is_finished : C → bool.

Record HttpResponseParser := mk_response_parser {
  rs_parser : C;
  rs_data : Http.HttpResponse;
  rs_error : Z
}.

Definition on_rs_data (f : Http.HttpResponse → Http.HttpResponse) (p : HttpResponseParser) :=
  mk_response_parser (rs_parser p) (f (rs_data p)) (rs_error p).
Definition rs_setError (v : Z) (p : HttpResponseParser) :=
  mk_response_parser (rs_parser p) (rs_data p) v.

Definition on_response_http_field (b : list Z) (field flen value vlen : nat) (p : HttpResponseParser) :=
  if (flen =? 0)%nat then p
  else on_rs_data (Http.rs_setHeader (text b field flen) (text b value vlen)) p.
Definition on_response_reason b at_ length := on_rs_data (Http.setReason (text b at_ length)).
Definition on_response_status (b : list Z) (at_ : nat) := on_rs_data (Http.setStatus (atoi (drop at_ b))).
Definition on_response_version (b : list Z) (at_ length : nat) (p : HttpResponseParser) :=
  match version_of b at_ length with
  | Some v => on_rs_data (Http.rs_setVersion v) p
  | None => rs_setError 1001 p
  end.

Definition response_callback (b : list Z) (p : HttpResponseParser) (c : callback) : HttpResponseParser :=
  match c with
  | http_field f fl v vl => on_response_http_field b f fl v vl p
  | reason_phrase a l => on_response_reason b a l p
  | status_code a l => on_response_status b a p
  | http_version a l => on_response_version b a l p
  | _ => p
  end.

Definition HttpResponseParser_new : HttpResponseParser :=
  mk_response_parser httpclient_parser_init (Http.HttpResponse_new 17 true) 0.

Definition rs_execute (data : list Z) (len : nat) (chunk : bool) (p : HttpResponseParser)
    : option (nat * list Z * HttpResponseParser) :=
  let start := if chunk then httpclient_parser_init else rs_parser p in
  match httpclient_parser_execute start data len with
  | None => None
  | Some (c, offset, calls) =>
      let p := foldl (response_callback data) p calls in
      Some (offset, moved data len offset, mk_response_parser c (rs_data p) (rs_error p))
  end.

Definition rs_isFinished (p : HttpResponseParser) : bool := httpclient_parser_is_finished (rs_parser p).
Definition rs_hasError (p : HttpResponseParser) : bool :=
  negb (rs_error p =? 0) || httpclient_parser_has_error (rs_parser p).

Definition rs_getContentLength (p : HttpResponseParser) : Z :=
  Http.getAs lexical_cast (Http.rs_headers (rs_data p)) (str "content-length") 0.
End response.
End parsers.
Arguments HttpRequestParser : clear implicits.
Arguments HttpResponseParser : clear implicits.
End HttpParser.
