(* ===== verification/HttpSession.v ===== *)
(** Receiving messages: [http/http_session.cc] and the reading side of
    [http/http_connection.cc].

    [HttpSession::recvRequest] and [HttpConnection::recvResponse] share their
    text but for the parser: the loop that reads until the head is parsed and
    the code that fetches the body are written once here, over any parser and
    any [Stream]. The buffer is the memory of the bytes just allocated, with
    whatever they hold; [max_size] of a string is a parameter. *)
From stdpp Require Import base list numbers option strings.
From Stdlib Require Import ZArith Lia.
From S2P Require Import Prelude CString Stream Http HttpParser.

(** [std::string::max_size]; [resize] beyond it throws. *)
Class MaxSize := max_size : Z.

(** A call of code that may stop at an [assert]. *)
Definition asserted {S A} (o : option A) : M S A :=
  match o with Some a => mret a | None => faultM AssertFailed end.

Module HttpSession.
Local Open Scope Z_scope.

Section receive.
Context {MX : MaxSize} {S : Type} `{!Stream S} {P : Type}.
Variable execute : list Z → nat → P → option (nat * list Z * P).
Variable hasError isFinished : P → bool.

(** The first loop: data, the parser, and how much of the data is left over. *)
Fixpoint head_loop (fuel : nat) (buffer_size : Z) (data : list Z) (p : P) (last_size : Z)
    : M S (option (list Z * P * Z)) :=
  match fuel with
  | O => faultM FuelExhausted
  | Datatypes.S fuel' =>
      r ← read data last_size (uint 64 (buffer_size - last_size));
      let '(n, data) := r in
      if n <=? 0 then _ ← close; mret None
      else
        let len := sint 32 (n + last_size) in
        r ← asserted (execute data (Z.to_nat len) p);
        let '(nparse, data, p) := r in
        if hasError p then _ ← close; mret None
        else
          let last_size := uint 64 (len - Z.of_nat nparse) in
          if last_size =? buffer_size then _ ← close; mret None
          else if isFinished p then mret (Some (data, p, last_size))
          else head_loop fuel' buffer_size data p last_size
  end.

(** [std::string::resize] on an empty string. *)
Definition resize_to (n : Z) : M S (list Z) :=
  if max_size <? n then throw length_error else mret (replicate (Z.to_nat n) 0).

(** The body of [length] bytes, of which [last_size] may be in [data];
    [None] when the stream ended. *)
Definition receive_body (fuel : nat) (data : list Z) (last_size length : Z) : M S (option (list Z)) :=
  body ← resize_to length;
  let len := if last_size <=? length then last_size else length in
  body ← in_boundsM (store_at body 0 (take (Z.to_nat len) data));
  let left := uint 64 (length - last_size) in
  if 0 <? left then
    r ← readFixedSize fuel body (sint 32 len) left;
    if r.1 <=? 0 then _ ← close; mret None else mret (Some r.2)
  else mret (Some body).
End receive.

Section session.
Context {MX : MaxSize} {S : Type} `{!Stream S} {C : Type}.
Variable lexical_cast : list Z → option Z.
Variable http_parser_init : C.
Variable http_parser_execute : C → list Z → nat → option (C * nat * list HttpParser.callback).
Variable http_parser_has_error http_parser_is_finished : C → bool.

(** [buffer] is the memory of [new char\[buffer_size\]]. *)
Definition recvRequest (fuel : nat) (buffer : list Z) : M S (option Http.HttpRequest) :=
  h ← head_loop (HttpParser.execute http_parser_execute)
        (HttpParser.hasError http_parser_has_error) (HttpParser.isFinished http_parser_is_finished)
        fuel (Z.of_nat (List.length buffer)) buffer (HttpParser.HttpRequestParser_new http_parser_init) 0;
  match h with
  | None => mret None
  | Some (data, p, last_size) =>
      let length := HttpParser.getContentLength lexical_cast p in
      let request := HttpParser.m_data p in
      if 0 <? length then
        b ← receive_body fuel data last_size length;
        mret ((λ body, Http.init (Http.rq_setBody body request)) <$> b)
      else mret (Some (Http.init request))
  end.

Definition sendResponse (fuel : nat) (rsp : Http.HttpResponse) : M S Z :=
  let data := Http.rs_dump rsp in
  writeFixedSize fuel data 0 (Z.of_nat (List.length data)).
End session.
End HttpSession.
