(* ===== verification/HttpConnection.v ===== *)
(** HTTP clients: [http/http_connection.h] and [http/http_connection.cc].

    Module [HttpConnection] models the receiving of a response, chunked or
    with a length, the sending of requests, and the requests built from a URL;
    module [HttpConnectionPool] the pool: connections are objects in a heap,
    those at rest are in the list [m_conns]. Looking up the host and connecting
    are answers given from outside. *)
From stdpp Require Import base list gmap numbers option strings.
From Stdlib Require Import ZArith Lia.
From S2P Require Import Prelude CString Stream Http HttpParser HttpSession.

Module HttpConnection.
Local Open Scope Z_scope.

(** HttpResult::Error *)
Inductive Error :=
| OK | INVALID_URL | INVALID_HOST | CONNECT_FAILED | CLOSED_BY_PEER | SEND_SOCKET_ERROR
| TIMEOUT | CREATE_SOCKET_ERROR | POOL_GET_CONN_FAILED | POOL_INVALID_CONN.

Record HttpResult := mk_result { result : Error; response : option Http.HttpResponse }.

Section receive.
Context {MX : MaxSize} {S : Type} `{!Stream S} {C : Type}.
Variable lexical_cast : list Z → option Z.
Variable httpclient_parser_init : C.
Variable httpclient_parser_execute : C → list Z → nat → option (C * nat * list HttpParser.callback).
Variable httpclient_parser_has_error httpclient_parser_is_finished : C → bool.
(** The fields of the state machine that the code reads. *)
Variable chunked chunks_done : C → bool.
Variable content_len : C → Z.

Abbreviation parser := (HttpParser.HttpResponseParser C).
Definition execute (chunk : bool) (data : list Z) (len : nat) (p : parser)
    : option (nat * list Z * parser) :=
  HttpParser.rs_execute httpclient_parser_init httpclient_parser_execute data len chunk p.
Definition hasError (p : parser) : bool := HttpParser.rs_hasError httpclient_parser_has_error p.
Definition isFinished (p : parser) : bool := HttpParser.rs_isFinished httpclient_parser_is_finished p.

(** The inner loop: the line with the size of a chunk. [begin] is true on the
    first round only. *)
Fixpoint chunk_head (fuel : nat) (data : list Z) (p : parser) (len : Z) (begin : bool)
    : M S (option (list Z * parser * Z)) :=
  let buffer_size := Z.of_nat (length data) in
  match fuel with
  | O => faultM FuelExhausted
  | Datatypes.S fuel' =>
      r ← (if negb begin || (len =? 0) then
             r ← read data len (uint 64 (buffer_size - len));
             let '(rt, data) := r in
             if rt <=? 0 then _ ← close; mret None
             else len ← signed 32 (len + rt); mret (Some (data, len))
           else mret (Some (data, len)));
      match r with
      | None => mret None
      | Some (data, len) =>
          data ← in_boundsM (store_at data len [0]);
          r ← asserted (execute true data (Z.to_nat len) p);
          let '(nparse, data, p) := r in
          if hasError p then _ ← close; mret None
          else
            let len := sint 32 (len - Z.of_nat nparse) in
            if len =? sint 32 buffer_size then _ ← close; mret None
            else if isFinished p then mret (Some (data, p, len))
            else chunk_head fuel' data p len false
      end
  end.

(** [body.append(data, n)] *)
Definition append (body data : list Z) (n : Z) : M S (list Z) :=
  if max_size <? Z.of_nat (length body) + uint 64 n then throw length_error
  else d ← in_boundsM (load_at data 0 n); mret (body ++ d).

(** The rest of a chunk that was not in the buffer. *)
Fixpoint chunk_rest (fuel : nat) (data body : list Z) (left : Z) : M S (option (list Z * list Z)) :=
  let buffer_size := sint 32 (Z.of_nat (length data)) in
  match fuel with
  | O => faultM FuelExhausted
  | Datatypes.S fuel' =>
      if 0 <? left then
        r ← read data 0 (uint 64 (if buffer_size <? left then buffer_size else left));
        let '(rt, data) := r in
        if rt <=? 0 then _ ← close; mret None
        else
          body ← append body data rt;
          left ← signed 32 (left - rt);
          chunk_rest fuel' data body left
      else mret (Some (data, body))
  end.

(** [memmove(data, data + from, n)] *)
Definition move_front (data : list Z) (from n : Z) : M S (list Z) :=
  d ← in_boundsM (load_at data from n); in_boundsM (store_at data 0 d).

(** The content of the chunk whose size was just parsed. *)
Definition chunk_content (fuel : nat) (data body : list Z) (p : parser) (len : Z)
    : M S (option (list Z * list Z * Z)) :=
  let n := content_len (HttpParser.rs_parser p) in
  need ← signed 32 (n + 2);
  if need <=? len then
    body ← append body data n;
    data ← move_front data need (len - need);
    mret (Some (data, body, len - need))
  else
    body ← append body data len;
    d ← signed 32 (n - len);
    left ← signed 32 (d + 2);
    r ← chunk_rest fuel data body left;
    match r with
    | None => mret None
    | Some (data, body) =>
        (* resize(size() - 2) *)
        if (length body <? 2)%nat then throw length_error
        else mret (Some (data, take (length body - 2) body, 0))
    end.

(** One round of the outer loop. *)
Definition chunk (fuel : nat) (data body : list Z) (p : parser) (len : Z)
    : M S (option (list Z * list Z * parser * Z)) :=
  h ← chunk_head fuel data p len true;
  match h with
  | None => mret None
  | Some (data, p, len) =>
      r ← chunk_content fuel data body p len;
      match r with
      | None => mret None
      | Some (data, body, len) => mret (Some (data, body, p, len))
      end
  end.

Fixpoint chunks (rounds fuel : nat) (data body : list Z) (p : parser) (len : Z)
    : M S (option (list Z * parser)) :=
  match rounds with
  | O => faultM FuelExhausted
  | Datatypes.S rounds' =>
      r ← chunk fuel data body p len;
      match r with
      | None => mret None
      | Some (data, body, p, len) =>
          if chunks_done (HttpParser.rs_parser p) then mret (Some (body, p))
          else chunks rounds' fuel data body p len
      end
  end.

Definition recvResponse (fuel : nat) (buffer : list Z) : M S (option Http.HttpResponse) :=
  h ← HttpSession.head_loop (execute false) hasError isFinished fuel (Z.of_nat (length buffer)) buffer
        (HttpParser.HttpResponseParser_new httpclient_parser_init) 0;
  match h with
  | None => mret None
  | Some (data, p, last_size) =>
      if chunked (HttpParser.rs_parser p) then
        r ← chunks fuel fuel data [] p (sint 32 last_size);
        match r with
        | None => mret None
        | Some (body, p) => mret (Some (Http.rs_setBody body (HttpParser.rs_data p)))
        end
      else
        let length := HttpParser.rs_getContentLength lexical_cast p in
        if 0 <? length then
          b ← HttpSession.receive_body fuel data last_size length;
          mret ((λ body, Http.rs_setBody body (HttpParser.rs_data p)) <$> b)
        else mret (Some (HttpParser.rs_data p))
  end.

Definition sendRequest (fuel : nat) (req : Http.HttpRequest) : M S Z :=
  let data := Http.rq_dump req in
  writeFixedSize fuel data 0 (Z.of_nat (length data)).

(** The exchange that both kinds of doRequest end with. *)
Definition exchange (fuel : nat) (buffer : list Z) (req : Http.HttpRequest) : M S HttpResult :=
  ret ← sendRequest fuel req;
  if ret =? 0 then mret (mk_result CLOSED_BY_PEER None)
  else if ret <? 0 then mret (mk_result SEND_SOCKET_ERROR None)
  else
    rsp ← recvResponse fuel buffer;
    match rsp with
    | None => mret (mk_result TIMEOUT None)
    | Some r => mret (mk_result OK (Some r))
    end.
End receive.

(** *** Building a request *)

(** The loop over the caller's header fields: the request, [has_host]. *)
Fixpoint add_headers (headers : list (list Z * list Z)) (has_host : bool) (req : Http.HttpRequest)
    : Http.HttpRequest * bool :=
  match headers with
  | [] => (req, has_host)
  | (k, v) :: l =>
      if is_eq (strcasecmp k (str "connection")) then
        add_headers l has_host
          (if is_eq (strcasecmp v (str "keep-alive")) then Http.rq_setClose false req else req)
      else
        let has_host :=
          if negb has_host && is_eq (strcasecmp k (str "host"))
          then match v with [] => false | _ => true end else has_host in
        add_headers l has_host (Http.rq_setHeader k v req)
  end.

(** The request of HttpConnection::doRequest(method, uri, ...); path, query,
    fragment and host are those of the URI. *)
Definition make_request (method : Http.HttpMethod) (path query fragment host : list Z)
    (headers : list (list Z * list Z)) (body : list Z) : Http.HttpRequest :=
  let req := Http.rq_setBody body (Http.setFragment fragment (Http.setQuery query
               (Http.setPath path (Http.setMethod method (Http.HttpRequest_new 17 true))))) in
  let '(req, has_host) := add_headers headers false req in
  if has_host then req else Http.rq_setHeader (str "Host") host req.

(** The request of HttpConnectionPool::doRequest(method, url, ...). *)
Definition make_pool_request (method : Http.HttpMethod) (url m_host m_vhost : list Z)
    (headers : list (list Z * list Z)) (body : list Z) : Http.HttpRequest :=
  let req := Http.rq_setClose false (Http.setPath url (Http.setMethod method
               (Http.HttpRequest_new 17 true))) in
  let '(req, has_host) := add_headers headers false req in
  let req := if has_host then req
             else Http.rq_setHeader (str "Host") (match m_vhost with [] => m_host | _ => m_vhost end) req in
  Http.rq_setBody body req.

(** The URL text the pool makes of a URI. *)
Definition uri_text (path query fragment : list Z) : list Z :=
  path ++ Http.mark_if_some (str "?") query ++ query ++
  Http.mark_if_some (str "#") fragment ++ fragment.
End HttpConnection.

Module HttpConnectionPool.
Local Open Scope Z_scope.

Record conn := mk_conn { m_createTime : Z; m_request : Z; m_isConnected : bool }.

Record t := mk {
  heap : gmap Z conn;
  m_conns : list Z;
  m_total : Z;
  m_maxSize : Z;
  m_maxAliveTime : Z;
  m_maxRequest : Z
}.

Definition new (maxSize maxAliveTime maxRequest : Z) : t :=
  mk ∅ [] 0 maxSize maxAliveTime maxRequest.

Definition set_heap (h : gmap Z conn) (s : t) : t :=
  mk h (m_conns s) (m_total s) (m_maxSize s) (m_maxAliveTime s) (m_maxRequest s).
Definition set_conns (l : list Z) (s : t) : t :=
  mk (heap s) l (m_total s) (m_maxSize s) (m_maxAliveTime s) (m_maxRequest s).
Definition set_total (n : Z) (s : t) : t :=
  mk (heap s) (m_conns s) n (m_maxSize s) (m_maxAliveTime s) (m_maxRequest s).

Definition deref (p : Z) : M t conn := s ← get; derefM (heap s !! p).

Definition expired (c : conn) (now : Z) (s : t) : bool :=
  uint 64 (m_createTime c + m_maxAliveTime s) <? now.

(** The loop over the list: the connection found, the invalid ones, the rest. *)
Fixpoint take_valid (now : Z) (l : list Z) : M t (option Z * list Z * list Z) :=
  match l with
  | [] => mret (None, [], [])
  | p :: l' =>
      c ← deref p;
      s ← get;
      if negb (m_isConnected c) || expired c now s then
        r ← take_valid now l';
        let '(found, invalid, rest) := r in mret (found, p :: invalid, rest)
      else mret (Some p, [], l')
  end.

Fixpoint delete_all (l : list Z) (h : gmap Z conn) : gmap Z conn :=
  match l with [] => h | p :: l' => delete_all l' (delete p h) end.

(** [addr] and [connected] tell whether the host was found and answered, [p]
    is the address of the object that is created then, at time [now']. *)
Definition getConnection (now now' p : Z) (addr connected : bool) : M t (option Z) :=
  s ← get;
  r ← take_valid now (m_conns s);
  let '(found, invalid, rest) := r in
  _ ← modify (set_conns rest);
  _ ← modify (λ s, set_heap (delete_all invalid (heap s)) s);
  _ ← modify (λ s, set_total (sint 32 (m_total s - Z.of_nat (length invalid))) s);
  match found with
  | Some q => mret (Some q)
  | None =>
      if negb addr || negb connected then mret None
      else
        _ ← modify (λ s, set_heap (<[p := mk_conn now' 0 true]> (heap s)) s);
        _ ← modify (λ s, set_total (sint 32 (m_total s + 1)) s);
        mret (Some p)
  end.

(** The deleter of the pointers that [getConnection] hands out. *)
Definition releasePtr (p now : Z) : M t unit :=
  c ← deref p;
  let c := mk_conn (m_createTime c) (uint 64 (m_request c + 1)) (m_isConnected c) in
  _ ← modify (λ s, set_heap (<[p := c]> (heap s)) s);
  s ← get;
  if negb (m_isConnected c) || expired c now s || (m_maxRequest s <? m_request c) then
    _ ← modify (λ s, set_heap (delete p (heap s)) s);
    modify (λ s, set_total (sint 32 (m_total s - 1)) s)
  else modify (λ s, set_conns (m_conns s ++ [p]) s).

(** A request on a connection may close it. *)
Definition use (p : Z) (keeps : bool) : M t unit :=
  c ← deref p;
  if keeps then mret tt
  else modify (λ s, set_heap (<[p := mk_conn (m_createTime c) (m_request c) false]> (heap s)) s).
End HttpConnectionPool.
