(* ===== verification/Servlet.v ===== *)
(** Servlets and the HTTP server: [http/servlet.h], [http/servlet.cc],
    [http/http_server.h] and [http/http_server.cc].

    A servlet is a function on a request, a response and the session's state
    [S]; request and response are shared objects, so it returns both. Module
    [Servlet] has the dispatcher with its two tables behind one lock; the lock
    is not recursive, and locking it again in the same thread is a fault.
    [fnmatch] is a parameter. Module [HttpServer] is the loop that serves a
    client. *)
From stdpp Require Import base list gmap numbers option strings.
From Stdlib Require Import ZArith Lia.
From S2P Require Import Prelude CString Stream Http HttpParser HttpSession.

Module Servlet.
Local Open Scope Z_scope.

Section servlet.
Context {S : Type}.

Definition servlet : Type :=
  Http.HttpRequest → Http.HttpResponse → M S (Http.HttpRequest * Http.HttpResponse * Z).

(** FunctionServlet: the callback itself. *)
Definition FunctionServlet (cb : servlet) : servlet := cb.

Definition not_found_content (name : list Z) : list Z :=
  str "<html><head><title>404 Not Found</title></head><body><center><h1>404 Not Found</h1></center><hr><center>"
  ++ name ++ str "</center></body></html>".

Definition NotFoundServlet (name : list Z) : servlet := λ request response,
  let response := Http.setStatus Http.NOT_FOUND response in
  let response := Http.rs_setHeader (str "Server") (str "windgent/1.0.0") response in
  let response := Http.rs_setHeader (str "Content-Type") (str "text/html") response in
  let response := Http.rs_setBody (not_found_content name) response in
  mret (request, response, 0).

(** Pointers to servlets may be null. *)
Record ServletDispatcher := mk {
  locked : bool;
  m_datas : gmap (list Z) (option servlet);
  m_globs : list (list Z * option servlet);
  m_default : option servlet
}.

Definition new : ServletDispatcher := mk false ∅ [] (Some (NotFoundServlet (str "nothing"))).

Definition set_locked (b : bool) (d : ServletDispatcher) := mk b (m_datas d) (m_globs d) (m_default d).
Definition set_datas m (d : ServletDispatcher) := mk (locked d) m (m_globs d) (m_default d).
Definition set_globs l (d : ServletDispatcher) := mk (locked d) (m_datas d) l (m_default d).
Definition setDefault v (d : ServletDispatcher) := mk (locked d) (m_datas d) (m_globs d) v.

(** A scope with a lock on the mutex. *)
Definition with_lock {A} (body : M ServletDispatcher A) : M ServletDispatcher A :=
  d ← get;
  if locked d then faultM SelfDeadlock
  else
    _ ← put (set_locked true d);
    a ← body;
    _ ← modify (set_locked false);
    mret a.

Definition addServlet (uri : list Z) (slt : option servlet) : M ServletDispatcher unit :=
  with_lock (modify (λ d, set_datas (<[uri := slt]> (m_datas d)) d)).

Definition addServlet_cb (uri : list Z) (cb : servlet) : M ServletDispatcher unit :=
  with_lock (modify (λ d, set_datas (<[uri := Some (FunctionServlet cb)]> (m_datas d)) d)).

(** Erasing the first entry with this pattern. *)
Fixpoint erase_first (uri : list Z) (l : list (list Z * option servlet)) :=
  match l with
  | [] => []
  | (u, s) :: l' => if bool_decide (u = uri) then l' else (u, s) :: erase_first uri l'
  end.

Definition addGlobServlet (uri : list Z) (slt : option servlet) : M ServletDispatcher unit :=
  with_lock (modify (λ d, set_globs (erase_first uri (m_globs d) ++ [(uri, slt)]) d)).

Definition addGlobServlet_cb (uri : list Z) (cb : servlet) : M ServletDispatcher unit :=
  with_lock (addGlobServlet uri (Some (FunctionServlet cb))).

Definition delServlet (uri : list Z) : M ServletDispatcher unit :=
  with_lock (modify (λ d, set_datas (delete uri (m_datas d)) d)).

Definition delGlobServlet (uri : list Z) : M ServletDispatcher unit :=
  with_lock (modify (λ d, set_globs (erase_first uri (m_globs d)) d)).

Definition getServlet (uri : list Z) : M ServletDispatcher (option servlet) :=
  with_lock (gets (λ d, match m_datas d !! uri with Some s => s | None => None end)).

Definition getGlobServlet (uri : list Z) : M ServletDispatcher (option servlet) :=
  with_lock (gets (λ d,
    match List.find (λ e, bool_decide (e.1 = uri)) (m_globs d) with
    | Some (_, s) => s | None => None end)).

(** [fnmatch pattern string] is zero. *)
Variable fnmatch : list Z → list Z → bool.

Definition getMatchedServlet (uri : list Z) : M ServletDispatcher (option servlet) :=
  with_lock (gets (λ d,
    match m_datas d !! uri with
    | Some s => s
    | None =>
        match List.find (λ e, fnmatch (c_str e.1) (c_str uri)) (m_globs d) with
        | Some (_, s) => s
        | None => m_default d
        end
    end)).

(** ServletDispatcher::handle; the dispatcher itself is not changed. *)
Definition handle (d : ServletDispatcher) (request : Http.HttpRequest) (response : Http.HttpResponse)
    : M S (Http.HttpRequest * Http.HttpResponse * Z) := λ s,
  match getMatchedServlet (Http.m_path request) d with
  | Ok (Some slt) _ => (r ← slt request response; mret (r.1, 0)) s
  | Ok None _ => Ok (request, response, 0) s
  | Exn e _ => Exn e s
  | Fault f => Fault f
  end.
End servlet.
Arguments servlet : clear implicits.
Arguments ServletDispatcher : clear implicits.
End Servlet.

Module HttpServer.
Local Open Scope Z_scope.

Section server.
Context {MX : MaxSize} {S : Type} `{!Stream S} {C : Type}.
Variable lexical_cast : list Z → option Z.
Variable http_parser_init : C.
Variable http_parser_execute : C → list Z → nat → option (C * nat * list HttpParser.callback).
Variable http_parser_has_error http_parser_is_finished : C → bool.
Variable fnmatch : list Z → list Z → bool.

Definition recv (fuel : nat) (buffer : list Z) : M S (option Http.HttpRequest) :=
  HttpSession.recvRequest lexical_cast http_parser_init http_parser_execute http_parser_has_error
    http_parser_is_finished fuel buffer.

(** One round of the loop on a client, up to the test: whether it goes on. *)
Definition serve_one (fuel : nat) (m_isKeepAlive : bool) (name buffer : list Z)
    (m_dispatcher : Servlet.ServletDispatcher S) : M S bool :=
  req ← recv fuel buffer;
  (* a null request is logged and used all the same *)
  req ← derefM req;
  let rsp := Http.HttpResponse_new (Http.rq_version req) (Http.rq_close req || negb m_isKeepAlive) in
  let rsp := Http.rs_setHeader (str "Server") name rsp in
  r ← Servlet.handle fnmatch m_dispatcher req rsp;
  let '(req, rsp, _) := r in
  _ ← HttpSession.sendResponse fuel rsp;
  mret (negb (negb m_isKeepAlive || Http.rq_close req) && m_isKeepAlive).

Fixpoint client_loop (rounds fuel : nat) (m_isKeepAlive : bool) (name buffer : list Z)
    (m_dispatcher : Servlet.ServletDispatcher S) : M S unit :=
  match rounds with
  | O => faultM FuelExhausted
  | Datatypes.S rounds' =>
      again ← serve_one fuel m_isKeepAlive name buffer m_dispatcher;
      if again : bool then client_loop rounds' fuel m_isKeepAlive name buffer m_dispatcher
      else mret tt
  end.

Definition handleClient (rounds fuel : nat) (m_isKeepAlive : bool) (name buffer : list Z)
    (m_dispatcher : Servlet.ServletDispatcher S) : M S unit :=
  _ ← client_loop rounds fuel m_isKeepAlive name buffer m_dispatcher;
  close.
End server.
End HttpServer.
