(* ===== verification/HttpSessionProps.v ===== *)
(** Properties of receiving requests and of serving a client. *)
From stdpp Require Import base list gmap numbers option strings.
From Stdlib Require Import ZArith Lia.
From S2P Require Import Prelude CString Endian Buffer ByteArray Stream StreamProps Http HttpParser HttpSession Servlet.
Local Open Scope Z_scope.

Section body.
Context {MX : MaxSize} {S : Type} `{!Stream S}.
Implicit Types (s : S) (data : list Z).

(** Memory of the string, with what was left over from the head. *)
Definition body_start data (last n : Z) : list Z :=
  splice (replicate (Z.to_nat n) 0) 0 (take (Z.to_nat (Z.min last n)) data).

Lemma receive_body_start fuel data last n s :
  0 ≤ last < 2 ^ 31 → last ≤ Z.of_nat (length data) → 0 ≤ n < 2 ^ 31 → n ≤ max_size →
  HttpSession.receive_body fuel data last n s =
  (if 0 <? uint 64 (n - last) then
     r ← readFixedSize fuel (body_start data last n) (Z.min last n) (uint 64 (n - last));
     if r.1 <=? 0 then _ ← close; mret None else mret (Some r.2)
   else mret (Some (body_start data last n))) s.
Proof.
  intros Hlast Hdata Hn Hmax. unfold HttpSession.receive_body, HttpSession.resize_to.
  destruct (Z.ltb_spec max_size n); [lia|]. unfold_M.
  replace (if last <=? n then last else n) with (Z.min last n) by (destruct (Z.leb_spec last n); lia).
  rewrite store_at_ok by (rewrite ?length_take, ?length_replicate; lia). unfold in_boundsM. unfold_M.
  rewrite (sint_id 32 (Z.min last n)) by (unfold in_sint; lia). fold (body_start data last n).
  by destruct (0 <? uint 64 (n - last)).
Qed.

Lemma body_start_fits data last n :
  0 ≤ last ≤ n → last ≤ Z.of_nat (length data) →
  length (body_start data last n) = Z.to_nat n ∧
  ∀ d, Z.of_nat (length d) = n - last →
    splice (body_start data last n) (Z.to_nat last) d = take (Z.to_nat last) data ++ d.
Proof.
  intros Hl Hd. unfold body_start. rewrite Z.min_l by lia.
  assert (length (take (Z.to_nat last) data) = Z.to_nat last) as Ht by (rewrite length_take; lia).
  split; [rewrite length_splice, length_replicate by (rewrite length_replicate; lia); done|].
  intros d Hlen. rewrite <-Ht at 2.
  change (length (take (Z.to_nat last) data)) with (0 + length (take (Z.to_nat last) data))%nat.
  rewrite splice_splice by lia. unfold splice. simpl.
  rewrite drop_ge by (rewrite length_replicate, length_app; lia). by rewrite app_nil_r.
Qed.

(** A store behind the end of the string. *)
Lemma readFixedSize_overrun fuel s s' mem left k d :
  0 < left < 2 ^ 64 → d ≠ [] → reads s left k d s' →
  readFixedSize (Datatypes.S fuel) mem (Z.of_nat (length mem)) left s = Fault OutOfBounds.
Proof.
  intros Hl Hd Hr. unfold readFixedSize. cbn [readFixedSize_loop].
  destruct (Z.ltb_spec 0 left); [|lia]. unfold_M. rewrite Hr. unfold at_offset.
  change (sint 64 0) with 0. rewrite Z.add_0_r. unfold store_at. destruct d as [|x d]; [done|].
  destruct (Z.leb_spec (Z.of_nat (length mem) + Z.of_nat (length (x :: d))) (Z.of_nat (length mem)));
    [simpl in *; lia|]. by rewrite andb_false_r.
Qed.
End body.

Section session.
Context {MX : MaxSize} {S : Type} `{!Stream S} {C : Type}.
Variable lexical_cast : list Z → option Z.
Variable http_parser_init : C.
Variable http_parser_execute : C → list Z → nat → option (C * nat * list HttpParser.callback).
Variable http_parser_has_error http_parser_is_finished : C → bool.

Abbreviation recv := (HttpSession.recvRequest lexical_cast http_parser_init http_parser_execute
  http_parser_has_error http_parser_is_finished).

(** Reading the head into [buffer] ends with [data], parser and left-over. *)
Definition head (fuel : nat) (buffer : list Z) : M S (option (list Z * HttpParser.HttpRequestParser C * Z)) :=
  HttpSession.head_loop (HttpParser.execute http_parser_execute)
    (HttpParser.hasError http_parser_has_error) (HttpParser.isFinished http_parser_is_finished)
    fuel (Z.of_nat (length buffer)) buffer (HttpParser.HttpRequestParser_new http_parser_init) 0.

(** The request of a head that announced a body. *)
Lemma recv_with_body fuel buffer data p last s s1 b :
  head fuel buffer s = Ok (Some (data, p, last)) s1 → 0 < HttpParser.getContentLength lexical_cast p →
  HttpSession.receive_body fuel data last (HttpParser.getContentLength lexical_cast p) s1 = b →
  recv fuel buffer s = match b with
    | Ok a s' => Ok ((λ body, Http.init (Http.rq_setBody body (HttpParser.m_data p))) <$> a) s'
    | Exn e s' => Exn e s' | Fault f => Fault f end.
Proof.
  intros Hh Hpos Hb. unfold HttpSession.recvRequest. fold (head fuel buffer). unfold_M. rewrite Hh.
  destruct (Z.ltb_spec 0 (HttpParser.getContentLength lexical_cast p)); [|lia]. by rewrite Hb.
Qed.

Lemma nothing_delivered s1 chunks s2 : delivers s1 0 chunks s2 → chunks = [] ∧ s2 = s1.
Proof. intros Hd. inversion Hd as [|? ? d ? ? ? Hne Hle']; subst; [done|]. destruct d; simpl in *; [done|lia]. Qed.

(** C19. Once the head of a request is parsed with [last] bytes of the buffer
    left over, and it announced [n] bytes: without a body the request is
    returned as it is; a body starts with the bytes left over and goes on with
    what the stream delivers, in whatever pieces; if the stream ends first the
    session is closed and there is no request. If more bytes are left over
    than the body has - the next request was already there - the
    missing length wraps around, and the next byte that the stream delivers is
    stored behind the body. *)
Theorem request_body (fuel : nat) (buffer data : list Z) (p : HttpParser.HttpRequestParser C)
    (last : Z) (s s1 : S) :
  head fuel buffer s = Ok (Some (data, p, last)) s1 →
  0 ≤ last < 2 ^ 31 → last ≤ Z.of_nat (length data) →
  let n := HttpParser.getContentLength lexical_cast p in
  let request := HttpParser.m_data p in
  n < 2 ^ 31 → n ≤ max_size →
  if n <=? 0 then recv fuel buffer s = Ok (Some (Http.init request)) s1
  else if last <=? n then
    ∀ chunks s2, delivers s1 (n - last) chunks s2 → (length chunks < fuel)%nat →
      (received chunks = n - last →
       recv fuel buffer s =
         Ok (Some (Http.init (Http.rq_setBody (take (Z.to_nat last) data ++ concat chunks) request))) s2) ∧
      (∀ s3 s4, received chunks < n - last → reads s2 (n - last - received chunks) 0 [] s3 →
         close s3 = Ok tt s4 → recv fuel buffer s = Ok None s4)
  else ∀ k d s2, reads s1 (2 ^ 64 - (last - n)) k d s2 → d ≠ [] → recv fuel buffer s = Fault OutOfBounds.
Proof.
  intros Hh Hlast Hdata n request Hn Hmax.
  pose proof (λ b Hpos, recv_with_body fuel buffer data p last s s1 b Hh Hpos) as Hrecv. fold n request in Hrecv.
  assert (fuel ≠ 0%nat) as Hfuel by (intros ->; done).
  destruct (Z.leb_spec n 0) as [H0|Hpos].
  { unfold HttpSession.recvRequest. fold (head fuel buffer). unfold_M. rewrite Hh.
    fold n request. by destruct (Z.ltb_spec 0 n); [lia|]. }
  assert (0 ≤ n < 2 ^ 31) as Hnr by lia.
  pose proof (receive_body_start fuel data last n s1 Hlast Hdata Hnr Hmax) as Hb.
  destruct (Z.leb_spec last n) as [Hle|Hgt].
  - intros chunks s2 Hd Hf.
    destruct (body_start_fits data last n ltac:(lia) Hdata) as [Hlen Hsplice].
    rewrite uint_id in Hb by (unfold in_uint; lia). rewrite Z.min_l in Hb by lia.
    destruct (Z.eq_dec (n - last) 0) as [E|E].
    { (* nothing is missing *)
      pose proof (delivers_le s1 (n - last) chunks s2 ltac:(lia) Hd) as Hr.
      split; [|intros; unfold received in *; lia]. intros Hall.
      rewrite E in Hd. apply nothing_delivered in Hd as [-> ->].
      rewrite E in Hb. cbn [Z.ltb Z.compare] in Hb. rewrite (Hrecv _ Hpos Hb). unfold_M. cbn. do 4 f_equal.
      rewrite app_nil_r. rewrite <-(app_nil_r (take _ _)). rewrite <-(Hsplice []) by (simpl; lia).
      by rewrite splice_nil. }
    destruct (Z.ltb_spec 0 (n - last)); [|lia].
    replace fuel with (length chunks + Datatypes.S (fuel - length chunks - 1))%nat in Hb at 2 by lia.
    split.
    + intros Hall. unfold_M.
      rewrite (readFixedSize_complete s1 s2) in Hb by (done || lia).
      cbn [fst snd] in Hb. destruct (Z.leb_spec (n - last) 0); [lia|].
      rewrite (Hrecv _ Hpos Hb). cbn. by rewrite Hsplice by (unfold received in Hall; lia).
    + intros s3 s4 Hshort Hr Hclose. unfold_M.
      rewrite (readFixedSize_eof s1 s2 s3) in Hb by (done || lia).
      cbn [fst snd Z.leb Z.compare] in Hb. rewrite Hclose in Hb. by rewrite (Hrecv _ Hpos Hb).
  - intros k d s2 Hr Hd.
    assert (uint 64 (n - last) = 2 ^ 64 - (last - n)) as Hw.
    { unfold uint. symmetry. apply (Z.mod_unique _ _ (-1)); lia. }
    rewrite Hw, Z.min_r in Hb by lia. destruct (Z.ltb_spec 0 (2 ^ 64 - (last - n))); [|lia].
    assert (length (body_start data last n) = Z.to_nat n) as Hlen.
    { unfold body_start. rewrite length_splice, length_replicate; [done|].
      rewrite length_take, length_replicate. lia. }
    destruct fuel as [|fuel]; [done|].
    assert (0 < 2 ^ 64 - (last - n) < 2 ^ 64) as Hleft by lia.
    pose proof (readFixedSize_overrun fuel s1 s2 (body_start data last n) _ k d Hleft Hd Hr) as Hov.
    rewrite Hlen, Z2Nat.id in Hov by lia. unfold_M. rewrite Hov in Hb.
    by rewrite (Hrecv _ Hpos Hb).
Qed.
End session.

(** ** Serving a client *)
Section server.
Context {MX : MaxSize} {S : Type} `{!Stream S} {C : Type}.
Variable lexical_cast : list Z → option Z.
Variable http_parser_init : C.
Variable http_parser_execute : C → list Z → nat → option (C * nat * list HttpParser.callback).
Variable http_parser_has_error http_parser_is_finished : C → bool.
Variable fnmatch : list Z → list Z → bool.
Variable fuel : nat.
Variable m_isKeepAlive : bool.
Variable name buffer : list Z.
Variable m_dispatcher : Servlet.ServletDispatcher S.

Abbreviation recv := (HttpServer.recv lexical_cast http_parser_init http_parser_execute
  http_parser_has_error http_parser_is_finished fuel buffer).
Abbreviation handleClient rounds := (HttpServer.handleClient lexical_cast http_parser_init
  http_parser_execute http_parser_has_error http_parser_is_finished fnmatch rounds fuel
  m_isKeepAlive name buffer m_dispatcher).

(** What the servlet is given to fill in. *)
Definition first_response (req : Http.HttpRequest) : Http.HttpResponse :=
  Http.rs_setHeader (str "Server") name
    (Http.HttpResponse_new (Http.rq_version req) (Http.rq_close req || negb m_isKeepAlive)).

(** A request was received, dispatched, and its response sent; the client may
    send another one if it and the server agreed. *)
Inductive round (s : S) : Http.HttpResponse → bool → S → Prop :=
| round_intro req s1 req' rsp z s2 r s3 again :
    recv s = Ok (Some req) s1 →
    Servlet.handle fnmatch m_dispatcher req (first_response req) s1 = Ok (req', rsp, z) s2 →
    HttpSession.sendResponse fuel rsp s2 = Ok r s3 →
    again = m_isKeepAlive && negb (Http.rq_close req') →
    round s rsp again s3.

Inductive rounds : S → list Http.HttpResponse → S → Prop :=
| rounds_nil s : rounds s [] s
| rounds_cons s rsp s1 l s' : round s rsp true s1 → rounds s1 l s' → rounds s (rsp :: l) s'.

Lemma serve_round s rsp again s' :
  round s rsp again s' →
  HttpServer.serve_one lexical_cast http_parser_init http_parser_execute http_parser_has_error
    http_parser_is_finished fnmatch fuel m_isKeepAlive name buffer m_dispatcher s = Ok again s'.
Proof.
  intros [req s1 req' rsp' z s2 r s3 b H1 H2 H3 ->]. unfold HttpServer.serve_one. unfold_M.
  rewrite H1. fold (first_response req). rewrite H2, H3. f_equal.
  by destruct m_isKeepAlive, (Http.rq_close req').
Qed.

Lemma client_rounds s l s' m :
  rounds s l s' → handleClient (length l + m)%nat s = handleClient m s'.
Proof.
  unfold HttpServer.handleClient. induction 1 as [|s rsp s1 l s' Hr H IH]; [done|].
  cbn [length Nat.add HttpServer.client_loop]. unfold_M. rewrite (serve_round _ _ _ _ Hr). exact IH.
Qed.

(** C20. A client's requests are answered one after the other as long as the
    server is in keep-alive mode and the request, as the servlet left it, does
    not ask to close; after the first that does, the session is closed. When
    instead the next request cannot be received - the client has just closed its
    connection - the null request is used: a server in keep-alive mode does
    not survive a client that hangs up. *)
Theorem client_served (s s' : S) (l : list Http.HttpResponse) :
  rounds s l s' →
  (l ≠ [] → m_isKeepAlive = true) ∧
  (∀ rsp s1 s2 m, round s' rsp false s1 → close s1 = Ok tt s2 →
     handleClient (length l + Datatypes.S m) s = Ok tt s2) ∧
  (∀ s1 m, recv s' = Ok None s1 → handleClient (length l + Datatypes.S m) s = Fault NullDeref).
Proof.
  intros Hl. split_and!.
  - intros Hne. destruct Hl as [|s rsp s1 l s' Hr _]; [done|]. inversion Hr; subst.
    by destruct m_isKeepAlive.
  - intros rsp s1 s2 m Hr Hc. rewrite (client_rounds _ _ _ _ Hl).
    unfold HttpServer.handleClient. cbn [HttpServer.client_loop]. unfold_M.
    by rewrite (serve_round _ _ _ _ Hr).
  - intros s1 m Hr. rewrite (client_rounds _ _ _ _ Hl).
    unfold HttpServer.handleClient. cbn [HttpServer.client_loop]. unfold HttpServer.serve_one.
    unfold_M. by rewrite Hr.
Qed.
End server.

(** ** Witnesses

    A grammar with one form of head: a digit for the length, and keep-alive. *)
Definition toy_head (n : string) : list Z :=
  str "content-length:" ++ str n ++ [10] ++ str "connection:keep-alive" ++ [10].
Definition toy_execute (c : bool) (l : list Z) (n : nat) : option (bool * nat * list HttpParser.callback) :=
  Some (if (n <? 39)%nat then (c, 0%nat, [])
        else (true, 39%nat, [HttpParser.http_field 0 14 15 1; HttpParser.http_field 17 10 28 10])).
Definition toy_cast (l : list Z) : option Z := match l with [d] => Some (d - 48) | _ => None end.
#[local] Instance toy_max : MaxSize := 2 ^ 62.
#[local] Existing Instance toy_stream.

Definition toy_buffer : list Z := replicate 64 0.
Definition toy_session (k : list string) : SocketStream.t (list (list Z)) := toy (str <$> k) true.

Definition toy_head_result (o : outcome (SocketStream.t (list (list Z)))
    (option (list Z * HttpParser.HttpRequestParser bool * Z))) :=
  match o with Ok (Some r) s => Some (r, s) | _ => None end.
Definition toy_head_of (k : list (list Z)) :=
  toy_head_result (head false toy_execute (λ _, false) id 9 toy_buffer (toy k true)).

Definition toy_parsed (n : string) : HttpParser.HttpRequestParser bool :=
  HttpParser.mk_request_parser true
    (Http.rq_setHeader (str "connection") (str "keep-alive")
      (Http.rq_setHeader (str "content-length") (str n) (Http.HttpRequest_new 17 true))) 0.

(** Two bytes of five came with the head; the rest came in two pieces. *)
Definition two_pieces : list (list Z) := [[105; 115]; [116]].
Definition five : list (list Z) := (toy_head "5" ++ [97; 98]) :: two_pieces.
(** Here another request came with the head. *)
Definition pipelined : list (list Z) := [toy_head "1" ++ [97; 98; 99]; [100]].

Definition data_after (k : list (list Z)) : list Z :=
  match toy_head_of k with Some (d, _, _, _) => d | None => [] end.

Lemma five_head : head false toy_execute (λ _, false) id 9 toy_buffer (toy five true)
  = Ok (Some (data_after five, toy_parsed "5", 2)) (toy two_pieces true).
Proof. vm_compute. reflexivity. Qed.

Lemma pipelined_head : head false toy_execute (λ _, false) id 9 toy_buffer (toy pipelined true)
  = Ok (Some (data_after pipelined, toy_parsed "1", 3)) (toy [[100]] true).
Proof. vm_compute. reflexivity. Qed.

Abbreviation toy_request := (HttpSession.recvRequest toy_cast false toy_execute (λ _, false) id 9 toy_buffer).

Lemma request_body_witness :
  toy_request (toy five true) =
    Ok (Some (Http.init (Http.rq_setBody [97; 98; 105; 115; 116] (HttpParser.m_data (toy_parsed "5")))))
       (toy [] true) ∧
  toy_request (toy pipelined true) = Fault OutOfBounds.
Proof.
  assert (reads (toy two_pieces true) 3 2 [105; 115] (toy [[116]] true)) as R1
    by (by apply (connected_reads toy_recv toy_send toy_close)).
  assert (reads (toy [[116]] true) 1 1 [116] (toy [] true)) as R2
    by (by apply (connected_reads toy_recv toy_send toy_close)).
  assert (reads (toy [[100]] true) (2 ^ 64 - 2) 1 [100] (toy [] true)) as R3
    by (by apply (connected_reads toy_recv toy_send toy_close)).
  assert (delivers (toy two_pieces true) 3 two_pieces (toy [] true)) as Hd.
  { eapply (delivers_chunk _ _ [105; 115]); [done|simpl; lia|exact R1|].
    eapply (delivers_chunk _ _ [116]); [done|simpl; lia|exact R2|constructor]. }
  split.
  - assert (2 ≤ Z.of_nat (length (data_after five))) as Hdata by (by vm_compute).
    destruct (request_body toy_cast false toy_execute (λ _, false) id 9 toy_buffer _ _ 2 _ _ five_head
      ltac:(lia) Hdata ltac:(by vm_compute) ltac:(by vm_compute) two_pieces
      (toy [] true) Hd ltac:(simpl; lia)) as [H _]. exact (H eq_refl).
  - assert (3 ≤ Z.of_nat (length (data_after pipelined))) as Hdata by (by vm_compute).
    exact (request_body toy_cast false toy_execute (λ _, false) id 9 toy_buffer _ _ 3 _ _ pipelined_head
      ltac:(lia) Hdata ltac:(by vm_compute) ltac:(by vm_compute) 1 [100] _ R3 ltac:(done)).
Defined.

(** One request, answered with 404, and the client hangs up. *)
Definition request_0 : Http.HttpRequest := Http.init (HttpParser.m_data (toy_parsed "0")).
Definition not_found : Http.HttpResponse :=
  Http.rs_setBody (Servlet.not_found_content (str "nothing"))
    (Http.rs_setHeader (str "Content-Type") (str "text/html")
      (Http.rs_setHeader (str "Server") (str "windgent/1.0.0")
        (Http.setStatus Http.NOT_FOUND (first_response true (str "windgent") request_0)))).

Lemma client_served_witness :
  HttpServer.handleClient toy_cast false toy_execute (λ _, false) id (λ _ _, false) 5 9 true
    (str "windgent") toy_buffer Servlet.new (toy [toy_head "0"] true) = Fault NullDeref.
Proof.
  assert (rounds toy_cast false toy_execute (λ _, false) id (λ _ _, false) 9 true (str "windgent")
    toy_buffer Servlet.new (toy [toy_head "0"] true) [not_found] (toy [] true)) as Hr.
  { eapply rounds_cons; [|apply rounds_nil].
    apply (round_intro _ _ _ _ _ _ _ _ _ _ _ _ request_0 (toy [] true) request_0 not_found 0 (toy [] true)
      (Z.of_nat (length (Http.rs_dump not_found)))); vm_compute; reflexivity. }
  assert (HttpServer.recv toy_cast false toy_execute (λ _, false) id 9 toy_buffer (toy [] true)
    = Ok None (SocketStream.mk [] (-1) false (ByteArray.new 4))) as He by (vm_compute; reflexivity).
  destruct (client_served toy_cast false toy_execute (λ _, false) id (λ _ _, false) 9 true (str "windgent")
    toy_buffer Servlet.new _ _ _ Hr) as (_ & _ & H).
  exact (H _ 3%nat He).
Defined.
