(* ===== verification/ServletProps.v ===== *)
(** Properties of the dispatcher: which servlet answers a path after any
    history of registrations. *)
From stdpp Require Import base list gmap numbers option strings.
From Stdlib Require Import ZArith Lia.
From S2P Require Import Prelude CString Http Servlet.
Import Servlet.
Local Open Scope Z_scope.

Section dispatch.
Context {S : Type}.
Variable fnmatch : list Z → list Z → bool.

Inductive registration :=
| Add (uri : list Z) (slt : option (servlet S))
| AddGlob (pattern : list Z) (slt : option (servlet S))
| DelExact (uri : list Z)
| DelGlob (pattern : list Z)
| Default (slt : option (servlet S)).

Definition register (r : registration) : M (ServletDispatcher S) unit :=
  match r with
  | Add uri slt => addServlet uri slt
  | AddGlob pattern slt => addGlobServlet pattern slt
  | DelExact uri => delServlet uri
  | DelGlob pattern => delGlobServlet pattern
  | Default slt => modify (setDefault slt)
  end.

(** *** The specification, from the latest registration backwards *)

(** The servlet last registered for exactly this path, unless deleted since. *)
Fixpoint exact (history : list registration) (uri : list Z) : option (option (servlet S)) :=
  match history with
  | [] => None
  | Add u slt :: h => if decide (u = uri) then Some slt else exact h uri
  | DelExact u :: h => if decide (u = uri) then None else exact h uri
  | _ :: h => exact h uri
  end.

(** The patterns in the order of their last registration. *)
Fixpoint patterns (history : list registration) : list (list Z * option (servlet S)) :=
  match history with
  | [] => []
  | AddGlob p slt :: h => filter (λ e, e.1 ≠ p) (patterns h) ++ [(p, slt)]
  | DelGlob p :: h => filter (λ e, e.1 ≠ p) (patterns h)
  | _ :: h => patterns h
  end.

Fixpoint default_servlet (history : list registration) : option (servlet S) :=
  match history with
  | [] => Some (NotFoundServlet (str "nothing"))
  | Default slt :: _ => slt
  | _ :: h => default_servlet h
  end.

Definition answers (history : list registration) (uri : list Z) : option (servlet S) :=
  match exact history uri with
  | Some slt => slt
  | None =>
      match List.find (λ e, fnmatch (c_str e.1) (c_str uri)) (patterns history) with
      | Some (_, slt) => slt
      | None => default_servlet history
      end
  end.

(** *** Erasing the first of distinct keys is erasing all *)
Lemma erase_first_filter uri (l : list (list Z * option (servlet S))) :
  NoDup l.*1 → erase_first uri l = filter (λ e, e.1 ≠ uri) l.
Proof.
  induction l as [|[u slt] l IH]; intros Hnd; [done|]. apply NoDup_cons in Hnd as [Hu Hnd].
  rewrite filter_cons. cbn [erase_first fst]. case_bool_decide as E.
  - subst u. case_decide as F; [by destruct F|]. symmetry. apply filter_all.
    intros e He Ee. apply Hu. cbn [fst]. rewrite <-Ee. by apply list_elem_of_fmap_2.
  - case_decide as F; [by rewrite IH|]. by destruct F.
Qed.

Lemma NoDup_filter_keys (P : list Z * option (servlet S) → Prop) `{∀ e, Decision (P e)} l :
  NoDup l.*1 → NoDup (filter P l).*1.
Proof.
  induction l as [|e l IH]; intros Hnd; [constructor|]. apply NoDup_cons in Hnd as [He Hnd].
  rewrite filter_cons. case_decide; [|by apply IH]. constructor; [|by apply IH].
  intros (e' & E & [_ Hin]%list_elem_of_filter)%list_elem_of_fmap. apply He. rewrite E.
  by apply list_elem_of_fmap_2.
Qed.

Record represents (history : list registration) (d : ServletDispatcher S) : Prop := {
  rep_free : locked d = false;
  rep_datas : ∀ uri, m_datas d !! uri = exact history uri;
  rep_globs : m_globs d = patterns history;
  rep_distinct : NoDup (m_globs d).*1;
  rep_default : m_default d = default_servlet history
}.

Lemma register_ok r history d :
  represents history d → ∃ d', register r d = Ok tt d' ∧ represents (r :: history) d'.
Proof.
  intros [Hf Hd Hg Hn Hdef].
  destruct r as [uri slt|p slt|uri|p|slt]; cbn [register];
    unfold addServlet, addGlobServlet, delServlet, delGlobServlet, with_lock; unfold_M; rewrite ?Hf;
    (eexists; split; [reflexivity|]); split; cbn; try done.
  - intros u. rewrite lookup_insert, <-Hd. by case_decide.
  - by rewrite erase_first_filter, Hg by done.
  - rewrite erase_first_filter by done. rewrite fmap_app. apply NoDup_app. split_and!.
    + by apply NoDup_filter_keys.
    + intros u (e & -> & [He _]%list_elem_of_filter)%list_elem_of_fmap Hin.
      apply list_elem_of_singleton in Hin. by apply He.
    + apply NoDup_singleton.
  - intros u. rewrite lookup_delete, <-Hd. by case_decide.
  - by rewrite erase_first_filter, Hg by done.
  - rewrite erase_first_filter by done. by apply NoDup_filter_keys.
Qed.

(** C23. After any registrations and deletions a path is answered by the servlet
    last registered for exactly this path; without one by the first pattern
    that matches, in the order in which the patterns were last registered; and
    by the default otherwise. The overload of addGlobServlet that takes a
    callback locks the mutex it already holds. *)
Theorem dispatch (ops : list registration) (uri : list Z) (cb : servlet S) :
  wp (forM ops register) (λ _ d,
    getMatchedServlet fnmatch uri d = Ok (answers (reverse ops) uri) d ∧
    getServlet uri d = Ok (default None (exact (reverse ops) uri)) d ∧
    addGlobServlet_cb uri cb d = Fault SelfDeadlock) new.
Proof.
  assert (∀ l h d, represents h d →
    ∃ d', forM l register d = Ok tt d' ∧ represents (reverse l ++ h) d') as Hrun.
  { induction l as [|r l IH]; intros h d Hr; [by exists d|]. cbn [forM].
    destruct (register_ok r h d Hr) as (d1 & E & H1). unfold_M. rewrite E.
    destruct (IH _ _ H1) as (d2 & E2 & H2). exists d2. split; [done|].
    by rewrite reverse_cons, <-(assoc_L (++)). }
  destruct (Hrun ops [] new) as (d & E & [Hf Hd Hg _ Hdef]).
  { split; try done; try (intros; apply lookup_empty); constructor. }
  rewrite app_nil_r in *. apply wp_ok. exists tt, d. split; [exact E|].
  destruct d as [lk ds gs df]. cbn in Hf, Hd, Hg, Hdef. subst lk gs df.
  unfold getMatchedServlet, getServlet, addGlobServlet_cb, addGlobServlet, with_lock, answers. unfold_M.
  cbn. rewrite !Hd. split_and!; by destruct (exact (reverse ops) uri).
Qed.
End dispatch.

(** A pattern is given up by registering it again; the exact path wins. *)
Definition always : list Z → list Z → bool := λ _ _, true.
Definition answer_with (n : Z) : servlet unit := λ req rsp, mret (req, rsp, n).

Lemma dispatch_witness :
  wp (forM [AddGlob (str "/a*") (Some (answer_with 1)); AddGlob (str "/b*") (Some (answer_with 2));
            AddGlob (str "/a*") (Some (answer_with 3)); Add (str "/x") None] (@register unit))
    (λ _ d, getMatchedServlet always (str "/y") d = Ok (Some (answer_with 2)) d ∧
            getMatchedServlet always (str "/x") d = Ok None d) new.
Proof.
  eapply wp_mono; [apply wp_and|].
  - exact (dispatch always _ (str "/y") (answer_with 0)).
  - exact (dispatch always _ (str "/x") (answer_with 0)).
  - intros [] d ((H & _) & H' & _). split; [exact H|exact H'].
Defined.
