(* ===== verification/HttpConnectionProps.v ===== *)
(** Properties of the client side: chunked bodies, and the pool's accounts. *)
From stdpp Require Import base list gmap numbers option strings.
From Stdlib Require Import ZArith Lia.
From S2P Require Import Prelude CString Endian Buffer ByteArray Stream StreamProps Http HttpParser HttpSession HttpConnection HttpSessionProps.
Local Open Scope Z_scope.

Section chunks.
Import HttpConnection.
Context {MX : MaxSize} {S : Type} `{!Stream S} {C : Type}.
Variable httpclient_parser_init : C.
Variable httpclient_parser_execute : C → list Z → nat → option (C * nat * list HttpParser.callback).
Variable httpclient_parser_has_error httpclient_parser_is_finished : C → bool.
Variable chunks_done : C → bool.
Variable content_len : C → Z.
Implicit Types (s : S) (data body c : list Z) (pieces : list (list Z)).

Abbreviation parser := (HttpParser.HttpResponseParser C).
Abbreviation chunk_head := (HttpConnection.chunk_head httpclient_parser_init httpclient_parser_execute
  httpclient_parser_has_error httpclient_parser_is_finished).
Abbreviation chunk_content := (HttpConnection.chunk_content content_len).
Abbreviation chunks := (HttpConnection.chunks httpclient_parser_init httpclient_parser_execute
  httpclient_parser_has_error httpclient_parser_is_finished chunks_done content_len).

(** [left] bytes are read into a buffer of [B], a buffer full at most at once. *)
Inductive arrives (B : Z) : S → Z → list (list Z) → S → Prop :=
| arrives_all s : arrives B s 0 [] s
| arrives_piece s left d pieces s1 s' :
    d ≠ [] → Z.of_nat (length d) ≤ Z.min B left → reads s (Z.min B left) (Z.of_nat (length d)) d s1 →
    arrives B s1 (left - Z.of_nat (length d)) pieces s' →
    arrives B s left (d :: pieces) s'.

Definition overwrite (data d : list Z) : list Z := splice data 0 d.

Lemma arrives_received B s left pieces s' : 0 ≤ left → arrives B s left pieces s' → received pieces = left.
Proof.
  intros Hl. induction 1 as [|s left d pieces s1 s' Hd Hle Hr H IH]; [done|].
  unfold received in *. cbn [concat]. rewrite length_app. lia.
Qed.

Lemma append_ok body data n s :
  0 ≤ n ≤ Z.of_nat (length data) → n < 2 ^ 64 → Z.of_nat (length body) + n ≤ max_size →
  append body data n s = Ok (body ++ take (Z.to_nat n) data) s.
Proof.
  intros Hn Hn' Hmax. unfold append. rewrite uint_id by (unfold in_uint; lia).
  destruct (Z.ltb_spec max_size (Z.of_nat (length body) + n)); [lia|].
  unfold load_at, in_boundsM. unfold_M. cbn [Z.leb Z.compare andb].
  destruct (Z.leb_spec 0 n); [|lia]. by destruct (Z.leb_spec (0 + n) (Z.of_nat (length data))); [|lia].
Qed.

Lemma signed_ok (z : Z) s : in_sint 32 z → signed 32 z s = Ok z s.
Proof. intros Hz. unfold signed. by rewrite decide_True. Qed.

Lemma chunk_rest_ok fuel B s left pieces s' data body :
  B = Z.of_nat (length data) → B < 2 ^ 31 → 0 ≤ left < 2 ^ 31 →
  Z.of_nat (length body) + left ≤ max_size →
  arrives B s left pieces s' → (length pieces < fuel)%nat →
  chunk_rest fuel data body left s = Ok (Some (foldl overwrite data pieces, body ++ concat pieces)) s'.
Proof.
  intros HB HB' Hl Hm H. revert fuel data body HB Hl Hm.
  induction H as [s|s left d pieces s1 s' Hd Hle Hr H IH]; intros fuel data body HB Hl Hm Hf;
    (destruct fuel as [|fuel]; [cbn [length] in Hf; lia|]).
  - cbn [chunk_rest Z.ltb Z.compare foldl concat]. by rewrite app_nil_r.
  - assert (0 < Z.of_nat (length d)) as Hpos by (destruct d; [done|simpl; lia]).
    cbn [chunk_rest foldl concat]. destruct (Z.ltb_spec 0 left); [|lia].
    rewrite (sint_id 32 (Z.of_nat (length data))) by (unfold in_sint; lia). rewrite <-HB.
    replace (if B <? left then B else left) with (Z.min B left) by (destruct (Z.ltb_spec B left); lia).
    rewrite uint_id by (unfold in_uint; lia). unfold_M. rewrite Hr, store_at_ok by lia.
    destruct (Z.leb_spec (Z.of_nat (length d)) 0); [lia|]. change (Z.to_nat 0) with 0%nat.
    assert (length (splice data 0 d) = length data) as Hlen by (apply length_splice; lia).
    rewrite append_ok by (rewrite ?Hlen; lia).
    rewrite signed_ok by (unfold in_sint; lia).
    assert (take (Z.to_nat (Z.of_nat (length d))) (splice data 0 d) = d) as ->.
    { rewrite Nat2Z.id. apply (take_drop_splice data 0). lia. }
    cbn [length] in Hf. rewrite (IH fuel (splice data 0 d) (body ++ d));
      [by rewrite <-(assoc_L (++))|lia|lia|rewrite length_app; lia|lia].
Qed.

(** The buffer and what is left over in it behind a chunk of [n] bytes. *)
Definition behind data (len n : Z) pieces : list Z * Z :=
  if n + 2 <=? len
  then (splice data 0 (take (Z.to_nat (len - (n + 2))) (drop (Z.to_nat (n + 2)) data)), len - (n + 2))
  else (foldl overwrite data pieces, 0).

Lemma chunk_content_ok fuel s data body (p : parser) len pieces s' :
  let n := content_len (HttpParser.rs_parser p) in
  0 ≤ n → n + 2 < 2 ^ 31 → 0 ≤ len ≤ Z.of_nat (length data) → Z.of_nat (length data) < 2 ^ 31 →
  Z.of_nat (length body) + (n + 2) ≤ max_size →
  arrives (Z.of_nat (length data)) s (Z.max 0 (n + 2 - len)) pieces s' → (length pieces < fuel)%nat →
  chunk_content fuel data body p len s =
    Ok (Some ((behind data len n pieces).1,
              body ++ take (Z.to_nat n) (take (Z.to_nat len) data ++ concat pieces),
              (behind data len n pieces).2)) s'.
Proof.
  intros n Hn Hn2 Hlen HB Hm Ha Hf. unfold HttpConnection.chunk_content, behind. fold n.
  unfold_M. rewrite signed_ok by (unfold in_sint; lia). destruct (Z.leb_spec (n + 2) len).
  - rewrite append_ok by lia. rewrite Z.max_l in Ha by lia.
    inversion Ha as [|? ? d]; subst; [|destruct d; simpl in *; lia || done].
    unfold move_front, load_at, in_boundsM. unfold_M.
    destruct (Z.leb_spec 0 (n + 2)); [|lia]. destruct (Z.leb_spec 0 (len - (n + 2))); [|lia].
    destruct (Z.leb_spec (n + 2 + (len - (n + 2))) (Z.of_nat (length data))); [|lia]. cbn [andb].
    rewrite store_at_ok by (rewrite ?length_take, ?length_drop; lia). cbn [fst snd concat].
    rewrite app_nil_r, take_take. by replace (Z.to_nat n `min` Z.to_nat len)%nat with (Z.to_nat n) by lia.
  - rewrite append_ok by lia. rewrite !signed_ok by (unfold in_sint; lia).
    rewrite Z.max_r in Ha by lia.
    assert (0 ≤ n + 2 - len) as Hpos by lia.
    pose proof (arrives_received _ _ _ _ _ Hpos Ha) as Hrec. unfold received in Hrec.
    replace (n - len + 2) with (n + 2 - len) by lia.
    rewrite (chunk_rest_ok fuel (Z.of_nat (length data)) s (n + 2 - len) pieces s');
      [|done|lia|lia|rewrite length_app, length_take; lia|done|done].
    assert (length (body ++ take (Z.to_nat len) data) + length (concat pieces)
      = length body + Z.to_nat (n + 2))%nat as Hl by (rewrite length_app, length_take; lia).
    rewrite <-(assoc_L (++)).
    assert (length (body ++ take (Z.to_nat len) data ++ concat pieces) = length body + Z.to_nat (n + 2))%nat as Hl'
      by (rewrite (assoc_L (++)), length_app; lia).
    rewrite Hl'. destruct (Nat.ltb_spec (length body + Z.to_nat (n + 2)) 2); [lia|].
    replace (length body + Z.to_nat (n + 2) - 2)%nat with (length body + Z.to_nat n)%nat by lia.
    rewrite take_app_add'; [done|done].
Qed.

(** A chunk: its head is parsed with [len1] bytes left over, and these and the
    pieces that arrive are its content [c], a line end, and what follows. *)
Inductive one_chunk (fuel : nat) data (p : parser) (len : Z) s c data1 (p1 : parser) (len1 : Z)
    pieces (s2 : S) : Prop :=
| one_chunk_intro s1 rest :
    chunk_head fuel data p len true s = Ok (Some (data1, p1, len1)) s1 →
    content_len (HttpParser.rs_parser p1) = Z.of_nat (length c) → Z.of_nat (length c) + 2 < 2 ^ 31 →
    0 ≤ len1 ≤ Z.of_nat (length data1) → Z.of_nat (length data1) < 2 ^ 31 →
    take (Z.to_nat len1) data1 ++ concat pieces = c ++ [13; 10] ++ rest →
    arrives (Z.of_nat (length data1)) s1 (Z.max 0 (Z.of_nat (length c) + 2 - len1)) pieces s2 →
    (length pieces < fuel)%nat →
    one_chunk fuel data p len s c data1 p1 len1 pieces s2.

(** A message in chunks, up to the one that the state machine says is the last. *)
Inductive message (fuel : nat) : list Z → parser → Z → S → list (list Z) → parser → S → Prop :=
| message_last data p len s c data1 p1 len1 pieces s2 :
    one_chunk fuel data p len s c data1 p1 len1 pieces s2 →
    chunks_done (HttpParser.rs_parser p1) = true →
    message fuel data p len s [c] p1 s2
| message_more data p len s c data1 p1 len1 pieces s2 cs p' s' :
    one_chunk fuel data p len s c data1 p1 len1 pieces s2 →
    chunks_done (HttpParser.rs_parser p1) = false →
    message fuel (behind data1 len1 (Z.of_nat (length c)) pieces).1 p1
      (behind data1 len1 (Z.of_nat (length c)) pieces).2 s2 cs p' s' →
    message fuel data p len s (c :: cs) p' s'.

Lemma chunk_ok fuel data p len s c data1 p1 len1 pieces s2 body :
  one_chunk fuel data p len s c data1 p1 len1 pieces s2 →
  Z.of_nat (length body) + (Z.of_nat (length c) + 2) ≤ max_size →
  HttpConnection.chunk httpclient_parser_init httpclient_parser_execute httpclient_parser_has_error
    httpclient_parser_is_finished content_len fuel data body p len s =
  Ok (Some ((behind data1 len1 (Z.of_nat (length c)) pieces).1, body ++ c, p1,
            (behind data1 len1 (Z.of_nat (length c)) pieces).2)) s2.
Proof.
  intros [s1 rest Hh Hc Hc2 Hl HB Hb Ha Hf] Hm.
  unfold HttpConnection.chunk. unfold_M. rewrite Hh.
  rewrite (chunk_content_ok fuel s1 data1 body p1 len1 pieces s2) by (rewrite ?Hc; done || lia).
  rewrite Hc, Hb, Nat2Z.id, take_app_length. done.
Qed.

End chunks.

(** *** Witness: chunk heads of one digit and a new line *)
Definition chunk_execute (c : Z * bool) (l : list Z) (n : nat)
    : option (Z * bool * nat * list HttpParser.callback) :=
  Some (match take n l with
        | d :: 10 :: _ => (d - 48, true, 2%nat, [])
        | _ => (c, 0%nat, [])
        end).
Definition chunk_parser (c : Z * bool) : HttpParser.HttpResponseParser (Z * bool) :=
  HttpParser.mk_response_parser c (Http.HttpResponse_new 17 true) 0.
#[local] Existing Instance toy_max.
#[local] Existing Instance toy_stream.

Abbreviation toy_chunk_head := (HttpConnection.chunk_head (0, false) chunk_execute (λ _, false) snd).
Abbreviation toy_chunks := (HttpConnection.chunks (0, false) chunk_execute (λ _, false) snd
  (λ c, c.1 =? 0) fst).

(** A chunk of three bytes, of which two are in the buffer, then the last one. *)
Definition chunk_buffer : list Z := [51; 10; 97; 98] ++ replicate 12 0.
Definition after_head : list Z := [97; 98; 97; 98] ++ replicate 12 0.
Definition after_three : list Z := [99; 13; 10; 98] ++ replicate 12 0.
Definition after_last : list Z := [13; 10; 13; 10] ++ replicate 12 0.

