(* ===== verification/HttpPoolProps.v ===== *)
(** Properties of the connection pool: its count, who owns a connection, and
    what it hands out. *)
From stdpp Require Import base list gmap numbers option.
From Stdlib Require Import ZArith Lia.
From S2P Require Import Prelude HttpConnection.
Import HttpConnectionPool.
Local Open Scope Z_scope.

(** *** Clients of the pool, with the connections they hold *)
Inductive op :=
| Get (now now' p : Z) (addr connected : bool)
| Use (q : Z) (keeps : bool)
| Release (q now : Z).

Definition exec (o : op) (held : list Z) : M t (list Z) :=
  match o with
  | Get now now' p addr connected =>
      r ← getConnection now now' p addr connected;
      mret (match r with Some q => q :: held | None => held end)
  | Use q keeps => _ ← use q keeps; mret held
  | Release q now => _ ← releasePtr q now; mret (filter (λ x, x ≠ q) held)
  end.

(** A new object has a new address; only what is held is used or released. *)
Definition legal (o : op) (held : list Z) (s : t) : Prop :=
  match o with
  | Get _ _ p _ _ => heap s !! p = None
  | Use q _ | Release q _ => q ∈ held
  end.

Fixpoint exec_all (ops : list op) (held : list Z) : M t (list Z) :=
  match ops with
  | [] => mret held
  | o :: ops' => held ← exec o held; exec_all ops' held
  end.

Fixpoint all_legal (ops : list op) (held : list Z) (s : t) : Prop :=
  match ops with
  | [] => True
  | o :: ops' =>
      legal o held s ∧
      match exec o held s with Ok held' s' => all_legal ops' held' s' | _ => True end
  end.

(** At rest: connected, and not used up. *)
Definition reusable (s : t) (p : Z) : Prop :=
  ∃ c, heap s !! p = Some c ∧ m_isConnected c = true ∧ m_request c ≤ m_maxRequest s.

Record accounts (held : list Z) (s : t) : Prop := {
  acc_distinct : NoDup (m_conns s ++ held);
  acc_live : ∀ p, is_Some (heap s !! p) ↔ p ∈ m_conns s ++ held;
  acc_total : m_total s = Z.of_nat (length (m_conns s ++ held));
  acc_idle : ∀ p, p ∈ m_conns s → reusable s p
}.

Lemma delete_all_lookup l h p : delete_all l h !! p = if decide (p ∈ l) then None else h !! p.
Proof.
  revert h; induction l as [|q l IH]; intros h; cbn [delete_all]; [done|]. rewrite IH.
  destruct (decide (p ∈ l)) as [Hin|Hin].
  - by rewrite decide_True by (by right).
  - rewrite lookup_delete. destruct (decide (q = p)) as [->|Hne].
    + by rewrite decide_True by left.
    + rewrite decide_False; [done|]. by intros [->|]%elem_of_cons.
Qed.

(** The loop: the invalid ones come first; what it finds may be reused. *)
Lemma take_valid_spec now s l :
  (∀ p, p ∈ l → reusable s p) →
  ∃ found invalid rest, take_valid now l s = Ok (found, invalid, rest) s ∧
    l = invalid ++ match found with Some q => [q] | None => [] end ++ rest ∧
    (found = None → rest = []) ∧
    (∀ q, found = Some q → ∃ c, heap s !! q = Some c ∧ m_isConnected c = true ∧ expired c now s = false).
Proof.
  induction l as [|p l IH]; intros Hl; [by exists None, [], []|].
  destruct (Hl p ltac:(left)) as (c & Hc & Hcon & _). cbn [take_valid]. unfold deref. unfold_M.
  rewrite Hc, Hcon. cbn [negb orb]. destruct (expired c now s) eqn:E.
  - destruct IH as (found & invalid & rest & -> & -> & H1 & H2); [intros q Hq; apply Hl; by right|].
    by exists found, (p :: invalid), rest.
  - exists (Some p), [], l. split_and!; [done|done|done|]. intros q [= <-]. by exists c.
Qed.

Lemma accounts_get held s now now' p addr connected :
  accounts held s → heap s !! p = None → Z.of_nat (length (m_conns s ++ held)) < 2 ^ 31 - 1 →
  ∃ r s', getConnection now now' p addr connected s = Ok r s' ∧
    accounts (match r with Some q => q :: held | None => held end) s' ∧
    (length (m_conns s' ++ match r with Some q => q :: held | None => held end)
      ≤ S (length (m_conns s ++ held)))%nat ∧
    ∀ q, r = Some q → ∃ c, heap s' !! q = Some c ∧ m_isConnected c = true ∧
      (q ∈ m_conns s ∧ expired c now s = false ∨ q = p ∧ c = mk_conn now' 0 true).
Proof.
  intros [Hd Hl Ht Hi] Hp Hb.
  destruct (take_valid_spec now s (m_conns s) Hi) as (found & invalid & rest & E & Hc & Hnone & Hfound).
  unfold getConnection. unfold_M. rewrite E. cbn [heap m_conns m_total set_conns set_heap set_total].
  set (h := delete_all invalid (heap s)).
  rewrite Hc, <-!(assoc_L (++)) in Hd. apply list.NoDup_app in Hd as (Hdi & Hdis & Hd).
  assert (sint 32 (m_total s - Z.of_nat (length invalid)) =
    Z.of_nat (length (match found with Some q => [q] | None => [] end ++ rest ++ held))) as Htot.
  { rewrite Ht, Hc, !length_app. rewrite Hc, !length_app in Hb. rewrite sint_id by (unfold in_sint; lia). lia. }
  assert (∀ x, is_Some (h !! x) ↔ x ∈ match found with Some q => [q] | None => [] end ++ rest ++ held) as Hlive.
  { intros x. unfold h. rewrite delete_all_lookup. case_decide as Hx.
    - split; [by intros []|]. intros Hx'. by destruct (Hdis x Hx Hx').
    - rewrite Hl, Hc, <-!(assoc_L (++)), elem_of_app. tauto. }
  assert (∀ x, x ∉ invalid → h !! x = heap s !! x) as Hsame.
  { intros x Hx. unfold h. by rewrite delete_all_lookup, decide_False. }
  destruct found as [q|].
  - eexists (Some q), _. split; [reflexivity|]. cbn [app] in *. split_and!.
    + split; cbn [heap m_conns m_total].
      * by rewrite <-Permutation_middle.
      * intros x. by rewrite Hlive, <-Permutation_middle.
      * by rewrite Htot, <-Permutation_middle.
      * intros x Hx. assert (x ∈ m_conns s) as Hin by (rewrite Hc; set_solver).
        destruct (Hi x Hin) as (c & Hxc & ? & ?). exists c. cbn [heap m_maxRequest]. rewrite Hsame; [done|].
        intros Hx'. apply (Hdis x Hx'). set_solver.
    + rewrite Hc. cbn [m_conns]. rewrite !length_app. simpl. lia.
    + intros ? [= <-]. destruct (Hfound q eq_refl) as (c & Hqc & Hcon & Hex). exists c. cbn [heap].
      rewrite Hsame by (intros Hx; apply (Hdis q Hx); left). split_and!; [done|done|].
      left. split; [rewrite Hc; set_solver|done].
  - rewrite (Hnone eq_refl) in *. cbn [app] in *.
    assert (p ∉ held) as Hfresh.
    { intros Hin. assert (is_Some (heap s !! p)) as [? Hx]; [|congruence].
      apply Hl. rewrite elem_of_app. by right. }
    assert (h !! p = None) as Hhp.
    { unfold h. rewrite delete_all_lookup. by case_decide. }
    destruct (negb addr || negb connected); (eexists _, _; split; [reflexivity|]; split_and!).
    + split; cbn; try done. by intros x ?%elem_of_nil.
    + cbn. rewrite !length_app. lia.
    + done.
    + split; cbn.
      * by constructor.
      * intros x. rewrite lookup_insert. case_decide as Ex.
        { subst. split; [intros _; left|by eexists]. }
        rewrite Hlive, elem_of_cons. split; [by right|by intros [->|]].
      * rewrite Htot. rewrite Hc, !length_app in Hb. simpl in *. rewrite sint_id by (unfold in_sint; lia). lia.
      * by intros x ?%elem_of_nil.
    + cbn. rewrite !length_app. lia.
    + intros ? [= <-]. eexists. cbn. rewrite lookup_insert_eq. split_and!; [done|done|by right].
Qed.

Lemma filter_out q (held : list Z) :
  NoDup held → q ∈ held → held ≡ₚ q :: filter (λ x, x ≠ q) held.
Proof.
  induction held as [|x held IH]; intros Hnd Hq; [by apply elem_of_nil in Hq|].
  apply list.NoDup_cons in Hnd as [Hx Hnd]. rewrite filter_cons. destruct (decide (x = q)) as [->|Hne].
  - rewrite decide_False by (intros H; by apply H). constructor. rewrite filter_all; [done|].
    by intros y Hy ->.
  - rewrite decide_True by done. apply elem_of_cons in Hq as [->|Hq]; [done|].
    rewrite (IH Hnd Hq) at 1. apply perm_swap.
Qed.

(** Changing the object of a connection that is held. *)
Lemma accounts_update held s q c :
  accounts held s → q ∈ held → accounts held (set_heap (<[q := c]> (heap s)) s).
Proof.
  intros [Hd Hl Ht Hi] Hq. split; cbn; try done.
  - intros x. rewrite lookup_insert. case_decide as E; [|apply Hl]. subst x.
    rewrite elem_of_app. split; [by right|by eexists].
  - intros x Hx. destruct (Hi x Hx) as (c' & Hc' & ? & ?). exists c'. cbn.
    rewrite lookup_insert_ne; [done|]. intros ->.
    apply list.NoDup_app in Hd as (_ & Hdis & _). by apply (Hdis x Hx).
Qed.

Lemma accounts_release held s q now :
  accounts held s → q ∈ held → Z.of_nat (length (m_conns s ++ held)) < 2 ^ 31 - 1 →
  ∃ s', releasePtr q now s = Ok tt s' ∧ accounts (filter (λ x, x ≠ q) held) s' ∧
    (length (m_conns s' ++ filter (λ x, x ≠ q) held) ≤ length (m_conns s ++ held))%nat.
Proof.
  intros Ha Hq Hb. assert (is_Some (heap s !! q)) as [c Hc].
  { apply Ha. rewrite elem_of_app. by right. }
  set (c' := mk_conn (m_createTime c) (uint 64 (m_request c + 1)) (m_isConnected c)).
  pose proof (accounts_update held s q c' Ha Hq) as [Hd Hl Ht Hi]. cbn [m_conns set_heap] in *.
  change (m_total s = Z.of_nat (length (m_conns s ++ held))) in Ht.
  pose proof Hd as (_ & Hdis & Hdh)%list.NoDup_app.
  pose proof (filter_out q held Hdh Hq) as Hperm. set (held' := filter (λ x, x ≠ q) held) in *.
  assert (length held = S (length held')) as Hlen by (by rewrite Hperm).
  assert (q ∉ m_conns s) as Hqc by (intros Hin; by apply (Hdis q Hin)).
  unfold releasePtr, deref. unfold_M. rewrite Hc. fold c'. cbn [heap set_heap m_maxRequest].
  set (s1 := set_heap (<[q:=c']> (heap s)) s) in *.
  destruct (negb (m_isConnected c') || expired c' now s1 || (m_maxRequest s <? m_request c')) eqn:E.
  - eexists. split; [reflexivity|]. cbn. rewrite Hperm, <-Permutation_middle in Hd.
    apply list.NoDup_cons in Hd as [Hq' Hd]. split.
    + split; cbn; try done.
      * intros x. rewrite lookup_delete. case_decide as Ex; [subst; split; [by intros []|done]|].
        change (<[q := c']> (heap s)) with (heap s1). rewrite Hl, !elem_of_app, Hperm, elem_of_cons.
        naive_solver.
      * rewrite Ht. rewrite !length_app in *. rewrite sint_id by (unfold in_sint; lia). lia.
      * intros x Hx. destruct (Hi x Hx) as (d & Hd' & ? & ?). exists d. cbn.
        rewrite lookup_delete_ne by (by intros ->). done.
    + rewrite !length_app. lia.
  - apply orb_false_iff in E as [[Hcon Hex]%orb_false_iff Hmax].
    eexists. split; [reflexivity|]. rewrite Hperm in Hd. split.
    + split; cbn; try done.
      * by rewrite <-(assoc_L (++)).
      * intros x. change (<[q := c']> (heap s)) with (heap s1).
        rewrite Hl, <-(assoc_L (++)), !elem_of_app, Hperm, elem_of_cons, list_elem_of_singleton. done.
      * rewrite Ht. rewrite !length_app in *. simpl. lia.
      * intros x [Hx| ->%list_elem_of_singleton]%elem_of_app; [exact (Hi x Hx)|].
        exists c'. cbn. rewrite lookup_insert_eq. split_and!; [reflexivity|exact (proj1 (negb_false_iff _) Hcon)|].
        exact (proj1 (Z.ltb_ge _ _) Hmax).
    + cbn. rewrite !length_app. simpl. fold held'. lia.
Qed.

(** One request of a client. *)
Lemma exec_accounts o held s n :
  accounts held s → legal o held s → (length (m_conns s ++ held) ≤ n)%nat → Z.of_nat n < 2 ^ 31 - 1 →
  ∃ held' s', exec o held s = Ok held' s' ∧ accounts held' s' ∧ (length (m_conns s' ++ held') ≤ S n)%nat.
Proof.
  intros Ha Hleg Hn Hb. destruct o as [now now' p addr connected|q keeps|q now]; cbn [exec legal] in *; unfold_M.
  - destruct (accounts_get held s now now' p addr connected Ha Hleg ltac:(lia)) as (r & s' & -> & H1 & H2 & _).
    eexists _, s'. split; [reflexivity|]. split; [done|lia].
  - assert (is_Some (heap s !! q)) as [c Hc] by (apply Ha; rewrite elem_of_app; by right).
    unfold use, deref. unfold_M. rewrite Hc. destruct keeps; (eexists _, _; split; [reflexivity|]).
    + split; [done|lia].
    + split; [by apply accounts_update|cbn; lia].
  - destruct (accounts_release held s q now Ha Hleg ltac:(lia)) as (s' & -> & H1 & H2).
    eexists _, s'. split; [reflexivity|]. split; [done|lia].
Qed.

(** C22. Whatever clients do with a pool - get connections, use them, which may
    close them, and release what they hold - nothing faults: no connection is
    used or deleted after its deletion. Afterwards m_total is the number of live
    connections, each of which is either at rest in the pool or held by one
    client, and those at rest are connected and have requests left. What
    getConnection hands out next is connected, and either was at rest and has
    not expired, or is new. Nothing limits the number to m_maxSize. *)
Theorem pool_accounts (maxSize maxAliveTime maxRequest : Z) (ops : list op) :
  let start := new maxSize maxAliveTime maxRequest in
  all_legal ops [] start → Z.of_nat (length ops) < 2 ^ 31 - 1 →
  wp (exec_all ops []) (λ held s, accounts held s ∧
    ∀ now now' p addr connected q s', heap s !! p = None →
      getConnection now now' p addr connected s = Ok (Some q) s' →
      ∃ c, heap s' !! q = Some c ∧ m_isConnected c = true ∧
        (q ∈ m_conns s ∧ expired c now s = false ∨ q = p ∧ c = mk_conn now' 0 true)) start.
Proof.
  intros start Hleg Hb.
  assert (∀ ops held s n, accounts held s → all_legal ops held s → (length (m_conns s ++ held) ≤ n)%nat →
    Z.of_nat (n + length ops) < 2 ^ 31 - 1 →
    ∃ held' s', exec_all ops held s = Ok held' s' ∧ accounts held' s' ∧
      Z.of_nat (length (m_conns s' ++ held')) < 2 ^ 31 - 1) as Hrun.
  { clear. induction ops as [|o ops IH]; intros held s n Ha Hleg Hn Hb; cbn [exec_all all_legal length] in *.
    - exists held, s. split_and!; [done|done|lia].
    - destruct Hleg as [Ho Hleg].
      destruct (exec_accounts o held s n Ha Ho Hn ltac:(lia)) as (held1 & s1 & E & Ha1 & Hn1).
      unfold_M. rewrite E in *. apply (IH held1 s1 (S n)); [done|done|done|lia]. }
  destruct (Hrun ops [] start 0%nat) as (held & s & E & Ha & Hlen); [|done|done|done|].
  { split; cbn; [constructor| |done|].
    - intros p. rewrite lookup_empty. split; [by intros []|by intros ?%elem_of_nil].
    - by intros p ?%elem_of_nil. }
  apply wp_ok. exists held, s. split; [done|]. split; [done|].
  intros now now' p addr connected q s' Hp Hg.
  destruct (accounts_get held s now now' p addr connected Ha Hp Hlen) as (r & s1 & E1 & _ & _ & H).
  rewrite Hg in E1. injection E1 as <- <-. by apply H.
Qed.

(** Two clients at once of a pool of size one; one connection is closed. *)
Definition two_clients : list op :=
  [Get 10 10 100 true true; Get 11 11 200 true true; Use 100 false; Release 100 20; Release 200 21].

Lemma pool_accounts_witness :
  wp (exec_all two_clients []) (λ held s, accounts held s ∧ m_conns s = [200] ∧ m_total s = 1)
    (new 1 1000 5) ∧
  wp (exec_all (take 2 two_clients) []) (λ held s, m_total s = 2) (new 1 1000 5).
Proof.
  assert (all_legal two_clients [] (new 1 1000 5)) as Hleg.
  { vm_compute. split_and!; try done; try (by left); by right; left. }
  assert (Z.of_nat (length two_clients) < 2 ^ 31 - 1) as Hlen by (simpl; lia).
  pose proof (pool_accounts 1 1000 5 two_clients Hleg Hlen) as H.
  apply wp_ok in H as (held & s & E & Ha & _). split; [|vm_compute; reflexivity].
  apply wp_ok. exists held, s. split; [exact E|]. split; [exact Ha|].
  vm_compute in E. injection E as <- <-. split; reflexivity.
Defined.
