(* ===== verification/Ragel.v ===== *)
(** The language of the [.rl] files: ragel's regular expressions with embedded
    actions, and the machines that they describe.

    [gram] is the notation of the files, [compile] gives every embedding of an
    action the place in the order of execution that the ragel manual lays down
    (entering actions in front of what is inside, the others behind it), and
    [step] is one character of the machine: the subset construction over
    partial derivatives. All transitions of the live expressions on the
    character are taken together, unless one has a lower priority than another
    one under the same name; their actions are executed in the order of their
    places, each action once. A leaving action waits in the expression for a
    transition out of it, or for the end of the input; so does an entering
    action of an expression that accepts the empty string. The error state is the
    one without live expressions. *)
From stdpp Require Import base list numbers option strings.
From Stdlib Require Import ZArith Lia.
From S2P Require Import Prelude CString.

Module Ragel.
Local Open Scope Z_scope.

(** *** The alphabet: bytes, and the builtin classes of ragel. *)
Definition cls : Type := list (Z * Z).
Definition mem (k : cls) (c : Z) : bool := existsb (λ r, (r.1 <=? c) && (c <=? r.2)) k.

Definition any : cls := [(0, 255)].
Definition ascii : cls := [(0, 127)].
Definition cntrl : cls := [(0, 31)].
Definition digit : cls := [(48, 57)].
Definition upper : cls := [(65, 90)].
Definition alpha : cls := [(65, 90); (97, 122)].
Definition xdigit : cls := [(48, 57); (65, 70); (97, 102)].
Definition space : cls := [(9, 13); (32, 32)].
(** A union of one-character strings; the character with a number. *)
Definition one_of (s : string) : cls := (λ c, (c, c)) <$> str s.
Definition code (c : Z) : cls := [(c, c)].

(** The difference of two machines of one character. *)
Definition cut (r x : Z * Z) : cls :=
  filter (λ r, r.1 ≤ r.2) [(r.1, Z.min r.2 (x.1 - 1)); (Z.max r.1 (x.2 + 1), r.2)].
Definition minus (k l : cls) : cls := foldl (λ k x, flat_map (λ r, cut r x) k) k l.

(** *** Expressions

    [GGuard] is the entry-guarded concatenation [:>], [GFinishGuard] is [:>>];
    the number is the name of the priority, which ragel makes unique. [GWhen]
    is a character under the condition of the grammar. *)
Inductive gram (A : Type) :=
| GEps
| GCls (k : cls)
| GWhen (k : cls)
| GCat (g h : gram A)
| GAlt (g h : gram A)
| GStar (g : gram A)
| GPlus (g : gram A)
| GOpt (g : gram A)
| GRep (n : nat) (m : option nat) (g : gram A)
| GEnter (a : A) (g : gram A)
| GLeave (a : A) (g : gram A)
| GFinish (a : A) (g : gram A)
| GGuard (name : nat) (g h : gram A)
| GFinishGuard (name : nat) (g h : gram A).

(** Expressions in terms of which the operators above are defined. *)
Inductive re (A : Type) :=
| Eps
| Cls (k : cls)
| When (k : cls)
| Cat (e f : re A)
| Alt (e f : re A)
| Star (e : re A)
| Enter (a : nat * A) (e : re A)
| Leave (a : nat * A) (e : re A)
| Finish (a : nat * A) (e : re A)
| PrioAll (p : nat * nat) (e : re A)
| PrioEnter (p : nat * nat) (e : re A)
| PrioFinish (p : nat * nat) (e : re A).
End Ragel.
Arguments Ragel.GEps {A}. Arguments Ragel.GCls {A}. Arguments Ragel.GWhen {A}.
Arguments Ragel.GCat {A}. Arguments Ragel.GAlt {A}. Arguments Ragel.GStar {A}.
Arguments Ragel.GPlus {A}. Arguments Ragel.GOpt {A}. Arguments Ragel.GRep {A}.
Arguments Ragel.GEnter {A}. Arguments Ragel.GLeave {A}. Arguments Ragel.GFinish {A}.
Arguments Ragel.GGuard {A}. Arguments Ragel.GFinishGuard {A}.
Arguments Ragel.Eps {A}. Arguments Ragel.Cls {A}. Arguments Ragel.When {A}.
Arguments Ragel.Cat {A}. Arguments Ragel.Alt {A}. Arguments Ragel.Star {A}.
Arguments Ragel.Enter {A}. Arguments Ragel.Leave {A}. Arguments Ragel.Finish {A}.
Arguments Ragel.PrioAll {A}. Arguments Ragel.PrioEnter {A}. Arguments Ragel.PrioFinish {A}.

(** The notation of the grammars: [g ++ h] is [g h], [g <|> h] is [g | h],
    [g >! a], [g %! a] and [g @! a] embed an entering, a leaving and a
    finishing action. *)
Declare Scope gram_scope.
Delimit Scope gram_scope with gram.
Bind Scope gram_scope with Ragel.gram.
Notation "g ++ h" := (Ragel.GCat g h) : gram_scope.
Notation "g <|> h" := (Ragel.GAlt g h) (at level 65, right associativity) : gram_scope.
Notation "g >! a" := (Ragel.GEnter a g) (at level 45, left associativity) : gram_scope.
Notation "g %! a" := (Ragel.GLeave a g) (at level 45, left associativity) : gram_scope.
Notation "g @! a" := (Ragel.GFinish a g) (at level 45, left associativity) : gram_scope.
Notation "g *" := (Ragel.GStar g) (at level 40, format "g *") : gram_scope.

Module Machine.
Export Ragel.
Local Open Scope Z_scope.

Section machine.
Context {A : Type} `{EqDecision A}.
Implicit Types (g h : gram A) (e f : re A) (L : list (re A)).

(** Literals; [/.../i] ignores case. *)
Fixpoint word (l : list cls) : gram A :=
  match l with [] => GEps | [k] => GCls k | k :: l => GCat (GCls k) (word l) end.
Definition lit (s : string) : gram A := word (code <$> str s).
Definition ilit (s : string) : gram A :=
  word ((λ c, if mem alpha c then [(tolower c, tolower c); (tolower c - 32, tolower c - 32)] else code c) <$> str s).

(** *** Compilation *)
Fixpoint repeat (n : nat) (e : re A) : re A :=
  match n with O => Eps | Datatypes.S O => e | Datatypes.S n => Cat e (repeat n e) end.
Fixpoint up_to (n : nat) (e : re A) : re A :=
  match n with O => Eps | Datatypes.S n => Alt (Cat e (up_to n e)) Eps end.
Definition repeated (n : nat) (m : option nat) (e : re A) : re A :=
  match m with
  | None => Cat (repeat n e) (Star e)
  | Some m => if (m <=? n)%nat then repeat n e else Cat (repeat n e) (up_to (m - n) e)
  end.

(** [n] is the next free place. *)
Fixpoint compile (g : gram A) (n : nat) : re A * nat :=
  match g with
  | GEps => (Eps, n)
  | GCls k => (Cls k, n)
  | GWhen k => (When k, n)
  | GCat g h => let '(e, n) := compile g n in let '(f, n) := compile h n in (Cat e f, n)
  | GAlt g h => let '(e, n) := compile g n in let '(f, n) := compile h n in (Alt e f, n)
  | GStar g => let '(e, n) := compile g n in (Star e, n)
  | GPlus g => let '(e, n) := compile g n in (Cat e (Star e), n)
  | GOpt g => let '(e, n) := compile g n in (Alt e Eps, n)
  | GRep k m g => let '(e, n) := compile g n in (repeated k m e, n)
  | GEnter a g => let '(e, n') := compile g (Datatypes.S n) in (Enter (n, a) e, n')
  | GLeave a g => let '(e, n) := compile g n in (Leave (n, a) e, Datatypes.S n)
  | GFinish a g => let '(e, n) := compile g n in (Finish (n, a) e, Datatypes.S n)
  | GGuard i g h =>
      let '(e, n) := compile g n in let '(f, n) := compile h n in
      (Cat (PrioAll (i, 0%nat) e) (PrioEnter (i, 1%nat) f), n)
  | GFinishGuard i g h =>
      let '(e, n) := compile g n in let '(f, n) := compile h n in
      (Cat (PrioAll (i, 0%nat) e) (PrioFinish (i, 1%nat) f), n)
  end.

Definition main (g : gram A) : re A := (compile g 0).1.

(** *** Transitions *)

(** Whether nothing more is needed; what is done on leaving. A machine that is
    left without a character of its own is entered then, too. *)
Fixpoint nullable e : bool :=
  match e with
  | Eps | Star _ => true
  | Cls _ | When _ => false
  | Cat e f => nullable e && nullable f
  | Alt e f => nullable e || nullable f
  | Enter _ e | Leave _ e | Finish _ e | PrioAll _ e | PrioEnter _ e | PrioFinish _ e => nullable e
  end.

Fixpoint leaving e : list (nat * A) :=
  match e with
  | Eps | Star _ | Cls _ | When _ => []
  | Cat e f => leaving e ++ leaving f
  | Alt e f => (if nullable e then leaving e else []) ++ (if nullable f then leaving f else [])
  | Enter a e => a :: leaving e
  | Leave a e => leaving e ++ [a]
  | Finish _ e | PrioAll _ e | PrioEnter _ e | PrioFinish _ e => leaving e
  end.

Record trans := mk_trans {
  actions : list (nat * A);
  priorities : list (nat * nat);
  target : re A
}.

Definition with_actions (l : list (nat * A)) (t : trans) : trans :=
  mk_trans (l ++ actions t) (priorities t) (target t).
Definition with_priority (p : nat * nat) (t : trans) : trans :=
  mk_trans (actions t) (p :: priorities t) (target t).
Definition to (k : re A → re A) (t : trans) : trans := mk_trans (actions t) (priorities t) (k (target t)).

(** What is behind an expression without further transitions needs no wrapper. *)
Definition cat e f : re A := match e with Eps => f | _ => Cat e f end.
Definition unless_done (k : re A → re A) e : re A := match e with Eps => Eps | _ => k e end.

Section step.
(** The condition of [GWhen]. *)
Variable cond : bool.

Fixpoint pd (c : Z) e : list trans :=
  match e with
  | Eps => []
  | Cls k => if mem k c then [mk_trans [] [] Eps] else []
  | When k => if cond && mem k c then [mk_trans [] [] Eps] else []
  | Cat e f =>
      (to (λ e', cat e' f) <$> pd c e) ++
      (if nullable e then with_actions (leaving e) <$> pd c f else [])
  | Alt e f => pd c e ++ pd c f
  | Star e => to (λ e', cat e' (Star e)) <$> pd c e
  | Enter a e => with_actions [a] <$> pd c e
  | Leave a e => to (Leave a) <$> pd c e
  | Finish a e =>
      (λ t, to (unless_done (Finish a))
              (if nullable (target t) then mk_trans (actions t ++ [a]) (priorities t) (target t) else t)) <$> pd c e
  | PrioAll p e => (λ t, to (unless_done (PrioAll p)) (with_priority p t)) <$> pd c e
  | PrioEnter p e => with_priority p <$> pd c e
  | PrioFinish p e =>
      (λ t, to (unless_done (PrioFinish p)) (if nullable (target t) then with_priority p t else t)) <$> pd c e
  end.

(** A transition is dropped for one with a higher priority of the same name. *)
Definition beaten (ts : list trans) (t : trans) : bool :=
  existsb (λ p, existsb (λ t', existsb (λ q, (q.1 =? p.1)%nat && (p.2 <? q.2)%nat) (priorities t')) ts)
    (priorities t).

(** The actions of a transition: by their places, each of them once. *)
Fixpoint insert_action (a : nat * A) (l : list (nat * A)) : list (nat * A) :=
  match l with
  | [] => [a]
  | b :: l' => if (a.1 <? b.1)%nat then a :: l else b :: insert_action a l'
  end.
Fixpoint keep_first (seen : list A) (l : list A) : list A :=
  match l with
  | [] => []
  | a :: l => if bool_decide (a ∈ seen) then keep_first seen l else a :: keep_first (a :: seen) l
  end.
Definition in_order (l : list (nat * A)) : list A :=
  keep_first [] (snd <$> foldr insert_action [] l).

(** Equality, decided without looking further behind the first difference. *)
Fixpoint cls_eqb (k l : cls) : bool :=
  match k, l with
  | [], [] => true
  | (a, b) :: k, (a', b') :: l => if (a =? a') && (b =? b') then cls_eqb k l else false
  | _, _ => false
  end.
Definition placed_eqb (a b : nat * A) : bool := (a.1 =? b.1)%nat && bool_decide (a.2 = b.2).
Definition priority_eqb (p q : nat * nat) : bool := (p.1 =? q.1)%nat && (p.2 =? q.2)%nat.

Fixpoint re_eqb e f : bool :=
  match e, f with
  | Eps, Eps => true
  | Cls k, Cls l | When k, When l => cls_eqb k l
  | Cat e e', Cat f f' | Alt e e', Alt f f' => if re_eqb e f then re_eqb e' f' else false
  | Star e, Star f => re_eqb e f
  | Enter a e, Enter b f | Leave a e, Leave b f | Finish a e, Finish b f =>
      if placed_eqb a b then re_eqb e f else false
  | PrioAll p e, PrioAll q f | PrioEnter p e, PrioEnter q f | PrioFinish p e, PrioFinish q f =>
      if priority_eqb p q then re_eqb e f else false
  | _, _ => false
  end.

(** The live expressions, each of them once. *)
Fixpoint merge (L : list (re A)) : list (re A) :=
  match L with
  | [] => []
  | e :: L => e :: List.filter (λ f, negb (re_eqb e f)) (merge L)
  end.

Definition step L (c : Z) : option (list A * list (re A)) :=
  let ts := flat_map (pd c) L in
  match List.filter (λ t, negb (beaten ts t)) ts with
  | [] => None
  | ts => Some (in_order (flat_map actions ts), merge (target <$> ts))
  end.

Definition final L : bool := existsb nullable L.

(** What is executed when the input ends in a final state. *)
Definition at_eof L : list A :=
  in_order (flat_map (λ e, if nullable e then leaving e else []) L).

(** *** Execution over a buffer

    [act] executes an action at a position on the program's own variables, and
    answers whether the loop goes on; [fbreak] leaves it behind the character.
    The result is the state, [None] the error state, and the position. *)
Context {St : Type}.
Variable act : A → nat → St → St * bool.

Fixpoint do_actions (l : list A) (fpc : nat) (st : St) : St * bool :=
  match l with
  | [] => (st, true)
  | a :: l => let '(st, go) := act a fpc st in if go then do_actions l fpc st else (st, false)
  end.

Fixpoint exec L (p : nat) (l : list Z) (st : St) : option (list (re A)) * nat * St :=
  match l with
  | [] => (Some L, p, st)
  | c :: l =>
      match step L c with
      | None => (None, p, st)
      | Some (todo, L) =>
          let '(st, go) := do_actions todo p st in
          if go then exec L (Datatypes.S p) l st else (Some L, Datatypes.S p, st)
      end
  end.
End step.
End machine.
Arguments trans : clear implicits.
End Machine.
