(* ===== verification/RagelProps.v ===== *)
(** The language of a machine, and how a machine scans a text.

    [matches] is the language of an expression as ragel's manual defines the
    operators, without actions and priorities. Transitions are residuals of the
    language ([pd_language]); a machine without priorities accepts exactly its
    language, and priorities only take texts away ([exec_sound]).

    The second part is for running a machine over texts whose shape is known:
    [quiet] sets of states, in which the characters of a class do nothing, and
    [leads], one character with the same actions from a whole set. Both are
    decided by evaluation over the characters. *)
From stdpp Require Import base list numbers option strings.
From Stdlib Require Import ZArith Lia.
From S2P Require Import Prelude CString Ragel.
Import Machine.
Local Open Scope Z_scope.

(** ** Classes *)
Lemma mem_app k l c : mem (k ++ l) c = mem k c || mem l c.
Proof. apply existsb_app. Qed.

Lemma mem_cut r x c : mem (cut r x) c = mem [r] c && negb (mem [x] c).
Proof.
  unfold cut, mem. destruct r as [a b], x as [a' b']. cbn [fst snd].
  rewrite !filter_cons, filter_nil. cbn [fst snd].
  repeat case_decide; cbn [existsb fst snd];
    repeat match goal with |- context [?u <=? ?v] => destruct (Z.leb_spec u v) end; simpl; lia.
Qed.

Lemma mem_cut_all k x c : mem (flat_map (λ r, cut r x) k) c = mem k c && negb (mem [x] c).
Proof.
  induction k as [|r k IH]; [done|]. cbn [flat_map]. rewrite mem_app, mem_cut, IH.
  change (r :: k) with ([r] ++ k). rewrite mem_app. by destruct (mem [r] c), (mem k c), (mem [x] c).
Qed.

(** The difference of two classes is the difference. *)
Lemma mem_minus k l c : mem (minus k l) c = mem k c && negb (mem l c).
Proof.
  unfold minus. revert k. induction l as [|x l IH]; intros k; [simpl; by rewrite andb_true_r|].
  cbn [foldl]. rewrite IH, mem_cut_all. change (x :: l) with ([x] ++ l). rewrite mem_app, negb_orb.
  by rewrite andb_assoc.
Qed.

Section language.
Context {A : Type} `{EqDecision A}.
Variable cond : bool.
Implicit Types (e f : re A) (L : list (re A)).

Inductive matches : re A → list Z → Prop :=
| m_eps : matches Eps []
| m_cls k c : mem k c = true → matches (Cls k) [c]
| m_when k c : cond = true → mem k c = true → matches (When k) [c]
| m_cat e f u v : matches e u → matches f v → matches (Cat e f) (u ++ v)
| m_alt_l e f u : matches e u → matches (Alt e f) u
| m_alt_r e f u : matches f u → matches (Alt e f) u
| m_star_nil e : matches (Star e) []
| m_star_app e u v : matches e u → matches (Star e) v → matches (Star e) (u ++ v)
| m_enter a e u : matches e u → matches (Enter a e) u
| m_leave a e u : matches e u → matches (Leave a e) u
| m_finish a e u : matches e u → matches (Finish a e) u
| m_prio_all p e u : matches e u → matches (PrioAll p e) u
| m_prio_enter p e u : matches e u → matches (PrioEnter p e) u
| m_prio_finish p e u : matches e u → matches (PrioFinish p e) u.
#[local] Hint Constructors matches : core.

Lemma nullable_matches e : nullable e = true ↔ matches e [].
Proof.
  split.
  - induction e; cbn [nullable]; intros H; try done; try (by auto).
    + apply andb_true_iff in H as [H1 H2]. change (@nil Z) with (@nil Z ++ []). auto.
    + apply orb_true_iff in H as [H|H]; auto.
  - intros H. remember [] as w eqn:E. induction H; cbn [nullable]; try done; try (by auto).
    + apply app_eq_nil in E as [-> ->]. by rewrite IHmatches1, IHmatches2.
    + by rewrite IHmatches.
    + by rewrite IHmatches, orb_true_r.
Qed.

(** The first character of a text of an iteration comes from a repetition that
    is not empty. *)
Lemma star_cons e c w :
  matches (Star e) (c :: w) ↔ ∃ u v, w = u ++ v ∧ matches e (c :: u) ∧ matches (Star e) v.
Proof.
  split; [|intros (u & v & -> & Hu & Hv); change (c :: u ++ v) with ((c :: u) ++ v); auto].
  intros H. remember (Star e) as s eqn:Es. remember (c :: w) as t eqn:Et. revert w Et.
  induction H as [| | | | | | |e' u v Hu _ Hv IHv| | | | | | ]; try done; intros w Et.
  injection Es as ->. destruct u as [|x u]; simpl in Et; [by eapply IHv|].
  injection Et as -> <-. eauto.
Qed.

Lemma cat_cons e f c w :
  matches (Cat e f) (c :: w) ↔
  (∃ u v, w = u ++ v ∧ matches e (c :: u) ∧ matches f v) ∨ (matches e [] ∧ matches f (c :: w)).
Proof.
  split.
  - intros H. inversion H as [| | |? ? u v Hu Hv E1 E2| | | | | | | | | | ]; subst.
    destruct u as [|x u]; simpl in *; subst; [by right|]. injection E2 as -> <-. left. eauto.
  - intros [(u & v & -> & Hu & Hv)|[Hu Hv]].
    + change (c :: u ++ v) with ((c :: u) ++ v). auto.
    + change (c :: w) with ([] ++ c :: w). auto.
Qed.

Lemma matches_cat e f w : matches (cat e f) w ↔ matches (Cat e f) w.
Proof.
  destruct e; try done. simpl. split.
  - intros H. change w with ([] ++ w). auto.
  - inversion 1 as [| | |? ? u v Hu Hv E1 E2| | | | | | | | | | ]; subst. by inversion Hu; subst.
Qed.

Lemma matches_unless_done (k : re A → re A) e w :
  (∀ w, matches (k e) w ↔ matches e w) → matches (unless_done k e) w ↔ matches e w.
Proof. intros H. destruct e; simpl; by rewrite ?H. Qed.

(** Annotations do not change the language. *)
Ltac same_language :=
  match goal with |- matches ?x _ ↔ matches ?y _ =>
    split; intros Hw; first [constructor; exact Hw | inversion Hw; subst; assumption]
  end.

(** The texts behind [c], over a list of transitions. *)
Definition after (ts : list (trans A)) (w : list Z) : Prop := ∃ t, t ∈ ts ∧ matches (target t) w.

Lemma after_map (g : trans A → trans A) ts w :
  (∀ t, matches (target (g t)) w ↔ matches (target t) w) → after (g <$> ts) w ↔ after ts w.
Proof.
  intros Hg. split.
  - intros (t & Ht & Hm). apply list_elem_of_fmap in Ht as (t' & -> & Ht). exists t'. by rewrite <-Hg.
  - intros (t & Ht & Hm). exists (g t). split; [by apply list_elem_of_fmap_2|by rewrite Hg].
Qed.

Lemma after_app ts us w : after (ts ++ us) w ↔ after ts w ∨ after us w.
Proof.
  unfold after. split.
  - intros (t & Ht & Hm). apply elem_of_app in Ht as [Ht|Ht]; eauto.
  - intros [(t & Ht & Hm)|(t & Ht & Hm)]; exists t; by rewrite elem_of_app; auto.
Qed.

Lemma after_cat ts f w :
  after (to (λ e', cat e' f) <$> ts) w ↔ ∃ u v, w = u ++ v ∧ after ts u ∧ matches f v.
Proof.
  split.
  - intros (t & Ht & Hm). apply list_elem_of_fmap in Ht as (t' & -> & Ht).
    cbn [to target] in Hm. apply matches_cat in Hm.
    inversion Hm as [| | |? ? u v Hu Hv E1 E2| | | | | | | | | | ]; subst. exists u, v. split_and!; [done| |done].
    by exists t'.
  - intros (u & v & -> & (t & Ht & Hu) & Hv). exists (to (λ e', cat e' f) t).
    split; [by apply list_elem_of_fmap_2|]. cbn [to target]. apply matches_cat. auto.
Qed.

Lemma after_one w : after [mk_trans [] [] Eps] w ↔ w = [].
Proof.
  split.
  - intros (t & Ht & Hm). apply list_elem_of_singleton in Ht as ->. by inversion Hm.
  - intros ->. exists (mk_trans [] [] Eps). split; [by apply list_elem_of_singleton|constructor].
Qed.

Lemma after_none w : after [] w ↔ False.
Proof. split; [intros (t & Ht & _); by apply not_elem_of_nil in Ht|done]. Qed.

Lemma after_if (b : bool) ts w : after (if b then ts else []) w ↔ b = true ∧ after ts w.
Proof. destruct b; rewrite ?after_none; naive_solver. Qed.

(** What an annotation does to the transitions. *)
Ltac wrapped IH :=
  rewrite (after_map _), IH; try same_language; intros t; try done; cbn [to target with_priority];
  try same_language; try destruct (nullable (target t)); cbn [target];
  apply matches_unless_done; intros w'; same_language.

(** The transitions on [c] are the residual of the language by [c]. *)
Lemma pd_language e c w : after (pd cond c e) w ↔ matches e (c :: w).
Proof.
  revert w. induction e as [|k|k|e1 IH1 e2 IH2|e1 IH1 e2 IH2|e IH|a e IH|a e IH|a e IH|p e IH|p e IH|p e IH];
    intros w; cbn [pd].
  - rewrite after_none. split; [done|by inversion 1].
  - rewrite after_if, after_one. split; [intros [H ->]; auto|by inversion 1].
  - rewrite after_if, after_one, andb_true_iff. split; [intros [[??] ->]; auto|by inversion 1].
  - rewrite after_app, after_cat, after_if, cat_cons, nullable_matches, (after_map _), IH2 by done.
    by setoid_rewrite IH1.
  - rewrite after_app, IH1, IH2. split; [intros [?|?]; auto|by inversion 1; auto].
  - rewrite after_cat, star_cons. by setoid_rewrite IH.
  - wrapped IH.
  - wrapped IH.
  - wrapped IH.
  - wrapped IH.
  - wrapped IH.
  - wrapped IH.
Qed.

(** ** Runs of the machine *)
Definition accepts L w : Prop := ∃ e, e ∈ L ∧ matches e w.

Fixpoint prio_free e : bool :=
  match e with
  | Eps | Cls _ | When _ => true
  | Cat e f | Alt e f => prio_free e && prio_free f
  | Star e | Enter _ e | Leave _ e | Finish _ e => prio_free e
  | PrioAll _ _ | PrioEnter _ _ | PrioFinish _ _ => false
  end.

Lemma if_and (a b : bool) : (if a then b else false) = a && b.
Proof. done. Qed.
Lemma cls_eqb_spec k l : cls_eqb k l = true ↔ k = l.
Proof.
  revert l. induction k as [|[a b] k IH]; intros [|[a' b'] l]; cbn [cls_eqb]; try done.
  rewrite if_and, !andb_true_iff, !Z.eqb_eq, IH. naive_solver.
Qed.
Lemma placed_eqb_spec (a b : nat * A) : placed_eqb a b = true ↔ a = b.
Proof.
  destruct a, b. unfold placed_eqb. cbn [fst snd].
  rewrite andb_true_iff, Nat.eqb_eq, bool_decide_eq_true. naive_solver.
Qed.
Lemma priority_eqb_spec (p q : nat * nat) : priority_eqb p q = true ↔ p = q.
Proof. destruct p, q. unfold priority_eqb. cbn [fst snd]. rewrite andb_true_iff, !Nat.eqb_eq. naive_solver. Qed.

Lemma re_eqb_spec e f : re_eqb e f = true ↔ e = f.
Proof.
  split.
  - revert f. induction e; intros [] H; try done; cbn [re_eqb] in H;
      rewrite ?if_and in H;
      repeat match goal with
      | H : _ && _ = true |- _ => apply andb_true_iff in H as [??]
      | H : cls_eqb _ _ = true |- _ => apply cls_eqb_spec in H
      | H : placed_eqb _ _ = true |- _ => apply placed_eqb_spec in H
      | H : priority_eqb _ _ = true |- _ => apply priority_eqb_spec in H
      end; f_equal; by auto.
  - intros ->. induction f; cbn [re_eqb]; rewrite ?if_and, ?IHf, ?IHf1, ?IHf2, ?andb_true_r; try done;
      by first [apply cls_eqb_spec | apply placed_eqb_spec | apply priority_eqb_spec].
Qed.

Lemma elem_of_merge L e : e ∈ merge L ↔ e ∈ L.
Proof.
  induction L as [|f L IH]; [done|]. cbn [merge]. rewrite !elem_of_cons, <-IH, !list_elem_of_In, filter_In.
  destruct (re_eqb f e) eqn:E; simpl.
  - apply re_eqb_spec in E as ->. naive_solver.
  - naive_solver.
Qed.

(** The transitions that a step keeps, and the state that it leads to. *)
Definition kept L c : list (trans A) :=
  let ts := flat_map (pd cond c) L in List.filter (λ t, negb (beaten ts t)) ts.

Lemma step_kept L c acts L' :
  step cond L c = Some (acts, L') → L' = merge (target <$> kept L c) ∧ kept L c ≠ [].
Proof. unfold step. fold (kept L c). by destruct (kept L c); [|intros [= _ <-]]. Qed.

Lemma in_transitions L c w : after (flat_map (pd cond c) L) w ↔ accepts L (c :: w).
Proof.
  split.
  - intros (t & Ht & Hm). apply list_elem_of_In, in_flat_map in Ht as (e & He & Ht).
    exists e. rewrite list_elem_of_In. split; [done|]. apply pd_language. exists t. by rewrite list_elem_of_In.
  - intros (e & He & Hm). apply pd_language in Hm as (t & Ht & Hm). exists t. split; [|done].
    apply list_elem_of_In, in_flat_map. exists e. by rewrite <-!list_elem_of_In.
Qed.

(** Priorities take transitions away: what is left is in the language. *)
Lemma step_sound L c acts L' w : step cond L c = Some (acts, L') → accepts L' w → accepts L (c :: w).
Proof.
  intros [-> _]%step_kept (e & He & Hm). apply in_transitions.
  apply elem_of_merge, list_elem_of_fmap in He as (t & -> & Ht). exists t. split; [|done].
  apply list_elem_of_In, filter_In in Ht as [Ht _]. by apply list_elem_of_In.
Qed.

Lemma pd_prio_free e c t :
  prio_free e = true → t ∈ pd cond c e → priorities t = [] ∧ prio_free (target t) = true.
Proof.
  assert (∀ (e f : re A), prio_free e = true → prio_free f = true → prio_free (cat e f) = true) as Hcat.
  { intros e' f' He Hf. by destruct e'; simpl in *; rewrite ?He, ?Hf. }
  revert t. induction e; intros t Hp Ht; cbn [pd prio_free] in *;
    repeat match goal with
    | H : _ && _ = true |- _ => apply andb_true_iff in H as [??]
    | H : _ ∈ _ ++ _ |- _ => apply elem_of_app in H as [H|H]
    | H : _ ∈ (if ?b then _ else _) |- _ => destruct b
    | H : _ ∈ _ <$> _ |- _ => apply list_elem_of_fmap in H as (? & -> & H)
    | H : _ ∈ [_] |- _ => apply list_elem_of_singleton in H as ->
    | H : _ ∈ [] |- _ => by apply not_elem_of_nil in H
    | IH : ∀ t, true = true → _ |- _ => specialize (λ t, IH t eq_refl)
    | H : t ∈ pd cond c _, IH : ∀ t, _ |- _ => by apply IH
    end; try done; auto.
  all: match goal with
    | H : ?x ∈ pd _ _ ?e', IH : ∀ t, prio_free ?e' = true → t ∈ _ → _ |- _ =>
        destruct (IH x ltac:(done) H) as [H1 H2]
    end; cbn [to with_actions target priorities prio_free]; try by auto.
  destruct (nullable _); cbn [target priorities]; (split; [done|]); by destruct (target _).
Qed.

Lemma beaten_none ts (t : trans A) : priorities t = [] → beaten ts t = false.
Proof. unfold beaten. by intros ->. Qed.

Definition state_prio_free L : bool := forallb prio_free L.

Lemma kept_all L c : state_prio_free L = true → kept L c = flat_map (pd cond c) L.
Proof.
  intros HL. unfold kept. set (ts := flat_map _ _) at 2 3.
  assert (∀ us, (∀ t, In t us → priorities t = []) → List.filter (λ t, negb (beaten ts t)) us = us) as Hf.
  { induction us as [|t us IH]; intros Hus; [done|]. cbn [List.filter].
    rewrite beaten_none by (apply Hus; by left). simpl. f_equal. apply IH. intros; apply Hus. by right. }
  apply Hf. intros t Ht. apply in_flat_map in Ht as (e & He & Ht).
  eapply pd_prio_free; [|by apply list_elem_of_In]. by apply (proj1 (forallb_forall _ _) HL).
Qed.

(** Without priorities nothing is lost. *)
Lemma step_complete L c w :
  state_prio_free L = true → accepts L (c :: w) →
  ∃ acts L', step cond L c = Some (acts, L') ∧ state_prio_free L' = true ∧ accepts L' w.
Proof.
  intros HL Ha. apply in_transitions in Ha as (t & Ht & Hm). rewrite <-kept_all in Ht by done.
  destruct (step cond L c) as [[acts L']|] eqn:E.
  - exists acts, L'. split; [done|]. destruct (step_kept _ _ _ _ E) as [-> _]. split.
    + apply forallb_forall. intros e He. apply list_elem_of_In, elem_of_merge, list_elem_of_fmap in He as (u & -> & Hu).
      rewrite kept_all in Hu by done. apply list_elem_of_In, in_flat_map in Hu as (f & Hf & Hu).
      eapply pd_prio_free; [|by apply list_elem_of_In]. by apply (proj1 (forallb_forall _ _) HL).
    + exists (target t). split; [|done]. apply elem_of_merge. by apply list_elem_of_fmap_2.
  - exfalso. unfold step in E. fold (kept L c) in E.
    destruct (kept L c); [by apply not_elem_of_nil in Ht|done].
Qed.

Lemma final_accepts L : final L = true ↔ accepts L [].
Proof.
  unfold final, accepts. rewrite existsb_exists. setoid_rewrite list_elem_of_In.
  by setoid_rewrite nullable_matches.
Qed.

(** The states along a text, whatever the actions do. *)
Fixpoint run L (w : list Z) : option (list (re A)) :=
  match w with
  | [] => Some L
  | c :: w => match step cond L c with Some (_, L') => run L' w | None => None end
  end.

Lemma run_sound L w L' : run L w = Some L' → final L' = true → accepts L w.
Proof.
  revert L. induction w as [|c w IH]; intros L; cbn [run].
  - intros [= ->]. apply final_accepts.
  - destruct (step cond L c) as [[acts L1]|] eqn:E; [|done]. intros Hr Hf. eapply step_sound; eauto.
Qed.

Lemma run_complete L w :
  state_prio_free L = true → accepts L w → ∃ L', run L w = Some L' ∧ final L' = true.
Proof.
  revert L. induction w as [|c w IH]; intros L HL Ha; cbn [run].
  - exists L. split; [done|]. by apply final_accepts.
  - destruct (step_complete _ _ _ HL Ha) as (acts & L' & -> & HL' & Ha'). by apply IH.
Qed.

Section exec.
Context {St : Type}.
Variable act : A → nat → St → St * bool.

(** What the loop answers is the run over the characters that it took; in the
    error state it stands in front of the character that has no transition. *)
Lemma exec_run L p l st o p' st' :
  exec cond act L p l st = (o, p', st') →
  (p ≤ p' ≤ p + length l)%nat ∧
  match o with
  | Some L' => run L (take (p' - p) l) = Some L'
  | None => (p' < p + length l)%nat ∧ run L (take (S (p' - p)) l) = None
  end.
Proof.
  revert L p st. induction l as [|c l IH]; intros L p st; cbn [exec length].
  { intros [= <- <- <-]. split; [lia|]. by rewrite Nat.sub_diag. }
  destruct (step cond L c) as [[todo L1]|] eqn:E.
  - destruct (do_actions act todo p st) as [st1 []].
    + intros He. apply IH in He as [Hp Ho]. split; [lia|].
      replace (p' - p)%nat with (S (p' - S p)) by lia. destruct o as [L'|].
      * cbn [take run]. by rewrite E.
      * destruct Ho as [Hlt Ho]. split; [lia|]. cbn [take run]. rewrite E. exact Ho.
    + intros [= <- <- <-]. split; [lia|]. replace (S p - p)%nat with 1%nat by lia. cbn [take run]. by rewrite E.
  - intros [= <- <- <-]. split; [lia|]. split; [lia|]. rewrite Nat.sub_diag. cbn [take run]. by rewrite E.
Qed.

(** An invariant of the loop: [Mid p] holds while the actions of the character at
    [p] are executed. *)
Lemma exec_invariant (Inv Mid : nat → St → Prop) (pe : nat) :
  (∀ p v, (p < pe)%nat → Inv p v → Mid p v) →
  (∀ p v, Mid p v → Inv (S p) v) →
  (∀ a p v v' go, Mid p v → act a p v = (v', go) → if go then Mid p v' else Inv (S p) v') →
  ∀ L p l v o p' v', (p + length l ≤ pe)%nat → Inv p v → exec cond act L p l v = (o, p', v') → Inv p' v'.
Proof.
  intros Hin Hout Ha.
  assert (∀ acts p v v' go, Mid p v → do_actions act acts p v = (v', go) → Inv (S p) v') as Hacts.
  { induction acts as [|a acts IH]; intros p v v' go Hv; cbn [do_actions]; [intros [= <- _]; by apply Hout|].
    destruct (act a p v) as [v1 go1] eqn:E. pose proof (Ha _ _ _ _ _ Hv E) as H1.
    destruct go1; [by apply IH|]. by intros [= <- _]. }
  intros L p l. revert L p. induction l as [|c l IH]; intros L p v o p' v' Hp Hv; cbn [exec].
  { by intros [= _ <- <-]. }
  simpl in Hp. destruct (step cond L c) as [[acts L1]|]; [|by intros [= _ <- <-]].
  destruct (do_actions act acts p v) as [v1 go] eqn:E.
  pose proof (Hacts _ _ _ _ _ (Hin p v ltac:(lia) Hv) E) as H1.
  destruct go; [apply IH; [lia|done]|by intros [= _ <- <-]].
Qed.

(** ** Scanning texts of a known shape *)
(** The characters at which one of the classes that a step looks at begins or
    has ended: between two of them all characters do the same. *)
Fixpoint firsts e : list cls :=
  match e with
  | Eps => []
  | Cls k | When k => [k]
  | Cat e f => firsts e ++ (if nullable e then firsts f else [])
  | Alt e f => firsts e ++ firsts f
  | Star e | Enter _ e | Leave _ e | Finish _ e | PrioAll _ e | PrioEnter _ e | PrioFinish _ e => firsts e
  end.
Definition bounds (k : cls) : list Z := flat_map (λ r, [r.1; r.2 + 1]) k.
Definition cuts L : list Z :=
  foldr (λ b bs, if existsb (Z.eqb b) bs then bs else b :: bs) [] (flat_map bounds (flat_map firsts L)).
(** The first character of a class and those at which something changes. *)
Definition picks (k : cls) L : list Z :=
  let bs := cuts L in flat_map (λ r, r.1 :: List.filter (λ b, (r.1 <? b) && (b <=? r.2)) bs) k.

Lemma in_cuts L k r b : In k (flat_map firsts L) → In r k → b = r.1 ∨ b = r.2 + 1 → In b (cuts L).
Proof.
  intros Hk Hr Hb. assert (In b (flat_map bounds (flat_map firsts L))) as H.
  { apply in_flat_map. exists k. split; [done|]. apply in_flat_map. exists r. split; [done|]. simpl. naive_solver. }
  unfold cuts. revert H. generalize (flat_map bounds (flat_map firsts L)). intros l.
  induction l as [|x l IH]; cbn [foldr]; [done|]. intros [->|H].
  - destruct (existsb _ _) eqn:E; [|by left]. apply existsb_exists in E as (y & Hy & ->%Z.eqb_eq). done.
  - destruct (existsb _ _); [|right]; by apply IH.
Qed.

Lemma pd_same c c' e : (∀ k, In k (firsts e) → mem k c = mem k c') → pd cond c e = pd cond c' e.
Proof.
  induction e; cbn [firsts pd]; intros Hk; try done;
    repeat match goal with
    | H : (∀ k, In k (firsts ?e) → _) → pd cond c ?e = _ |- _ =>
        first [rewrite H by (intros; apply Hk; repeat (apply in_or_app; left); done); clear H
              |rewrite H by (intros; apply Hk, in_or_app; by right); clear H]
    end; try done.
  - by rewrite (Hk k) by (by left).
  - by rewrite (Hk k) by (by left).
  - destruct (nullable e1); [|done]. by rewrite IHe2 by (intros; apply Hk, in_or_app; by right).
Qed.

Lemma step_same c c' L : (∀ k, In k (flat_map firsts L) → mem k c = mem k c') → step cond L c = step cond L c'.
Proof.
  intros Hk. unfold step. assert (flat_map (pd cond c) L = flat_map (pd cond c') L) as ->; [|done].
  induction L as [|e L IH]; cbn [flat_map] in *; [done|]. rewrite (pd_same c c' e), IH; [done|..];
    intros k H; apply Hk, in_or_app; auto.
Qed.

(** No cut lies between a character and the one picked for it. *)
Lemma picked_below (bs : list Z) a n :
  ∃ c', In c' (a :: List.filter (λ b, (a <? b) && (b <=? a + Z.of_nat n)) bs) ∧ c' ≤ a + Z.of_nat n ∧
    ∀ b, In b bs → c' < b → a + Z.of_nat n < b.
Proof.
  induction n as [|n (c' & Hin & Hle & Hno)].
  { exists a. split; [by left|]. split; [lia|]. intros b _. lia. }
  destruct (in_dec Z.eq_dec (a + Z.of_nat (S n)) bs) as [Hb|Hb].
  - exists (a + Z.of_nat (S n)). split; [right; apply filter_In; split; [done|]|split; [lia|lia]].
    apply andb_true_iff. rewrite Z.ltb_lt, Z.leb_le. lia.
  - exists c'. split; [|split; [lia|]].
    + destruct Hin as [->|Hin]; [by left|right]. apply filter_In in Hin as [H1 H2]. apply filter_In. split; [done|].
      rewrite andb_true_iff, Z.ltb_lt, Z.leb_le in *. lia.
    + intros b Hin' Hlt. specialize (Hno b Hin' Hlt). destruct (Z.eq_dec b (a + Z.of_nat (S n))) as [->|]; [done|lia].
Qed.

Lemma existsb_ext_in {B} (f g : B → bool) l : (∀ x, In x l → f x = g x) → existsb f l = existsb g l.
Proof.
  induction l as [|x l IH]; cbn [existsb]; intros H; [done|]. rewrite (H x) by (by left). f_equal.
  apply IH. intros y Hy. apply H. by right.
Qed.

Lemma picks_cover k L c : mem k c = true → ∃ c', In c' (picks k L) ∧ step cond L c = step cond L c'.
Proof.
  unfold mem. rewrite existsb_exists. intros (r & Hr & [H1 H2]%andb_true_iff). rewrite Z.leb_le in H1, H2.
  destruct (picked_below (cuts L) r.1 (Z.to_nat (c - r.1))) as (c' & Hin & Hle & Hno).
  replace (r.1 + Z.of_nat (Z.to_nat (c - r.1))) with c in * by lia.
  assert (r.1 ≤ c') as Hge.
  { destruct Hin as [->|Hin]; [done|]. apply filter_In in Hin as [_ H]. rewrite andb_true_iff, Z.ltb_lt in H. lia. }
  exists c'. split.
  - unfold picks. apply in_flat_map. exists r. split; [done|]. destruct Hin as [->|Hin]; [by left|right].
    apply filter_In in Hin as [Hb H]. apply filter_In. split; [done|].
    rewrite andb_true_iff, Z.ltb_lt, Z.leb_le in *. lia.
  - apply step_same. intros k0 Hk0. unfold mem. apply existsb_ext_in. intros r0 Hr0.
    pose proof (Hno r0.1 (in_cuts L k0 r0 _ Hk0 Hr0 (or_introl eq_refl))) as Hlo.
    pose proof (Hno (r0.2 + 1) (in_cuts L k0 r0 _ Hk0 Hr0 (or_intror eq_refl))) as Hhi.
    destruct (Z.leb_spec r0.1 c), (Z.leb_spec r0.1 c'), (Z.leb_spec c r0.2), (Z.leb_spec c' r0.2); cbn; done || lia.
Qed.

(** From the end: the first expressions of two states are often long and equal. *)
Fixpoint state_eqb L L' : bool :=
  match L, L' with
  | [], [] => true
  | e :: L, f :: L' => if state_eqb L L' then re_eqb e f else false
  | _, _ => false
  end.

Lemma state_eqb_eq L L' : state_eqb L L' = true ↔ L = L'.
Proof.
  revert L'. induction L as [|e L IH]; intros [|f L']; cbn [state_eqb]; try done.
  rewrite if_and, andb_true_iff, re_eqb_spec, IH. naive_solver.
Qed.

Definition in_states (Q : list (list (re A))) L : bool := existsb (state_eqb L) Q.

Lemma in_states_In Q L : in_states Q L = true ↔ In L Q.
Proof.
  unfold in_states. rewrite existsb_exists. setoid_rewrite state_eqb_eq. naive_solver.
Qed.

Lemma incl_states Q Q' : forallb (in_states Q') Q = true → incl Q Q'.
Proof. rewrite forallb_forall. intros H L HL. by apply in_states_In, H. Qed.

(** From each state of [Q], each character of [k] does [acts] and leads to [Q']. *)
Definition leads (Q : list (list (re A))) (k : cls) (acts : list A) (Q' : list (list (re A))) : bool :=
  forallb (λ L, forallb (λ c,
    match step cond L c with
    | Some (a, L') => bool_decide (a = acts) && in_states Q' L'
    | None => false
    end) (picks k L)) Q.

(** The states behind one character of [k], and behind any number of them. *)
Definition behind (Q : list (list (re A))) (k : cls) : list (list (re A)) :=
  foldr (λ L Q, if in_states Q L then Q else L :: Q) []
    (flat_map (λ L, omap (λ c, snd <$> step cond L c) (picks k L)) Q).
Fixpoint closed (n : nat) (k : cls) (Q : list (list (re A))) : list (list (re A)) :=
  match n with
  | O => Q
  | S n => closed n k (List.filter (λ L, negb (in_states Q L)) (behind Q k) ++ Q)
  end.
Definition behind_text (Q : list (list (re A))) (w : list Z) : list (list (re A)) :=
  foldl (λ Q c, behind Q (code c)) Q w.

Lemma exec_leads Q k acts Q' L c p l st :
  leads Q k acts Q' = true → In L Q → mem k c = true →
  ∃ L', In L' Q' ∧
    exec cond act L p (c :: l) st =
      (let '(st', go) := do_actions act acts p st in
       if go then exec cond act L' (S p) l st' else (Some L', S p, st')).
Proof.
  intros Hq HL Hc. unfold leads in Hq. rewrite forallb_forall in Hq. specialize (Hq L HL).
  destruct (picks_cover k L c Hc) as (c' & Hc' & E). rewrite forallb_forall in Hq. specialize (Hq c' Hc'). rewrite <-E in Hq. cbn [exec].
  destruct (step cond L c) as [[a L']|]; [|done]. apply andb_true_iff in Hq as [Ha HL'].
  apply bool_decide_eq_true in Ha as ->. apply in_states_In in HL'. by exists L'.
Qed.

Lemma leads_one L k acts L' c :
  leads [L] k acts [L'] = true → mem k c = true → step cond L c = Some (acts, L').
Proof.
  unfold leads. cbn [forallb]. rewrite andb_true_r, forallb_forall. intros H Hc.
  destruct (picks_cover k L c Hc) as (c1 & Hc1 & E). specialize (H c1 Hc1). rewrite <-E in H.
  destruct (step cond L c) as [[a L1]|]; [|discriminate H].
  apply andb_true_iff in H as [Ha HL]. apply bool_decide_eq_true in Ha as ->.
  apply in_states_In in HL as [<-|[]]. done.
Qed.

Definition all (k : cls) (l : list Z) : Prop := Forall (λ c, mem k c = true) l.

(** Any number of characters without actions. *)
Lemma exec_quiet Q k L w p l st :
  leads Q k [] Q = true → In L Q → all k w →
  ∃ L', In L' Q ∧ exec cond act L p (w ++ l) st = exec cond act L' (p + length w) l st.
Proof.
  intros Hq. revert L p. induction w as [|c w IH]; intros L p HL Hw.
  { exists L. rewrite Nat.add_0_r. done. }
  apply Forall_cons in Hw as [Hc Hw].
  destruct (exec_leads Q k [] Q L c p (w ++ l) st Hq HL Hc) as (L1 & HL1 & E). cbn [do_actions] in E.
  destruct (IH L1 (S p) HL1 Hw) as (L' & HL' & E'). exists L'. split; [done|].
  change ((c :: w) ++ l) with (c :: w ++ l). rewrite E, E'.
  by replace (p + length (c :: w))%nat with (S p + length w)%nat by (simpl; lia).
Qed.

(** A word that starts with a character of [k0] and goes on with those of [k]. *)
Definition starts (k0 k : cls) (w : list Z) : Prop :=
  match w with [] => False | c :: w => mem k0 c = true ∧ all k w end.

Lemma exec_word Q0 k0 first Q k L w p l st st' :
  leads Q0 k0 first Q = true → leads Q k [] Q = true → In L Q0 → starts k0 k w →
  do_actions act first p st = (st', true) →
  ∃ L', In L' Q ∧ exec cond act L p (w ++ l) st = exec cond act L' (p + length w) l st'.
Proof.
  intros Hf Hq HL Hw Hd. destruct w as [|c w]; [done|]. destruct Hw as [Hc Hw].
  destruct (exec_leads Q0 k0 first Q L c p (w ++ l) st Hf HL Hc) as (L1 & HL1 & E).
  rewrite Hd in E. destruct (exec_quiet Q k L1 w (S p) l st' Hq HL1 Hw) as (L' & HL' & E').
  exists L'. split; [done|]. change ((c :: w) ++ l) with (c :: w ++ l). rewrite E, E'.
  by replace (p + length (c :: w))%nat with (S p + length w)%nat by (simpl; lia).
Qed.

(** One character that is known. *)
Lemma exec_code Q c acts Q' L p l st st' :
  leads Q (code c) acts Q' = true → In L Q → do_actions act acts p st = (st', true) →
  ∃ L', In L' Q' ∧ exec cond act L p (c :: l) st = exec cond act L' (S p) l st'.
Proof.
  intros Hf HL Hd. assert (mem (code c) c = true) as Hc by (unfold mem, code; simpl; by rewrite !Z.leb_refl).
  destruct (exec_leads Q (code c) acts Q' L c p l st Hf HL Hc) as (L1 & HL1 & E).
  rewrite Hd in E. by exists L1.
Qed.

(** A literal: [first] on its first character, then nothing; the state behind it. *)
Fixpoint quiet_run L (w : list Z) : option (list (re A)) :=
  match w with
  | [] => Some L
  | c :: w => match step cond L c with Some ([], L') => quiet_run L' w | _ => None end
  end.
Definition literal_run L (first : list A) (w : list Z) : option (list (re A)) :=
  match w with
  | [] => None
  | c :: w =>
      match step cond L c with
      | Some (a, L') => if bool_decide (a = first) then quiet_run L' w else None
      | None => None
      end
  end.
Definition literal (Q : list (list (re A))) (first : list A) (w : list Z) (Q' : list (list (re A))) : bool :=
  forallb (λ L, match literal_run L first w with Some L' => in_states Q' L' | None => false end) Q.

Lemma exec_quiet_run L w L' p l st :
  quiet_run L w = Some L' → exec cond act L p (w ++ l) st = exec cond act L' (p + length w) l st.
Proof.
  revert L p. induction w as [|c w IH]; intros L p; cbn [quiet_run].
  { intros [= ->]. by rewrite Nat.add_0_r. }
  cbn [app exec]. destruct (step cond L c) as [[[|] L1]|]; try done. intros H. cbn [do_actions].
  rewrite (IH L1 (S p) H). by replace (p + length (c :: w))%nat with (S p + length w)%nat by (simpl; lia).
Qed.

Lemma exec_literal Q first w Q' L p l st st' :
  literal Q first w Q' = true → In L Q → do_actions act first p st = (st', true) →
  ∃ L', In L' Q' ∧ exec cond act L p (w ++ l) st = exec cond act L' (p + length w) l st'.
Proof.
  unfold literal. rewrite forallb_forall. intros Hq HL Hd. specialize (Hq L HL).
  destruct (literal_run L first w) as [L'|] eqn:E; [|done]. apply in_states_In in Hq.
  exists L'. split; [done|]. destruct w as [|c w]; [done|]. cbn [literal_run] in E. cbn [app exec].
  destruct (step cond L c) as [[a L1]|]; [|done]. case_bool_decide; [subst a|done]. rewrite Hd.
  rewrite (exec_quiet_run L1 w L' (S p) l st' E).
  by replace (p + length (c :: w))%nat with (S p + length w)%nat by (simpl; lia).
Qed.

(** *** Texts with percent-encoded octets *)
Fixpoint pct_text (k : cls) (w : list Z) : bool :=
  match w with
  | [] => true
  | c :: w' =>
      if mem k c then pct_text k w'
      else (c =? 37) && match w' with
                        | x :: y :: w'' => mem xdigit x && mem xdigit y && pct_text k w''
                        | _ => false
                        end
  end.
Definition pct_word (k0 k : cls) (w : list Z) : bool :=
  match w with
  | [] => false
  | c :: w' =>
      if mem k0 c then pct_text k w'
      else (c =? 37) && match w' with
                        | x :: y :: w'' => mem xdigit x && mem xdigit y && pct_text k w''
                        | _ => false
                        end
  end.

(** From [Q0] a word does [first] and then nothing; [X1] and [X2] are inside of
    an encoded octet. *)
Definition scans Q0 (k0 : cls) (first : list A) Q (k : cls) X1 X2 : bool :=
  leads Q0 k0 first Q && leads Q0 (code 37) first X1 && leads Q k [] Q && leads Q (code 37) [] X1 &&
  leads X1 xdigit [] X2 && leads X2 xdigit [] Q.

Lemma exec_octet Q1 Q2 Q3 Q4 acts x y L p l st st' :
  leads Q1 (code 37) acts Q2 = true → leads Q2 xdigit [] Q3 = true → leads Q3 xdigit [] Q4 = true →
  In L Q1 → mem xdigit x = true → mem xdigit y = true → do_actions act acts p st = (st', true) →
  ∃ L', In L' Q4 ∧ exec cond act L p (37 :: x :: y :: l) st = exec cond act L' (3 + p) l st'.
Proof.
  intros H1 H2 H3 HL Hx Hy Hd.
  destruct (exec_code Q1 37 acts Q2 L p (x :: y :: l) st st' H1 HL Hd) as (L1 & HL1 & ->).
  destruct (exec_leads Q2 xdigit [] Q3 L1 x (S p) (y :: l) st' H2 HL1 Hx) as (L2 & HL2 & ->). cbn [do_actions].
  destruct (exec_leads Q3 xdigit [] Q4 L2 y (S (S p)) l st' H3 HL2 Hy) as (L3 & HL3 & ->). cbn [do_actions].
  by exists L3.
Qed.

Section pct.
Context Q k X1 X2 (Hk : leads Q k [] Q = true) (Hp : leads Q (code 37) [] X1 = true)
  (Hx : leads X1 xdigit [] X2 = true) (Hy : leads X2 xdigit [] Q = true).

Lemma exec_pct_text L w p l st :
  In L Q → pct_text k w = true →
  ∃ L', In L' Q ∧ exec cond act L p (w ++ l) st = exec cond act L' (p + length w) l st.
Proof.
  remember (length w) as n eqn:En. assert (length w ≤ n)%nat as Hn by lia.
  rewrite En. clear En. revert L w p Hn.
  induction n as [|n IH]; intros L w p Hn HL Hw.
  { destruct w; [|simpl in Hn; lia]. exists L. rewrite Nat.add_0_r. done. }
  destruct w as [|c w]; [exists L; by rewrite Nat.add_0_r|]. cbn [pct_text] in Hw. simpl in Hn.
  destruct (mem k c) eqn:Ec.
  - destruct (exec_leads Q k [] Q L c p (w ++ l) st Hk HL Ec) as (L1 & HL1 & E).
    destruct (IH L1 w (S p) ltac:(lia) HL1 Hw) as (L' & HL' & E'). exists L'. split; [done|].
    change ((c :: w) ++ l) with (c :: w ++ l). rewrite E. cbn [do_actions]. rewrite E'.
    by replace (p + length (c :: w))%nat with (S p + length w)%nat by (simpl; lia).
  - apply andb_true_iff in Hw as [->%Z.eqb_eq Hw]. destruct w as [|x [|y w]]; [done|done|].
    apply andb_true_iff in Hw as [[Hx' Hy']%andb_true_iff Hw]. simpl in Hn.
    destruct (exec_octet Q X1 X2 Q [] x y L p (w ++ l) st st Hp Hx Hy HL Hx' Hy' eq_refl) as (L1 & HL1 & E).
    destruct (IH L1 w (3 + p)%nat ltac:(lia) HL1 Hw) as (L' & HL' & E'). exists L'. split; [done|].
    change ((37 :: x :: y :: w) ++ l) with (37 :: x :: y :: w ++ l). rewrite E, E'.
    by replace (p + length (37%Z :: x :: y :: w))%nat with (3 + p + length w)%nat by (simpl; lia).
Qed.
End pct.

Lemma exec_scanned Q0 k0 first Q k X1 X2 L w p l st :
  scans Q0 k0 first Q k X1 X2 = true → In L Q → pct_text k w = true →
  ∃ L', In L' Q ∧ exec cond act L p (w ++ l) st = exec cond act L' (p + length w) l st.
Proof.
  unfold scans. rewrite !andb_true_iff. intros [[[[[_ _] Hk] Hp] Hx] Hy] HL Hw. by apply (exec_pct_text Q k X1 X2).
Qed.

Lemma exec_pct_word Q0 k0 first Q k X1 X2 L w p l st st' :
  scans Q0 k0 first Q k X1 X2 = true → In L Q0 → pct_word k0 k w = true →
  do_actions act first p st = (st', true) →
  ∃ L', In L' Q ∧ exec cond act L p (w ++ l) st = exec cond act L' (p + length w) l st'.
Proof.
  unfold scans. rewrite !andb_true_iff. intros [[[[[H0 H0p] Hk] Hp] Hx] Hy] HL Hw Hd.
  destruct w as [|c w]; [done|]. cbn [pct_word] in Hw. destruct (mem k0 c) eqn:Ec.
  - destruct (exec_leads Q0 k0 first Q L c p (w ++ l) st H0 HL Ec) as (L1 & HL1 & E). rewrite Hd in E.
    destruct (exec_pct_text Q k X1 X2 Hk Hp Hx Hy L1 w (S p) l st' HL1 Hw) as (L' & HL' & E').
    exists L'. split; [done|]. change ((c :: w) ++ l) with (c :: w ++ l). rewrite E, E'.
    by replace (p + length (c :: w))%nat with (S p + length w)%nat by (simpl; lia).
  - apply andb_true_iff in Hw as [->%Z.eqb_eq Hw]. destruct w as [|x [|y w]]; [done|done|].
    apply andb_true_iff in Hw as [[Hx' Hy']%andb_true_iff Hw].
    destruct (exec_octet Q0 X1 X2 Q first x y L p (w ++ l) st st' H0p Hx Hy HL Hx' Hy' Hd) as (L1 & HL1 & E).
    destruct (exec_pct_text Q k X1 X2 Hk Hp Hx Hy L1 w (3 + p) l st' HL1 Hw) as (L' & HL' & E').
    exists L'. split; [done|]. change ((37 :: x :: y :: w) ++ l) with (37 :: x :: y :: w ++ l). rewrite E, E'.
    by replace (p + length (37%Z :: x :: y :: w))%nat with (3 + p + length w)%nat by (simpl; lia).
Qed.

(** *** The texts of calls: what lies at [a] for [l] bytes, if that is inside. *)
Definition heard_text (B : list Z) (a l : Z) : option (list Z) :=
  if (0 <=? a) && (0 <=? l) && (a + l <=? Z.of_nat (length B))
  then Some (take (Z.to_nat l) (drop (Z.to_nat a) B)) else None.

Lemma heard_text_at B p w l : drop p B = w ++ l → (p ≤ length B)%nat →
  (p + length w ≤ length B)%nat ∧ heard_text B (Z.of_nat p) (Z.of_nat (length w)) = Some w.
Proof.
  intros Hd Hp. assert (p + length w ≤ length B)%nat as Hl.
  { apply (f_equal length) in Hd. rewrite length_drop, length_app in Hd. lia. }
  split; [done|]. unfold heard_text.
  repeat match goal with |- context [?x <=? ?y] => destruct (Z.leb_spec x y); [|lia] end.
  cbn [andb]. by rewrite !Nat2Z.id, Hd, take_app_length.
Qed.

(** The position of something that is not the end. *)
Lemma drop_cons_lt (B : list Z) p w c l : drop p B = w ++ c :: l → (p + length w < length B)%nat.
Proof. intros Hd. apply (f_equal length) in Hd. rewrite length_drop, length_app in Hd. simpl in Hd. lia. Qed.

(** What [done] reports behind the empty line. *)
Lemma heard_rest (B : list Z) p l : drop p B = 13 :: 10 :: l →
  heard_text B (Z.of_nat (S p) + 1) (Z.of_nat (length B) - Z.of_nat (S p) - 1) = Some l.
Proof.
  intros Hd. assert (drop (p + 2) B = l) as Hn by (by rewrite <-drop_drop, Hd).
  pose proof (drop_cons_lt B p [13] 10 l Hd) as Hlt. cbn [length] in Hlt.
  destruct (heard_text_at B (p + 2) l [] ltac:(by rewrite app_nil_r) ltac:(lia)) as [_ Ht].
  apply (f_equal length) in Hn. rewrite length_drop in Hn.
  replace (Z.of_nat (S p) + 1) with (Z.of_nat (p + 2)) by lia.
  by replace (Z.of_nat (length B) - Z.of_nat (S p) - 1) with (Z.of_nat (length l)) by lia.
Qed.

(** Memory behind the buffer does not matter. *)
Lemma heard_text_memory data n a l w :
  heard_text (take n data) a l = Some w → take (Z.to_nat l) (drop (Z.to_nat a) data) = w.
Proof.
  unfold heard_text. destruct (_ && _) eqn:E; [|done]. rewrite !andb_true_iff, !Z.leb_le in E.
  destruct E as [[Ha Hl] Hal]. intros [= <-]. rewrite length_take in Hal.
  rewrite skipn_firstn_comm, take_take. f_equal. lia.
Qed.

(** *** What a part of a text makes the program do

    [heard] is what the variables say was reported so far about the buffer [B];
    [idle] holds between the parts. *)
Section says.
Context {Ev : Type}.
Variables (B : list Z) (heard : St → list Ev) (idle : St → Prop).
Abbreviation states := (list (list (re A))).

Definition says (Q : states) (w : list Z) (evs : list Ev) (Q' : states) : Prop :=
  ∀ L p l v, In L Q → drop p B = w ++ l → idle v →
  ∃ L' v', In L' Q' ∧ exec cond act L p (w ++ l) v = exec cond act L' (p + length w) l v' ∧
    heard v' = heard v ++ evs ∧ idle v'.

(** Reading [w] does [first] at its start and nothing else. *)
Definition reads_word (Q : states) (first : list A) (w : list Z) (Q' : states) : Prop :=
  ∀ L p l v v', In L Q → do_actions act first p v = (v', true) →
  ∃ L', In L' Q' ∧ exec cond act L p (w ++ l) v = exec cond act L' (p + length w) l v'.

Lemma drop_next p w l : drop p B = w ++ l → drop (p + length w) B = l.
Proof. intros H. rewrite <-drop_drop, H. by rewrite drop_app_length. Qed.

Lemma says_nil Q : says Q [] [] Q.
Proof. intros L p l v HL Hd Hv. exists L, v. by rewrite Nat.add_0_r, app_nil_r. Qed.

Lemma says_app Q w1 (evs1 : list Ev) Q1 w2 evs2 Q2 :
  says Q w1 evs1 Q1 → says Q1 w2 evs2 Q2 → says Q (w1 ++ w2) (evs1 ++ evs2) Q2.
Proof.
  intros H1 H2 L p l v HL Hd Hv. rewrite <-!app_assoc in *.
  destruct (H1 L p _ v HL Hd Hv) as (L1 & v1 & HL1 & E1 & Hh1 & Hv1).
  destruct (H2 L1 (p + length w1)%nat l v1 HL1 (drop_next _ _ _ Hd) Hv1) as (L2 & v2 & HL2 & E2 & Hh2 & Hv2).
  exists L2, v2. split; [done|]. rewrite E1, E2, length_app, Nat.add_assoc. split; [done|].
  split; [|done]. by rewrite Hh2, Hh1, app_assoc.
Qed.

Lemma says_incl Q Q0 w evs Q1 Q2 : says Q w evs Q1 → incl Q0 Q → incl Q1 Q2 → says Q0 w evs Q2.
Proof.
  intros H H0 Hi L p l v HL Hd Hv. destruct (H L p l v (H0 _ HL) Hd Hv) as (L' & v' & HL' & ?).
  exists L', v'. split; [by apply Hi|done].
Qed.

(** A character that does nothing. *)
Lemma says_nothing Q c Q2 : leads Q (code c) [] Q2 = true → says Q [c] [] Q2.
Proof.
  intros Hc L p l v HL Hd Hv.
  destruct (exec_code Q c [] Q2 L p l v v Hc HL eq_refl) as (L2 & HL2 & E).
  exists L2, v. split; [done|]. split; [by rewrite Nat.add_1_r|]. by rewrite app_nil_r.
Qed.

(** A word and the character that ends it, from what the actions do. *)
Lemma says_word Q first w Q1 c acts Q2 evs :
  reads_word Q first w Q1 → leads Q1 (code c) acts Q2 = true →
  (∀ p l v, drop p B = w ++ c :: l → idle v →
     ∃ v1 v2, do_actions act first p v = (v1, true) ∧ do_actions act acts (p + length w) v1 = (v2, true) ∧
       heard v2 = heard v ++ evs ∧ idle v2) →
  says Q (w ++ [c]) evs Q2.
Proof.
  intros Hw Hc Ha L p l v HL Hd Hv. rewrite <-app_assoc in *.
  destruct (Ha p l v Hd Hv) as (v1 & v2 & D1 & D2 & Hh & Hi).
  destruct (Hw L p ([c] ++ l) v v1 HL D1) as (L1 & HL1 & E1).
  destruct (exec_code Q1 c acts Q2 L1 (p + length w) l v1 v2 Hc HL1 D2) as (L2 & HL2 & E2).
  exists L2, v2. split; [done|]. split; [|done]. rewrite E1. cbn [app]. rewrite E2, length_app.
  f_equal. simpl. lia.
Qed.

Lemma reads_literal Q first w Q' : literal Q first w Q' = true → reads_word Q first w Q'.
Proof. intros H L p l v v' HL Hd. exact (exec_literal _ _ _ _ _ _ _ _ _ H HL Hd). Qed.

Lemma reads_starts Q0 k0 first Q k w :
  leads Q0 k0 first Q = true → leads Q k [] Q = true → starts k0 k w → reads_word Q0 first w Q.
Proof. intros H1 H2 Hw L p l v v' HL Hd. by apply (exec_word Q0 k0 first Q k). Qed.

Lemma reads_pct Q0 k0 first Q k X1 X2 w :
  scans Q0 k0 first Q k X1 X2 = true → pct_word k0 k w = true → reads_word Q0 first w Q.
Proof. intros H Hw L p l v v' HL Hd. by apply (exec_pct_word Q0 k0 first Q k X1 X2). Qed.

End says.
End exec.
End language.
