(* ===== verification/Http11Parser.v ===== *)
(** The state machine of requests: [http/http11_parser.rl].

    The grammar is transcribed rule by rule in the notation of [Ragel]; a rule
    that is a union of characters keeps the file's unions. The variables of the
    parser and the effects of the actions follow; [http_parser_execute] is the
    function that ragel completes. Positions and lengths are size_t. *)
From stdpp Require Import base list numbers option strings.
From Stdlib Require Import ZArith Lia.
From S2P Require Import Prelude CString HttpParser Ragel.

Module Http11Parser.
Import Machine.
Local Open Scope Z_scope.

Module Action.
Inductive action :=
| mark | start_field | write_field | start_value | write_value | request_method | request_uri
| fragment | start_query | query_string | http_version | request_path | done | xml | json.
End Action.
#[global] Instance action_eq : EqDecision Action.action.
Proof. solve_decision. Defined.

(** *** The grammar *)
Section grammar.
Local Open Scope gram_scope.
Abbreviation gram := (Ragel.gram Action.action).
Abbreviation chars s := (GCls (one_of s)).

Definition CRLF : gram := word [code 13; code 10] <|> word [code 10].

Definition more_delims : gram := GWhen (one_of "{}^").
Definition sub_delims : gram := chars "!$&'()*+,;=" <|> more_delims.
Definition unreserved : gram := GCls alpha <|> GCls digit <|> chars "-._~".
Definition pct_encoded : gram := lit "%" ++ GCls xdigit ++ GCls xdigit.
Definition pchar : gram :=
  GCls (minus any ascii) <|> unreserved <|> pct_encoded <|> sub_delims <|> lit ":" <|> lit "@".

Definition fragment : gram := (pchar <|> lit "/" <|> lit "?")* >! Action.mark %! Action.fragment.
Definition query : gram := (pchar <|> lit "/" <|> lit "?")* %! Action.query_string.

Definition segment_nz_nc : gram := GPlus (unreserved <|> pct_encoded <|> sub_delims <|> lit "@").
Definition segment_nz : gram := GPlus pchar.
Definition segment : gram := pchar*.

Definition path_empty : gram := GRep 0 (Some 0%nat) pchar.
Definition path_rootless : gram := segment_nz ++ (lit "/" ++ segment)*.
Definition path_noscheme : gram := segment_nz_nc ++ (lit "/" ++ segment)*.
Definition path_absolute : gram := lit "/" ++ GOpt (segment_nz ++ (lit "/" ++ segment)*).
Definition path_abempty : gram := (lit "/" ++ segment)*.

Definition reg_name : gram := (unreserved <|> pct_encoded <|> sub_delims)*.

(** A dash between two characters is ragel's difference, not a range. *)
Definition dec_octet : gram :=
  GCls digit
  <|> GCls (minus (one_of "1") (one_of "9")) ++ GCls digit
  <|> lit "1" ++ GRep 2 (Some 2%nat) (GCls digit)
  <|> lit "2" ++ GCls (minus (one_of "0") (one_of "4")) ++ GCls digit
  <|> lit "25" ++ GCls (minus (one_of "0") (one_of "5")).
Definition IPv4address : gram :=
  dec_octet ++ lit "." ++ dec_octet ++ lit "." ++ dec_octet ++ lit "." ++ dec_octet.
Definition h16 : gram := GRep 1 (Some 4%nat) (GCls xdigit).
Definition ls32 : gram := h16 ++ lit ":" ++ h16 <|> IPv4address.

(** A number in front of a group is the character with that code. *)
Definition IPv6address : gram :=
  let h := h16 ++ lit ":" in
  let up_to n := GOpt (GRep n None h ++ h16) in
  GCls (code 6) ++ h ++ ls32
  <|> lit "::" ++ GCls (code 5) ++ h ++ ls32
  <|> GOpt h16 ++ lit "::" ++ GCls (code 4) ++ h ++ ls32
  <|> up_to 1%nat ++ lit "::" ++ GCls (code 3) ++ h ++ ls32
  <|> up_to 2%nat ++ lit "::" ++ GCls (code 2) ++ h ++ ls32
  <|> up_to 3%nat ++ lit "::" ++ h16 ++ lit ":" ++ ls32
  <|> up_to 4%nat ++ lit "::" ++ ls32
  <|> up_to 5%nat ++ lit "::" ++ h16
  <|> up_to 6%nat ++ lit "::".
Definition IPvFuture : gram :=
  lit "v" ++ GPlus (GCls xdigit) ++ lit "." ++ GPlus (unreserved <|> sub_delims <|> lit ":").
Definition IP_literal : gram := lit "[" ++ (IPv6address <|> IPvFuture) ++ lit "]".

Definition port : gram := (GCls digit)*.
Definition host : gram := IP_literal <|> IPv4address <|> reg_name.
Definition userinfo : gram := (unreserved <|> pct_encoded <|> sub_delims <|> lit ":")*.
Definition authority : gram := GOpt (userinfo ++ lit "@") ++ host ++ GOpt (lit ":" ++ port).
Definition scheme : gram := GCls alpha ++ (GCls alpha <|> GCls digit <|> chars "+-.")*.

Definition relative_part : gram :=
  lit "//" ++ authority ++ path_abempty <|> path_absolute <|> path_noscheme <|> path_empty.
Definition hier_part : gram :=
  lit "//" ++ authority ++ path_abempty <|> path_absolute <|> path_rootless <|> path_empty.

Definition relative_ref : gram :=
  (relative_part %! Action.request_path ++ GOpt (lit "?" %! Action.start_query ++ query))
    >! Action.mark %! Action.request_uri ++ GOpt (lit "#" ++ fragment).
Definition URI : gram :=
  scheme ++ lit ":" ++
  (hier_part %! Action.request_path ++ GOpt (lit "?" %! Action.start_query ++ query))
    >! Action.mark %! Action.request_uri ++ GOpt (lit "#" ++ fragment).
Definition URI_reference : gram := URI <|> relative_ref.

Definition Method : gram :=
  GRep 1 (Some 20%nat) (GCls upper <|> GCls digit) >! Action.mark %! Action.request_method.
Definition http_number : gram := lit "1." ++ (lit "0" <|> lit "1").
Definition HTTP_Version : gram := (lit "HTTP/" ++ http_number) >! Action.mark %! Action.http_version.
Definition Request_Line : gram :=
  Method ++ lit " " ++ URI_reference ++ lit " " ++ HTTP_Version ++ CRLF.

(** [(0 - 31) | 127]: the character 0, and 127. *)
Definition HTTP_CTL : cls := (minus (code 0) (code 31) ++ code 127)%list.
Definition HTTP_separator : cls := (one_of "()<>@,;:\/[]?={} " ++ code 34 ++ code 9)%list.

Definition lws : gram := GOpt CRLF ++ GPlus (lit " " <|> GCls (code 9)).
Definition token : gram := GCls (minus ascii (HTTP_CTL ++ HTTP_separator)%list).
Definition content : gram := GCls (minus any HTTP_CTL) <|> lws.

Definition field_name : gram := GPlus token >! Action.start_field %! Action.write_field.
Definition field_value : gram := content* >! Action.start_value %! Action.write_value.
Definition message_header : gram :=
  GGuard 0 (field_name ++ lit ":" ++ lws* ++ field_value) CRLF.
Definition Request : gram := Request_Line ++ message_header* ++ CRLF.

Definition SocketJSONStart : gram := lit "@" ++ relative_part.
Definition SocketJSONData : gram := GFinishGuard 1 (lit "{" ++ (GCls any)* ++ lit "}") (GCls (code 0)).
Definition SocketXMLData : gram :=
  GFinishGuard 2
    ((lit "<" ++ GPlus (GCls ([(97, 122); (48, 57); (65, 90)] ++ one_of "-.")%list))
        >! Action.mark %! Action.request_path ++
     (lit "/" <|> GCls space <|> lit ">") ++ (GCls any)* ++ lit ">")
    (GCls (code 0)).
Definition SocketJSON : gram :=
  SocketJSONStart >! Action.mark %! Action.request_path ++ lit " " ++
  SocketJSONData >! Action.mark @! Action.json.
Definition SocketXML : gram := SocketXMLData @! Action.xml.
Definition SocketRequest : gram := SocketXML <|> SocketJSON.

Definition main : gram := (Request <|> SocketRequest) @! Action.done.
End grammar.

Definition state : Type := list (re Action.action).
Definition http_parser_start : state := [Machine.main main].

(** *** The parser

    [cs] is [None] in the error state. The pointers to the callbacks, which
    HttpRequestParser installs all, are not repeated here: a call is an event. *)
Record http_parser := mk {
  cs : option state;
  body_start : Z;
  content_len : Z;
  nread : Z;
  mark : Z;
  field_start : Z;
  field_len : Z;
  query_start : Z;
  xml_sent : bool;
  json_sent : bool;
  uri_relaxed : bool
}.

Definition set_cs v (p : http_parser) := mk v (body_start p) (content_len p) (nread p) (mark p) (field_start p) (field_len p) (query_start p) (xml_sent p) (json_sent p) (uri_relaxed p).
Definition set_body_start v (p : http_parser) := mk (cs p) v (content_len p) (nread p) (mark p) (field_start p) (field_len p) (query_start p) (xml_sent p) (json_sent p) (uri_relaxed p).
Definition set_content_len v (p : http_parser) := mk (cs p) (body_start p) v (nread p) (mark p) (field_start p) (field_len p) (query_start p) (xml_sent p) (json_sent p) (uri_relaxed p).
Definition set_nread v (p : http_parser) := mk (cs p) (body_start p) (content_len p) v (mark p) (field_start p) (field_len p) (query_start p) (xml_sent p) (json_sent p) (uri_relaxed p).
Definition set_mark v (p : http_parser) := mk (cs p) (body_start p) (content_len p) (nread p) v (field_start p) (field_len p) (query_start p) (xml_sent p) (json_sent p) (uri_relaxed p).
Definition set_field_start v (p : http_parser) := mk (cs p) (body_start p) (content_len p) (nread p) (mark p) v (field_len p) (query_start p) (xml_sent p) (json_sent p) (uri_relaxed p).
Definition set_field_len v (p : http_parser) := mk (cs p) (body_start p) (content_len p) (nread p) (mark p) (field_start p) v (query_start p) (xml_sent p) (json_sent p) (uri_relaxed p).
Definition set_query_start v (p : http_parser) := mk (cs p) (body_start p) (content_len p) (nread p) (mark p) (field_start p) (field_len p) v (xml_sent p) (json_sent p) (uri_relaxed p).
Definition set_xml_sent v (p : http_parser) := mk (cs p) (body_start p) (content_len p) (nread p) (mark p) (field_start p) (field_len p) (query_start p) v (json_sent p) (uri_relaxed p).
Definition set_json_sent v (p : http_parser) := mk (cs p) (body_start p) (content_len p) (nread p) (mark p) (field_start p) (field_len p) (query_start p) (xml_sent p) v (uri_relaxed p).

(** A call out of the machine, with its positions in the buffer. *)
Module Element.
Inductive element :=
| request_method | request_uri | fragment | request_path | query_string | http_version | header_done.
End Element.
#[global] Instance element_eq : EqDecision Element.element.
Proof. solve_decision. Defined.
Inductive call :=
| http_field (field flen value vlen : Z)
| element_cb (e : Element.element) (at_ length : Z).

Definition LEN (at_ fpc : Z) : Z := uint 64 (fpc - at_).

(** What ragel's loop works on: the parser and the calls, latest first. *)
Definition vars : Type := http_parser * list call.
Definition update (f : http_parser → http_parser) (v : vars) : vars := (f v.1, v.2).
Definition emit (c : http_parser → call) (v : vars) : vars := (v.1, c v.1 :: v.2).
Definition element_at_mark (e : Element.element) (fpc : Z) : vars → vars :=
  emit (λ p, element_cb e (mark p) (LEN (mark p) fpc)).

Section actions.
(** [pe - buffer] *)
Variable pe : Z.

Definition done (fpc : Z) (v : vars) : vars :=
  if xml_sent v.1 || json_sent v.1 then
    update (λ p, let p := set_body_start (mark p) p in
                 set_content_len (sint 32 (fpc - body_start p + 1)) p) v
  else
    emit (λ _, element_cb Element.header_done (fpc + 1) (pe - fpc - 1))
      (update (set_body_start (fpc + 1)) v).

(** The actions; [done] ends with fbreak. *)
Definition act (a : Action.action) (fpc_ : nat) (v : vars) : vars * bool :=
  let fpc := Z.of_nat fpc_ in
  match a with
  | Action.mark => (update (set_mark fpc) v, true)
  | Action.start_field => (update (set_field_start fpc) v, true)
  | Action.write_field => (update (λ p, set_field_len (LEN (field_start p) fpc) p) v, true)
  | Action.start_value => (update (set_mark fpc) v, true)
  | Action.write_value =>
      (emit (λ p, http_field (field_start p) (field_len p) (mark p) (LEN (mark p) fpc)) v, true)
  | Action.request_method => (element_at_mark Element.request_method fpc v, true)
  | Action.request_uri => (element_at_mark Element.request_uri fpc v, true)
  | Action.fragment => (element_at_mark Element.fragment fpc v, true)
  | Action.start_query => (update (set_query_start fpc) v, true)
  | Action.query_string =>
      (emit (λ p, element_cb Element.query_string (query_start p) (LEN (query_start p) fpc)) v, true)
  | Action.http_version => (element_at_mark Element.http_version fpc v, true)
  | Action.request_path => (element_at_mark Element.request_path fpc v, true)
  | Action.done => (done fpc v, false)
  | Action.xml => (update (set_xml_sent true) v, true)
  | Action.json => (update (set_json_sent true) v, true)
  end.
End actions.

(** [http_parser_init] on a parser whose memory holds [p]: query_start and
    uri_relaxed are not initialised. *)
Definition http_parser_init (p : http_parser) : http_parser :=
  mk (Some http_parser_start) 0 0 0 0 0 0 (query_start p) false false (uri_relaxed p).

Definition http_parser_has_error (p : http_parser) : bool := bool_decide (cs p = None).
Definition http_parser_is_finished (p : http_parser) : bool :=
  match cs p with Some s => final s | None => false end.

(** The loop that [write exec] stands for, between p and pe: nothing happens in
    the error state. *)
Definition write_exec (buffer : list Z) (len off : nat) (v : vars) : option state * nat * vars :=
  match cs v.1 with
  | None => (None, off, v)
  | Some s => exec (uri_relaxed v.1) (act (Z.of_nat len)) s off (drop off (take len buffer)) v
  end.

(** [None] when an assertion fails. *)
Definition http_parser_execute (p : http_parser) (buffer : list Z) (len off : nat)
    : option (Z * http_parser * list call) :=
  if (len =? 0)%nat then Some (0, p, [])
  else
    let p := set_field_start 0 (set_field_len 0 (set_mark 0 (set_nread 0 p))) in
    if negb (off <=? len)%nat then None
    else
      let '(s, pos, (p, calls)) := write_exec buffer len off (p, []) in
      if negb (pos <=? len)%nat then None
      else
        let p := if http_parser_has_error p then p else set_cs s p in
        let p := set_nread (nread p + (Z.of_nat pos - Z.of_nat off)) p in
        let size := Z.of_nat len in
        if (nread p <=? size) && (body_start p <=? size) && (mark p <? size) &&
           (field_len p <=? size) && (field_start p <? size)
        then Some (nread p, p, rev calls) else None.

Definition http_parser_finish (p : http_parser) : Z :=
  if http_parser_has_error p then -1 else if http_parser_is_finished p then 1 else 0.

(** *** As HttpRequestParser uses it

    [http_parser_execute(&m_parser, data, len, 0)], with the calls in the form
    of the parser's callbacks. *)
Definition to_callback (c : call) : HttpParser.callback :=
  match c with
  | http_field f fl v vl => HttpParser.http_field (Z.to_nat f) (Z.to_nat fl) (Z.to_nat v) (Z.to_nat vl)
  | element_cb e a l =>
      let at_ := Z.to_nat a in
      let length := Z.to_nat l in
      match e with
      | Element.request_method => HttpParser.request_method at_ length
      | Element.request_uri => HttpParser.request_uri at_ length
      | Element.fragment => HttpParser.fragment at_ length
      | Element.request_path => HttpParser.request_path at_ length
      | Element.query_string => HttpParser.query_string at_ length
      | Element.http_version => HttpParser.http_version at_ length
      | Element.header_done => HttpParser.header_done at_ length
      end
  end.

Definition run_parser (p : http_parser) (data : list Z) (len : nat)
    : option (http_parser * nat * list HttpParser.callback) :=
  match http_parser_execute p data len 0 with
  | Some (n, p', calls) => Some (p', Z.to_nat n, to_callback <$> calls)
  | None => None
  end.
End Http11Parser.
