(* ===== verification/Http11Scan.v ===== *)
(** How the machine of requests scans the parts of a request.

    The states behind the parts of a head are evaluated once, and the characters
    are checked against them by evaluation, for both values of uri_relaxed.
    [says] then states what a part of the text makes the machine call for. *)
From stdpp Require Import base list numbers option strings.
From Stdlib Require Import ZArith Lia.
From S2P Require Import Prelude CString Http HttpParser Ragel RagelProps Http11Parser.
Import Machine Http11Parser.
Local Open Scope Z_scope.

(** ** Characters and phases of a request head *)
Definition pchars : cls := minus any ascii ++ alpha ++ digit ++ one_of "-._~!$&'()*+,;=:@".
Definition path_chars : cls := pchars ++ code 47.
Definition query_chars : cls := path_chars ++ code 63.
Definition method_chars : cls := upper ++ digit.
Definition name_chars : cls := minus (minus ascii (cntrl ++ code 127)) HTTP_separator.
Definition value_chars : cls := minus any (code 0 ++ code 10 ++ code 13 ++ code 127).
Definition value_start : cls := minus value_chars (code 9 ++ code 32).

Abbreviation states := (list state).
Definition q_start : states := [http_parser_start].
Definition q_target : states := Eval vm_compute in behind_text false q_start (str "GET ").
Definition q_slash : states := Eval vm_compute in behind false q_target (code 47).
Definition q_segments : states := Eval vm_compute in behind false q_slash (code 97).
Definition q_path : states := Eval vm_compute in q_slash ++ q_segments.
Definition q_mark : states := Eval vm_compute in behind false q_path (code 63).
Definition q_query : states := Eval vm_compute in behind false q_mark (code 97).
Definition q_hash : states := Eval vm_compute in behind false q_query (code 35).
Definition q_fragment : states := Eval vm_compute in behind false q_hash (code 97).
Definition q_version : states := Eval vm_compute in behind false q_query (code 32).
Definition q_line : states := Eval vm_compute in
  behind_text false q_version (str "HTTP/1.1" ++ Http.crlf).
Definition q_name : states := Eval vm_compute in behind false q_line (code 97).
Definition q_colon : states := Eval vm_compute in behind false q_name (code 58).
Definition q_blank : states := Eval vm_compute in behind false q_colon (code 32).
Definition q_value : states := Eval vm_compute in closed false 2 (code 32) (behind false q_blank (code 97)).
Definition q_cr : states := Eval vm_compute in behind false q_value (code 13).
Definition q_header : states := Eval vm_compute in behind false q_cr (code 10) ++ q_line.
Definition q_last : states := Eval vm_compute in behind false q_header (code 13).
Definition q_done : states := Eval vm_compute in behind false q_last (code 10).
(** Inside of encoded octets. *)
Definition x1 (Q : states) : states := behind false Q (code 37).
Definition x2 (Q : states) : states := behind false (x1 Q) (code 48).

Lemma sizes : (length q_target, length q_path, length q_query, length q_version, length q_line,
  length q_name, length q_value, length q_header, length q_done) = (1, 2, 1, 1, 1, 1, 2, 2, 1)%nat.
Proof. reflexivity. Qed.

(** Every check below is a fact about finitely many characters. *)
Ltac check := intros []; vm_compute; reflexivity.

Lemma scan_path (b : bool) : scans b q_slash pchars [] q_segments path_chars (x1 q_slash) (x2 q_slash) = true.
Proof. revert b; check. Qed.
Lemma slash_path : incl q_slash q_path.
Proof. apply incl_states. vm_compute. reflexivity. Qed.
Lemma segments_path : incl q_segments q_path.
Proof. apply incl_states. vm_compute. reflexivity. Qed.
Lemma line_header : incl q_line q_header.
Proof. apply incl_states. vm_compute. reflexivity. Qed.
Lemma scan_query b : scans b q_mark query_chars [Action.start_query] q_query query_chars (x1 q_mark) (x2 q_mark) = true.
Proof. revert b; check. Qed.
Lemma scan_fragment b : scans b q_hash query_chars [Action.mark] q_fragment query_chars (x1 q_hash) (x2 q_hash) = true.
Proof. revert b; check. Qed.
Lemma start_path b : leads b q_target (code 47) [Action.mark] q_slash = true.
Proof. revert b; check. Qed.
Lemma path_mark b : leads b q_path (code 63) [Action.request_path] q_mark = true.
Proof. revert b; check. Qed.
Lemma path_end b : leads b q_path (code 32) [Action.request_path; Action.request_uri] q_version = true.
Proof. revert b; check. Qed.
Lemma path_hash b : leads b q_path (code 35) [Action.request_path; Action.request_uri] q_hash = true.
Proof. revert b; check. Qed.
Lemma query_end b : leads b q_query (code 32) [Action.query_string; Action.request_uri] q_version = true.
Proof. revert b; check. Qed.
Lemma query_hash b : leads b q_query (code 35) [Action.query_string; Action.request_uri] q_hash = true.
Proof. revert b; check. Qed.
Lemma fragment_end b : leads b q_fragment (code 32) [Action.fragment] q_version = true.
Proof. revert b; check. Qed.
Lemma name_start b : leads b q_header name_chars [Action.start_field] q_name = true.
Proof. revert b; check. Qed.
Lemma name_rest b : leads b q_name name_chars [] q_name = true.
Proof. revert b; check. Qed.
Lemma name_end b : leads b q_name (code 58) [Action.write_field] q_colon = true.
Proof. revert b; check. Qed.
Lemma colon_blank b : leads b q_colon (code 32) [Action.start_value] q_blank = true.
Proof. revert b; check. Qed.
Lemma value_first b : leads b q_blank value_start [Action.start_value] q_value = true.
Proof. revert b; check. Qed.
Lemma value_rest b : leads b q_value value_chars [] q_value = true.
Proof. revert b; check. Qed.
Lemma value_end b : leads b q_value (code 13) [Action.write_value] q_cr = true.
Proof. revert b; check. Qed.
Lemma value_empty b : leads b q_blank (code 13) [Action.start_value; Action.write_value] q_cr = true.
Proof. revert b; check. Qed.
Lemma line_end b : leads b q_cr (code 10) [] q_header = true.
Proof. revert b; check. Qed.
Lemma head_cr b : leads b q_header (code 13) [Action.start_field] q_last = true.
Proof. revert b; check. Qed.
Lemma head_lf b : leads b q_last (code 10) [Action.done] q_done = true.
Proof. revert b; check. Qed.
Lemma done_final : forallb final q_done = true.
Proof. vm_compute. reflexivity. Qed.

(** ** What the machine says *)

(** A call, with the texts that its positions stand for. *)
Inductive event :=
| field (name value : list Z)
| said (e : Element.element) (text : list Z)
| outside.

Definition hear (B : list Z) (c : call) : event :=
  match c with
  | http_field f fl v vl =>
      match heard_text B f fl, heard_text B v vl with
      | Some n, Some w => field n w
      | _, _ => outside
      end
  | element_cb e a l => match heard_text B a l with Some w => said e w | None => outside end
  end.
Definition heard (B : list Z) (v : vars) : list event := hear B <$> rev v.2.

(** No end was reached yet, and no XML and no JSON was seen: [done] reports a head. *)
Definition idle (v : vars) : Prop :=
  xml_sent v.1 = false ∧ json_sent v.1 = false ∧ body_start v.1 = 0.

Section says.
Variable B : list Z.
Hypothesis small : Z.of_nat (length B) < 2 ^ 63.
Variables (cond : bool) (pe : Z).
Abbreviation says := (RagelProps.says cond (act pe) B (heard B) idle).
Abbreviation reads_word := (RagelProps.reads_word cond (act pe)).
Abbreviation drop_next := (RagelProps.drop_next B).

Lemma LEN_text p w c l : drop p B = w ++ c :: l →
  LEN (Z.of_nat p) (Z.of_nat (p + length w)) = Z.of_nat (length w) ∧
  heard_text B (Z.of_nat p) (Z.of_nat (length w)) = Some w.
Proof.
  intros Hd. pose proof (drop_cons_lt _ _ _ _ _ Hd) as Hlt.
  split; [unfold LEN; rewrite uint_id by (unfold in_uint; lia); lia|].
  by apply (heard_text_at B p w (c :: l) Hd); lia.
Qed.

Lemma heard_update f v : heard B (update f v) = heard B v.
Proof. done. Qed.
Lemma heard_emit c v : heard B (emit c v) = heard B v ++ [hear B (c v.1)].
Proof. unfold heard, emit. cbn [snd rev]. by rewrite fmap_app. Qed.

(** The elements that start at the mark. *)
Definition element_of (a : Action.action) : option Element.element :=
  match a with
  | Action.request_method => Some Element.request_method
  | Action.request_uri => Some Element.request_uri
  | Action.fragment => Some Element.fragment
  | Action.http_version => Some Element.http_version
  | Action.request_path => Some Element.request_path
  | _ => None
  end.

(** Elements that end at the same character, all of them started at [p0]. *)
Lemma elements_heard acts es p0 w c l v :
  Forall2 (λ a e, element_of a = Some e) acts es → drop p0 B = w ++ c :: l → mark v.1 = Z.of_nat p0 →
  ∃ v', do_actions (act pe) acts (p0 + length w) v = (v', true) ∧
    heard B v' = heard B v ++ ((λ e, said e w) <$> es) ∧ v'.1 = v.1.
Proof.
  intros He Hd. revert v. induction He as [|a e acts es Ha _ IH]; intros v Hm.
  { exists v. by rewrite app_nil_r. }
  assert (act pe a (p0 + length w) v = (element_at_mark e (Z.of_nat (p0 + length w)) v, true)) as E.
  { by destruct a; try done; injection Ha as <-. }
  destruct (IH (element_at_mark e (Z.of_nat (p0 + length w)) v) Hm) as (v' & Hdo & Hh & Hv).
  exists v'. cbn [do_actions]. rewrite E. split; [done|]. split; [|done].
  rewrite Hh. unfold element_at_mark. rewrite heard_emit, <-app_assoc. cbn [hear fmap list_fmap app].
  rewrite Hm. by destruct (LEN_text _ _ _ _ Hd) as [-> ->].
Qed.

Lemma says_elements Q w Q1 c acts es Q2 :
  reads_word Q [Action.mark] w Q1 → leads cond Q1 (code c) acts Q2 = true →
  Forall2 (λ a e, element_of a = Some e) acts es →
  says Q (w ++ [c]) ((λ e, said e w) <$> es) Q2.
Proof.
  intros Hw Hc He. apply (says_word _ _ _ _ _ _ [Action.mark] _ Q1 _ acts); [done..|].
  intros p l v Hd Hv.
  destruct (elements_heard acts es p w _ _ (update (set_mark (Z.of_nat p)) v) He Hd eq_refl)
    as (v' & Hdo & Hh & Hv').
  eexists _, v'. split; [reflexivity|]. split; [exact Hdo|]. split; [exact Hh|]. unfold idle. by rewrite Hv'.
Qed.

(** ** The parts of a head *)
Definition is_path (w : list Z) : Prop :=
  match w with
  | 47 :: w => w = [] ∨ pct_word pchars path_chars w = true
  | _ => False
  end.

Lemma reads_path w : is_path w → reads_word q_target [Action.mark] w q_path.
Proof.
  intros Hw L p l v v' HL Hd. destruct w as [|c w]; [done|].
  assert (c = 47 ∧ (w = [] ∨ pct_word pchars path_chars w = true)) as [-> Hrest].
  { by repeat (destruct c as [|c|c]; simpl in Hw; try done). }
  destruct (exec_code cond (act pe) q_target 47 _ q_slash L p (w ++ l) v v' (start_path cond) HL Hd) as (L1 & HL1 & E1).
  change ((47 :: w) ++ l) with (47 :: w ++ l). rewrite E1.
  destruct Hrest as [->|Hrest].
  { exists L1. split; [by apply slash_path|]. by rewrite Nat.add_comm. }
  destruct (exec_pct_word cond (act pe) _ _ _ _ _ _ _ L1 w (S p) l v' v' (scan_path cond) HL1 Hrest eq_refl)
    as (L2 & HL2 & E2).
  exists L2. split; [by apply segments_path|]. rewrite E2.
  by replace (p + length (47%Z :: w))%nat with (S p + length w)%nat by (simpl; lia).
Qed.

Definition is_query (w : list Z) : bool := pct_word query_chars query_chars w.

Lemma reads_fragment w : is_query w = true → reads_word q_hash [Action.mark] w q_fragment.
Proof. intros Hw. exact (reads_pct _ _ _ _ _ _ _ _ _ _ (scan_fragment cond) Hw). Qed.

(** The target without and with a query, up to what ends it. *)
Lemma says_target w c Q2 :
  is_path w → (leads cond q_path (code c) [Action.request_path; Action.request_uri] Q2 = true) →
  says q_target (w ++ [c]) [said Element.request_path w; said Element.request_uri w] Q2.
Proof.
  intros Hw Hc. apply (says_elements _ _ _ _ _ [Element.request_path; Element.request_uri] _ (reads_path w Hw) Hc).
  by repeat constructor.
Qed.

Lemma says_target_query w q c Q2 :
  is_path w → is_query q = true →
  (leads cond q_query (code c) [Action.query_string; Action.request_uri] Q2 = true) →
  says q_target (w ++ [63] ++ q ++ [c])
    [said Element.request_path w; said Element.query_string q; said Element.request_uri (w ++ [63] ++ q)] Q2.
Proof.
  intros Hw Hq Hc L p l v HL Hd [Hx Hj]. rewrite <-!app_assoc in *.
  destruct (reads_path w Hw L p ([63] ++ q ++ [c] ++ l) v _ HL eq_refl) as (L1 & HL1 & E1).
  set (v1 := update _ _) in *. rewrite E1.
  assert (Forall2 (λ a e, element_of a = Some e) [Action.request_path] [Element.request_path]) as Hp by by repeat constructor.
  destruct (elements_heard _ _ p w _ _ v1 Hp Hd eq_refl) as (v2 & Hdo2 & Hh2 & Hv2).
  destruct (exec_code cond (act pe) q_path 63 _ q_mark L1 _ (q ++ [c] ++ l) _ _ (path_mark cond) HL1 Hdo2) as (L2 & HL2 & E2).
  cbn [app] in E2 |- *. rewrite E2.
  pose proof (drop_next p (w ++ [63]) (q ++ [c] ++ l) ltac:(by rewrite <-app_assoc)) as Hdq.
  rewrite length_app in Hdq. cbn [length] in Hdq. rewrite Nat.add_assoc, Nat.add_1_r in Hdq.
  set (pq := S (p + length w)) in *. set (v3 := update (set_query_start (Z.of_nat pq)) v2).
  destruct (exec_pct_word cond (act pe) _ _ _ _ _ _ _ L2 q pq ([c] ++ l) v2 v3 (scan_query cond) HL2 Hq eq_refl)
    as (L3 & HL3 & E3).
  cbn [app] in E3. rewrite E3.
  set (v4 := emit (λ p, element_cb Element.query_string (query_start p) (LEN (query_start p) (Z.of_nat (pq + length q)))) v3).
  assert (Forall2 (λ a e, element_of a = Some e) [Action.request_uri] [Element.request_uri]) as Hu by by repeat constructor.
  assert (mark v4.1 = Z.of_nat p) as Hm4 by (cbn; by rewrite Hv2).
  destruct (elements_heard _ _ p (w ++ [63] ++ q) c l v4 Hu ltac:(by rewrite <-!app_assoc) Hm4)
    as (v5 & Hdo5 & Hh5 & Hv5).
  replace (p + length (w ++ [63%Z] ++ q))%nat with (pq + length q)%nat in Hdo5
    by (rewrite !length_app; unfold pq; simpl; lia).
  assert (do_actions (act pe) [Action.query_string; Action.request_uri] (pq + length q) v3 = (v5, true)) as Hdo
    by exact Hdo5.
  destruct (exec_code cond (act pe) q_query c _ Q2 L3 _ l v3 v5 Hc HL3 Hdo) as (L4 & HL4 & E4).
  exists L4, v5. split; [done|]. split.
  { rewrite E4. f_equal. rewrite !length_app. unfold pq. simpl. rewrite length_app. simpl. lia. }
  assert (heard B v4 = heard B v2 ++ [said Element.query_string q]) as Hh4.
  { unfold v4. rewrite heard_emit. unfold v3. rewrite heard_update. cbn [hear query_start set_query_start update fst].
    by destruct (LEN_text pq q _ _ Hdq) as [-> ->]. }
  split; [|unfold idle; by rewrite Hv5; cbn; rewrite Hv2].
  rewrite Hh5, Hh4, Hh2. unfold v1. rewrite heard_update, <-!app_assoc. done.
Qed.

(** *** The method and the version: literals *)
Definition is_method (w : list Z) : bool :=
  forallb (mem method_chars) w && (1 <=? length w)%nat && (length w <=? 20)%nat.

Definition q_method (w : list Z) : states :=
  match literal_run false http_parser_start [Action.mark] w with Some L => [L] | None => [] end.
Definition method_check (w : list Z) : bool :=
  let Q1 := q_method w in
  forallb (λ b, literal b q_start [Action.mark] w Q1 && leads b Q1 (code 32) [Action.request_method] q_target)
    [false; true].

Lemma methods_checked :
  forallb (λ e, negb (is_method e.2) || method_check e.2) Http.HTTP_METHOD_MAP = true.
Proof. vm_compute. reflexivity. Qed.

Lemma says_method m w :
  (m, w) ∈ Http.HTTP_METHOD_MAP → is_method w = true →
  says q_start (w ++ str " ") [said Element.request_method w] q_target.
Proof.
  intros He Hm. pose proof (proj1 (forallb_forall _ _) methods_checked (m, w)) as Hc.
  specialize (Hc (proj1 (list_elem_of_In _ _) He)). cbn [snd] in Hc. rewrite Hm in Hc. cbn [negb orb] in Hc.
  assert (∀ b, literal b q_start [Action.mark] w (q_method w) &&
    leads b (q_method w) (code 32) [Action.request_method] q_target = true) as Hb.
  { intros b. apply (proj1 (forallb_forall _ _) Hc). destruct b; simpl; auto. }
  destruct (andb_prop _ _ (Hb cond)) as [H1 H2].
  apply (says_elements q_start w (q_method w) 32 [Action.request_method] [Element.request_method]);
    [by apply reads_literal|done|by repeat constructor].
Qed.

Definition versions : list (list Z) := [str "HTTP/1.0"; str "HTTP/1.1"].
Definition q_versioned : states := behind_text false q_version (str "HTTP/1.1").

Lemma version_read b w : w ∈ versions → literal b q_version [Action.mark] w q_versioned = true.
Proof.
  revert b w. assert (forallb (λ b, forallb (λ w, literal b q_version [Action.mark] w q_versioned) versions) [false; true] = true)
    as H by (vm_compute; reflexivity).
  intros b w Hw. assert (In b [false; true]) as Hb by (destruct b; simpl; auto).
  apply (proj1 (forallb_forall _ _) (proj1 (forallb_forall _ _) H b Hb)). by apply list_elem_of_In.
Qed.
Definition q_version_cr : states := behind false q_versioned (code 13).
Lemma version_end b : leads b q_versioned (code 13) [Action.http_version] q_version_cr = true.
Proof. revert b; check. Qed.
Lemma version_lf b : leads b q_version_cr (code 10) [] q_line = true.
Proof. revert b; check. Qed.

Lemma says_version w : w ∈ versions → says q_version (w ++ Http.crlf) [said Element.http_version w] q_line.
Proof.
  intros Hw. change (w ++ Http.crlf) with (w ++ [13] ++ [10]). rewrite app_assoc.
  change [said Element.http_version w] with (((λ e, said e w) <$> [Element.http_version]) ++ []).
  eapply says_app; [|apply says_nothing, version_lf].
  eapply says_elements; [|apply version_end|by repeat constructor].
  by apply reads_literal, version_read.
Qed.

(** *** Header fields *)
Definition is_name (w : list Z) : Prop := starts name_chars name_chars w.
Definition is_value (w : list Z) : Prop := w = [] ∨ starts value_start value_chars w.

Definition line (e : list Z * list Z) : list Z := e.1 ++ str ": " ++ e.2 ++ Http.crlf.

(** The value, from the mark set at its first character, or at its end. *)
Lemma says_value n f p0 w L p l v :
  is_value w → In L q_blank → drop p B = w ++ 13 :: l →
  drop p0 B = n ++ 58 :: f → field_start v.1 = Z.of_nat p0 → field_len v.1 = Z.of_nat (length n) →
  ∃ L' v', In L' q_cr ∧ exec cond (act pe) L p (w ++ 13 :: l) v = exec cond (act pe) L' (S (p + length w)) l v' ∧
    heard B v' = heard B v ++ [field n w] ∧
    xml_sent v'.1 = xml_sent v.1 ∧ json_sent v'.1 = json_sent v.1 ∧ body_start v'.1 = body_start v.1.
Proof.
  intros Hw HL Hd Hn Hs Hl.
  set (v1 := update (set_mark (Z.of_nat p)) v).
  set (v2 := emit (λ q, http_field (field_start q) (field_len q) (mark q) (LEN (mark q) (Z.of_nat (p + length w)))) v1).
  assert (heard B v2 = heard B v ++ [field n w]) as Hh.
  { unfold v2, v1. rewrite heard_emit, heard_update. cbn. destruct (LEN_text _ _ _ _ Hd) as [-> ->].
    rewrite Hs, Hl. destruct (LEN_text _ _ _ _ Hn) as [_ ->]. done. }
  destruct Hw as [->|Hw].
  - destruct (exec_code cond (act pe) _ 13 _ _ L p l v v2 (value_empty cond) HL) as (L1 & HL1 & E).
    { unfold v2. cbn [length]. by rewrite Nat.add_0_r. }
    exists L1, v2. cbn [app length]. by rewrite E, Nat.add_0_r.
  - destruct (exec_word cond (act pe) _ _ _ _ _ L w p (13 :: l) v v1 (value_first cond) (value_rest cond) HL Hw eq_refl)
      as (L1 & HL1 & E1).
    destruct (exec_code cond (act pe) _ 13 _ _ L1 (p + length w) l v1 v2 (value_end cond) HL1 eq_refl) as (L2 & HL2 & E2).
    exists L2, v2. by rewrite E1, E2.
Qed.

Lemma says_line n w : is_name n → is_value w → says q_header (line (n, w)) [field n w] q_header.
Proof.
  intros Hn Hw L p l v HL Hd [Hx Hj]. unfold line in *. cbn [fst snd] in *.
  change (str ": ") with [58; 32] in *. change Http.crlf with [13; 10] in *.
  rewrite <-!app_assoc in *. cbn [app] in *.
  set (v1 := update (set_field_start (Z.of_nat p)) v).
  destruct (exec_word cond (act pe) _ _ _ _ _ L n p (58 :: 32 :: w ++ 13 :: 10 :: l) v v1 (name_start cond) (name_rest cond)
    HL Hn eq_refl) as (L1 & HL1 & E1).
  destruct (LEN_text _ _ _ _ Hd) as [Hlen _].
  set (v2 := update (λ q, set_field_len (LEN (field_start q) (Z.of_nat (p + length n))) q) v1).
  destruct (exec_code cond (act pe) _ 58 _ _ L1 (p + length n) (32 :: w ++ 13 :: 10 :: l) v1 v2 (name_end cond) HL1 eq_refl)
    as (L2 & HL2 & E2).
  set (v3 := update (set_mark (Z.of_nat (S (p + length n)))) v2).
  destruct (exec_code cond (act pe) _ 32 _ _ L2 (S (p + length n)) (w ++ 13 :: 10 :: l) v2 v3 (colon_blank cond) HL2 eq_refl)
    as (L3 & HL3 & E3).
  pose proof (drop_next p (n ++ [58; 32]) (w ++ 13 :: 10 :: l) ltac:(by rewrite <-app_assoc)) as Hdw.
  replace (p + length (n ++ [58; 32]%Z))%nat with (S (S (p + length n))) in Hdw by (rewrite length_app; simpl; lia).
  destruct (says_value n (32 :: w ++ 13 :: 10 :: l) p w L3 (S (S (p + length n))) (10 :: l) v3 Hw HL3 Hdw Hd eq_refl Hlen)
    as (L4 & v4 & HL4 & E4 & Hh & Hx4 & Hj4 & Hb4).
  destruct (exec_code cond (act pe) _ 10 _ _ L4 (S (S (S (p + length n)) + length w)) l v4 v4 (line_end cond) HL4 eq_refl)
    as (L5 & HL5 & E5).
  exists L5, v4. split; [done|]. split.
  { rewrite E1, E2, E3, E4, E5. f_equal. rewrite length_app. cbn [length]. rewrite length_app. simpl. lia. }
  split; [exact Hh|]. unfold idle. rewrite Hx4, Hj4, Hb4. done.
Qed.

Lemma says_lines hs :
  Forall (λ e, is_name e.1 ∧ is_value e.2) hs →
  says q_header (concat (line <$> hs)) ((λ e, field e.1 e.2) <$> hs) q_header.
Proof.
  induction 1 as [|[n w] hs [Hn Hw] _ IH].
  - apply says_nil.
  - exact (says_app _ _ _ _ _ _ _ [field n w] _ _ _ _ (says_line n w Hn Hw) IH).
Qed.

(** *** The whole head *)
Definition target (path query fragment : list Z) : list Z :=
  path ++ Http.mark_if_some (str "?") query ++ query ++ Http.mark_if_some (str "#") fragment ++ fragment.

Definition optional (ok : list Z → bool) (w : list Z) : Prop := w = [] ∨ ok w = true.

Definition target_events (path query fragment : list Z) : list event :=
  [said Element.request_path path] ++
  (match query with [] => [] | _ => [said Element.query_string query] end) ++
  [said Element.request_uri (path ++ Http.mark_if_some (str "?") query ++ query)] ++
  (match fragment with [] => [] | _ => [said Element.fragment fragment] end).

Lemma says_fragment f : is_query f = true → says q_hash (f ++ [32]) [said Element.fragment f] q_version.
Proof.
  intros Hf. apply (says_elements q_hash f q_fragment 32 [Action.fragment] [Element.fragment] q_version
    (reads_fragment f Hf) (fragment_end cond)). by repeat constructor.
Qed.

Lemma says_whole_target path query fragment :
  is_path path → optional is_query query → optional is_query fragment →
  says q_target (target path query fragment ++ [32]) (target_events path query fragment) q_version.
Proof.
  intros Hp Hq Hf. unfold target, target_events.
  assert (∀ c Q, (leads cond q_path (code c) [Action.request_path; Action.request_uri] Q = true) →
    (leads cond q_query (code c) [Action.query_string; Action.request_uri] Q = true) →
    says q_target (path ++ Http.mark_if_some (str "?") query ++ query ++ [c])
      ([said Element.request_path path] ++
       (match query with [] => [] | _ => [said Element.query_string query] end) ++
       [said Element.request_uri (path ++ Http.mark_if_some (str "?") query ++ query)]) Q) as Hc.
  { intros c Q H1 H2. destruct query as [|x query]; cbn [Http.mark_if_some app].
    - rewrite app_nil_r. by apply says_target.
    - destruct Hq as [Hq|Hq]; [done|]. by apply (says_target_query path (x :: query)). }
  destruct fragment as [|x fragment]; cbn [Http.mark_if_some].
  - cbn [app]. rewrite !app_nil_r, <-!app_assoc. apply Hc; [apply path_end|apply query_end].
  - destruct Hf as [Hf|Hf]; [done|].
    replace ((path ++ Http.mark_if_some (str "?") query ++ query ++ str "#" ++ x :: fragment) ++ [32])
      with ((path ++ Http.mark_if_some (str "?") query ++ query ++ [35]) ++ (x :: fragment) ++ [32])
      by by rewrite <-!app_assoc.
    rewrite (app_assoc _ _ [said Element.fragment _]), (app_assoc _ _ [said Element.fragment _]).
    eapply says_app; [apply Hc; [apply path_hash|apply query_hash]|by apply says_fragment].
Qed.

Record head_ok (method path query fragment version : list Z) (hs : list (list Z * list Z)) : Prop := mk_head_ok {
  ok_method : ∃ m, (m, method) ∈ Http.HTTP_METHOD_MAP;
  ok_method_chars : is_method method = true;
  ok_path : is_path path;
  ok_query : optional is_query query;
  ok_fragment : optional is_query fragment;
  ok_version : version ∈ versions;
  ok_headers : Forall (λ e, is_name e.1 ∧ is_value e.2) hs
}.

Definition head_text (method path query fragment version : list Z) (hs : list (list Z * list Z)) : list Z :=
  method ++ str " " ++ target path query fragment ++ str " " ++ version ++ Http.crlf ++ concat (line <$> hs).
Definition head_events (method path query fragment version : list Z) (hs : list (list Z * list Z)) : list event :=
  [said Element.request_method method] ++ target_events path query fragment ++
  [said Element.http_version version] ++ ((λ e, field e.1 e.2) <$> hs).

Lemma says_head method path query fragment version hs :
  head_ok method path query fragment version hs →
  says q_start (head_text method path query fragment version hs)
    (head_events method path query fragment version hs) q_header.
Proof.
  intros [[m Hm] Hmc Hp Hq Hf Hv Hh]. unfold head_text, head_events.
  rewrite (app_assoc method). eapply says_app; [by apply (says_method m)|].
  change (str " " ++ version ++ ?x) with ([32] ++ version ++ x). rewrite (app_assoc (target _ _ _)).
  eapply says_app; [by apply says_whole_target|]. rewrite (app_assoc version).
  eapply says_app; [|by apply says_lines].
  eapply says_incl; [by apply says_version|apply incl_refl|apply line_header].
Qed.

(** The empty line ends the run, and the rest is reported. *)
Lemma exec_last L p l v :
  In L q_header → drop p B = 13 :: 10 :: l → idle v →
  ∃ L' v', In L' q_done ∧ exec cond (act (Z.of_nat (length B))) L p (13 :: 10 :: l) v = (Some L', (p + 2)%nat, v') ∧
    heard B v' = heard B v ++ [said Element.header_done l].
Proof.
  intros HL Hd (Hx & Hj & _). set (v1 := update (set_field_start (Z.of_nat p)) v).
  destruct (exec_code cond (act (Z.of_nat (length B))) _ 13 _ _ L p (10 :: l) v v1 (head_cr cond) HL eq_refl)
    as (L1 & HL1 & E1).
  destruct (exec_leads cond (act (Z.of_nat (length B))) _ (code 10) _ _ L1 10 (S p) l v1 (head_lf cond) HL1 eq_refl)
    as (L2 & HL2 & E2).
  exists L2, (done (Z.of_nat (length B)) (Z.of_nat (S p)) v1). split; [done|].
  split; [rewrite E1, E2; cbn [do_actions act]; by rewrite Nat.add_comm|].
  unfold done. cbn [v1 update fst]. unfold v1, update. cbn [fst snd xml_sent json_sent set_field_start].
  rewrite Hx, Hj. cbn [orb]. rewrite heard_emit. unfold heard. cbn [fst snd rev]. f_equal.
  cbn [hear]. by rewrite (heard_rest B p l Hd).
Qed.
End says.
