(* ===== verification/Http11ParserProps.v ===== *)
(** Properties of the machine of requests.

    Its assertions hold on every input, and its calls stay within the buffer
    ([request_machine_safe]); what it calls for is what the text of a request
    says ([request_text_heard]), but only if the head arrives in one piece
    ([split_target_loses_start]). *)
From stdpp Require Import base list numbers option strings.
From Stdlib Require Import ZArith Lia.
From S2P Require Import Prelude CString Http HttpParser Ragel RagelProps Http11Parser Http11Scan.
Import Machine Http11Parser.
Local Open Scope Z_scope.

(** ** Safety *)

(** A position that was 0 or is behind us. *)
Definition marked (p : nat) (m : Z) : Prop := 0 ≤ m ∧ (m = 0 ∨ m < Z.of_nat p).

(** The texts of a call lie in a buffer of [len] bytes; of a field name the
    start and the length do. *)
Definition within (len : Z) (c : call) : Prop :=
  match c with
  | http_field f fl v vl => 0 ≤ f ≤ len ∧ 0 ≤ fl ≤ len ∧ 0 ≤ v ∧ 0 ≤ vl ∧ v + vl ≤ len
  | element_cb _ a l => 0 ≤ a ∧ 0 ≤ l ∧ a + l ≤ len
  end.
Definition is_query_call (c : call) : Prop :=
  match c with element_cb Element.query_string _ _ => True | _ => False end.

Section safety.
Variable pe : nat.
Hypothesis small : Z.of_nat pe < 2 ^ 63.
(** Whether [query_start] was set in this buffer. *)
Variable fresh : bool.

Definition sound (p : nat) (v : vars) : Prop :=
  marked p (mark v.1) ∧ marked p (field_start v.1) ∧ 0 ≤ field_len v.1 ≤ Z.of_nat p ∧
  0 ≤ body_start v.1 ≤ Z.of_nat pe ∧ nread v.1 = 0 ∧
  (fresh = true → 0 ≤ query_start v.1 ≤ Z.of_nat p) ∧
  Forall (λ c, within (Z.of_nat pe) c ∨ (fresh = false ∧ is_query_call c)) v.2.

(** While the actions of a character are executed, the marks may be at it. *)
Definition midway (p : nat) (v : vars) : Prop := (p < pe)%nat ∧ sound (S p) v.

Lemma LEN_small at_ fpc : 0 ≤ at_ ≤ fpc → fpc ≤ Z.of_nat pe → LEN at_ fpc = fpc - at_.
Proof. intros H1 H2. unfold LEN. apply uint_id. unfold in_uint. lia. Qed.

Lemma sound_emit p f v :
  sound p v → within (Z.of_nat pe) (f v.1) ∨ (fresh = false ∧ is_query_call (f v.1)) → sound p (emit f v).
Proof.
  unfold sound, emit. cbn [fst snd]. intros (?&?&?&?&?&?&?) Hc.
  do 6 (split; [done|]). by constructor.
Qed.

Lemma marked_here p : marked (S p) (Z.of_nat p).
Proof. unfold marked. lia. Qed.

(** Actions keep the marks at or in front of their character. *)
Definition before (p : nat) (v : vars) : Prop :=
  (p < pe)%nat ∧ sound (S p) v ∧ mark v.1 ≤ Z.of_nat p ∧ field_start v.1 ≤ Z.of_nat p ∧
  field_len v.1 ≤ Z.of_nat p ∧ (fresh = true → query_start v.1 ≤ Z.of_nat p).

Lemma sound_before p v : (p < pe)%nat → sound p v → before p v.
Proof.
  intros Hp (Hm & Hf & Hl & Hb & Hn & Hq & Hc). unfold before, sound, marked in *.
  split_and!; try done; try lia; intros E; specialize (Hq E); lia.
Qed.

Lemma act_before a p v v' go : before p v → act (Z.of_nat pe) a p v = (v', go) → if go then before p v' else sound (S p) v'.
Proof.
  intros (Hp & Hs & Hm & Hf & Hl & Hq) E.
  assert (∀ e, before p (element_at_mark e (Z.of_nat p) v)) as Hel.
  { intros e. split; [done|]. split; [|done]. apply sound_emit; [done|]. left. cbn.
    rewrite LEN_small by (unfold sound, marked in Hs; lia). unfold sound, marked in Hs. lia. }
  pose proof Hs as (Hm1 & Hf1 & Hl1 & Hb1 & Hn1 & Hq1 & Hc1). unfold marked in Hm1, Hf1.
  destruct a; cbn [act] in E; injection E as <- <-; try (by apply Hel);
    try (unfold before, sound, marked; cbn; split_and!; try done; lia).
  - unfold before, sound, marked. cbn. rewrite LEN_small by lia. split_and!; try done; lia.
  - split; [done|]. split; [|done]. apply sound_emit; [done|]. left. cbn. rewrite LEN_small by lia. lia.
  - split; [done|]. split; [|done]. apply sound_emit; [done|]. destruct fresh eqn:Ef; [|by right].
    left. cbn. specialize (Hq eq_refl). specialize (Hq1 eq_refl). rewrite LEN_small by lia. lia.
  - unfold done. destruct (xml_sent v.1 || json_sent v.1).
    + unfold sound, marked. cbn. split_and!; try done; lia.
    + apply sound_emit; [|left; cbn; lia]. unfold sound, marked. cbn. split_and!; try done; lia.
Qed.

Lemma exec_sound cond L p l v o p' v' :
  (p + length l ≤ pe)%nat → sound p v → exec cond (act (Z.of_nat pe)) L p l v = (o, p', v') → sound p' v'.
Proof.
  apply (exec_invariant _ _ sound before); [apply sound_before|by intros ? ? (_ & ? & _)|].
  intros a q u u' go. apply act_before.
Qed.
End safety.

(** What the parser starts the loop with. *)
Definition reset (p : http_parser) : http_parser :=
  set_field_start 0 (set_field_len 0 (set_mark 0 (set_nread 0 p))).

Lemma reset_sound pe fresh off p :
  0 ≤ body_start p ≤ Z.of_nat pe → (fresh = true → 0 ≤ query_start p ≤ Z.of_nat off) → sound pe fresh off (reset p, []).
Proof.
  intros Hb Hq. unfold sound, marked. cbn. split_and!; try lia; [|constructor]. intros e. specialize (Hq e). lia.
Qed.

Lemma write_exec_sound p buffer len off s pos v fresh :
  (off ≤ len ≤ length buffer)%nat → Z.of_nat len < 2 ^ 63 → 0 ≤ body_start p ≤ Z.of_nat len →
  (fresh = true → 0 ≤ query_start p ≤ Z.of_nat off) →
  write_exec buffer len off (reset p, []) = (s, pos, v) → sound len fresh pos v ∧ (off ≤ pos ≤ len)%nat.
Proof.
  intros Hlen Hsmall Hb Hq E. pose proof (reset_sound len fresh off p Hb Hq) as H0.
  unfold write_exec in E. cbn [fst] in E. destruct (cs (reset p)) as [L|].
  - assert (off + length (drop off (take len buffer)) ≤ len)%nat as Hl by (rewrite length_drop, length_take; lia).
    split; [exact (exec_sound len Hsmall fresh _ _ _ _ _ _ _ _ Hl H0 E)|].
    destruct (exec_run _ _ _ _ _ _ _ _ _ E) as [H3 _]. lia.
  - injection E as <- <- <-. split; [done|lia].
Qed.

(** The assertions behind the loop hold: what [http_parser_execute] answers. *)
Lemma execute_write p buffer len off s pos p1 calls :
  (off ≤ len ≤ length buffer)%nat → Z.of_nat len < 2 ^ 63 → 0 ≤ body_start p ≤ Z.of_nat len → len ≠ 0%nat →
  write_exec buffer len off (reset p, []) = (s, pos, (p1, calls)) →
  http_parser_execute p buffer len off =
    Some (Z.of_nat (pos - off),
      set_nread (Z.of_nat (pos - off)) (if http_parser_has_error p1 then p1 else set_cs s p1), rev calls).
Proof.
  intros Hlen Hsmall Hb Hne E.
  destruct (write_exec_sound p buffer len off s pos _ false Hlen Hsmall Hb ltac:(done) E) as [Hf Hpos].
  unfold http_parser_execute. destruct (Nat.eqb_spec len 0) as [|_]; [done|].
  destruct (Nat.leb_spec off len) as [_|]; [|lia]. cbn [negb]. fold (reset p). rewrite E.
  destruct (Nat.leb_spec pos len) as [_|]; [|lia]. cbn [negb].
  destruct Hf as (Hm & Hfs & Hfl & Hbs & Hn & _). unfold marked in *. cbn [fst snd] in *.
  set (p2 := if http_parser_has_error p1 then p1 else set_cs s p1).
  assert (nread p2 = 0 ∧ body_start p2 = body_start p1 ∧ mark p2 = mark p1 ∧ field_len p2 = field_len p1 ∧
    field_start p2 = field_start p1) as (E1 & E2 & E3 & E4 & E5).
  { unfold p2. by destruct (http_parser_has_error p1). }
  cbn [nread set_nread body_start mark field_len field_start]. rewrite E1, E2, E3, E4, E5.
  replace (0 + (Z.of_nat pos - Z.of_nat off)) with (Z.of_nat (pos - off)) by lia.
  repeat match goal with |- context [?x <=? ?y] => destruct (Z.leb_spec x y); [|lia] end.
  by repeat match goal with |- context [?x <? ?y] => destruct (Z.ltb_spec x y); [|lia] end.
Qed.


(** ** What a request makes the machine say *)

(** The actions leave [cs] and the flag alone. *)
Lemma exec_cs cond pe L p l v o p' v' :
  exec cond (act pe) L p l v = (o, p', v') → cs v'.1 = cs v.1 ∧ uri_relaxed v'.1 = uri_relaxed v.1.
Proof.
  set (same := λ (_ : nat) (u : vars), cs u.1 = cs v.1 ∧ uri_relaxed u.1 = uri_relaxed v.1). intros E.
  apply (exec_invariant cond (act pe) same same (p + length l)) with (6 := E); try done.
  intros a q u u' go [H1 H2]. unfold same. destruct a; cbn [act]; intros [= <- <-]; try done.
  unfold done. by destruct (xml_sent u.1 || json_sent u.1).
Qed.

(** The memory behind the text does not matter. *)
Lemma execute_take p data n :
  (n ≤ length data)%nat → http_parser_execute p data n 0 = http_parser_execute p (take n data) (length (take n data)) 0.
Proof.
  intros Hn. assert (length (take n data) = n) as E by (rewrite length_take; lia).
  unfold http_parser_execute, write_exec. by rewrite E, take_idemp.
Qed.

(** A run of the loop over a whole buffer is what [http_parser_execute] answers. *)
Lemma execute_run p buffer L o pos v :
  cs p = Some L → buffer ≠ [] → Z.of_nat (length buffer) < 2 ^ 63 →
  0 ≤ body_start p ≤ Z.of_nat (length buffer) →
  exec (uri_relaxed p) (act (Z.of_nat (length buffer))) L 0 buffer (reset p, []) = (o, pos, v) →
  http_parser_execute p buffer (length buffer) 0 =
    Some (Z.of_nat pos, set_nread (Z.of_nat pos) (set_cs o v.1), rev v.2).
Proof.
  intros Hcs Hne Hsmall Hb He.
  assert (length buffer ≠ 0%nat) as Hl by (intros H0; by apply nil_length_inv in H0).
  assert (write_exec buffer (length buffer) 0 (reset p, []) = (o, pos, v)) as E.
  { unfold write_exec. cbn [fst]. change (cs (reset p)) with (cs p). by rewrite Hcs, drop_0, take_ge by lia. }
  destruct v as [p1 calls1]. rewrite (execute_write p buffer (length buffer) 0 _ _ _ _ ltac:(lia) Hsmall Hb Hl E).
  destruct (exec_cs _ _ _ _ _ _ _ _ _ He) as [Hc _]. cbn [fst snd] in *. rewrite Nat.sub_0_r.
  assert (http_parser_has_error p1 = false) as ->; [|done].
  unfold http_parser_has_error. rewrite Hc. change (cs (reset p)) with (cs p). by rewrite Hcs.
Qed.

(** The calls of a whole head, whatever the memory of the parser held: the
    method, path, query, target, fragment, version and header fields that the
    text has, in this order, then the end of the head; the machine is finished
    and has consumed the head and nothing behind it. *)
Theorem request_text_heard (method path query fragment version rest : list Z) (hs : list (list Z * list Z))
    (memory : http_parser) :
  head_ok method path query fragment version hs →
  let head := head_text method path query fragment version hs ++ Http.crlf in
  let buffer := head ++ rest in
  Z.of_nat (length buffer) < 2 ^ 63 →
  ∃ p' calls,
    http_parser_execute (http_parser_init memory) buffer (length buffer) 0 =
      Some (Z.of_nat (length head), p', calls) ∧
    http_parser_is_finished p' = true ∧ http_parser_has_error p' = false ∧
    hear buffer <$> calls =
      head_events method path query fragment version hs ++ [said Element.header_done rest].
Proof.
  intros Hok head buffer Hsmall. set (p := http_parser_init memory).
  assert (buffer = head_text method path query fragment version hs ++ 13 :: 10 :: rest) as Hbuf.
  { unfold buffer, head. by rewrite <-app_assoc. }
  assert (buffer ≠ []) as Hne by (rewrite Hbuf; by destruct (head_text _ _ _ _ _ _)).
  destruct (says_head buffer Hsmall (uri_relaxed p) (Z.of_nat (length buffer)) _ _ _ _ _ _ Hok http_parser_start
    0%nat (13 :: 10 :: rest) (reset p, []) ltac:(by left) Hbuf (conj eq_refl (conj eq_refl eq_refl))) as (L1 & v1 & HL1 & E1 & Hh1 & Hi1).
  pose proof (drop_next buffer 0 _ _ Hbuf) as Hd1.
  destruct (exec_last buffer (uri_relaxed p) L1 _ rest v1 HL1 Hd1 Hi1) as (L2 & v2 & HL2 & E2 & Hh2).
  rewrite <-Hbuf, E2 in E1.
  eexists _, _. split.
  { rewrite (execute_run p buffer _ _ _ _ eq_refl Hne Hsmall ltac:(cbn; lia) E1). do 3 f_equal.
    unfold head. rewrite length_app. simpl. lia. }
  split; [|split; [done|]].
  - unfold http_parser_is_finished. cbn [cs set_nread set_cs].
    by apply (proj1 (forallb_forall _ _) done_final).
  - change (hear buffer <$> rev v2.2) with (heard buffer v2). rewrite Hh2, Hh1. done.
Qed.

(** ** A head in two pieces *)
Lemma is_finished_path p L : cs p = Some L → In L q_segments → http_parser_is_finished p = false.
Proof.
  intros Hcs HL. unfold http_parser_is_finished. rewrite Hcs.
  assert (forallb (λ L, negb (final L)) q_segments = true) as Hall by (vm_compute; reflexivity).
  apply negb_true_iff. by apply (proj1 (forallb_forall _ _) Hall).
Qed.

(** The first piece ends inside of the path. *)
Lemma first_piece method a (memory : http_parser) :
  (∃ m, (m, method) ∈ Http.HTTP_METHOD_MAP) → is_method method = true →
  pct_word pchars path_chars a = true →
  let buffer := method ++ str " " ++ str "/" ++ a in
  Z.of_nat (length buffer) < 2 ^ 63 →
  ∃ p1 calls L,
    http_parser_execute (http_parser_init memory) buffer (length buffer) 0 =
      Some (Z.of_nat (length buffer), p1, calls) ∧
    hear buffer <$> calls = [said Element.request_method method] ∧
    cs p1 = Some L ∧ In L q_segments ∧ xml_sent p1 = false ∧ json_sent p1 = false ∧ body_start p1 = 0.
Proof.
  intros [m Hm] Hmc Ha buffer Hsmall. set (p := http_parser_init memory).
  assert (buffer ≠ []) as Hne by (unfold buffer; by destruct method).
  assert (buffer = (method ++ str " ") ++ 47 :: a) as Hbuf by (unfold buffer; by rewrite <-app_assoc).
  destruct (says_method buffer Hsmall (uri_relaxed p) (Z.of_nat (length buffer)) m method Hm Hmc http_parser_start
    0%nat (47 :: a) (reset p, []) ltac:(by left) Hbuf (conj eq_refl (conj eq_refl eq_refl)))
    as (L1 & v1 & HL1 & E1 & Hh1 & Hx & Hj & Hb).
  set (pos := (0 + length (method ++ str " "))%nat) in *.
  set (v2 := update (set_mark (Z.of_nat pos)) v1).
  destruct (exec_code (uri_relaxed p) (act (Z.of_nat (length buffer))) q_target 47 _ q_slash L1 pos a v1 v2
    (start_path _) HL1 eq_refl) as (L2 & HL2 & E2).
  destruct (exec_pct_word (uri_relaxed p) (act (Z.of_nat (length buffer))) _ _ _ _ _ _ _ L2 a (S pos) [] v2 v2
    (scan_path _) HL2 Ha eq_refl) as (L3 & HL3 & E3).
  rewrite app_nil_r in E3. rewrite <-Hbuf, E2, E3 in E1. cbn [exec] in E1.
  assert ((S pos + length a)%nat = length buffer) as Hlen.
  { rewrite Hbuf, length_app. unfold pos. simpl. lia. }
  rewrite Hlen in E1.
  eexists _, _, L3. split; [exact (execute_run p buffer _ _ _ _ eq_refl Hne Hsmall ltac:(cbn; lia) E1)|].
  split; [exact Hh1|]. by cbn.
Qed.

(** C31. A head that arrives in two pieces, the second one in another buffer as
    HttpRequestParser hands it over, with the cut inside of the path: the
    first piece is consumed, and the second makes the machine call for a path and
    a target that start with the second piece. The beginning of the path is
    lost: the mark is reset for every buffer. *)
Theorem split_target_loses_start (method a b version rest : list Z) (hs : list (list Z * list Z))
    (memory : http_parser) :
  head_ok method (str "/" ++ a ++ b) [] [] version hs →
  pct_word pchars path_chars a = true → pct_text path_chars b = true →
  let buffer1 := method ++ str " " ++ str "/" ++ a in
  let buffer2 := b ++ str " " ++ version ++ Http.crlf ++ concat (line <$> hs) ++ Http.crlf ++ rest in
  Z.of_nat (length buffer1) < 2 ^ 63 → Z.of_nat (length buffer2) < 2 ^ 63 →
  ∃ p1 calls1 p2 n2 calls2,
    http_parser_execute (http_parser_init memory) buffer1 (length buffer1) 0 =
      Some (Z.of_nat (length buffer1), p1, calls1) ∧
    http_parser_is_finished p1 = false ∧
    http_parser_execute p1 buffer2 (length buffer2) 0 = Some (n2, p2, calls2) ∧
    http_parser_is_finished p2 = true ∧
    (hear buffer1 <$> calls1) ++ (hear buffer2 <$> calls2) =
      [said Element.request_method method; said Element.request_path b; said Element.request_uri b;
       said Element.http_version version] ++ ((λ e, field e.1 e.2) <$> hs) ++ [said Element.header_done rest].
Proof.
  intros [Hm Hmc _ _ _ Hv Hh] Ha Hbw buffer1 buffer2 Hs1 Hs2.
  destruct (first_piece method a memory Hm Hmc Ha Hs1) as (p1 & calls1 & L & E1 & Hh1 & Hcs & HL & Hx & Hj & Hb).
  exists p1, calls1.
  assert (buffer2 = b ++ 32 :: version ++ Http.crlf ++ concat (line <$> hs) ++ Http.crlf ++ rest) as Hbuf by done.
  assert (buffer2 ≠ []) as Hne by (rewrite Hbuf; by destruct b).
  set (pe := Z.of_nat (length buffer2)). set (v0 := (reset p1, []) : vars).
  destruct (exec_scanned (uri_relaxed p1) (act pe) _ _ _ _ _ _ _ L b 0
    (32 :: version ++ Http.crlf ++ concat (line <$> hs) ++ Http.crlf ++ rest) v0 (scan_path _) HL Hbw) as (L2 & HL2 & E2).
  destruct (elements_heard buffer2 Hs2 pe [Action.request_path; Action.request_uri]
    [Element.request_path; Element.request_uri] 0 b _ _ v0 ltac:(by repeat constructor) Hbuf eq_refl)
    as (v3 & Hdo & Hh3 & Hv3).
  destruct (exec_code (uri_relaxed p1) (act pe) q_path 32 _ q_version L2 _
    (version ++ Http.crlf ++ concat (line <$> hs) ++ Http.crlf ++ rest) v0 v3 (path_end _) (segments_path _ HL2) Hdo)
    as (L3 & HL3 & E3).
  assert (drop (S (0 + length b)) buffer2 =
    ((version ++ Http.crlf) ++ concat (line <$> hs)) ++ 13 :: 10 :: rest) as Hd3.
  { rewrite Hbuf, <-!app_assoc. change (13 :: 10 :: rest) with (Http.crlf ++ rest).
    replace (S (0 + length b)) with (length b + 1)%nat by lia. by rewrite <-drop_drop, drop_app_length. }
  assert (idle v3) as Hidle by (unfold idle; by rewrite Hv3).
  pose proof (says_app _ _ buffer2 _ _ _ _ _ _ _ _ _
    (says_incl _ _ buffer2 _ _ _ q_version _ _ _ _ (says_version buffer2 Hs2 (uri_relaxed p1) pe version Hv) (incl_refl _) line_header)
    (says_lines buffer2 Hs2 (uri_relaxed p1) pe hs Hh)) as Hsays.
  destruct (Hsays L3 _ (13 :: 10 :: rest) v3 HL3 Hd3 Hidle) as (L4 & v4 & HL4 & E4 & Hh4 & Hi4).
  destruct (exec_last buffer2 (uri_relaxed p1) L4 _ rest v4 HL4 (drop_next buffer2 _ _ _ Hd3) Hi4)
    as (L5 & v5 & HL5 & E5 & Hh5).
  rewrite <-!app_assoc in E4. rewrite <-Hbuf in E2.
  change (Http.crlf ++ rest) with (13 :: 10 :: rest) in *.
  rewrite E3, E4 in E2. fold pe in E5. rewrite <-app_assoc in E5. rewrite E5 in E2.
  eexists _, _, _. split; [done|]. split; [by apply (is_finished_path p1 L)|].
  split; [exact (execute_run p1 buffer2 L _ _ _ Hcs Hne Hs2 ltac:(rewrite Hb; lia) E2)|].
  split.
  - unfold http_parser_is_finished. cbn [cs set_nread set_cs]. by apply (proj1 (forallb_forall _ _) done_final).
  - fold buffer1 in Hh1. rewrite Hh1. change (hear buffer2 <$> rev v5.2) with (heard buffer2 v5). rewrite Hh5, Hh4, Hh3. done.
Qed.

(** ** The grammar *)

(** A machine that is finished has read a text of the grammar's language: the
    priorities and actions of the machine never let another text pass. *)
Theorem finished_is_in_language (memory : http_parser) (buffer : list Z) (n : Z) (p' : http_parser)
    (calls : list call) :
  Z.of_nat (length buffer) < 2 ^ 63 →
  http_parser_execute (http_parser_init memory) buffer (length buffer) 0 = Some (n, p', calls) →
  http_parser_is_finished p' = true →
  matches (uri_relaxed memory) (Machine.main main) (take (Z.to_nat n) buffer).
Proof.
  intros Hsmall E Hf. set (p := http_parser_init memory) in *.
  assert (∀ L, final L = false → cs p' = Some L → False) as Hno.
  { intros L HL Hcs. unfold http_parser_is_finished in Hf. by rewrite Hcs, HL in Hf. }
  assert (final http_parser_start = false) as Hstart by (vm_compute; reflexivity).
  destruct buffer as [|c l] eqn:Hbuf; [injection E as <- <- <-; by destruct (Hno _ Hstart)|].
  rewrite <-Hbuf in *. assert (buffer ≠ []) as Hne by (by rewrite Hbuf). clear c l Hbuf.
  destruct (exec (uri_relaxed p) (act (Z.of_nat (length buffer))) http_parser_start 0 buffer (reset p, []))
    as [[o pos] v] eqn:Ee.
  rewrite (execute_run p buffer _ _ _ _ eq_refl Hne Hsmall ltac:(cbn; lia) Ee) in E. injection E as <- <- <-.
  unfold http_parser_is_finished in Hf. cbn [cs set_nread set_cs] in Hf. destruct o as [L|]; [|done].
  destruct (exec_run _ _ _ _ _ _ _ _ _ Ee) as [_ Hrun]. rewrite Nat.sub_0_r in Hrun.
  destruct (run_sound _ _ _ _ Hrun Hf) as (e & He & Hm). apply list_elem_of_singleton in He as ->.
  by rewrite Nat2Z.id.
Qed.

(** ** Inputs that the machine does not take as they are meant *)
Definition any_memory : http_parser := mk None 0 0 0 0 0 0 0 false false false.
Definition parse (l : list Z) : option (Z * bool * list event) :=
  match http_parser_execute (http_parser_init any_memory) l (length l) 0 with
  | Some (n, p, calls) => Some (n, http_parser_is_finished p, hear l <$> calls)
  | None => None
  end.

(** [0 - 31] is not the range of the control characters: line ends belong to
    tokens, and a line without a colon becomes part of the next field's name. *)
Example bare_line_in_name :
  (λ r, last r.2) <$>
    parse (str "GET / HTTP/1.1" ++ Http.crlf ++ str "junk" ++ Http.crlf ++ str "Host: a" ++ Http.crlf) =
  Some (Some (field (str "junk" ++ Http.crlf ++ str "Host") (str "a"))).
Proof. vm_compute. reflexivity. Qed.

(** A query that is cut: the start of the query of the first buffer is used in
    the second one, and the length of the text wraps around. *)
Definition second_read (l1 l2 : list Z) : option (list call) :=
  match http_parser_execute (http_parser_init any_memory) l1 (length l1) 0 with
  | Some (_, p, _) =>
      (λ r, r.2) <$> http_parser_execute p l2 (length l2) 0
  | None => None
  end.
Example stale_query_start :
  (λ l, head l) <$> second_read (str "GET /search?q=a") (str "b HTTP/1.1") =
  Some (Some (element_cb Element.query_string 12 (2 ^ 64 - 11))).
Proof. vm_compute. reflexivity. Qed.

(** *** Witnesses *)
Definition sample_line : list Z := str "GET /a?b=%2F HTTP/1.1" ++ Http.crlf ++ str "Host: x" ++ Http.crlf.


Lemma sample_head_ok : head_ok (str "GET") (str "/" ++ str "in" ++ str "dex.html") [] [] (str "HTTP/1.1") [(str "Host", str "x")].
Proof.
  constructor; try (vm_compute; reflexivity); try by left.
  - exists Http.GET. vm_compute. right. left.
  - right. vm_compute. reflexivity.
  - vm_compute. right. left.
  - apply Forall_singleton. split; [|right]; (split; [vm_compute; reflexivity|]); repeat constructor.
Qed.

Lemma split_target_loses_start_witness :
  let buffer1 := str "GET /in" in
  let buffer2 := str "dex.html HTTP/1.1" ++ Http.crlf ++ str "Host: x" ++ Http.crlf ++ Http.crlf in
  ∃ p1 calls1 p2 n2 calls2,
    http_parser_execute (http_parser_init any_memory) buffer1 (length buffer1) 0 =
      Some (Z.of_nat (length buffer1), p1, calls1) ∧
    http_parser_is_finished p1 = false ∧
    http_parser_execute p1 buffer2 (length buffer2) 0 = Some (n2, p2, calls2) ∧
    http_parser_is_finished p2 = true ∧
    (hear buffer1 <$> calls1) ++ (hear buffer2 <$> calls2) =
      [said Element.request_method (str "GET"); said Element.request_path (str "dex.html");
       said Element.request_uri (str "dex.html"); said Element.http_version (str "HTTP/1.1");
       field (str "Host") (str "x"); said Element.header_done []].
Proof.
  exact (split_target_loses_start (str "GET") (str "in") (str "dex.html") (str "HTTP/1.1") [] [(str "Host", str "x")]
    any_memory sample_head_ok ltac:(vm_compute; reflexivity) ltac:(vm_compute; reflexivity)
    ltac:(vm_compute; reflexivity) ltac:(vm_compute; reflexivity)).
Defined.
