(* ===== verification/HttpClientParser.v ===== *)
(** The state machine of responses and of chunk heads:
    [http/httpclient_parser.rl], in the notation of [Ragel].

    [strtol] reads to the end of the digits, wherever the grammar ends; its
    result is cut to the int that it is stored in. *)
From stdpp Require Import base list numbers option strings.
From Stdlib Require Import ZArith Lia.
From S2P Require Import Prelude CString HttpParser Ragel.

Module HttpClientParser.
Import Machine.
Local Open Scope Z_scope.

Module Action.
Inductive action :=
| mark | start_field | write_field | start_value | write_content_len | write_connection_close
| write_value | reason_phrase | status_code | http_version | chunk_size | trans_chunked | done.
End Action.
#[global] Instance action_eq : EqDecision Action.action.
Proof. solve_decision. Defined.

(** *** The grammar *)
Section grammar.
Local Open Scope gram_scope.
Abbreviation gram := (Ragel.gram Action.action).

Definition CRLF : gram := word [code 13; code 10] <|> word [code 10].
Definition CTL : cls := (cntrl ++ code 127)%list.
Definition tspecials : cls := (one_of "()<>@,;:\/[]?={} " ++ code 34 ++ code 9)%list.
Definition token : gram := GCls (minus ascii (CTL ++ tspecials)%list).

(** One character never contains CR LF, so that [any -- CRLF] excludes LF only. *)
Definition Reason_Phrase : gram :=
  GPlus (GCls (minus any (code 10))) >! Action.mark %! Action.reason_phrase.
Definition Status_Code : gram := GPlus (GCls digit) >! Action.mark %! Action.status_code.
Definition http_number : gram := GPlus (GCls digit) ++ lit "." ++ GPlus (GCls digit).
Definition HTTP_Version : gram := (lit "HTTP/" ++ http_number) >! Action.mark %! Action.http_version.
Definition Status_Line : gram :=
  GGuard 0 (HTTP_Version ++ lit " " ++ Status_Code ++ lit " " ++ Reason_Phrase) CRLF.

Definition field_name : gram := GPlus token >! Action.start_field %! Action.write_field.
Definition field_value : gram := (GCls any)* >! Action.start_value %! Action.write_value.
Definition fields : gram := GGuard 1 (field_name ++ lit ":" ++ (GCls space)* ++ field_value) CRLF.

Definition content_length : gram :=
  (ilit "Content-Length" >! Action.start_field %! Action.write_field ++ lit ":" ++ (GCls space)* ++
   GPlus (GCls digit) >! Action.start_value %! Action.write_content_len %! Action.write_value) ++ CRLF.
Definition conn_close : gram :=
  (ilit "Connection" ++ lit ":" ++ (GCls space)* ++ ilit "close") ++ CRLF %! Action.write_connection_close.
Definition transfer_encoding_chunked : gram :=
  (ilit "Transfer-Encoding" >! Action.start_field %! Action.write_field ++
   lit ":" ++ (GCls space)* ++ ilit "chunked" >! Action.start_value %! Action.write_value) ++
  CRLF @! Action.trans_chunked.

Definition message_header : gram :=
  transfer_encoding_chunked <|> conn_close <|> content_length <|> fields.
Definition Response : gram := Status_Line ++ message_header* ++ CRLF.

Definition chunk_ext_val : gram := GPlus token.
Definition chunk_ext_name : gram := GPlus token.
Definition chunk_extension : gram :=
  (lit ";" ++ chunk_ext_name >! Action.start_field %! Action.write_field %! Action.start_value ++
   GOpt (lit "=" ++ chunk_ext_val >! Action.start_value) %! Action.write_value)*.
Definition chunk_size : gram := GPlus (GCls xdigit).
Definition Chunked_Header : gram :=
  GGuard 2 (chunk_size >! Action.mark %! Action.chunk_size ++ chunk_extension) CRLF.

Definition main : gram := (Response <|> Chunked_Header) @! Action.done.
End grammar.

Definition state : Type := list (re Action.action).
Definition httpclient_parser_start : state := [Machine.main main].
(** The first final state in ragel's numbering, which goes depth first from the
    least character on: the one behind a chunk head, out of which nothing leads. *)
Definition httpclient_parser_first_final : state := [Eps].

(** *** The parser *)
Record httpclient_parser := mk {
  cs : option state;
  body_start : Z;
  content_len : Z;
  status : Z;
  chunked : bool;
  chunks_done : bool;
  close : bool;
  nread : Z;
  mark : Z;
  field_start : Z;
  field_len : Z
}.

Definition set_cs v p := mk v (body_start p) (content_len p) (status p) (chunked p) (chunks_done p) (close p) (nread p) (mark p) (field_start p) (field_len p).
Definition set_body_start v p := mk (cs p) v (content_len p) (status p) (chunked p) (chunks_done p) (close p) (nread p) (mark p) (field_start p) (field_len p).
Definition set_content_len v p := mk (cs p) (body_start p) v (status p) (chunked p) (chunks_done p) (close p) (nread p) (mark p) (field_start p) (field_len p).
Definition set_status v p := mk (cs p) (body_start p) (content_len p) v (chunked p) (chunks_done p) (close p) (nread p) (mark p) (field_start p) (field_len p).
Definition set_chunked v p := mk (cs p) (body_start p) (content_len p) (status p) v (chunks_done p) (close p) (nread p) (mark p) (field_start p) (field_len p).
Definition set_chunks_done v p := mk (cs p) (body_start p) (content_len p) (status p) (chunked p) v (close p) (nread p) (mark p) (field_start p) (field_len p).
Definition set_close v p := mk (cs p) (body_start p) (content_len p) (status p) (chunked p) (chunks_done p) v (nread p) (mark p) (field_start p) (field_len p).
Definition set_nread v p := mk (cs p) (body_start p) (content_len p) (status p) (chunked p) (chunks_done p) (close p) v (mark p) (field_start p) (field_len p).
Definition set_mark v p := mk (cs p) (body_start p) (content_len p) (status p) (chunked p) (chunks_done p) (close p) (nread p) v (field_start p) (field_len p).
Definition set_field_start v p := mk (cs p) (body_start p) (content_len p) (status p) (chunked p) (chunks_done p) (close p) (nread p) (mark p) v (field_len p).
Definition set_field_len v p := mk (cs p) (body_start p) (content_len p) (status p) (chunked p) (chunks_done p) (close p) (nread p) (mark p) (field_start p) v.

Module Element.
Inductive element := reason_phrase | status_code | chunk_size | http_version | header_done | last_chunk.
End Element.
#[global] Instance element_eq : EqDecision Element.element.
Proof. solve_decision. Defined.
Inductive call :=
| http_field (field flen value vlen : Z)
| element_cb (e : Element.element) (at_ length : Z).

(** [strtol(s, NULL, base)] for the bases 10 and 16. *)
Definition digit_value (c : Z) : Z :=
  if mem digit c then c - 48
  else if mem [(65, 70)] c then c - 55
  else if mem [(97, 102)] c then c - 87 else 99.
Fixpoint number (base acc : Z) (l : list Z) : Z :=
  match l with
  | c :: l => if digit_value c <? base then number base (base * acc + digit_value c) l else acc
  | [] => acc
  end.
Definition prefixed (base : Z) (l : list Z) : list Z :=
  match l with
  | 48 :: x :: c :: l' =>
      if (base =? 16) && ((x =? 120) || (x =? 88)) && mem xdigit c then c :: l' else l
  | _ => l
  end.
Definition strtol (base : Z) (l : list Z) : Z :=
  let n := match HttpParser.skip_spaces l with
           | 45 :: l' => - number base 0 (prefixed base l')
           | 43 :: l' => number base 0 (prefixed base l')
           | l' => number base 0 (prefixed base l')
           end in
  Z.max (- 2 ^ 63) (Z.min (2 ^ 63 - 1) n).

Definition LEN (at_ fpc : Z) : Z := uint 64 (fpc - at_).

Definition vars : Type := httpclient_parser * list call.
Definition update (f : httpclient_parser → httpclient_parser) (v : vars) : vars := (f v.1, v.2).
Definition emit (c : httpclient_parser → call) (v : vars) : vars := (v.1, c v.1 :: v.2).
Definition element_at_mark (e : Element.element) (fpc : Z) : vars → vars :=
  emit (λ p, element_cb e (mark p) (LEN (mark p) fpc)).

Section actions.
Variable buffer : list Z.
Variable pe : Z.

(** [strtol(PTR_TO(mark), NULL, base)], stored in an int. *)
Definition number_at_mark (base : Z) (p : httpclient_parser) : Z :=
  sint 32 (strtol base (drop (Z.to_nat (mark p)) buffer)).

(** The action [chunk_size]. *)
Definition on_chunk_size (fpc : Z) (v : vars) : vars :=
  let v := update (λ p,
    let p := set_content_len (number_at_mark 16 p) (set_chunked true p) in
    set_chunks_done (content_len p <=? 0) p) v in
  if chunks_done v.1 then element_at_mark Element.last_chunk fpc v
  else element_at_mark Element.chunk_size fpc v.

Definition done (fpc : Z) (v : vars) : vars :=
  emit (λ _, element_cb Element.header_done (fpc + 1) (pe - fpc - 1)) (update (set_body_start (fpc + 1)) v).

Definition act (a : Action.action) (fpc_ : nat) (v : vars) : vars * bool :=
  let fpc := Z.of_nat fpc_ in
  match a with
  | Action.mark => (update (set_mark fpc) v, true)
  | Action.start_field => (update (set_field_start fpc) v, true)
  | Action.write_field => (update (λ p, set_field_len (LEN (field_start p) fpc) p) v, true)
  | Action.start_value => (update (set_mark fpc) v, true)
  | Action.write_content_len => (update (λ p, set_content_len (number_at_mark 10 p) p) v, true)
  | Action.write_connection_close => (update (set_close true) v, true)
  | Action.write_value =>
      (emit (λ p, http_field (field_start p) (field_len p) (mark p) (LEN (mark p) fpc)) v, true)
  | Action.reason_phrase => (element_at_mark Element.reason_phrase fpc v, true)
  | Action.status_code =>
      (element_at_mark Element.status_code fpc (update (λ p, set_status (number_at_mark 10 p) p) v), true)
  | Action.http_version => (element_at_mark Element.http_version fpc v, true)
  | Action.chunk_size => (on_chunk_size fpc v, true)
  | Action.trans_chunked => (update (set_chunked true) v, true)
  | Action.done => (done fpc v, false)
  end.
End actions.

(** [httpclient_parser_init] leaves the status alone. *)
Definition httpclient_parser_init (p : httpclient_parser) : httpclient_parser :=
  mk (Some httpclient_parser_start) 0 (-1) (status p) false false false 0 0 0 0.

Definition httpclient_parser_has_error (p : httpclient_parser) : bool := bool_decide (cs p = None).
Definition httpclient_parser_is_finished (p : httpclient_parser) : bool :=
  match cs p with Some [Eps] => true | _ => false end.

Definition write_exec (buffer : list Z) (len off : nat) (v : vars) : option state * nat * vars :=
  match cs v.1 with
  | None => (None, off, v)
  | Some s => exec false (act buffer (Z.of_nat len)) s off (drop off (take len buffer)) v
  end.

(** [None] when an assertion fails; one of them is that a NUL follows the text. *)
Definition httpclient_parser_execute (p : httpclient_parser) (buffer : list Z) (len off : nat)
    : option (Z * httpclient_parser * list call) :=
  let p := set_field_start 0 (set_field_len 0 (set_mark 0 (set_nread 0 p))) in
  if negb ((off <=? len)%nat && bool_decide (buffer !! len = Some 0)) then None
  else
    let '(s, pos, (p, calls)) := write_exec buffer len off (p, []) in
    let p := set_cs s p in
    let p := set_nread (nread p + (Z.of_nat pos - Z.of_nat off)) p in
    let size := Z.of_nat len in
    if negb ((pos <=? len)%nat && (nread p <=? size) && (body_start p <=? size)) then None
    else if (mark p <? size) && (field_len p <=? size) && (field_start p <? size)
    then Some (nread p, p, rev calls) else Some (-1, p, rev calls).

Definition httpclient_parser_finish (p : httpclient_parser) : Z :=
  if httpclient_parser_has_error p then -1 else if httpclient_parser_is_finished p then 1 else 0.

(** *** As HttpResponseParser uses it

    [httpclient_parser_execute(&m_parser, data, len, 0)], with the calls in the
    form of the parser's callbacks. The result -1 is a huge number as size_t. *)
Definition to_callback (c : call) : HttpParser.callback :=
  match c with
  | http_field f fl v vl => HttpParser.http_field (Z.to_nat f) (Z.to_nat fl) (Z.to_nat v) (Z.to_nat vl)
  | element_cb e a l =>
      let at_ := Z.to_nat a in
      let length := Z.to_nat l in
      match e with
      | Element.reason_phrase => HttpParser.reason_phrase at_ length
      | Element.status_code => HttpParser.status_code at_ length
      | Element.chunk_size => HttpParser.chunk_size at_ length
      | Element.http_version => HttpParser.http_version at_ length
      | Element.header_done => HttpParser.header_done at_ length
      | Element.last_chunk => HttpParser.last_chunk at_ length
      end
  end.

Definition run_parser (p : httpclient_parser) (data : list Z) (len : nat)
    : option (httpclient_parser * nat * list HttpParser.callback) :=
  match httpclient_parser_execute p data len 0 with
  | Some (n, p', calls) => Some (p', Z.to_nat (uint 64 n), to_callback <$> calls)
  | None => None
  end.
End HttpClientParser.
