(* ===== verification/HttpClientScan.v ===== *)
(** How the machine of responses scans the parts of a response, and the head of
    a chunk.

    While the name of a field is read, the machine is ready for each of the
    three fields that have a meaning of their own; [tracked] is the table of its
    states along their names. *)
From stdpp Require Import base list numbers option strings.
From Stdlib Require Import ZArith Lia.
From S2P Require Import Prelude CString Http HttpParser Ragel RagelProps HttpClientParser.
Import Machine HttpClientParser.
Local Open Scope Z_scope.

Definition name_chars : cls := minus (minus ascii (cntrl ++ code 127)) tspecials.
Definition value_chars : cls := minus any (code 10 ++ code 13).
Definition value_start : cls := minus value_chars space.
Definition reason_chars : cls := minus any (code 10 ++ code 13).

Abbreviation states := (list state).
Definition q_start : states := [httpclient_parser_start].
Definition q_http : states := Eval vm_compute in behind_text false q_start (str "HTTP/1.1").
Definition q_code : states := Eval vm_compute in behind false q_http (code 32).
Definition q_status : states := Eval vm_compute in behind false q_code (code 50).
Definition q_phrase : states := Eval vm_compute in behind false q_status (code 32).
Definition q_reason : states := Eval vm_compute in behind false q_phrase (code 97).
Definition q_reason_cr : states := Eval vm_compute in behind false q_reason (code 13).
Definition q_line : states := Eval vm_compute in behind false q_reason_cr (code 10).
Definition q_name : states := Eval vm_compute in behind false q_line (code 120).
Definition q_colon : states := Eval vm_compute in behind false q_name (code 58).
Definition q_blank : states := Eval vm_compute in behind false q_colon (code 32).
Definition q_value : states := Eval vm_compute in behind false q_blank (code 97).
Definition q_cr : states := Eval vm_compute in behind false q_value (code 13).
Definition q_next : states := Eval vm_compute in behind false q_cr (code 10).
(** In front of a field, or of the empty line. *)
Definition q_header : states := Eval vm_compute in q_next ++ q_line.
Definition q_last : states := Eval vm_compute in behind false q_header (code 13).
Definition q_done : states := [[Eps]].
(** The fields with a meaning, as they are printed. *)
Definition q_length_name : states := Eval vm_compute in behind_text false q_header (str "Content-Length").
Definition q_length_colon : states := Eval vm_compute in behind false q_length_name (code 58).
Definition q_length_blank : states := Eval vm_compute in behind_text false q_header (str "Content-Length: ").
Definition q_length : states := Eval vm_compute in behind false q_length_blank (code 48).
Definition q_length_cr : states := Eval vm_compute in behind false q_length (code 13).
Definition q_conn_name : states := Eval vm_compute in behind_text false q_header (str "Connection").
Definition q_conn_colon : states := Eval vm_compute in behind false q_conn_name (code 58).
Definition q_conn_blank : states := Eval vm_compute in behind_text false q_header (str "Connection: ").
Definition q_close : states := Eval vm_compute in behind_text false q_conn_blank (str "close").
Definition q_keep : states := Eval vm_compute in behind_text false q_conn_blank (str "keep-alive").
Definition q_close_cr : states := Eval vm_compute in behind false q_close (code 13).
Definition q_closed : states := Eval vm_compute in behind false q_close_cr (code 10).
(** A chunk head. *)
Definition q_size : states := Eval vm_compute in behind false q_start (code 48).
Definition q_size_cr : states := Eval vm_compute in behind false q_size (code 13).

Lemma rs_sizes : (length q_http, length q_line, length q_name, length q_value, length q_header, length q_closed,
  length q_length, length q_close, length q_keep, length q_last) = (1, 1, 1, 1, 2, 1, 1, 1, 1, 1)%nat.
Proof. vm_compute. reflexivity. Qed.

Abbreviation leads := (leads false).
Abbreviation literal := (literal false).
Ltac check := vm_compute; reflexivity.

Definition versions : list (list Z) := [str "HTTP/1.0"; str "HTTP/1.1"].
Lemma rs_version_read : forallb (λ w, literal q_start [Action.mark] w q_http) versions = true.
Proof. check. Qed.
Lemma rs_version_end : leads q_http (code 32) [Action.http_version] q_code = true.
Proof. check. Qed.
Lemma status_first : leads q_code digit [Action.mark] q_status = true.
Proof. check. Qed.
Lemma status_rest : leads q_status digit [] q_status = true.
Proof. check. Qed.
Lemma status_end : leads q_status (code 32) [Action.status_code] q_phrase = true.
Proof. check. Qed.
Lemma reason_first : leads q_phrase reason_chars [Action.mark] q_reason = true.
Proof. check. Qed.
Lemma reason_rest : leads q_reason reason_chars [] q_reason = true.
Proof. check. Qed.
Lemma reason_end : leads q_reason (code 13) [Action.reason_phrase] q_reason_cr = true.
Proof. check. Qed.
Lemma reason_lf : leads q_reason_cr (code 10) [] q_line = true.
Proof. check. Qed.
Lemma rs_line_header : incl q_line q_header.
Proof. apply incl_states. check. Qed.
Lemma rs_colon_blank : leads q_colon (code 32) [Action.start_value] q_blank = true.
Proof. check. Qed.
Lemma rs_value_first : leads q_blank value_start [Action.start_value] q_value = true.
Proof. check. Qed.
Lemma rs_value_rest : leads q_value value_chars [] q_value = true.
Proof. check. Qed.
Lemma rs_value_end : leads q_value (code 13) [Action.write_value] q_cr = true.
Proof. check. Qed.
Lemma rs_value_empty : leads q_blank (code 13) [Action.start_value; Action.write_value] q_cr = true.
Proof. check. Qed.
Lemma value_lf : leads q_cr (code 10) [] q_header = true.
Proof. check. Qed.
Lemma rs_head_cr : leads q_header (code 13) [] q_last = true.
Proof. check. Qed.
Lemma rs_head_lf : leads q_last (code 10) [Action.done] q_done = true.
Proof. check. Qed.

(** *** The fields of the length and of the connection, as they are printed *)
Lemma length_name : literal q_header [Action.start_field] (str "Content-Length") q_length_name = true.
Proof. check. Qed.
Lemma length_name_after_close :
  literal q_closed [Action.write_connection_close; Action.start_field] (str "Content-Length") q_length_name = true.
Proof. check. Qed.
Lemma length_colon : leads q_length_name (code 58) [Action.write_field] q_length_colon = true.
Proof. check. Qed.
Lemma length_blank : leads q_length_colon (code 32) [Action.start_value] q_length_blank = true.
Proof. check. Qed.
Lemma length_first : leads q_length_blank digit [Action.start_value] q_length = true.
Proof. check. Qed.
Lemma length_rest : leads q_length digit [] q_length = true.
Proof. check. Qed.
Lemma length_end : leads q_length (code 13) [Action.write_content_len; Action.write_value] q_length_cr = true.
Proof. check. Qed.
Lemma length_lf : leads q_length_cr (code 10) [] q_header = true.
Proof. check. Qed.
Lemma conn_name : literal q_header [Action.start_field] (str "Connection") q_conn_name = true.
Proof. check. Qed.
Lemma conn_colon : leads q_conn_name (code 58) [Action.write_field] q_conn_colon = true.
Proof. check. Qed.
Lemma conn_blank : leads q_conn_colon (code 32) [Action.start_value] q_conn_blank = true.
Proof. check. Qed.
Lemma conn_close : literal q_conn_blank [Action.start_value] (str "close") q_close = true.
Proof. check. Qed.
Lemma conn_keep : literal q_conn_blank [Action.start_value] (str "keep-alive") q_keep = true.
Proof. check. Qed.
Lemma close_end : leads q_close (code 13) [Action.write_value] q_close_cr = true.
Proof. check. Qed.
Lemma close_lf : leads q_close_cr (code 10) [] q_closed = true.
Proof. check. Qed.
Lemma keep_end : leads q_keep (code 13) [Action.write_value] q_cr = true.
Proof. check. Qed.
Lemma closed_cr : leads q_closed (code 13) [Action.write_connection_close] q_last = true.
Proof. check. Qed.

(** *** The head of a chunk *)
Lemma size_first : leads q_start xdigit [Action.mark] q_size = true.
Proof. check. Qed.
Lemma size_rest : leads q_size xdigit [] q_size = true.
Proof. check. Qed.
Lemma size_end : leads q_size (code 13) [Action.chunk_size] q_size_cr = true.
Proof. check. Qed.
Lemma size_lf : leads q_size_cr (code 10) [Action.done] q_done = true.
Proof. check. Qed.

(** *** The names of fields *)
Definition special : list (list Z) := [str "content-length"; str "connection"; str "transfer-encoding"].
Definition prefixes : list (list Z) :=
  flat_map (λ w, (λ n, take n w) <$> seq 1 (length w)) special.
Definition hd_state (Q : states) : state := hd [] Q.
(** The states along the names, spelled in small letters; along any other name
    the state is that of [q_name]. *)
Definition tracked : list (list Z * state) := Eval vm_compute in
  (λ w, (w, match run false (hd_state q_line) w with Some L => L | None => [] end)) <$> prefixes.
Definition lookup_text (w : list Z) : option state :=
  snd <$> List.find (λ e, bool_decide (e.1 = w)) tracked.
Definition plain : state := hd_state q_name.
Definition name_state (w : list Z) : state :=
  match lookup_text (tolower <$> w) with Some L => L | None => plain end.

Definition chars (k : cls) : list Z := flat_map (λ r, seqZ r.1 (r.2 - r.1 + 1)) k.

Lemma elem_of_chars k c : mem k c = true → In c (chars k).
Proof.
  unfold mem, chars. rewrite existsb_exists, in_flat_map. intros (r & Hr & [H1 H2]%andb_true_iff).
  exists r. split; [done|]. apply list_elem_of_In, elem_of_seqZ. lia.
Qed.

(** From every state of the table one more letter of a name does nothing and
    leads to the state of the longer text. *)
Definition track_check (w : list Z) (L : state) : bool :=
  forallb (λ c, match step false L c with
                | Some ([], L') => state_eqb L' (name_state (w ++ [tolower c]))
                | _ => false
                end) (chars name_chars).

Lemma tracked_steps : forallb (λ e, track_check e.1 e.2) tracked = true.
Proof. check. Qed.

(** The table contains the beginnings of its texts. *)
Lemma tracked_prefixes :
  forallb (λ e, (length e.1 <=? 1)%nat || bool_decide (is_Some (lookup_text (take (length e.1 - 1) e.1)))) tracked = true.
Proof. check. Qed.

(** The first letter. *)
Definition first_check (Q : states) (acts : list Action.action) : bool :=
  forallb (λ L, forallb (λ c, match step false L c with
                | Some (a, L') => bool_decide (a = acts) && state_eqb L' (name_state [c])
                | None => false
                end) (chars name_chars)) Q.
Lemma header_first : first_check q_header [Action.start_field] = true.
Proof. check. Qed.
Lemma plain_rest : leads [plain] name_chars [] [plain] = true.
Proof. check. Qed.

(** The colon: an ordinary field follows any name that is not special. *)
Lemma colon_plain :
  forallb (λ e, bool_decide (e.1 ∈ special) || leads [e.2] (code 58) [Action.write_field] q_colon) tracked &&
  leads [plain] (code 58) [Action.write_field] q_colon = true.
Proof. check. Qed.

Lemma tolower_idemp c : tolower (tolower c) = tolower c.
Proof.
  unfold tolower. destruct (Z.leb_spec 65 c), (Z.leb_spec c 90); cbn [andb];
    repeat match goal with |- context [?x <=? ?y] => destruct (Z.leb_spec x y) end; simpl; lia.
Qed.

Lemma name_state_folded w c : name_state ((tolower <$> w) ++ [tolower c]) = name_state (w ++ [c]).
Proof.
  unfold name_state. rewrite !fmap_app. cbn [fmap list_fmap]. rewrite tolower_idemp.
  replace (tolower <$> (tolower <$> w)) with (tolower <$> w); [done|].
  rewrite <-list_fmap_compose. apply list_fmap_ext. intros i x _. simpl. by rewrite tolower_idemp.
Qed.

Lemma lookup_text_spec w L : lookup_text w = Some L → In (w, L) tracked.
Proof.
  unfold lookup_text. destruct (List.find _ tracked) as [[w' L']|] eqn:E; [|done].
  intros [= <-]. apply find_some in E as [Hin He]. by apply bool_decide_eq_true in He as <-.
Qed.

Lemma lookup_text_none w e : lookup_text w = None → In e tracked → e.1 ≠ w.
Proof.
  unfold lookup_text. destruct (List.find _ tracked) eqn:E; [done|]. intros _ He Hw.
  apply (find_none _ _ E) in He. by apply bool_decide_eq_false in He.
Qed.

(** What is not in the table stays out of it. *)
Lemma plain_stays w c : w ≠ [] → lookup_text w = None → lookup_text (w ++ [c]) = None.
Proof.
  intros Hne Hw. destruct (lookup_text (w ++ [c])) as [L|] eqn:E; [|done]. exfalso.
  apply lookup_text_spec in E. pose proof (proj1 (forallb_forall _ _) tracked_prefixes _ E) as H.
  cbn [fst] in H. rewrite length_app in H. cbn [length] in H.
  destruct (Nat.leb_spec (length w + 1) 1) as [Hl|Hl]; [destruct w; [done|simpl in Hl; lia]|].
  simpl in H. apply bool_decide_eq_true in H. replace (length w + 1 - 1)%nat with (length w) in H by lia.
  rewrite take_app_length, Hw in H. by destruct H.
Qed.

(** One more letter. *)
Lemma name_step w c :
  w ≠ [] → mem name_chars c = true → step false (name_state w) c = Some ([], name_state (w ++ [c])).
Proof.
  intros Hne Hc. destruct (lookup_text (tolower <$> w)) as [L|] eqn:E.
  - assert (name_state w = L) as -> by (unfold name_state; by rewrite E).
    apply lookup_text_spec in E. pose proof (proj1 (forallb_forall _ _) tracked_steps _ E) as H.
    unfold track_check in H. rewrite forallb_forall in H. specialize (H c (elem_of_chars _ c Hc)). cbn [fst snd] in H.
    destruct (step false L c) as [[[|] L']|]; [|discriminate H|discriminate H].
    apply state_eqb_eq in H. by rewrite H, name_state_folded.
  - assert (name_state w = plain) as -> by (unfold name_state; by rewrite E).
    assert (name_state (w ++ [c]) = plain) as ->.
    { unfold name_state. rewrite fmap_app. cbn [fmap list_fmap]. rewrite plain_stays; [done| |done]. by destruct w. }
    by apply (leads_one false plain name_chars [] plain c plain_rest).
Qed.

(** ** What the machine says *)
Inductive event :=
| field (name value : list Z)
| said (e : Element.element) (text : list Z)
| outside.

(** Behind a status is a character that is not a digit. *)
Definition ends_number (B : list Z) (a l : Z) : bool :=
  match B !! Z.to_nat (a + l) with Some c => negb (HttpParser.is_digit c) | None => false end.

Definition hear (B : list Z) (c : call) : event :=
  match c with
  | http_field f fl v vl =>
      match heard_text B f fl, heard_text B v vl with
      | Some n, Some w => field n w
      | _, _ => outside
      end
  | element_cb e a l =>
      match heard_text B a l with
      | Some w => if bool_decide (e = Element.status_code) && negb (ends_number B a l) then outside else said e w
      | None => outside
      end
  end.
Definition heard (B : list Z) (v : vars) : list event := hear B <$> rev v.2.

(** No end was reached yet, and nothing announced chunks. *)
Definition idle (v : vars) : Prop := chunked v.1 = false ∧ body_start v.1 = 0.

Section says.
Variable B : list Z.
Hypothesis small : Z.of_nat (length B) < 2 ^ 63.
Variable pe : Z.
Variable memory : list Z.
Abbreviation act := (HttpClientParser.act memory pe).
Abbreviation says := (RagelProps.says false act B (heard B) idle).
Abbreviation reads_word := (RagelProps.reads_word false act).

Lemma rs_LEN_text p w c l : drop p B = w ++ c :: l →
  LEN (Z.of_nat p) (Z.of_nat (p + length w)) = Z.of_nat (length w) ∧
  heard_text B (Z.of_nat p) (Z.of_nat (length w)) = Some w.
Proof.
  intros Hd. pose proof (drop_cons_lt _ _ _ _ _ Hd) as Hlt.
  split; [unfold LEN; rewrite uint_id by (unfold in_uint; lia); lia|].
  by apply (heard_text_at B p w (c :: l) Hd); lia.
Qed.

Lemma rs_heard_emit c v : heard B (emit c v) = heard B v ++ [hear B (c v.1)].
Proof. unfold heard, emit. cbn [snd rev]. by rewrite fmap_app. Qed.

(** The elements that start at the mark. *)
Definition element_of (a : Action.action) : option Element.element :=
  match a with
  | Action.http_version => Some Element.http_version
  | Action.status_code => Some Element.status_code
  | Action.reason_phrase => Some Element.reason_phrase
  | _ => None
  end.

Lemma says_element Q w Q1 c a e Q2 :
  reads_word Q [Action.mark] w Q1 → leads Q1 (code c) [a] Q2 = true → element_of a = Some e →
  HttpParser.is_digit c = false → says Q (w ++ [c]) [said e w] Q2.
Proof.
  intros Hw Hc He Hnd. apply (says_word _ _ _ _ _ _ [Action.mark] _ Q1 _ [a]); [done..|].
  intros p l v Hd [Hv1 Hv2]. set (v1 := update (set_mark (Z.of_nat p)) v).
  assert (∃ f, (∀ q, mark (f q) = mark q ∧ chunked (f q) = chunked q ∧ body_start (f q) = body_start q) ∧
    act a (p + length w) v1 = (element_at_mark e (Z.of_nat (p + length w)) (update f v1), true)) as (f & Hf & E).
  { destruct a; try done; injection He as <-; [by exists id|..|by exists id].
    eexists (λ p, set_status _ p). split; [done|]. reflexivity. }
  eexists v1, _. split; [reflexivity|]. cbn [do_actions]. rewrite E. split; [reflexivity|].
  destruct (Hf v1.1) as (Hm & H1 & H2). split.
  - unfold element_at_mark. rewrite rs_heard_emit. cbn [update fst]. rewrite Hm.
    change (mark v1.1) with (Z.of_nat p). cbn [hear].
    destruct (rs_LEN_text p w _ _ Hd) as [-> ->].
    assert (ends_number B (Z.of_nat p) (Z.of_nat (length w)) = true) as ->.
    { unfold ends_number. replace (Z.to_nat _) with (p + length w)%nat by lia.
      rewrite <-lookup_drop, Hd, lookup_app_r, Nat.sub_diag by lia. simpl. by rewrite Hnd. }
    by rewrite andb_false_r.
  - unfold idle. cbn [element_at_mark emit update fst]. by rewrite H1, H2.
Qed.

(** *** Fields *)

(** The actions in front of a name and those behind a value. *)
Definition starts_field (first : list Action.action) : Prop :=
  ∀ p v, idle v → ∃ v1, do_actions act first p v = (v1, true) ∧ field_start v1.1 = Z.of_nat p ∧
    heard B v1 = heard B v ∧ idle v1.
Definition ends_value (last : list Action.action) : Prop :=
  ∀ p v, ∃ v2, do_actions act last p v = (v2, true) ∧
    heard B v2 = heard B v ++ [hear B (http_field (field_start v.1) (field_len v.1) (mark v.1) (LEN (mark v.1) (Z.of_nat p)))] ∧
    (idle v → idle v2).

Lemma starts_plain : starts_field [Action.start_field].
Proof. intros p v Hv. eexists. split; [reflexivity|]. done. Qed.
Lemma starts_after_close : starts_field [Action.write_connection_close; Action.start_field].
Proof. intros p v Hv. eexists. split; [reflexivity|]. done. Qed.
Lemma ends_plain : ends_value [Action.write_value].
Proof. intros p v. eexists. split; [reflexivity|]. split; [by rewrite rs_heard_emit|done]. Qed.
Lemma ends_length : ends_value [Action.write_content_len; Action.write_value].
Proof. intros p v. eexists. split; [reflexivity|]. split; [by rewrite rs_heard_emit|done]. Qed.

Definition line (e : list Z * list Z) : list Z := e.1 ++ str ": " ++ e.2 ++ Http.crlf.

(** The value between the blank and CR; the mark is at its first character. *)
Definition reads_value (Qb : states) (w : list Z) (last : list Action.action) (Q1 : states) : Prop :=
  (w = [] ∧ leads Qb (code 13) (Action.start_value :: last) Q1 = true) ∨
  (∃ Qv, reads_word Qb [Action.start_value] w Qv ∧ leads Qv (code 13) last Q1 = true).

Lemma value_heard Qb w last Q1 p0 n f L p l v :
  reads_value Qb w last Q1 → ends_value last → In L Qb → drop p B = w ++ 13 :: l →
  drop p0 B = n ++ 58 :: f → field_start v.1 = Z.of_nat p0 → field_len v.1 = Z.of_nat (length n) → idle v →
  ∃ L' v', In L' Q1 ∧ exec false act L p (w ++ 13 :: l) v = exec false act L' (S (p + length w)) l v' ∧
    heard B v' = heard B v ++ [field n w] ∧ idle v'.
Proof.
  intros Hw Hlast HL Hd Hn Hs Hl Hv.
  set (v1 := update (set_mark (Z.of_nat p)) v).
  destruct (Hlast (p + length w)%nat v1) as (v2 & Hdo & Hh & Hi).
  assert (heard B v2 = heard B v ++ [field n w]) as Hf.
  { rewrite Hh. change (heard B v1) with (heard B v). do 2 f_equal. cbn [v1 update fst field_start field_len mark set_mark hear].
    destruct (rs_LEN_text _ _ _ _ Hd) as [-> ->]. rewrite Hs, Hl. by destruct (rs_LEN_text _ _ _ _ Hn) as [_ ->]. }
  destruct Hw as [[-> Hc]|(Qv & Hr & Hc)].
  - destruct (exec_code false act Qb 13 _ Q1 L p l v v2 Hc HL) as (L1 & HL1 & E).
    { cbn [length] in Hdo. rewrite Nat.add_0_r in Hdo. exact Hdo. }
    exists L1, v2. cbn [app length]. rewrite E, Nat.add_0_r. split_and!; try done. by apply Hi.
  - destruct (Hr L p (13 :: l) v v1 HL eq_refl) as (L1 & HL1 & E1).
    destruct (exec_code false act Qv 13 last Q1 L1 (p + length w) l v1 v2 Hc HL1 Hdo) as (L2 & HL2 & E2).
    exists L2, v2. rewrite E1, E2. split_and!; try done. by apply Hi.
Qed.

Lemma says_field Q0 first n Qn Qc Qb w last Q1 Q2 :
  reads_word Q0 first n Qn → starts_field first →
  leads Qn (code 58) [Action.write_field] Qc = true → leads Qc (code 32) [Action.start_value] Qb = true →
  reads_value Qb w last Q1 → ends_value last → leads Q1 (code 10) [] Q2 = true →
  says Q0 (line (n, w)) [field n w] Q2.
Proof.
  intros Hn Hfirst Hc Hb Hw Hlast Hlf L p l v HL Hd Hv. unfold line in *. cbn [fst snd] in *.
  change (str ": ") with [58; 32] in *. change Http.crlf with [13; 10] in *.
  rewrite <-!app_assoc in *. cbn [app] in *.
  destruct (Hfirst p v Hv) as (v1 & Hdo1 & Hs1 & Hh1 & Hi1).
  destruct (Hn L p (58 :: 32 :: w ++ 13 :: 10 :: l) v v1 HL Hdo1) as (L1 & HL1 & E1).
  destruct (rs_LEN_text _ _ _ _ Hd) as [Hlen _].
  set (v2 := update (λ q, set_field_len (LEN (field_start q) (Z.of_nat (p + length n))) q) v1).
  destruct (exec_code false act _ 58 _ _ L1 (p + length n) (32 :: w ++ 13 :: 10 :: l) v1 v2 Hc HL1 eq_refl)
    as (L2 & HL2 & E2).
  set (v3 := update (set_mark (Z.of_nat (S (p + length n)))) v2).
  destruct (exec_code false act _ 32 _ _ L2 (S (p + length n)) (w ++ 13 :: 10 :: l) v2 v3 Hb HL2 eq_refl)
    as (L3 & HL3 & E3).
  pose proof (drop_next B p (n ++ [58; 32]) (w ++ 13 :: 10 :: l) ltac:(by rewrite <-app_assoc)) as Hdw.
  replace (p + length (n ++ [58; 32]%Z))%nat with (S (S (p + length n))) in Hdw by (rewrite length_app; simpl; lia).
  destruct (value_heard Qb w last Q1 p n (32 :: w ++ 13 :: 10 :: l) L3 _ (10 :: l) v3 Hw Hlast HL3 Hdw Hd)
    as (L4 & v4 & HL4 & E4 & Hh4 & Hi4).
  { exact Hs1. }
  { cbn [v3 v2 update fst field_len set_mark set_field_len]. by rewrite Hs1. }
  { exact Hi1. }
  destruct (exec_code false act _ 10 _ _ L4 (S (S (S (p + length n)) + length w)) l v4 v4 Hlf HL4 eq_refl)
    as (L5 & HL5 & E5).
  exists L5, v4. split; [done|]. split; [|split; [|done]].
  - rewrite E1, E2, E3, E4, E5. f_equal. rewrite length_app. cbn [length]. rewrite length_app. simpl. lia.
  - rewrite Hh4. change (heard B v3) with (heard B v1). by rewrite Hh1.
Qed.

(** A field without a meaning of its own. *)
Definition is_name (w : list Z) : Prop := w ≠ [] ∧ all name_chars w ∧ (tolower <$> w) ∉ special.
Definition is_value (w : list Z) : Prop := w = [] ∨ starts value_start value_chars w.

Lemma exec_name w u p l v :
  w ≠ [] → all name_chars u →
  exec false act (name_state w) p (u ++ l) v = exec false act (name_state (w ++ u)) (p + length u) l v.
Proof.
  revert w p. induction u as [|c u IH]; intros w p Hne Hu.
  { by rewrite app_nil_r, Nat.add_0_r. }
  apply Forall_cons in Hu as [Hc Hu]. cbn [app exec]. rewrite (name_step w c Hne Hc). cbn [do_actions].
  assert (w ++ [c] ≠ []) as Hne' by (by destruct w).
  rewrite (IH (w ++ [c]) (S p) Hne' Hu), <-app_assoc. cbn [app length]. rewrite Nat.add_succ_r. reflexivity.
Qed.

Lemma reads_name w : w ≠ [] → all name_chars w → reads_word q_header [Action.start_field] w [name_state w].
Proof.
  intros Hne Hw L p l v v' HL Hd. destruct w as [|c u]; [done|]. apply Forall_cons in Hw as [Hc Hu].
  exists (name_state (c :: u)). split; [by left|]. cbn [app exec].
  pose proof (proj1 (forallb_forall _ _) (proj1 (forallb_forall _ _) header_first L HL) c (elem_of_chars _ c Hc)) as H.
  cbv beta in H. destruct (step false L c) as [[a L']|]; [|discriminate H].
  apply andb_true_iff in H as [Ha HL']. apply bool_decide_eq_true in Ha. apply state_eqb_eq in HL'.
  assert ([c] ≠ []) as Hne' by done.
  rewrite Ha, HL', Hd, (exec_name [c] u (S p) l v' Hne' Hu). cbn [app length]. rewrite Nat.add_succ_r. reflexivity.
Qed.

Lemma colon_of_name w : (tolower <$> w) ∉ special → leads [name_state w] (code 58) [Action.write_field] q_colon = true.
Proof.
  intros Hw. destruct (andb_prop _ _ colon_plain) as [Ht Hp]. unfold name_state.
  destruct (lookup_text (tolower <$> w)) as [L|] eqn:E; [|exact Hp].
  apply lookup_text_spec in E. pose proof (proj1 (forallb_forall _ _) Ht _ E) as H. cbn [fst snd] in H.
  apply orb_true_iff in H as [H|H]; [|exact H].
  apply bool_decide_eq_true in H. destruct (Hw H).
Qed.

Lemma reads_plain_value w : is_value w → reads_value q_blank w [Action.write_value] q_cr.
Proof.
  intros [->|Hw]; [left; split; [done|apply rs_value_empty]|].
  right. exists q_value. split; [|apply rs_value_end]. by apply (reads_starts _ _ _ value_start _ _ value_chars _ rs_value_first rs_value_rest).
Qed.

Lemma rs_says_line n w : is_name n → is_value w → says q_header (line (n, w)) [field n w] q_header.
Proof.
  intros (Hne & Hn & Hs) Hw. apply (says_field _ [Action.start_field] _ [name_state n] q_colon q_blank _ [Action.write_value] q_cr).
  - by apply reads_name.
  - apply starts_plain.
  - by apply colon_of_name.
  - apply rs_colon_blank.
  - by apply reads_plain_value.
  - apply ends_plain.
  - apply value_lf.
Qed.

Lemma rs_says_lines hs :
  Forall (λ e, is_name e.1 ∧ is_value e.2) hs →
  says q_header (concat (line <$> hs)) ((λ e, field e.1 e.2) <$> hs) q_header.
Proof.
  induction 1 as [|[n w] hs [Hn Hw] _ IH].
  - apply says_nil.
  - exact (says_app _ _ _ _ _ _ _ [field n w] _ _ _ _ (rs_says_line n w Hn Hw) IH).
Qed.

(** *** The fields at the end of a printed head *)
Definition connection_value (close : bool) : list Z := if close then str "close" else str "keep-alive".
Definition connection_states (close : bool) : states := if close then q_closed else q_header.

Lemma says_connection close :
  says q_header (line (str "Connection", connection_value close))
    [field (str "Connection") (connection_value close)] (connection_states close).
Proof.
  apply (says_field _ [Action.start_field] _ q_conn_name q_conn_colon q_conn_blank _ [Action.write_value]
    (if close then q_close_cr else q_cr)).
  - apply reads_literal, conn_name.
  - apply starts_plain.
  - apply conn_colon.
  - apply conn_blank.
  - right. destruct close; [exists q_close|exists q_keep]; (split; [apply reads_literal|]);
      [apply conn_close|apply close_end|apply conn_keep|apply keep_end].
  - apply ends_plain.
  - destruct close; [apply close_lf|apply value_lf].
Qed.

Lemma says_length close w :
  starts digit digit w →
  says (connection_states close) (line (str "Content-Length", w)) [field (str "Content-Length") w] q_header.
Proof.
  intros Hw.
  apply (says_field _ (if close then [Action.write_connection_close; Action.start_field] else [Action.start_field])
    _ q_length_name q_length_colon q_length_blank _ [Action.write_content_len; Action.write_value] q_length_cr).
  - destruct close; apply reads_literal; [apply length_name_after_close|apply length_name].
  - destruct close; [apply starts_after_close|apply starts_plain].
  - apply length_colon.
  - apply length_blank.
  - right. exists q_length. split; [|apply length_end].
    by apply (reads_starts _ _ _ digit _ _ digit _ length_first length_rest).
  - apply ends_length.
  - apply length_lf.
Qed.

(** *** The status line *)
Definition is_reason (w : list Z) : Prop := starts reason_chars reason_chars w.

Lemma says_status_line version status reason :
  version ∈ versions → starts digit digit status → is_reason reason →
  says q_start (version ++ str " " ++ status ++ str " " ++ reason ++ Http.crlf)
    [said Element.http_version version; said Element.status_code status; said Element.reason_phrase reason] q_header.
Proof.
  intros Hv Hs Hr.
  replace (version ++ str " " ++ status ++ str " " ++ reason ++ Http.crlf) with
    ((version ++ [32]) ++ (status ++ [32]) ++ (reason ++ [13]) ++ [10]) by by rewrite <-!app_assoc.
  apply (says_app _ _ _ _ _ _ _ [said Element.http_version version] q_code).
  { apply (says_element _ _ q_http _ Action.http_version); [|apply rs_version_end|done|done].
    apply reads_literal. apply (proj1 (forallb_forall _ _) rs_version_read). by apply list_elem_of_In. }
  apply (says_app _ _ _ _ _ _ _ [said Element.status_code status] q_phrase).
  { apply (says_element _ _ q_status _ Action.status_code); [|apply status_end|done|done].
    by apply (reads_starts _ _ _ digit _ _ digit _ status_first status_rest). }
  apply (says_app _ _ _ _ _ _ _ [said Element.reason_phrase reason] q_reason_cr _ []).
  { apply (says_element _ _ q_reason _ Action.reason_phrase); [|apply reason_end|done|done].
    by apply (reads_starts _ _ _ reason_chars _ _ reason_chars _ reason_first reason_rest). }
  apply (says_incl _ _ _ _ _ q_reason_cr _ _ _ q_line); [|apply incl_refl|apply rs_line_header].
  apply says_nothing, reason_lf.
Qed.

(** The empty line ends the run, and the rest is reported. *)
Lemma rs_exec_last close L p l v :
  pe = Z.of_nat (length B) → In L (connection_states close) ∨ In L q_header → drop p B = 13 :: 10 :: l → idle v →
  ∃ v', exec false act L p (13 :: 10 :: l) v = (Some [Eps], (p + 2)%nat, v') ∧
    heard B v' = heard B v ++ [said Element.header_done l] ∧ chunked v'.1 = false.
Proof.
  intros Hpe HL Hd Hi.
  assert (∃ L1 v1, In L1 q_last ∧ exec false act L p (13 :: 10 :: l) v = exec false act L1 (S p) (10 :: l) v1 ∧
    heard B v1 = heard B v ∧ chunked v1.1 = chunked v.1) as (L1 & v1 & HL1 & E1 & Hh1 & Hc1).
  { destruct HL as [HL|HL]; [destruct close|].
    - destruct (exec_code false act _ 13 _ _ L p (10 :: l) v (update (set_close true) v) closed_cr HL eq_refl)
        as (L1 & HL1 & E1). eexists L1, _. split; [done|]. split; [exact E1|done].
    - destruct (exec_code false act _ 13 _ _ L p (10 :: l) v v rs_head_cr HL eq_refl) as (L1 & HL1 & E1). by exists L1, v.
    - destruct (exec_code false act _ 13 _ _ L p (10 :: l) v v rs_head_cr HL eq_refl) as (L1 & HL1 & E1). by exists L1, v. }
  destruct (exec_leads false act _ (code 10) _ _ L1 10 (S p) l v1 rs_head_lf HL1 eq_refl) as (L2 & [<-|[]] & E2).
  exists (done pe (Z.of_nat (S p)) v1). rewrite E1, E2. cbn [do_actions HttpClientParser.act].
  split; [by rewrite Nat.add_comm|]. unfold done. split; [|by destruct Hi as [<- _]].
  rewrite rs_heard_emit. change (heard B (update _ v1)) with (heard B v1). rewrite Hh1. do 2 f_equal.
  cbn [hear]. rewrite Hpe. by rewrite (heard_rest B p l Hd).
Qed.
End says.
