(* ===== verification/HttpClientParserProps.v ===== *)
(** Properties of the machine of responses: no assertion but the one about the
    NUL behind the text can fail ([response_machine_safe]), a printed response
    is heard as it is ([response_text_heard]), a chunk head gives its size
    ([chunk_head_read]). *)
From stdpp Require Import base list numbers option strings.
From Stdlib Require Import ZArith Lia.
From S2P Require Import Prelude CString Http HttpParser Ragel RagelProps HttpClientParser HttpClientScan.
Import Machine HttpClientParser.
Local Open Scope Z_scope.

(** ** Safety *)
Section safety.
Variable pe : nat.
Hypothesis small : Z.of_nat pe < 2 ^ 63.

Definition marked (p : nat) (m : Z) : Prop := 0 ≤ m ∧ (m = 0 ∨ m < Z.of_nat p).

Definition sound (p : nat) (v : vars) : Prop :=
  marked p (mark v.1) ∧ marked p (field_start v.1) ∧ 0 ≤ field_len v.1 ≤ Z.of_nat p ∧
  0 ≤ body_start v.1 ≤ Z.of_nat pe ∧ nread v.1 = 0.

(** While the actions of a character are executed. *)
Definition before (p : nat) (v : vars) : Prop :=
  (p < pe)%nat ∧ sound (S p) v ∧ mark v.1 ≤ Z.of_nat p ∧ field_start v.1 ≤ Z.of_nat p ∧ field_len v.1 ≤ Z.of_nat p.

Lemma rs_sound_before p v : (p < pe)%nat → sound p v → before p v.
Proof. intros Hp (Hm & Hf & Hl & Hb & Hn). unfold before, sound, marked in *. split_and!; try done; lia. Qed.

Lemma rs_act_before memory a p v v' go :
  before p v → act memory (Z.of_nat pe) a p v = (v', go) → if go then before p v' else sound (S p) v'.
Proof.
  intros (Hp & Hs & Hm & Hf & Hl) E. pose proof Hs as (Hm1 & Hf1 & Hl1 & Hb1 & Hn1). unfold marked in Hm1, Hf1.
  destruct a; cbn [act] in E; injection E as <- <-;
    try (unfold before, sound, marked; cbn; split_and!; try done; lia).
  - unfold before, sound, marked. cbn. unfold LEN. rewrite uint_id by (unfold in_uint; lia). split_and!; try done; lia.
  - unfold on_chunk_size. destruct (chunks_done _); unfold before, sound, marked; cbn; split_and!; try done; lia.
Qed.

Lemma rs_exec_sound cond memory L p l v o p' v' :
  (p + length l ≤ pe)%nat → sound p v → exec cond (act memory (Z.of_nat pe)) L p l v = (o, p', v') → sound p' v'.
Proof.
  apply (exec_invariant _ _ sound before); [apply rs_sound_before|by intros ? ? (_ & ? & _)|].
  intros a q u u' go. apply rs_act_before.
Qed.
End safety.

(** What the parser starts the loop with. *)
Definition reset (p : httpclient_parser) : httpclient_parser :=
  set_field_start 0 (set_field_len 0 (set_mark 0 (set_nread 0 p))).

Lemma rs_reset_sound p pe : 0 ≤ body_start p ≤ Z.of_nat pe → sound pe 0 (reset p, []).
Proof. intros Hb. unfold sound, marked. cbn. split_and!; try done; lia. Qed.

(** A run of the loop over a text with a NUL behind it is what
    [httpclient_parser_execute] answers. *)
Lemma rs_execute_run p text after L o pos v :
  cs p = Some L → text ≠ [] → Z.of_nat (length text) < 2 ^ 63 → 0 ≤ body_start p ≤ Z.of_nat (length text) →
  exec false (act (text ++ 0 :: after) (Z.of_nat (length text))) L 0 text (reset p, []) = (o, pos, v) →
  httpclient_parser_execute p (text ++ 0 :: after) (length text) 0 =
    Some (Z.of_nat pos, set_nread (Z.of_nat pos) (set_cs o v.1), rev v.2).
Proof.
  intros Hcs Hne Hsmall Hb He. unfold httpclient_parser_execute. fold (reset p).
  rewrite (bool_decide_eq_true_2 ((text ++ 0 :: after) !! length text = Some 0))
    by (by rewrite lookup_app_r, Nat.sub_diag by lia).
  cbn [Nat.leb andb negb]. unfold write_exec. cbn [fst]. change (cs (reset p)) with (cs p).
  rewrite Hcs, drop_0, take_app_length, He. destruct v as [p1 calls1]. cbn [fst snd].
  pose proof (rs_exec_sound (length text) Hsmall false _ _ 0%nat text _ _ _ _ (Nat.le_refl _) (rs_reset_sound _ _ Hb) He)
    as (Hm & Hf & Hl & Hbs & Hn).
  destruct (exec_run _ _ _ _ _ _ _ _ _ He) as [Hpos _].
  assert (0 < length text)%nat as Hpos' by (destruct text; [done|simpl; lia]).
  unfold marked in *. cbn [fst nread set_cs set_nread body_start mark field_len field_start] in *. rewrite Hn.
  replace (0 + (Z.of_nat pos - Z.of_nat 0)) with (Z.of_nat pos) by lia.
  destruct (Nat.leb_spec pos (length text)); [|lia].
  repeat match goal with |- context [?x <=? ?y] => destruct (Z.leb_spec x y); [|lia] end.
  by repeat match goal with |- context [?x <? ?y] => destruct (Z.ltb_spec x y); [|lia] end.
Qed.

(** The first assertion: what is behind the text is NUL. *)
Lemma no_nul_fails (p : httpclient_parser) (memory : list Z) n c :
  memory !! n = Some c → c ≠ 0 → httpclient_parser_execute p memory n 0 = None.
Proof.
  intros Hm Hc. unfold httpclient_parser_execute. rewrite bool_decide_eq_false_2; [done|]. rewrite Hm. congruence.
Qed.


(** ** Responses *)
Definition response_head (version status reason : list Z) (hs : list (list Z * list Z)) (close : bool)
    (length_ : option (list Z)) : list Z :=
  version ++ str " " ++ status ++ str " " ++ reason ++ Http.crlf ++ concat (line <$> hs) ++
  line (str "Connection", connection_value close) ++
  match length_ with Some w => line (str "Content-Length", w) | None => [] end ++ Http.crlf.

Definition response_events (version status reason : list Z) (hs : list (list Z * list Z)) (close : bool)
    (length_ : option (list Z)) : list event :=
  [said Element.http_version version; said Element.status_code status; said Element.reason_phrase reason] ++
  ((λ e, field e.1 e.2) <$> hs) ++ [field (str "Connection") (connection_value close)] ++
  match length_ with Some w => [field (str "Content-Length") w] | None => [] end.

Record response_ok (version status reason : list Z) (hs : list (list Z * list Z)) (length_ : option (list Z)) : Prop := {
  ok_version : version ∈ versions;
  ok_status : starts digit digit status;
  ok_reason : is_reason reason;
  ok_headers : Forall (λ e, is_name e.1 ∧ is_value e.2) hs;
  ok_length : ∀ w, length_ = Some w → starts digit digit w
}.

(** The head of a response as HttpResponse prints it, with whatever fields
    besides the special ones: version, status, reason and every field are called
    for as they are printed, the machine is finished behind the empty line
    and has seen no announcement of chunks. *)
Theorem response_text_heard (version status reason rest after : list Z) (hs : list (list Z * list Z))
    (close : bool) (length_ : option (list Z)) (memory : httpclient_parser) :
  response_ok version status reason hs length_ →
  let head := response_head version status reason hs close length_ in
  let text := head ++ rest in
  Z.of_nat (length text) < 2 ^ 63 →
  ∃ p' calls,
    httpclient_parser_execute (httpclient_parser_init memory) (text ++ 0 :: after) (length text) 0 =
      Some (Z.of_nat (length head), p', calls) ∧
    httpclient_parser_is_finished p' = true ∧ httpclient_parser_has_error p' = false ∧ chunked p' = false ∧
    hear text <$> calls = response_events version status reason hs close length_ ++ [said Element.header_done rest].
Proof.
  intros [Hv Hs Hr Hh Hl] head text Hsmall. set (p := httpclient_parser_init memory).
  set (tail := match length_ with Some w => line (str "Content-Length", w) | None => [] end).
  set (front := (version ++ str " " ++ status ++ str " " ++ reason ++ Http.crlf) ++ concat (line <$> hs) ++
    line (str "Connection", connection_value close) ++ tail).
  assert (text = front ++ 13 :: 10 :: rest) as Htext.
  { unfold text, head, response_head, front. fold tail. by rewrite <-!app_assoc. }
  assert (text ≠ []) as Hne by (rewrite Htext; by destruct front).
  set (pe := Z.of_nat (length text)).
  set (says := RagelProps.says false (act (text ++ 0 :: after) pe) text (heard text) idle).
  assert (∃ Q, says q_start front (response_events version status reason hs close length_) Q ∧
    (Q = connection_states close ∨ Q = q_header)) as (Q & Hsays & HQ).
  { exists (match length_ with Some _ => q_header | None => connection_states close end). split.
    - unfold front, response_events.
      apply (says_app _ _ _ _ _ _ _ _ q_header); [by apply says_status_line|].
      apply (says_app _ _ _ _ _ _ _ _ q_header); [by apply rs_says_lines|].
      apply (says_app _ _ _ _ _ _ _ _ (connection_states close)); [by apply says_connection|].
      unfold tail. destruct length_ as [w|]; [apply says_length; [done|by apply Hl]|apply says_nil].
    - destruct length_; auto. }
  destruct (Hsays httpclient_parser_start 0%nat (13 :: 10 :: rest) (reset p, []) ltac:(by left) Htext
    (conj eq_refl eq_refl)) as (L1 & v1 & HL1 & E1 & Hh1 & Hi1).
  assert (In L1 (connection_states close) ∨ In L1 q_header) as HL1' by (destruct HQ as [->| ->]; auto).
  destruct (rs_exec_last text pe (text ++ 0 :: after) close L1 _ rest v1 eq_refl HL1'
    (drop_next text 0 _ _ Htext) Hi1) as (v2 & E2 & Hh2 & Hc2).
  rewrite <-Htext, E2 in E1.
  eexists _, _. split.
  { rewrite (rs_execute_run p text after _ _ _ _ eq_refl Hne Hsmall ltac:(cbn; lia) E1). do 3 f_equal.
    unfold text in Htext. assert (head = front ++ Http.crlf) as ->; [|rewrite length_app; simpl; lia].
    unfold head, response_head, front. fold tail. by rewrite <-!app_assoc. }
  split; [done|]. split; [done|]. split; [exact Hc2|].
  change (hear text <$> rev v2.2) with (heard text v2). by rewrite Hh2, Hh1.
Qed.

(** ** Chunks *)
Definition hex_value (w : list Z) : Z := foldl (λ acc c, 16 * acc + digit_value c) 0 w.

Lemma xdigit_range c : mem xdigit c = true → 48 ≤ c ≤ 57 ∨ 65 ≤ c ≤ 70 ∨ 97 ≤ c ≤ 102.
Proof.
  unfold mem, xdigit. cbn. rewrite !orb_true_iff, !andb_true_iff, !Z.leb_le. naive_solver.
Qed.

Lemma digit_value_xdigit c : mem xdigit c = true → 0 ≤ digit_value c < 16.
Proof.
  intros H%xdigit_range. unfold digit_value, mem, digit. cbn.
  repeat match goal with |- context [?x <=? ?y] => destruct (Z.leb_spec x y) end; cbn; lia.
Qed.

Lemma number_hex w acc l :
  all xdigit w → number 16 acc (w ++ 13 :: l) = foldl (λ acc c, 16 * acc + digit_value c) acc w.
Proof.
  intros Hw. revert acc. induction Hw as [|c w Hc _ IH]; intros acc; cbn [app foldl]; [done|].
  cbn [number]. pose proof (digit_value_xdigit c Hc). destruct (Z.ltb_spec (digit_value c) 16); [apply IH|lia].
Qed.

Lemma hex_value_nonneg w : all xdigit w → 0 ≤ hex_value w.
Proof.
  intros Hw. unfold hex_value. assert (∀ acc, 0 ≤ acc → 0 ≤ foldl (λ acc c, 16 * acc + digit_value c) acc w) as H;
    [|by apply H]. induction Hw as [|c w Hc _ IH]; intros acc Hacc; cbn [foldl]; [done|].
  pose proof (digit_value_xdigit c Hc). apply IH. lia.
Qed.

(** The digits of a chunk head: no sign, no blanks and no prefix. *)
Lemma strtol_hex w l :
  w ≠ [] → all xdigit w → hex_value w < 2 ^ 63 → strtol 16 (w ++ 13 :: l) = hex_value w.
Proof.
  intros Hne Hw Hv. destruct w as [|c w]; [done|]. pose proof Hw as [Hc Hw']%Forall_cons.
  pose proof (xdigit_range c Hc) as Hr. unfold strtol.
  assert (HttpParser.skip_spaces ((c :: w) ++ 13 :: l) = (c :: w) ++ 13 :: l) as ->.
  { cbn [app HttpParser.skip_spaces]. unfold HttpParser.is_space.
    repeat match goal with |- context [?x <=? ?y] => destruct (Z.leb_spec x y)
           | |- context [?x =? ?y] => destruct (Z.eqb_spec x y) end; cbn; try done; lia. }
  assert (prefixed 16 ((c :: w) ++ 13 :: l) = (c :: w) ++ 13 :: l) as Hp.
  { assert (∀ x, mem xdigit x = true ∨ x = 13 → (x =? 120) || (x =? 88) = false) as Hx.
    { intros x [H%xdigit_range| ->]; [|done]. apply orb_false_iff. rewrite !Z.eqb_neq. lia. }
    assert (∃ x y, w ++ 13 :: l = x :: y ∧ (mem xdigit x = true ∨ x = 13)) as (x & y & E & H).
    { destruct w as [|x w]; [by eexists _, _; split; [|by right]|].
      apply Forall_cons in Hw' as [H _]. eexists _, _. split; [done|by left]. }
    cbn [app]. rewrite E. unfold prefixed. rewrite (Hx x H), andb_false_r.
    by repeat (destruct c as [|c|c]; try done); destruct y. }
  pose proof (hex_value_nonneg (c :: w) Hw) as H0.
  replace (match (c :: w) ++ 13 :: l with
    | 45 :: l' => - number 16 0 (prefixed 16 l') | 43 :: l' => number 16 0 (prefixed 16 l')
    | l' => number 16 0 (prefixed 16 l') end) with (number 16 0 (prefixed 16 ((c :: w) ++ 13 :: l)))
    by (cbn [app]; repeat (destruct c as [|c|c]; try done; try lia)).
  rewrite Hp, number_hex by done. fold (hex_value (c :: w)). lia.
Qed.

(** The calls that say nothing about the message. *)
Definition chunk_call (c : call) : Prop :=
  match c with
  | element_cb e _ _ => e = Element.chunk_size ∨ e = Element.last_chunk ∨ e = Element.header_done
  | http_field _ _ _ _ => False
  end.

(** The line in front of a chunk: the number in it becomes [content_len], cut to
    an int; the machine is finished behind the line, and it is the last chunk
    exactly when the number is not positive. *)
Lemma chunk_head_read (w rest after : list Z) (memory : httpclient_parser) :
  w ≠ [] → all xdigit w → hex_value w < 2 ^ 63 →
  let head := w ++ Http.crlf in
  let text := head ++ rest in
  Z.of_nat (length text) < 2 ^ 63 →
  ∃ p' calls,
    httpclient_parser_execute (httpclient_parser_init memory) (text ++ 0 :: after) (length text) 0 =
      Some (Z.of_nat (length head), p', calls) ∧
    httpclient_parser_is_finished p' = true ∧ httpclient_parser_has_error p' = false ∧
    chunked p' = true ∧ content_len p' = sint 32 (hex_value w) ∧ chunks_done p' = (content_len p' <=? 0) ∧
    Forall chunk_call calls.
Proof.
  intros Hne Hw Hv head text Hsmall. set (p := httpclient_parser_init memory).
  set (pe := Z.of_nat (length text)). set (buffer := text ++ 0 :: after).
  assert (text = w ++ 13 :: 10 :: rest) as Htext by (unfold text, head; by rewrite <-app_assoc).
  assert (text ≠ []) as Htne by (rewrite Htext; by destruct w).
  assert (starts xdigit xdigit w) as Hs by (destruct w; [done|by apply Forall_cons in Hw]).
  set (v1 := update (set_mark 0) (reset p, [])).
  destruct (exec_word false (act buffer pe) _ _ _ _ _ httpclient_parser_start w 0%nat (13 :: 10 :: rest) (reset p, []) v1
    size_first size_rest ltac:(by left) Hs eq_refl) as (L1 & HL1 & E1).
  set (v2 := on_chunk_size buffer (Z.of_nat (0 + length w)) v1).
  destruct (exec_code false (act buffer pe) _ 13 _ _ L1 (0 + length w) (10 :: rest) v1 v2 size_end HL1 eq_refl)
    as (L2 & HL2 & E2).
  destruct (exec_leads false (act buffer pe) _ (code 10) _ _ L2 10 (S (0 + length w)) rest v2 size_lf HL2 eq_refl)
    as (L3 & [<-|[]] & E3).
  cbn [do_actions HttpClientParser.act] in E3. rewrite <-Htext, E2, E3 in E1.
  assert (number_at_mark buffer 16 (set_chunked true v1.1) = sint 32 (hex_value w)) as Hn.
  { unfold number_at_mark. f_equal. cbn [mark set_chunked v1 update fst set_mark]. rewrite Z2Nat.inj_0, drop_0.
    unfold buffer. rewrite Htext, <-app_assoc. cbn [app]. by apply strtol_hex. }
  eexists _, _. split.
  { unfold buffer. rewrite (rs_execute_run p text after _ _ _ _ eq_refl Htne Hsmall ltac:(cbn; lia) E1). do 3 f_equal.
    unfold head. rewrite length_app. simpl. lia. }
  assert (∀ v, content_len (on_chunk_size buffer v v1).1 = sint 32 (hex_value w) ∧
    chunked (on_chunk_size buffer v v1).1 = true ∧
    chunks_done (on_chunk_size buffer v v1).1 = (sint 32 (hex_value w) <=? 0) ∧
    Forall chunk_call (on_chunk_size buffer v v1).2) as Hc.
  { intros z. rewrite <-Hn. unfold on_chunk_size. set (v' := update _ v1).
    destruct (chunks_done v'.1); (split; [done|]; split; [done|]; split; [done|]); (constructor; [|constructor]); cbn; auto. }
  destruct (Hc (Z.of_nat (0 + length w))) as (H1 & H2 & H3 & H4).
  split; [done|]. split; [done|]. cbn [chunked content_len chunks_done set_nread set_cs done emit update fst set_body_start].
  unfold v2. rewrite H1, H2, H3. split; [done|]. split; [done|]. split; [done|].
  apply Forall_rev. constructor; [cbn; auto|exact H4].
Qed.

(** *** Witness *)
Definition sample_status : list Z := str "HTTP/1.1 200 OK" ++ Http.crlf.
Definition sample_state : httpclient_parser := httpclient_parser_init (mk None 0 0 0 false false false 0 0 0 0).

