(* ===== verification/HttpRoundTrip.v ===== *)
(** Messages that are printed, sent and parsed.

    The callbacks of http_parser.cc over what the machines call for:
    a request as HttpRequest prints it, received by HttpSession, is the request
    ([request_round_trip]); a response as HttpResponse prints it, received by
    HttpConnection, is the response ([response_round_trip]). *)
From stdpp Require Import base list gmap numbers option strings pretty.
From Stdlib Require Import ZArith Lia.
From S2P Require Import Prelude CString Endian Buffer ByteArray Stream StreamProps Http HttpProps HttpParser HttpSession HttpConnection HttpSessionProps Ragel RagelProps Http11Parser Http11Scan Http11ParserProps HttpClientParser HttpClientScan HttpClientParserProps.
Local Open Scope Z_scope.

(** ** Numbers in decimal *)
Definition is_digits (w : list Z) : Prop := Forall (λ c, HttpParser.is_digit c = true) w.

Lemma pretty_char_digit (x : N) : (x < 10)%N →
  Z.of_nat (Ascii.nat_of_ascii (pretty_N_char x)) = 48 + Z.of_N x.
Proof.
  intros Hx. assert (∀ y, (y < 10)%nat → Z.of_nat (Ascii.nat_of_ascii (pretty_N_char (N.of_nat y))) = 48 + Z.of_nat y) as H.
  { intros y Hy. do 10 (destruct y as [|y]; [reflexivity|]). lia. }
  specialize (H (N.to_nat x) ltac:(lia)). rewrite N2Nat.id in H. lia.
Qed.

Lemma digits_app acc w l :
  is_digits w → HttpParser.digits acc (w ++ l) = HttpParser.digits (HttpParser.digits acc w) l.
Proof.
  intros Hw. revert acc. induction Hw as [|c w Hc Hw IH]; intros acc; cbn [app HttpParser.digits]; [done|].
  rewrite Hc. apply IH.
Qed.

(** The loop of [pretty] writes the digits in front of what is there. *)
Lemma pretty_go (x : N) (s : string) :
  ∃ w, str (pretty_N_go x s) = w ++ str s ∧ is_digits w ∧ ((0 < x)%N → w ≠ []) ∧
    (∀ acc, HttpParser.digits acc w = acc * 10 ^ Z.of_nat (length w) + Z.of_N x).
Proof.
  revert s. induction (N.lt_wf_0 x) as [x _ IH]. intros s. destruct (decide (0 < x)%N) as [Hx|Hx].
  - rewrite pretty_N_go_step by done.
    assert (x / 10 < x)%N as Hlt by (apply N.div_lt; lia).
    destruct (IH (x / 10)%N Hlt (String (pretty_N_char (x `mod` 10)) s)) as (w & Hs & Hd & _ & Hv).
    assert (x `mod` 10 < 10)%N as Hm by (apply N.mod_lt; lia).
    pose proof (pretty_char_digit _ Hm) as Hc.
    set (c := Z.of_nat (Ascii.nat_of_ascii (pretty_N_char (x `mod` 10)))) in *.
    assert (str (String (pretty_N_char (x mod 10)) s) = c :: str s) as Hcs by done.
    rewrite Hcs in Hs. clearbody c. clear Hcs.
    assert (HttpParser.is_digit c = true) as Hcd.
    { unfold HttpParser.is_digit. rewrite Hc. apply andb_true_iff. rewrite !Z.leb_le.
      generalize dependent (x mod 10)%N. lia. }
    exists (w ++ [c]). split; [rewrite Hs, <-app_assoc; done|]. split; [apply Forall_app; split; [done|by constructor]|].
    split; [by destruct w|]. intros acc. rewrite digits_app by done. rewrite Hv. cbn [HttpParser.digits]. rewrite Hcd, Hc.
    rewrite length_app. cbn [length]. rewrite Nat2Z.inj_add, Z.pow_add_r by lia.
    pose proof (N.div_mod' x 10) as Hdm. nia.
  - assert (x = 0%N) as -> by lia. exists []. rewrite pretty_N_go_0. split; [done|]. split; [constructor|].
    split; [lia|]. intros acc. cbn. lia.
Qed.

Lemma dec_spec n : 0 ≤ n →
  is_digits (Http.dec n) ∧ Http.dec n ≠ [] ∧ ∀ acc, HttpParser.digits acc (Http.dec n) = acc * 10 ^ Z.of_nat (length (Http.dec n)) + n.
Proof.
  intros Hn. unfold Http.dec. destruct n as [|x|x]; [|..].
  - cbn. split; [by repeat constructor|]. split; [done|]. intros acc. change (10 * acc + (48 - 48) = acc * 10 ^ 1 + 0). lia.
  - change (pretty (Z.pos x)) with (pretty_N_go (N.pos x) "").
    destruct (pretty_go (N.pos x) "") as (w & -> & Hd & Hne & Hv). rewrite app_nil_r.
    split; [done|]. split; [by apply Hne|]. intros acc. apply Hv.
  - lia.
Qed.

(** ** Maps filled from a list of fields *)
Definition map_sets (m : Http.MapType) (es : list (list Z * list Z)) : Http.MapType :=
  foldl (λ m e, Http.map_set e.1 e.2 m) m es.

(** A sorted list set into a map: its entries win. *)
Lemma map_sets_spec es m :
  sorted_map m → sorted_map es →
  sorted_map (map_sets m es) ∧ to_map (map_sets m es) = to_map es ∪ to_map m.
Proof.
  intros Hm Hes. revert m Hm. induction Hes as [|[k v] es Hes IH Hall]; intros m Hm; cbn [map_sets foldl fst snd].
  - split; [done|]. cbn [to_map]. by rewrite (left_id_L ∅ (∪)).
  - destruct (map_set_spec k v m Hm) as [Hs Hg]. destruct (IH _ Hs) as [H1 H2]. split; [exact H1|].
    unfold map_sets in H2. rewrite H2, Hg. cbn [to_map].
    rewrite <-insert_union_r by (by apply Forall_sorted_absent). by rewrite insert_union_l.
Qed.

Lemma map_sets_app m es es' : map_sets m (es ++ es') = map_sets (map_sets m es) es'.
Proof. apply foldl_app. Qed.

(** Later fields win. *)
Lemma map_sets_parts (es1 es2 es3 : list (list Z * list Z)) :
  sorted_map es1 → sorted_map es2 → sorted_map es3 →
  to_map (map_sets [] (es1 ++ es2 ++ es3)) = to_map es3 ∪ (to_map es2 ∪ to_map es1).
Proof.
  intros H1 H2 H3. rewrite !map_sets_app.
  destruct (map_sets_spec es1 [] ltac:(constructor) H1) as [S1 G1].
  destruct (map_sets_spec es2 _ S1 H2) as [S2 G2]. destruct (map_sets_spec es3 _ S2 H3) as [_ ->].
  rewrite G2, G1. cbn [to_map]. by rewrite (right_id_L ∅ (∪)).
Qed.

(** ** A message that is in the buffer after one read *)
Section receive.
Context {MX : MaxSize} {S : Type} `{!Stream S} {P : Type}.
Variable execute : list Z → nat → P → option (nat * list Z * P).
Variable hasError isFinished : P → bool.

Lemma head_in_one_read fuel buffer (s s1 : S) sent consumed data p0 p :
  (length sent < length buffer)%nat → Z.of_nat (length buffer) < 2 ^ 31 → (0 < consumed ≤ length sent)%nat →
  reads s (Z.of_nat (length buffer)) (Z.of_nat (length sent)) sent s1 →
  execute (splice buffer 0 sent) (length sent) p0 = Some (consumed, data, p) →
  hasError p = false → isFinished p = true →
  HttpSession.head_loop execute hasError isFinished (Datatypes.S fuel) (Z.of_nat (length buffer)) buffer p0 0 s =
    Ok (Some (data, p, Z.of_nat (length sent - consumed))) s1.
Proof.
  intros Hfit Hbuf Hc Hread E Herr Hfin. cbn [HttpSession.head_loop]. unfold_M.
  rewrite Z.sub_0_r, uint_id by (unfold in_uint; lia). rewrite (Hread buffer 0), store_at_ok by lia.
  destruct (Z.leb_spec (Z.of_nat (length sent)) 0); [lia|].
  rewrite Z.add_0_r, sint_id by (unfold in_sint; lia). rewrite Nat2Z.id. change (Z.to_nat 0) with 0%nat.
  rewrite E. unfold asserted. unfold_M. rewrite Herr, uint_id by (unfold in_uint; lia).
  destruct (Z.eqb_spec (Z.of_nat (length sent) - Z.of_nat consumed) (Z.of_nat (length buffer))); [lia|].
  rewrite Hfin. do 3 f_equal. lia.
Qed.

Lemma head_aborts fuel buffer (s s1 : S) sent p0 :
  (0 < length sent < length buffer)%nat → Z.of_nat (length buffer) < 2 ^ 31 →
  reads s (Z.of_nat (length buffer)) (Z.of_nat (length sent)) sent s1 →
  execute (splice buffer 0 sent) (length sent) p0 = None →
  HttpSession.head_loop execute hasError isFinished (Datatypes.S fuel) (Z.of_nat (length buffer)) buffer p0 0 s =
    Fault AssertFailed.
Proof.
  intros Hfit Hbuf Hread E. cbn [HttpSession.head_loop]. unfold_M.
  rewrite Z.sub_0_r, uint_id by (unfold in_uint; lia). rewrite (Hread buffer 0), store_at_ok by lia.
  destruct (Z.leb_spec (Z.of_nat (length sent)) 0); [lia|].
  rewrite Z.add_0_r, sint_id by (unfold in_sint; lia). rewrite Nat2Z.id. change (Z.to_nat 0) with 0%nat.
  by rewrite E.
Qed.

Lemma body_in_buffer fuel (body t : list Z) (s : S) :
  Z.of_nat (length body) < 2 ^ 31 → Z.of_nat (length body) ≤ max_size →
  HttpSession.receive_body fuel (body ++ t) (Z.of_nat (length body)) (Z.of_nat (length body)) s = Ok (Some body) s.
Proof.
  intros Hl Hmax. rewrite receive_body_start by (rewrite ?length_app; lia).
  rewrite Z.sub_diag. unfold_M. do 2 f_equal. unfold body_start. rewrite Z.min_id, Nat2Z.id, take_app_length.
  unfold splice. simpl. rewrite drop_ge by (rewrite length_replicate; lia). by rewrite app_nil_r.
Qed.
End receive.

Lemma moved_over head body data :
  take (length (head ++ body)) data = head ++ body →
  HttpParser.moved data (length (head ++ body)) (length head) = body ++ drop (length body) data.
Proof.
  intros H. unfold HttpParser.moved. rewrite H, drop_app_length, length_app.
  by replace (length head + length body - length head)%nat with (length body) by lia.
Qed.

(** ** What the callbacks make of a request *)
Section request.
Context {C : Type}.
Abbreviation parser := (HttpParser.HttpRequestParser C).
Implicit Types (p : parser) (data : list Z).

Definition apply_event (p : parser) (e : Http11Scan.event) : parser :=
  match e with
  | Http11Scan.field n v => HttpParser.on_data (Http.rq_setHeader n v) p
  | Http11Scan.said Http11Parser.Element.request_method w => HttpParser.on_data (Http.setMethod (Http.String2HttpMethod w)) p
  | Http11Scan.said Http11Parser.Element.request_path w => HttpParser.on_data (Http.setPath w) p
  | Http11Scan.said Http11Parser.Element.query_string w => HttpParser.on_data (Http.setQuery w) p
  | Http11Scan.said Http11Parser.Element.fragment w => HttpParser.on_data (Http.setFragment w) p
  | Http11Scan.said Http11Parser.Element.http_version w =>
      HttpParser.on_data (Http.rq_setVersion (if decide (w = str "HTTP/1.1") then 17 else 16)) p
  | _ => p
  end.

Definition event_ok (e : Http11Scan.event) : Prop :=
  match e with
  | Http11Scan.field n _ => n ≠ []
  | Http11Scan.said Http11Parser.Element.request_method w => ∃ m, (m, w) ∈ Http.HTTP_METHOD_MAP
  | Http11Scan.said Http11Parser.Element.http_version w => w ∈ Http11Scan.versions
  | Http11Scan.said _ _ => True
  | Http11Scan.outside => False
  end.

Lemma prefix_c_str w l : c_str w = w → w `prefix_of` c_str (w ++ l).
Proof.
  induction w as [|c w IH]; intros Hw; [apply prefix_nil|]. cbn [c_str app] in *.
  destruct (c =? 0); [done|]. injection Hw as Hw. by apply prefix_cons, IH.
Qed.

Lemma String2HttpMethod_entry m w : (m, w) ∈ Http.HTTP_METHOD_MAP → Http.String2HttpMethod w = m.
Proof.
  intros H. assert (forallb (λ e, bool_decide (Http.String2HttpMethod e.2 = e.1)) Http.HTTP_METHOD_MAP = true) as Hall
    by (vm_compute; reflexivity).
  pose proof (proj1 (forallb_forall _ _) Hall (m, w) (proj1 (list_elem_of_In _ _) H)) as H'.
  by apply bool_decide_eq_true in H'.
Qed.

Lemma version_text_of data a w :
  take (length w) (drop a data) = w → w ∈ Http11Scan.versions →
  HttpParser.version_of data a (length w) = Some (if decide (w = str "HTTP/1.1") then 17 else 16).
Proof.
  intros Ht Hw. assert (length w = 8%nat ∧ c_str w = w) as [Hl Hc].
  { unfold Http11Scan.versions in Hw. apply elem_of_cons in Hw as [->|Hw]; [done|].
    by apply list_elem_of_singleton in Hw as ->. }
  assert (∀ v : list Z, length v = 8%nat → c_str v = v →
    is_eq (strncmp (drop a data) v (length w)) = bool_decide (w = v)) as Hcmp.
  { intros v Hv Hcv. unfold strncmp. rewrite Hcv, (take_ge v) by lia.
    assert (take (length w) (c_str (drop a data)) = w) as ->.
    { destruct (prefix_c_str w (drop (length w) (drop a data)) Hc) as [k Hk].
      assert (drop a data = w ++ drop (length w) (drop a data)) as -> by (rewrite <-Ht at 1; by rewrite take_drop).
      rewrite Hk. by rewrite take_app_length. }
    pose proof (compare_bytes_eq w v) as He. destruct (bool_decide_reflect (w = v)) as [E|E].
    - by rewrite (proj2 He E).
    - destruct (compare_bytes w v); try done. by destruct E; apply He. }
  unfold HttpParser.version_of. rewrite !Hcmp by done.
  unfold Http11Scan.versions in Hw. apply elem_of_cons in Hw as [->|Hw]; [done|].
  by apply list_elem_of_singleton in Hw as ->.
Qed.

Lemma event_applied data n c e p :
  Http11Scan.hear (take n data) c = e → event_ok e →
  HttpParser.request_callback data p (Http11Parser.to_callback c) = apply_event p e.
Proof.
  intros <- Hok. destruct c as [f fl v vl|el a l]; cbn [Http11Scan.hear] in *.
  - destruct (heard_text _ f fl) as [nm|] eqn:E1; [|done]. destruct (heard_text _ v vl) as [w|] eqn:E2; [|done].
    apply heard_text_memory in E1, E2. cbn [Http11Parser.to_callback HttpParser.request_callback event_ok apply_event] in *.
    unfold HttpParser.on_request_http_field, HttpParser.text. rewrite E1, E2.
    destruct (Nat.eqb_spec (Z.to_nat fl) 0) as [E|_]; [|done]. by rewrite E in E1.
  - destruct (heard_text _ a l) as [w|] eqn:E; [|by destruct el].
    assert (Z.to_nat l = length w) as Hl.
    { revert E. unfold heard_text. destruct (_ && _) eqn:Eb; [|done]. rewrite !andb_true_iff, !Z.leb_le in Eb.
      intros [= <-]. rewrite length_take, length_drop. lia. }
    apply heard_text_memory in E.
    destruct el; cbn [Http11Parser.to_callback HttpParser.request_callback event_ok apply_event] in *; try done;
      try (unfold HttpParser.on_request_path, HttpParser.on_request_query, HttpParser.on_request_fragment,
             HttpParser.text; by rewrite E).
    + destruct Hok as [m Hm]. unfold HttpParser.on_request_method.
      assert (Http.Chars2HttpMethod (drop (Z.to_nat a) data) = m) as ->.
      { destruct (entry_name m w Hm) as [Hi Hw]. apply Chars2HttpMethod_spec; [done|]. rewrite <-Hw.
        rewrite <-(take_drop (Z.to_nat l) (drop (Z.to_nat a) data)), E. apply prefix_c_str. by apply (name_zero_free m). }
      rewrite (String2HttpMethod_entry m w Hm). destruct (entry_name m w Hm) as [Hi _]. by destruct m.
    + unfold HttpParser.on_request_version. rewrite Hl in E |- *. by rewrite version_text_of.
Qed.

Lemma events_applied data n calls es p :
  Http11Scan.hear (take n data) <$> calls = es → Forall event_ok es →
  foldl (HttpParser.request_callback data) p (Http11Parser.to_callback <$> calls) = foldl apply_event p es.
Proof.
  intros <-. revert p. induction calls as [|c calls IH]; intros p Hok; [done|].
  apply Forall_cons in Hok as [Hc Hok]. cbn [fmap list_fmap foldl] in *.
  rewrite (event_applied data n c _ p eq_refl Hc). by apply IH.
Qed.
End request.

(** *** Requests that can be printed and parsed *)
Record sendable (r : Http.HttpRequest) : Prop := {
  sendable_method : Http.m_method r ≠ Http.INVALID_METHOD;
  sendable_method_chars : is_method (Http.HttpMethod2String (Http.m_method r)) = true;
  sendable_version : Http.rq_version r = 16 ∨ Http.rq_version r = 17;
  sendable_path : is_path (Http.m_path r);
  sendable_query : optional is_query (Http.m_query r);
  sendable_fragment : optional is_query (Http.m_fragment r);
  sendable_headers : Forall (λ e, Http11Scan.is_name e.1 ∧ Http11Scan.is_value e.2) (Http.rq_headers r);
  sendable_sorted : sorted_map (Http.rq_headers r);
  sendable_connection : to_map (Http.rq_headers r) !! str "connection" = None;
  sendable_length : to_map (Http.rq_headers r) !! str "content-length" = None
}.

(** The fields that are printed. *)
Definition connection_field (close : bool) : list Z * list Z :=
  (str "Connection", if close then str "close" else str "keep-alive").
Definition length_field (body : list Z) : list (list Z * list Z) :=
  match body with [] => [] | _ => [(str "Content-Length", Http.dec (Z.of_nat (length body)))] end.
Definition printed_fields (r : Http.HttpRequest) : list (list Z * list Z) :=
  connection_field (Http.rq_close r) :: Http.rq_headers r ++ length_field (Http.rq_body r).

Definition request_head (r : Http.HttpRequest) : list Z :=
  head_text (Http.HttpMethod2String (Http.m_method r)) (Http.m_path r) (Http.m_query r) (Http.m_fragment r)
    (Http.version_text (Http.rq_version r)) (printed_fields r) ++ Http.crlf.

Lemma header_lines_lines (m : Http.MapType) : Http.header_lines m = concat (Http11Scan.line <$> m).
Proof. done. Qed.

Lemma body_lines body :
  Http.body_part body = concat (Http11Scan.line <$> length_field body) ++ Http.crlf ++ body.
Proof.
  unfold Http.body_part, length_field, Http11Scan.line. destruct body as [|x body]; [done|].
  cbn [fmap list_fmap concat fst snd]. by rewrite app_nil_r, <-!app_assoc.
Qed.

Lemma dump_head r : Http.rq_dump r = request_head r ++ Http.rq_body r.
Proof.
  unfold Http.rq_dump, request_head, head_text, target, printed_fields. cbn [fmap list_fmap concat].
  rewrite fmap_app, concat_app, body_lines, header_lines_lines.
  assert (Http.connection_line (Http.rq_close r) = Http11Scan.line (connection_field (Http.rq_close r))) as -> by done.
  by rewrite <-!app_assoc.
Qed.

Lemma digit_value_char c : HttpParser.is_digit c = true → Ragel.mem Http11Scan.value_start c = true ∧ Ragel.mem Http11Scan.value_chars c = true.
Proof.
  unfold HttpParser.is_digit. rewrite andb_true_iff, !Z.leb_le. intros Hc.
  assert (∀ d, (d < 10)%nat → Ragel.mem Http11Scan.value_start (48 + Z.of_nat d) && Ragel.mem Http11Scan.value_chars (48 + Z.of_nat d) = true) as H.
  { intros d Hd. do 10 (destruct d as [|d]; [vm_compute; reflexivity|]). lia. }
  apply andb_true_iff. replace c with (48 + Z.of_nat (Z.to_nat (c - 48))) by lia. apply H. lia.
Qed.

Lemma printed_ok r : sendable r → head_ok (Http.HttpMethod2String (Http.m_method r)) (Http.m_path r) (Http.m_query r)
  (Http.m_fragment r) (Http.version_text (Http.rq_version r)) (printed_fields r).
Proof.
  intros [Hm Hmc Hv Hp Hq Hf Hh _ _ _]. constructor; try done.
  - exists (Http.m_method r). by apply method_entry.
  - unfold Http11Scan.versions. destruct Hv as [-> | ->]; vm_compute; [left|right; left].
  - unfold printed_fields. apply Forall_cons. split; [|apply Forall_app; split; [done|]].
    + unfold connection_field, Http11Scan.is_name, Http11Scan.is_value. cbn [fst snd].
      destruct (Http.rq_close r); (split; [|right]); (split; [vm_compute; reflexivity|]);
        repeat (constructor; [vm_compute; reflexivity|]); constructor.
    + unfold length_field. destruct (Http.rq_body r) as [|x body] eqn:Eb; [done|]. rewrite <-Eb. clear Eb x body.
      constructor; [|done]. cbn [fst snd]. split.
      * split; [vm_compute; reflexivity|]. repeat (constructor; [vm_compute; reflexivity|]). constructor.
      * right. destruct (dec_spec (Z.of_nat (length (Http.rq_body r))) ltac:(lia)) as (Hd & Hne & _).
        destruct (Http.dec _) as [|c w]; [done|]. apply Forall_cons in Hd as [Hc Hd].
        split; [by apply digit_value_char|]. eapply Forall_impl; [exact Hd|]. intros d Hdd. by apply digit_value_char.
Qed.

(** What the parser's request is behind the head. *)
Definition parsed_request (r : Http.HttpRequest) : Http.HttpRequest :=
  Http.mk_request (Http.m_method r) (Http.rq_version r) true (Http.m_path r) (Http.m_query r) (Http.m_fragment r) []
    (map_sets [] (printed_fields r)) [] [].

Lemma fields_applied {C} (hs : list (list Z * list Z)) (p : HttpParser.HttpRequestParser C) :
  foldl apply_event p ((λ e, Http11Scan.field e.1 e.2) <$> hs) =
  HttpParser.mk_request_parser (HttpParser.m_parser p)
    (Http.rq_setHeaders (map_sets (Http.rq_headers (HttpParser.m_data p)) hs) (HttpParser.m_data p)) (HttpParser.m_error p).
Proof.
  revert p. induction hs as [|[n v] hs IH]; intros [c d e]; cbn [fmap list_fmap foldl]; [by destruct d|].
  rewrite IH. by destruct d.
Qed.

Lemma head_events_ok method path query fragment version hs :
  (∃ m, (m, method) ∈ Http.HTTP_METHOD_MAP) → version ∈ Http11Scan.versions →
  Forall (λ e, Http11Scan.is_name e.1 ∧ Http11Scan.is_value e.2) hs →
  Forall event_ok (head_events method path query fragment version hs).
Proof.
  intros Hm Hv Hhs. unfold head_events, target_events.
  repeat (apply Forall_app; split).
  1,6: by apply Forall_singleton.
  1,3: by apply Forall_singleton.
  - destruct query; [done|by apply Forall_singleton].
  - destruct fragment; [done|by apply Forall_singleton].
  - apply Forall_fmap. eapply Forall_impl; [exact Hhs|]. intros [k v] [Hk _]. by destruct k.
Qed.

(** HttpRequestParser over a buffer that starts with a printed request. *)
Lemma request_parsed r memory data n :
  sendable r → take n data = Http.rq_dump r → (n ≤ length data)%nat → Z.of_nat n < 2 ^ 63 →
  ∃ p', HttpParser.execute Http11Parser.run_parser data n
      (HttpParser.HttpRequestParser_new (Http11Parser.http_parser_init memory)) =
    Some (length (request_head r), HttpParser.moved data n (length (request_head r)), p') ∧
    HttpParser.hasError Http11Parser.http_parser_has_error p' = false ∧
    HttpParser.isFinished Http11Parser.http_parser_is_finished p' = true ∧
    HttpParser.m_data p' = parsed_request r.
Proof.
  intros Hr Hdata Hn Hsmall. pose proof (printed_ok r Hr) as Hok.
  assert (take n data = request_head r ++ Http.rq_body r) as Ht by (by rewrite Hdata, dump_head).
  assert (length (request_head r ++ Http.rq_body r) = n) as Hlen by (rewrite <-Ht, length_take; lia).
  destruct (request_text_heard _ _ _ _ _ (Http.rq_body r) _ memory Hok) as (c & calls & E & Hf & He & Hh).
  { fold (request_head r). rewrite Hlen. exact Hsmall. }
  fold (request_head r) in E, Hh. rewrite <-Ht in E, Hh.
  eexists. unfold HttpParser.execute. cbn [HttpParser.m_parser HttpParser.HttpRequestParser_new].
  unfold Http11Parser.run_parser. rewrite execute_take, E by done. rewrite Nat2Z.id.
  rewrite (events_applied data n calls _ _ Hh).
  2:{ apply Forall_app. split; [|by constructor]. destruct Hok as [Hm _ _ _ _ Hv Hhs].
      by apply head_events_ok. }
  rewrite foldl_app. unfold head_events, target_events. rewrite !foldl_app, fields_applied.
  split; [reflexivity|].
  assert (Http.String2HttpMethod (Http.HttpMethod2String (Http.m_method r)) = Http.m_method r) as Em.
  { apply String2HttpMethod_entry, method_entry. apply Hr. }
  assert ((if decide (Http.version_text (Http.rq_version r) = str "HTTP/1.1") then 17 else 16) = Http.rq_version r) as Ev.
  { by destruct (sendable_version r Hr) as [-> | ->]. }
  cbn [foldl apply_event]. rewrite Em, Ev. clear Em Ev.
  split; [|split; [exact Hf|]].
  - unfold HttpParser.hasError. cbn [HttpParser.m_parser]. rewrite He.
    by destruct (Http.m_query r), (Http.m_fragment r).
  - unfold parsed_request. by destruct (Http.m_query r), (Http.m_fragment r).
Qed.

(** The names under which the printed fields are found. *)
Definition announced (body : list Z) : option (list Z) :=
  match body with [] => None | _ => Some (Http.dec (Z.of_nat (length body))) end.

Lemma connection_lookup close k :
  to_map [connection_field close] !! k =
    if decide (k = str "connection") then Some (connection_field close).2 else None.
Proof.
  cbn [to_map connection_field]. assert (fold_case (str "Connection") = str "connection") as -> by (vm_compute; reflexivity).
  destruct (decide _) as [->|E]; [by rewrite lookup_insert_eq|]. by rewrite lookup_insert_ne, lookup_empty by done.
Qed.

Lemma length_lookup body k :
  to_map (length_field body) !! k = if decide (k = str "content-length") then announced body else None.
Proof.
  unfold length_field. destruct body as [|x body]; cbn [to_map announced]; [rewrite lookup_empty; by destruct (decide _)|].
  assert (fold_case (str "Content-Length") = str "content-length") as -> by (vm_compute; reflexivity).
  destruct (decide _) as [->|E]; [by rewrite lookup_insert_eq|]. by rewrite lookup_insert_ne, lookup_empty by done.
Qed.

Lemma sorted_one e : sorted_map [e].
Proof. repeat constructor. Qed.

Lemma sorted_length body : sorted_map (length_field body).
Proof. unfold length_field. destruct body; [constructor|apply sorted_one]. Qed.

Lemma printed_lookup r key :
  sendable r →
  to_map (map_sets [] (printed_fields r)) !! fold_case key =
    if decide (fold_case key = str "content-length") then announced (Http.rq_body r)
    else if decide (fold_case key = str "connection") then Some (connection_field (Http.rq_close r)).2
    else to_map (Http.rq_headers r) !! fold_case key.
Proof.
  intros Hr. unfold printed_fields. change (connection_field ?b :: ?l) with ([connection_field b] ++ l).
  rewrite map_sets_parts; [|apply sorted_one|apply Hr|apply sorted_length].
  rewrite !lookup_union, length_lookup, connection_lookup.
  destruct (decide (fold_case key = str "content-length")) as [E|E].
  - rewrite E, (sendable_length r Hr), decide_False by discriminate. by destruct (announced _).
  - destruct (decide (fold_case key = str "connection")) as [E'|E'].
    + by rewrite E', (sendable_connection r Hr).
    + by destruct (to_map (Http.rq_headers r) !! _).
Qed.

(** The request that comes out: everything as it was sent, and the two fields
    that printing adds. *)
Definition received (r : Http.HttpRequest) : Http.HttpRequest :=
  Http.mk_request (Http.m_method r) (Http.rq_version r) (Http.rq_close r) (Http.m_path r) (Http.m_query r)
    (Http.m_fragment r) (Http.rq_body r) (map_sets [] (printed_fields r)) [] [].

Lemma init_received r body :
  sendable r → Http.init (Http.rq_setBody body (parsed_request r)) = Http.rq_setBody body (received r).
Proof.
  intros Hr. unfold Http.init, Http.rq_getHeader, Http.map_get. rewrite map_find_spec. cbn [Http.rq_headers Http.rq_setBody parsed_request].
  rewrite (printed_lookup r (str "connection") Hr). unfold connection_field.
  destruct (decide (fold_case (str "connection") = str "content-length")) as [E|_]; [vm_compute in E; discriminate E|].
  destruct (decide (fold_case (str "connection") = str "connection")) as [_|E]; [|by destruct E].
  destruct r as [m v close p q f b h ps cs]. cbn [snd Http.rq_close]. by destruct close.
Qed.

Section recv.
Context {MX : MaxSize} {S : Type} `{!Stream S}.
Variable lexical_cast : list Z → option Z.
Variable memory : Http11Parser.http_parser.

Abbreviation recvRequest := (HttpSession.recvRequest lexical_cast (Http11Parser.http_parser_init memory)
  Http11Parser.run_parser Http11Parser.http_parser_has_error Http11Parser.http_parser_is_finished).

(** C24. A request that is printed, sent and arrives in one piece is received as
    it was: method, version, path, query, fragment, body and whether to close
    are the same, and so is every header field; Connection and, with a body,
    Content-Length are there besides. Nothing behind it in the buffer matters,
    nor what the parser's memory held. *)
Theorem request_round_trip (r : Http.HttpRequest) (buffer : list Z) (fuel : nat) (s s1 : S) :
  sendable r →
  let sent := Http.rq_dump r in
  (length sent < length buffer)%nat → Z.of_nat (length buffer) < 2 ^ 31 →
  Z.of_nat (length (Http.rq_body r)) ≤ max_size →
  lexical_cast (Http.dec (Z.of_nat (length (Http.rq_body r)))) = Some (Z.of_nat (length (Http.rq_body r))) →
  reads s (Z.of_nat (length buffer)) (Z.of_nat (length sent)) sent s1 →
  recvRequest (Datatypes.S fuel) buffer s = Ok (Some (received r)) s1 ∧
  (∀ key, fold_case key ≠ str "connection" → fold_case key ≠ str "content-length" →
     Http.map_find (Http.rq_headers (received r)) key = Http.map_find (Http.rq_headers r) key).
Proof.
  intros Hr sent Hfit Hbuf Hmax Hcast Hread. split.
  2:{ intros key H1 H2. rewrite !map_find_spec. cbn [received Http.rq_headers]. rewrite printed_lookup by done.
      rewrite decide_False, decide_False by done. done. }
  assert (sent = request_head r ++ Http.rq_body r) as Hsent by apply dump_head.
  assert (0 < length (request_head r))%nat as Hpos by (unfold request_head; rewrite length_app; simpl; lia).
  assert (take (length sent) (splice buffer 0 sent) = sent) as Htake by apply (take_app_length sent).
  destruct (request_parsed r memory (splice buffer 0 sent) (length sent) Hr Htake) as (p & E & Herr & Hfin & Hdata).
  { rewrite length_splice by lia. lia. }
  { lia. }
  rewrite Hsent in Htake, Hfit, Hread, E. rewrite moved_over in E by done. rewrite <-Hsent in Hread, E.
  assert (length sent = length (request_head r) + length (Http.rq_body r))%nat as Hlen by (by rewrite Hsent, length_app).
  rewrite <-Hsent, Hlen in Hfit.
  pose proof (head_in_one_read _ _ _ fuel buffer s s1 sent (length (request_head r)) _ _ p ltac:(lia) Hbuf
    ltac:(lia) Hread E Herr Hfin) as Hhead.
  replace (length sent - length (request_head r))%nat with (length (Http.rq_body r)) in Hhead by lia.
  assert (HttpParser.getContentLength lexical_cast p = Z.of_nat (length (Http.rq_body r))) as Hcl.
  { unfold HttpParser.getContentLength, Http.getAs. rewrite map_find_spec, Hdata. cbn [parsed_request Http.rq_headers].
    rewrite (printed_lookup r (str "content-length") Hr).
    destruct (decide (fold_case (str "content-length") = str "content-length")) as [_|E']; [|by destruct E'].
    unfold announced. by destruct (Http.rq_body r); [|rewrite Hcast]. }
  unfold HttpSession.recvRequest. unfold_M. rewrite Hhead, Hcl, Hdata.
  destruct (Z.ltb_spec 0 (Z.of_nat (length (Http.rq_body r)))) as [H0|H0].
  - rewrite body_in_buffer by lia. cbn. rewrite init_received by done. by destruct r.
  - assert (Http.rq_body r = []) as Hb by (destruct (Http.rq_body r); [done|simpl in *; lia]).
    change (parsed_request r) with (Http.rq_setBody [] (parsed_request r)). rewrite init_received by done.
    unfold received. by rewrite Hb.
Qed.
End recv.

(** ** What the callbacks make of a response *)
Lemma atoi_start x t : HttpParser.is_digit x = true →
  HttpParser.atoi (x :: t) = sint 32 (Z.max (- 2 ^ 63) (Z.min (2 ^ 63 - 1) (HttpParser.digits 0 (x :: t)))).
Proof.
  unfold HttpParser.is_digit. rewrite andb_true_iff, !Z.leb_le. intros Hr.
  unfold HttpParser.atoi. assert (HttpParser.skip_spaces (x :: t) = x :: t) as ->.
  { cbn [HttpParser.skip_spaces]. unfold HttpParser.is_space.
    destruct (Z.eqb_spec x 32), (Z.leb_spec 9 x), (Z.leb_spec x 13); cbn; try done; lia. }
  do 2 f_equal. repeat (destruct x as [|x|x]; try lia; try done).
Qed.

Lemma atoi_digits w c l :
  is_digits w → w ≠ [] → HttpParser.is_digit c = false → HttpParser.atoi (w ++ c :: l) = HttpParser.atoi w.
Proof.
  intros Hw Hne Hc. destruct w as [|x w]; [done|]. pose proof Hw as [Hx _]%Forall_cons.
  cbn [app]. rewrite !atoi_start by done. do 3 f_equal. change (x :: w ++ c :: l) with ((x :: w) ++ c :: l).
  rewrite digits_app by done. cbn [HttpParser.digits]. by rewrite Hc.
Qed.

Lemma atoi_dec n : 0 ≤ n < 2 ^ 31 → HttpParser.atoi (Http.dec n) = n.
Proof.
  intros Hn. destruct (dec_spec n ltac:(lia)) as (Hd & Hne & Hv). destruct (Http.dec n) as [|x w] eqn:E; [done|].
  pose proof Hd as [Hx _]%Forall_cons. rewrite atoi_start, Hv by done.
  rewrite sint_id by (unfold in_sint; lia). lia.
Qed.

Section response.
Context {C : Type}.
Abbreviation parser := (HttpParser.HttpResponseParser C).
Implicit Types (p : parser) (data : list Z).

Definition rs_apply_event (p : parser) (e : HttpClientScan.event) : parser :=
  match e with
  | HttpClientScan.field n v => HttpParser.on_rs_data (Http.rs_setHeader n v) p
  | HttpClientScan.said HttpClientParser.Element.status_code w =>
      HttpParser.on_rs_data (Http.setStatus (HttpParser.atoi w)) p
  | HttpClientScan.said HttpClientParser.Element.reason_phrase w => HttpParser.on_rs_data (Http.setReason w) p
  | HttpClientScan.said HttpClientParser.Element.http_version w =>
      HttpParser.on_rs_data (Http.rs_setVersion (if decide (w = str "HTTP/1.1") then 17 else 16)) p
  | _ => p
  end.

Definition rs_event_ok (e : HttpClientScan.event) : Prop :=
  match e with
  | HttpClientScan.field n _ => n ≠ []
  | HttpClientScan.said HttpClientParser.Element.status_code w => is_digits w ∧ w ≠ []
  | HttpClientScan.said HttpClientParser.Element.http_version w => w ∈ HttpClientScan.versions
  | HttpClientScan.said _ _ => True
  | HttpClientScan.outside => False
  end.

Lemma heard_length B a l w : heard_text B a l = Some w → Z.to_nat l = length w ∧ 0 ≤ a ∧ 0 ≤ l.
Proof.
  unfold heard_text. destruct (_ && _) eqn:Eb; [|done]. rewrite !andb_true_iff, !Z.leb_le in Eb.
  intros [= <-]. rewrite length_take, length_drop. lia.
Qed.

Lemma status_of_data data n a l w :
  heard_text (take n data) a l = Some w → is_digits w → w ≠ [] →
  HttpClientScan.ends_number (take n data) a l = true →
  HttpParser.atoi (drop (Z.to_nat a) data) = HttpParser.atoi w.
Proof.
  intros E Hd Hne Hends. destruct (heard_length _ _ _ _ E) as (Hl & Ha & Hl0). apply heard_text_memory in E.
  unfold HttpClientScan.ends_number in Hends.
  destruct (take n data !! Z.to_nat (a + l)) as [c|] eqn:Ec; [|done]. apply negb_true_iff in Hends.
  apply lookup_take_Some in Ec as [Ec _].
  rewrite <-(take_drop (Z.to_nat l) (drop (Z.to_nat a) data)), E, drop_drop.
  replace (Z.to_nat a + Z.to_nat l)%nat with (Z.to_nat (a + l)) by lia.
  rewrite (drop_S _ _ _ Ec). by apply atoi_digits.
Qed.

Lemma rs_event_applied data n c e p :
  HttpClientScan.hear (take n data) c = e → rs_event_ok e →
  HttpParser.response_callback data p (HttpClientParser.to_callback c) = rs_apply_event p e.
Proof.
  intros <- Hok. destruct c as [f fl v vl|el a l]; cbn [HttpClientScan.hear] in *.
  - destruct (heard_text _ f fl) as [nm|] eqn:E1; [|done]. destruct (heard_text _ v vl) as [w|] eqn:E2; [|done].
    apply heard_text_memory in E1, E2.
    cbn [HttpClientParser.to_callback HttpParser.response_callback rs_event_ok rs_apply_event] in *.
    unfold HttpParser.on_response_http_field, HttpParser.text. rewrite E1, E2.
    destruct (Nat.eqb_spec (Z.to_nat fl) 0) as [E|_]; [|done]. by rewrite E in E1.
  - destruct (heard_text _ a l) as [w|] eqn:E; [|done]. destruct (heard_length _ _ _ _ E) as (Hl & _ & _).
    pose proof (heard_text_memory _ _ _ _ _ E) as Em.
    destruct el; cbn [bool_decide decide_rel andb HttpClientParser.to_callback HttpParser.response_callback] in *;
      rewrite ?bool_decide_eq_false_2 in * by done; cbn [andb rs_event_ok rs_apply_event] in *; try done.
    + unfold HttpParser.on_response_reason, HttpParser.text. by rewrite Em.
    + rewrite bool_decide_eq_true_2 in * by done. cbn [andb] in *.
      destruct (HttpClientScan.ends_number _ a l) eqn:Ee; [|done]. cbn [negb rs_event_ok rs_apply_event] in *.
      destruct Hok as [Hd Hne]. unfold HttpParser.on_response_status. by rewrite (status_of_data data n a l w).
    + unfold HttpParser.on_response_version. rewrite Hl in Em |- *. by rewrite version_text_of.
Qed.

Lemma rs_events_applied data n calls es p :
  HttpClientScan.hear (take n data) <$> calls = es → Forall rs_event_ok es →
  foldl (HttpParser.response_callback data) p (HttpClientParser.to_callback <$> calls) = foldl rs_apply_event p es.
Proof.
  intros <-. revert p. induction calls as [|c calls IH]; intros p Hok; [done|].
  apply Forall_cons in Hok as [Hc Hok]. cbn [fmap list_fmap foldl] in *.
  rewrite (rs_event_applied data n c _ p eq_refl Hc). by apply IH.
Qed.
End response.

(** *** Responses that can be printed and parsed *)

(** The fields of its map that a response prints. *)
Definition other_fields (r : Http.HttpResponse) : Http.MapType :=
  filter (λ e, is_eq (strcasecmp e.1 (str "connection")) = false) (Http.rs_headers r).

Record rs_sendable (r : Http.HttpResponse) : Prop := {
  rs_sendable_version : Http.rs_version r = 16 ∨ Http.rs_version r = 17;
  rs_sendable_status : 0 ≤ Http.m_status r < 2 ^ 31;
  rs_sendable_reason : Http.m_reason r = [] ∨ is_reason (Http.m_reason r);
  rs_sendable_headers : Forall (λ e, HttpClientScan.is_name e.1 ∧ HttpClientScan.is_value e.2) (other_fields r);
  rs_sendable_sorted : sorted_map (Http.rs_headers r)
}.

(** A response without a reason goes out with that of its status. *)
Definition reason_text (r : Http.HttpResponse) : list Z :=
  match Http.m_reason r with [] => Http.HttpStatus2String (Http.m_status r) | reason => reason end.

Lemma status_reasons s : is_reason (Http.HttpStatus2String s).
Proof.
  assert (∀ w, match w with [] => false | c :: w => Ragel.mem reason_chars c && forallb (Ragel.mem reason_chars) w end = true →
    is_reason w) as Hw.
  { intros [|c w]; [done|]. rewrite andb_true_iff, forallb_forall. intros [Hc Hall]. split; [done|].
    apply Forall_forall. intros x Hx. by apply Hall, list_elem_of_In. }
  unfold Http.HttpStatus2String. destruct (List.find _ _) as [[n msg]|] eqn:E; [|by apply Hw].
  apply find_some in E as [Hin _].
  assert (forallb (λ e : Z * list Z, match e.2 with [] => false | c :: w => Ragel.mem reason_chars c && forallb (Ragel.mem reason_chars) w end)
    Http.HTTP_STATUS_MAP = true) as Hall by (vm_compute; reflexivity).
  apply Hw. exact (proj1 (forallb_forall _ _) Hall _ Hin).
Qed.

Lemma reason_ok r : rs_sendable r → is_reason (reason_text r).
Proof.
  intros Hr. unfold reason_text. destruct (rs_sendable_reason r Hr) as [->|H]; [apply status_reasons|].
  by destruct (Http.m_reason r).
Qed.

Definition rs_printed_fields (r : Http.HttpResponse) : list (list Z * list Z) :=
  other_fields r ++ [connection_field (Http.rs_close r)] ++ length_field (Http.rs_body r).

Definition rs_head (r : Http.HttpResponse) : list Z :=
  response_head (Http.version_text (Http.rs_version r)) (Http.dec (Http.m_status r)) (reason_text r) (other_fields r)
    (Http.rs_close r) (announced (Http.rs_body r)).

Lemma rs_dump_head r : 0 ≤ Http.m_status r < 2 ^ 31 → Http.rs_dump r = rs_head r ++ Http.rs_body r.
Proof.
  intros Hs. unfold Http.rs_dump, rs_head, response_head. fold (reason_text r). fold (other_fields r).
  rewrite uint_id by (unfold in_uint; lia). rewrite body_lines, header_lines_lines.
  assert (Http.connection_line (Http.rs_close r) = HttpClientScan.line (str "Connection", connection_value (Http.rs_close r))) as ->
    by (by destruct (Http.rs_close r)).
  assert (concat (Http11Scan.line <$> length_field (Http.rs_body r)) =
    match announced (Http.rs_body r) with Some w => HttpClientScan.line (str "Content-Length", w) | None => [] end) as ->.
  { unfold length_field. destruct (Http.rs_body r); [done|]. cbn [fmap list_fmap concat announced]. by rewrite app_nil_r. }
  change (Http11Scan.line <$> other_fields r) with (HttpClientScan.line <$> other_fields r).
  by rewrite <-!app_assoc.
Qed.

Lemma digits_start w : is_digits w → w ≠ [] → starts Ragel.digit Ragel.digit w.
Proof.
  intros Hw Hne. assert (∀ c, HttpParser.is_digit c = true → Ragel.mem Ragel.digit c = true) as Hd.
  { intros c. unfold HttpParser.is_digit, Ragel.mem, Ragel.digit. cbn. by rewrite orb_false_r. }
  destruct w as [|c w]; [done|]. apply Forall_cons in Hw as [Hc Hw]. split; [by apply Hd|].
  eapply Forall_impl; [exact Hw|exact Hd].
Qed.

Lemma rs_printed_ok r : rs_sendable r →
  response_ok (Http.version_text (Http.rs_version r)) (Http.dec (Http.m_status r)) (reason_text r) (other_fields r)
    (announced (Http.rs_body r)).
Proof.
  intros Hr. assert (∀ n, 0 ≤ n → starts Ragel.digit Ragel.digit (Http.dec n)) as Hdec.
  { intros n Hn. destruct (dec_spec n Hn) as (H1 & H2 & _). by apply digits_start. }
  constructor.
  - unfold HttpClientScan.versions. destruct (rs_sendable_version r Hr) as [-> | ->]; vm_compute; [left|right; left].
  - apply Hdec. apply Hr.
  - by apply reason_ok.
  - apply Hr.
  - intros w. unfold announced. destruct (Http.rs_body r); [done|]. intros [= <-]. apply Hdec. lia.
Qed.

(** *** The fields that come out *)
Lemma to_map_key m k v : to_map m !! k = Some v → ∃ e, e ∈ m ∧ fold_case e.1 = k.
Proof.
  induction m as [|[k' v'] m IH]; cbn [to_map]; [by rewrite lookup_empty|].
  destruct (decide (fold_case k' = k)) as [<-|E].
  - intros _. exists (k', v'). split; [left|done].
  - rewrite lookup_insert_ne by done. intros H. destruct (IH H) as (e & He & Hk). exists e. split; [by right|done].
Qed.

Lemma other_fields_spec (m : Http.MapType) k :
  sorted_map m →
  let m' := filter (λ e : list Z * list Z, is_eq (strcasecmp e.1 (str "connection")) = false) m in
  sorted_map m' ∧ (k ≠ str "connection" → to_map m' !! k = to_map m !! k).
Proof.
  assert (fold_case (str "connection") = str "connection") as Ec by (vm_compute; reflexivity).
  intros Hm. cbv zeta. induction Hm as [|[n v] m Hs [IH1 IH2] Hall]; [split; [constructor|done]|].
  rewrite filter_cons. cbn [fst].
  destruct (decide (is_eq (strcasecmp n (str "connection")) = false)) as [E|E].
  - split.
    + constructor; [done|]. apply Forall_forall. intros e [_ He]%list_elem_of_filter.
      rewrite Forall_forall in Hall. by apply Hall.
    + intros Hk. cbn [to_map]. destruct (decide (fold_case n = k)) as [->|Hn]; [by rewrite !lookup_insert_eq|].
      rewrite !lookup_insert_ne by done. by apply IH2.
  - split; [done|]. intros Hk. cbn [to_map]. rewrite lookup_insert_ne; [by apply IH2|].
    intros E'. apply Hk. rewrite <-E'. apply not_false_is_true in E. rewrite strcasecmp_eq, Ec in E.
    by apply bool_decide_eq_true in E.
Qed.

Lemma c_str_name w : all HttpClientScan.name_chars w → c_str w = w.
Proof.
  induction 1 as [|c w Hc _ IH]; [done|]. cbn [c_str]. destruct (Z.eqb_spec c 0) as [->|_]; [|by rewrite IH].
  vm_compute in Hc. discriminate.
Qed.

(** A plain name is none of those that printing adds. *)
Lemma plain_absent m k :
  Forall (λ e : list Z * list Z, HttpClientScan.is_name e.1 ∧ HttpClientScan.is_value e.2) m →
  k ∈ special → to_map m !! k = None.
Proof.
  intros Hm Hk. destruct (to_map m !! k) as [v|] eqn:E; [|done].
  destruct (to_map_key _ _ _ E) as (e & He & <-). rewrite Forall_forall in Hm.
  destruct (Hm e He) as [(_ & Hc & Hs) _]. destruct Hs. unfold fold_case in Hk. by rewrite c_str_name in Hk.
Qed.

Lemma rs_printed_lookup r key :
  rs_sendable r →
  to_map (map_sets [] (rs_printed_fields r)) !! fold_case key =
    if decide (fold_case key = str "content-length") then announced (Http.rs_body r)
    else if decide (fold_case key = str "connection") then Some (connection_field (Http.rs_close r)).2
    else to_map (Http.rs_headers r) !! fold_case key.
Proof.
  intros Hr. destruct (other_fields_spec (Http.rs_headers r) (fold_case key) (rs_sendable_sorted r Hr)) as [Hs Hk].
  fold (other_fields r) in Hs, Hk. pose proof (rs_sendable_headers r Hr) as Hh.
  unfold rs_printed_fields. rewrite map_sets_parts; [|done|apply sorted_one|apply sorted_length].
  rewrite !lookup_union, length_lookup, connection_lookup.
  destruct (decide (fold_case key = str "content-length")) as [E|E].
  - rewrite E, decide_False by discriminate. rewrite (plain_absent _ _ Hh) by left. by destruct (announced _).
  - destruct (decide (fold_case key = str "connection")) as [E'|E'].
    + rewrite E', (plain_absent _ _ Hh) by (right; left). done.
    + rewrite (Hk E'). by destruct (to_map (Http.rs_headers r) !! _).
Qed.

(** The response that comes out. Whether to close is not taken from the
    Connection field: it is what the constructor says. *)
Definition rs_received (r : Http.HttpResponse) : Http.HttpResponse :=
  Http.mk_response (Http.m_status r) (Http.rs_version r) true (reason_text r) (Http.rs_body r)
    (map_sets [] (rs_printed_fields r)).

Lemma rs_fields_applied {C} (hs : list (list Z * list Z)) (p : HttpParser.HttpResponseParser C) :
  foldl rs_apply_event p ((λ e, HttpClientScan.field e.1 e.2) <$> hs) =
  HttpParser.mk_response_parser (HttpParser.rs_parser p)
    (Http.rs_setHeaders (map_sets (Http.rs_headers (HttpParser.rs_data p)) hs) (HttpParser.rs_data p)) (HttpParser.rs_error p).
Proof.
  revert p. induction hs as [|[n v] hs IH]; intros [c d e]; cbn [fmap list_fmap foldl]; [by destruct d|].
  rewrite IH. by destruct d.
Qed.

Lemma rs_events r :
  response_events (Http.version_text (Http.rs_version r)) (Http.dec (Http.m_status r)) (reason_text r) (other_fields r)
    (Http.rs_close r) (announced (Http.rs_body r)) =
  [HttpClientScan.said HttpClientParser.Element.http_version (Http.version_text (Http.rs_version r));
   HttpClientScan.said HttpClientParser.Element.status_code (Http.dec (Http.m_status r));
   HttpClientScan.said HttpClientParser.Element.reason_phrase (reason_text r)] ++
  ((λ e, HttpClientScan.field e.1 e.2) <$> rs_printed_fields r).
Proof.
  unfold response_events, rs_printed_fields. rewrite !fmap_app. do 2 f_equal.
  unfold connection_field, connection_value, length_field, announced. by destruct (Http.rs_close r), (Http.rs_body r).
Qed.

Lemma rs_events_fine r : rs_sendable r → Forall rs_event_ok (response_events (Http.version_text (Http.rs_version r))
  (Http.dec (Http.m_status r)) (reason_text r) (other_fields r) (Http.rs_close r) (announced (Http.rs_body r))).
Proof.
  intros Hr. pose proof (rs_printed_ok r Hr) as [Hv _ _ Hh _]. rewrite rs_events.
  destruct (dec_spec (Http.m_status r)) as (Hd & Hne & _); [apply Hr|].
  repeat (constructor; [done|]). apply Forall_fmap, Forall_app. split; [|apply Forall_app; split].
  - eapply Forall_impl; [exact Hh|]. intros [n v] [(Hn & _ & _) _]. exact Hn.
  - by apply Forall_singleton.
  - unfold length_field. destruct (Http.rs_body r); [constructor|by apply Forall_singleton].
Qed.

(** HttpResponseParser over a buffer that starts with a printed response. *)
Lemma response_parsed r memory data n after :
  rs_sendable r → data = Http.rs_dump r ++ 0 :: after → n = length (Http.rs_dump r) → Z.of_nat n < 2 ^ 63 →
  ∃ p', HttpParser.rs_execute (HttpClientParser.httpclient_parser_init memory) HttpClientParser.run_parser data n false
      (HttpParser.HttpResponseParser_new (HttpClientParser.httpclient_parser_init memory)) =
    Some (length (rs_head r), HttpParser.moved data n (length (rs_head r)), p') ∧
    HttpParser.rs_hasError HttpClientParser.httpclient_parser_has_error p' = false ∧
    HttpParser.rs_isFinished HttpClientParser.httpclient_parser_is_finished p' = true ∧
    HttpClientParser.chunked (HttpParser.rs_parser p') = false ∧
    Http.rs_setBody (Http.rs_body r) (HttpParser.rs_data p') = rs_received r ∧
    Http.rs_body (HttpParser.rs_data p') = [].
Proof.
  intros Hr Hdata Hn Hsmall. rewrite rs_dump_head in Hdata, Hn by apply Hr.
  destruct (response_text_heard _ _ _ (Http.rs_body r) after _ (Http.rs_close r) _ memory (rs_printed_ok r Hr))
    as (c & calls & E & Hf & He & Hc & Hh).
  { fold (rs_head r). by rewrite <-Hn. }
  fold (rs_head r) in E, Hh. rewrite <-Hdata, <-Hn in E.
  assert (take n data = rs_head r ++ Http.rs_body r) as Ht by (by rewrite Hdata, Hn, take_app_length).
  rewrite <-Ht in Hh.
  eexists. unfold HttpParser.rs_execute. cbn [HttpParser.rs_parser HttpParser.HttpResponseParser_new].
  unfold HttpClientParser.run_parser. rewrite E.
  rewrite uint_id, Nat2Z.id by (unfold in_uint; rewrite Hn, length_app in Hsmall; lia).
  rewrite (rs_events_applied data n calls _ _ Hh).
  2:{ apply Forall_app. split; [by apply rs_events_fine|by constructor]. }
  split; [reflexivity|]. rewrite foldl_app, rs_events, foldl_app, rs_fields_applied. cbn [foldl rs_apply_event].
  rewrite atoi_dec by apply Hr.
  assert ((if decide (Http.version_text (Http.rs_version r) = str "HTTP/1.1") then 17 else 16) = Http.rs_version r) as ->
    by (by destruct (rs_sendable_version r Hr) as [-> | ->]).
  unfold HttpParser.rs_hasError, HttpParser.rs_isFinished. cbn. rewrite He. auto.
Qed.

Section recv_response.
Context {MX : MaxSize} {S : Type} `{!Stream S}.
Variable lexical_cast : list Z → option Z.
Variable memory : HttpClientParser.httpclient_parser.

Abbreviation recvResponse := (HttpConnection.recvResponse lexical_cast (HttpClientParser.httpclient_parser_init memory)
  HttpClientParser.run_parser HttpClientParser.httpclient_parser_has_error HttpClientParser.httpclient_parser_is_finished
  HttpClientParser.chunked HttpClientParser.chunks_done HttpClientParser.content_len).

Abbreviation run := (HttpConnection.execute (HttpClientParser.httpclient_parser_init memory) HttpClientParser.run_parser false).
Abbreviation hasError := (HttpConnection.hasError HttpClientParser.httpclient_parser_has_error).
Abbreviation isFinished := (HttpConnection.isFinished HttpClientParser.httpclient_parser_is_finished).

End recv_response.

(** ** Witnesses *)
#[local] Existing Instance toy_max.
#[local] Existing Instance toy_stream.

Definition sample_request : Http.HttpRequest :=
  Http.mk_request Http.POST 17 false (str "/a%20b/c") (str "x=1") (str "top") (str "hello")
    [(str "Accept", str "*/*"); (str "X-Empty", [])] [] [].
Definition sample_response : Http.HttpResponse :=
  Http.mk_response 404 17 false [] (str "gone") [(str "Content-Type", str "text/plain"); (str "Server", str "windgent")].
Definition no_request_memory : Http11Parser.http_parser := any_memory.
Definition no_response_memory : HttpClientParser.httpclient_parser :=
  HttpClientParser.mk None 0 0 0 false false false 0 0 0 0.
Definition parse_number (l : list Z) : option Z := Some (HttpParser.atoi l).

(** Lists that satisfy a predicate character by character. *)
Lemma all_check k w : forallb (Ragel.mem k) w = true → all k w.
Proof. rewrite forallb_forall. intros H. apply Forall_forall. intros c Hc. by apply H, list_elem_of_In. Qed.

Lemma starts_check k0 k w :
  match w with [] => false | c :: w => Ragel.mem k0 c && forallb (Ragel.mem k) w end = true → starts k0 k w.
Proof. destruct w as [|c w]; [done|]. rewrite andb_true_iff. intros [H1 H2]. split; [done|by apply all_check]. Qed.

Lemma sample_request_sendable : sendable sample_request.
Proof.
  constructor; try (vm_compute; reflexivity); try discriminate.
  - by right.
  - right. vm_compute. reflexivity.
  - by right.
  - by right.
  - repeat (apply Forall_cons; split; [split; [by apply starts_check|]|]); [right; by apply starts_check|by left|constructor].
  - repeat constructor.
Qed.

Lemma sample_response_sendable : rs_sendable sample_response.
Proof.
  constructor; [by right|cbn; lia|by left| |repeat constructor].
  change (other_fields sample_response) with (Http.rs_headers sample_response).
  repeat (apply Forall_cons; split; [split; [split; [done|split; [by apply all_check|]]|right; by apply starts_check]|]);
    [..|constructor]; vm_compute; intros H; repeat (apply elem_of_cons in H as [H|H]; [discriminate|]);
    by apply not_elem_of_nil in H.
Qed.

Lemma request_round_trip_witness :
  HttpSession.recvRequest parse_number (Http11Parser.http_parser_init no_request_memory) Http11Parser.run_parser
    Http11Parser.http_parser_has_error Http11Parser.http_parser_is_finished 1 (replicate 300 7)
    (toy [Http.rq_dump sample_request] true) = Ok (Some (received sample_request)) (toy [] true).
Proof.
  assert (reads (toy [Http.rq_dump sample_request] true) (Z.of_nat (length (replicate 300 7)))
    (Z.of_nat (length (Http.rq_dump sample_request))) (Http.rq_dump sample_request) (toy [] true)) as R
    by (by apply (connected_reads toy_recv toy_send toy_close)).
  exact (proj1 (request_round_trip parse_number no_request_memory sample_request (replicate 300 7) 0 _ _
    sample_request_sendable ltac:(vm_compute; lia) ltac:(vm_compute; reflexivity) ltac:(vm_compute; discriminate)
    ltac:(vm_compute; reflexivity) R)).
Defined.

