(* ===== verification/HttpChunked.v ===== *)
(** Bodies in chunks, over the state machine of responses.

    HttpConnection parses the line in front of every chunk with the machine of
    HttpClientParser.v. A body that is written in chunks and lies in the buffer
    is read back as it was ([chunks_decoded]). *)
From stdpp Require Import base list numbers option strings.
From Stdlib Require Import ZArith Lia.
From S2P Require Import Prelude CString Stream StreamProps Http HttpParser HttpSession HttpConnection HttpSessionProps HttpConnectionProps Ragel RagelProps HttpClientParser HttpClientScan HttpClientParserProps.
Local Open Scope Z_scope.

(** A chunk as it is sent: the length in hexadecimal, in any spelling. *)
Definition chunk_text (e : list Z * list Z) : list Z := e.1 ++ Http.crlf ++ e.2 ++ Http.crlf.
Definition spells (w : list Z) (n : Z) : Prop := w ≠ [] ∧ all Ragel.xdigit w ∧ hex_value w = n.

Section chunks.
Import HttpConnection.
Context {MX : MaxSize} {S : Type} `{!Stream S}.
Variable memory : HttpClientParser.httpclient_parser.
Implicit Types (s : S) (data body : list Z).

Abbreviation init := (HttpClientParser.httpclient_parser_init memory).
Abbreviation parser := (HttpParser.HttpResponseParser HttpClientParser.httpclient_parser).
Abbreviation chunk_head := (HttpConnection.chunk_head init HttpClientParser.run_parser
  HttpClientParser.httpclient_parser_has_error HttpClientParser.httpclient_parser_is_finished).
Abbreviation chunks := (HttpConnection.chunks init HttpClientParser.run_parser
  HttpClientParser.httpclient_parser_has_error HttpClientParser.httpclient_parser_is_finished
  HttpClientParser.chunks_done HttpClientParser.content_len).

Lemma chunk_calls_quiet data (p : parser) calls :
  Forall chunk_call calls → foldl (HttpParser.response_callback data) p (HttpClientParser.to_callback <$> calls) = p.
Proof.
  intros H. revert p. induction H as [|c calls Hc _ IH]; intros p; [done|]. cbn [fmap list_fmap foldl].
  destruct c as [|e a l]; [done|]. destruct Hc as [->|[->| ->]]; apply IH.
Qed.

Lemma hex_ok w n : spells w n → n < 2 ^ 31 → hex_value w < 2 ^ 63 ∧ sint 32 (hex_value w) = n.
Proof.
  intros (_ & Hw & <-) Hn. pose proof (hex_value_nonneg w Hw).
  split; [lia|]. apply (sint_id 32); [lia|]. unfold in_sint. lia.
Qed.

(** The line of a chunk is parsed in the buffer, without a read: the text behind
    it is moved to the front, and the message is not touched. *)
Lemma chunk_head_parsed fuel data (p : parser) len s w n tail :
  HttpParser.rs_error p = 0 → take (Z.to_nat len) data = w ++ Http.crlf ++ tail →
  0 ≤ len < Z.of_nat (length data) → Z.of_nat (length data) < 2 ^ 31 → spells w n → n < 2 ^ 31 →
  ∃ data1 p1, chunk_head (Datatypes.S fuel) data p len true s = Ok (Some (data1, p1, Z.of_nat (length tail))) s ∧
    length data1 = length data ∧ take (length tail) data1 = tail ∧
    HttpParser.rs_error p1 = 0 ∧ HttpParser.rs_data p1 = HttpParser.rs_data p ∧
    HttpClientParser.content_len (HttpParser.rs_parser p1) = n ∧
    HttpClientParser.chunks_done (HttpParser.rs_parser p1) = (n <=? 0).
Proof.
  intros Herr Htake Hlen Hsmall Hw Hn. destruct (hex_ok w n Hw Hn) as [Hv Hs]. destruct Hw as (Hne & Hx & _).
  set (text := w ++ Http.crlf ++ tail) in *.
  assert (Z.to_nat len = length text) as El by (rewrite <-Htake, length_take; lia).
  set (after := drop (Datatypes.S (length text)) data).
  assert (splice data (length text) [0] = text ++ 0 :: after) as Hdata.
  { unfold splice. rewrite <-El at 1. rewrite Htake. cbn [length app].
    by replace (length text + 1)%nat with (Datatypes.S (length text)) by lia. }
  destruct (chunk_head_read w tail after memory Hne Hx Hv) as (c & calls & E & Hf & He & Hc & Hcl & Hd & Hcalls).
  { rewrite <-app_assoc. fold text. lia. }
  rewrite <-(app_assoc w Http.crlf tail) in E. fold text in E. rewrite <-Hdata in E.
  assert (length (w ++ Http.crlf) + length tail = length text)%nat as Hl by (unfold text; rewrite !length_app; lia).
  assert (length tail < length text)%nat as Hlt by (destruct w; [done|unfold text; rewrite !length_app; simpl; lia]).
  exists (HttpParser.moved (splice data (length text) [0]) (length text) (length (w ++ Http.crlf))),
    (HttpParser.mk_response_parser c (HttpParser.rs_data p) (HttpParser.rs_error p)).
  split; [|split; [|split; [|repeat split]]]; cbn [HttpParser.rs_error HttpParser.rs_data HttpParser.rs_parser].
  - cbn [HttpConnection.chunk_head negb orb]. destruct (Z.eqb_spec len 0) as [E0|_]; [lia|]. unfold_M.
    unfold store_at, in_boundsM. unfold_M. destruct (Z.leb_spec 0 len); [|lia]. cbn [length].
    destruct (Z.leb_spec (len + Z.of_nat 1) (Z.of_nat (length data))); [|lia]. cbn [andb]. rewrite El.
    unfold HttpConnection.execute, HttpParser.rs_execute, HttpClientParser.run_parser. rewrite E. unfold asserted. unfold_M.
    rewrite uint_id by (unfold in_uint; lia). rewrite Nat2Z.id, chunk_calls_quiet by done.
    unfold HttpConnection.hasError, HttpParser.rs_hasError, HttpConnection.isFinished, HttpParser.rs_isFinished.
    cbn [HttpParser.rs_error HttpParser.rs_parser]. rewrite Herr, He, Hf. cbn [Z.eqb negb orb].
    rewrite sint_id, (sint_id 32 (Z.of_nat (length data))) by (unfold in_sint; lia).
    match goal with |- context [?a =? ?b] => destruct (Z.eqb_spec a b); [lia|] end.
    do 4 f_equal. lia.
  - unfold HttpParser.moved. rewrite length_app, !length_drop, length_take, length_splice by (simpl; lia). lia.
  - unfold HttpParser.moved. rewrite Hdata, take_app_length. unfold text at 1. rewrite app_assoc, drop_app_length.
    apply take_app_length.
  - done.
  - by rewrite Hcl.
  - by rewrite Hd, Hcl, Hs.
Qed.

(** The first [len] bytes of a buffer, which is not full. *)
Definition holds (data : list Z) (len : Z) (text : list Z) : Prop :=
  take (Z.to_nat len) data = text ∧ len = Z.of_nat (length text) ∧ len < Z.of_nat (length data) < 2 ^ 31.

(** One round of the outer loop on a chunk that is in the buffer. *)
Lemma chunk_decoded fuel data (p : parser) s w c rest body :
  HttpParser.rs_error p = 0 → spells w (Z.of_nat (length c)) →
  holds data (Z.of_nat (length (chunk_text (w, c) ++ rest))) (chunk_text (w, c) ++ rest) →
  Z.of_nat (length body) + (Z.of_nat (length c) + 2) ≤ max_size →
  ∃ data2 p1, HttpConnection.chunk init HttpClientParser.run_parser HttpClientParser.httpclient_parser_has_error
      HttpClientParser.httpclient_parser_is_finished HttpClientParser.content_len (Datatypes.S fuel) data body p
      (Z.of_nat (length (chunk_text (w, c) ++ rest))) s =
    Ok (Some (data2, body ++ c, p1, Z.of_nat (length rest))) s ∧
    holds data2 (Z.of_nat (length rest)) rest ∧ length data2 = length data ∧
    HttpParser.rs_error p1 = 0 ∧ HttpParser.rs_data p1 = HttpParser.rs_data p ∧
    HttpClientParser.chunks_done (HttpParser.rs_parser p1) = (Z.of_nat (length c) <=? 0).
Proof.
  intros Herr Hw (Htake & _ & Hlen & Hsmall) Hmax.
  set (text := chunk_text (w, c) ++ rest) in *.
  assert (text = w ++ Http.crlf ++ c ++ Http.crlf ++ rest) as Htext.
  { unfold text, chunk_text. cbn [fst snd]. by rewrite <-!app_assoc. }
  set (tail := c ++ Http.crlf ++ rest) in *.
  assert (length tail = length c + 2 + length rest)%nat as Htail by (unfold tail; rewrite !length_app; simpl; lia).
  assert (length tail ≤ length text)%nat as Hle by (rewrite Htext, !length_app; lia).
  rewrite Htext in Htake at 2.
  destruct (chunk_head_parsed fuel data p _ s w (Z.of_nat (length c)) tail Herr Htake ltac:(lia) Hsmall Hw ltac:(lia))
    as (data1 & p1 & E & Hd1 & Ht1 & Herr1 & Hdata1 & Hn & Hdone).
  set (n := Z.of_nat (length c)) in *.
  assert (one_chunk init HttpClientParser.run_parser HttpClientParser.httpclient_parser_has_error
    HttpClientParser.httpclient_parser_is_finished HttpClientParser.content_len (Datatypes.S fuel) data p
    (Z.of_nat (length text)) s c data1 p1 (Z.of_nat (length tail)) [] s) as H1.
  { apply (one_chunk_intro _ _ _ _ _ _ _ _ _ _ _ _ _ _ [] s s rest); try done; try lia.
    - rewrite Nat2Z.id, Ht1. by rewrite app_nil_r.
    - rewrite Z.max_l by lia. apply arrives_all.
    - simpl. lia. }
  exists (HttpConnectionProps.behind data1 (Z.of_nat (length tail)) n []).1, p1.
  rewrite (chunk_ok _ _ _ _ _ _ _ _ _ _ _ _ _ _ _ _ _ H1 Hmax).
  fold n.
  unfold HttpConnectionProps.behind. destruct (Z.leb_spec (n + 2) (Z.of_nat (length tail))) as [_|]; [|lia]. cbn [fst snd].
  replace (Z.of_nat (length tail) - (n + 2)) with (Z.of_nat (length rest)) by lia. rewrite !Nat2Z.id.
  assert (take (length rest) (drop (Z.to_nat (n + 2)) data1) = rest) as Hrest.
  { replace (Z.to_nat (n + 2)) with (length c + 2)%nat by lia.
    replace (length rest) with (length tail - (length c + 2))%nat by lia.
    rewrite <-skipn_firstn_comm, Ht1. unfold tail. by rewrite <-drop_drop, drop_app_length. }
  rewrite Hrest. assert (length (splice data1 0 rest) = length data1) as Hl by (apply length_splice; simpl; lia).
  split; [done|]. split; [|split; [lia|done]].
  split; [rewrite Nat2Z.id; apply (take_drop_splice data1 0); lia|]. rewrite Hl. lia.
Qed.

(** C26. A body in chunks that is in the buffer with whatever follows it: the
    contents of the chunks, one behind the other, up to the empty chunk; nothing
    is read from the stream, and the message's head stays as it was. *)
Theorem chunks_decoded (cs : list (list Z * list Z)) (zero rest data : list Z) (p : parser) (s : S) (rounds fuel : nat) :
  Forall (λ e, spells e.1 (Z.of_nat (length e.2)) ∧ e.2 ≠ []) cs → spells zero 0 → HttpParser.rs_error p = 0 →
  let text := concat (chunk_text <$> cs) ++ chunk_text (zero, []) ++ rest in
  take (length text) data = text → (length text < length data)%nat → Z.of_nat (length data) < 2 ^ 31 →
  Z.of_nat (length (concat (snd <$> cs))) + 2 ≤ max_size → (length cs < rounds)%nat → (0 < fuel)%nat →
  ∃ p', chunks rounds fuel data [] p (Z.of_nat (length text)) s = Ok (Some (concat (snd <$> cs), p')) s ∧
    HttpParser.rs_data p' = HttpParser.rs_data p.
Proof.
  intros Hcs Hz Herr text Htake Hfit Hsmall Hmax Hr Hf.
  assert (holds data (Z.of_nat (length text)) text) as Hh by (split; [by rewrite Nat2Z.id|lia]).
  destruct fuel as [|fuel]; [lia|]. clear Htake Hfit Hsmall Hf.
  enough (∀ body, Z.of_nat (length body + length (concat (snd <$> cs))) + 2 ≤ max_size →
    ∃ p', chunks rounds (Datatypes.S fuel) data body p (Z.of_nat (length text)) s =
      Ok (Some (body ++ concat (snd <$> cs), p')) s ∧ HttpParser.rs_data p' = HttpParser.rs_data p) as H.
  { destruct (H [] ltac:(simpl in *; lia)) as (p' & E & Hp). by exists p'. }
  clear Hmax. revert rounds Hr data p Herr Hh. induction Hcs as [|[w c] cs [Hw Hc] _ IH];
    intros [|rounds] Hr data p Herr Hh body Hb; try (simpl in Hr; lia); cbn [HttpConnection.chunks].
  - unfold text in *. cbn [fmap list_fmap concat app snd] in *.
    destruct (chunk_decoded fuel data p s zero [] rest body Herr Hz Hh) as (d2 & p1 & E & _ & _ & _ & Hd & Hdone);
      [simpl in *; lia|].
    unfold_M. rewrite E. cbv beta iota. rewrite Hdone. by exists p1.
  - cbn [fst snd] in *. unfold text in *. cbn [fmap list_fmap concat] in *. rewrite <-app_assoc in Hh |- *.
    rewrite length_app in Hb.
    destruct (chunk_decoded fuel data p s w c _ body Herr Hw Hh) as (d2 & p1 & E & Hh2 & _ & He & Hd & Hdone);
      [simpl in *; lia|].
    unfold_M. rewrite E. cbv beta iota. rewrite Hdone.
    destruct (Z.leb_spec (Z.of_nat (length c)) 0); [by destruct c|].
    destruct (IH rounds ltac:(simpl in Hr; lia) d2 p1 He Hh2 (body ++ c)) as (p' & E' & Hp);
      [rewrite length_app; simpl in *; lia|].
    exists p'. rewrite <-app_assoc in E'. split; [exact E'|by rewrite Hp].
Qed.
End chunks.

(** *** Witness *)
#[local] Existing Instance toy_max.
#[local] Existing Instance toy_stream.

Definition sample_chunks : list (list Z * list Z) := [(str "4", str "wind"); (str "00A", str "gent" ++ Http.crlf ++ str "text")].
Definition sample_text : list Z := concat (chunk_text <$> sample_chunks) ++ chunk_text (str "0", []) ++ str "HTTP".
Definition sample_memory : HttpClientParser.httpclient_parser :=
  HttpClientParser.mk None 0 0 0 false false false 0 0 0 0.
Definition sample_parser : HttpParser.HttpResponseParser HttpClientParser.httpclient_parser :=
  HttpParser.HttpResponseParser_new (HttpClientParser.httpclient_parser_init sample_memory).

Lemma spells_check w n :
  w ≠ [] → forallb (Ragel.mem Ragel.xdigit) w = true → hex_value w = n → spells w n.
Proof.
  intros Hne Hx Hv. split; [done|]. split; [|done]. apply Forall_forall. intros c Hc.
  by apply (proj1 (forallb_forall _ _) Hx), list_elem_of_In.
Qed.

Lemma chunks_decoded_witness :
  ∃ p', HttpConnection.chunks (HttpClientParser.httpclient_parser_init sample_memory) HttpClientParser.run_parser
      HttpClientParser.httpclient_parser_has_error HttpClientParser.httpclient_parser_is_finished
      HttpClientParser.chunks_done HttpClientParser.content_len 3 1 (sample_text ++ replicate 20 7) [] sample_parser
      (Z.of_nat (length sample_text)) (toy [] true) =
    Ok (Some (str "windgent" ++ Http.crlf ++ str "text", p')) (toy [] true) ∧
    HttpParser.rs_data p' = HttpParser.rs_data sample_parser.
Proof.
  apply (chunks_decoded sample_memory sample_chunks (str "0") (str "HTTP") (sample_text ++ replicate 20 7) sample_parser
    (toy [] true) 3 1); try done; try (vm_compute; reflexivity || lia || discriminate).
  - repeat (constructor; [split; [by apply spells_check|done]|]). constructor.
  - by apply spells_check.
Defined.
