(* ===== verification/LogFormatter.v ===== *)
(** Log levels, events and formats: the first part of [log.h] and [log.cc].

    Module [LogLevel] has the levels and their names, module [LogFormatter]
    the parser of format patterns, with the indices of the code, and the items
    that write an event. [strftime] on the local time is a parameter; it
    answers nothing when the text does not fit into the buffer it is given. *)
From stdpp Require Import base list numbers option strings pretty.
From Stdlib Require Import ZArith Lia.
From S2P Require Import Prelude CString.

Module LogLevel.

Inductive Level := UNKNOWN | DEBUG | INFO | WARN | ERROR | FATAL.

#[global] Instance Level_eq_dec : EqDecision Level.
Proof. solve_decision. Defined.

Definition number (l : Level) : nat :=
  match l with UNKNOWN => 0 | DEBUG => 1 | INFO => 2 | WARN => 3 | ERROR => 4 | FATAL => 5 end.

(** [a >= b] on the enumeration. *)
Definition at_least (a b : Level) : bool := (number b <=? number a)%nat.

Definition ToString (l : Level) : list Z :=
  match l with
  | DEBUG => str "DEBUG"
  | INFO => str "INFO"
  | WARN => str "WARN"
  | ERROR => str "ERROR"
  | FATAL => str "FATAL"
  | UNKNOWN => str "UNKNOWN"
  end.

Definition level_names : list (list Z * Level) :=
  [(str "debug", DEBUG); (str "info", INFO); (str "warn", WARN); (str "error", ERROR);
   (str "fatal", FATAL); (str "DEBUG", DEBUG); (str "INFO", INFO); (str "WARN", WARN);
   (str "ERROR", ERROR); (str "FATAL", FATAL)].

Definition FromString (s : list Z) : Level :=
  match List.find (λ e, bool_decide (e.1 = s)) level_names with
  | Some (_, l) => l
  | None => UNKNOWN
  end.
End LogLevel.

Module LogFormatter.
Import LogLevel.
Local Open Scope Z_scope.

Record LogEvent := mk_event {
  m_file : list Z;
  m_line : Z;
  m_elapse : Z;
  m_threadId : Z;
  m_fiberId : Z;
  m_time : Z;
  m_ss : list Z;
  m_threadName : list Z;
  m_logger : Z;
  m_level : Level
}.

Definition LogEvent_new (logger : Z) (level : Level) (file : list Z)
    (line elapse threadId fiberID time : Z) (threadName : list Z) : LogEvent :=
  mk_event file line elapse threadId fiberID time [] threadName logger level.

(** LogEvent::format: [printed] is what [vasprintf] makes of the arguments. *)
Definition LogEvent_format (printed : option (list Z)) (e : LogEvent) : LogEvent :=
  match printed with
  | Some buf =>
      mk_event (m_file e) (m_line e) (m_elapse e) (m_threadId e) (m_fiberId e) (m_time e)
        (m_ss e ++ buf) (m_threadName e) (m_logger e) (m_level e)
  | None => e
  end.

(** The classes derived from FormatItem. *)
Inductive FormatItem :=
| MessageFormatItem | LevelFormatItem | ElapseFormatItem | NameFormatItem | ThreadIdFormatItem
| NewLineFormatItem | DateTimeFormatItem (m_format : list Z) | FileNameFormatItem | LineFormatItem
| TabFormatItem | FiberIdFormatItem | ThreadNameFormatItem | StringFormatItem (m_str : list Z).

Definition percent : Z := 37.
Definition lbrace : Z := 123.
Definition rbrace : Z := 125.

Definition isalpha (c : Z) : bool := ((65 <=? c) && (c <=? 90)) || ((97 <=? c) && (c <=? 122)).

(** [m_pattern.substr(pos, n)] *)
Definition substr (p : list Z) (pos n : nat) : list Z := take n (drop pos p).
Definition char_at (p : list Z) (i : nat) : Z := nth i p 0.

(** The loop over an item that starts behind [i]: fmt_status, str, fmt, n. *)
Fixpoint item_loop (fuel : nat) (p : list Z) (i n : nat) (fmt_status : bool) (fmt_begin : nat)
    (s fmt : list Z) : bool * list Z * list Z * nat :=
  match fuel with
  | O => (fmt_status, s, fmt, n)
  | S fuel' =>
      if (n <? length p)%nat then
        let c := char_at p n in
        (* the last statements of the body *)
        let next (_ : unit) :=
          let n := S n in
          let s := if (n =? length p)%nat then match s with [] => drop (S i) p | _ => s end else s in
          item_loop fuel' p i n fmt_status fmt_begin s fmt in
        if negb fmt_status && negb (isalpha c) && negb (c =? lbrace) && negb (c =? rbrace)
        then (fmt_status, substr p (S i) (n - i - 1), fmt, n)
        else if negb fmt_status then
          if c =? lbrace then item_loop fuel' p i (S n) true n (substr p (S i) (n - i - 1)) fmt
          else next tt
        else if c =? rbrace then (false, s, substr p (S fmt_begin) (n - fmt_begin - 1), S n)
        else next tt
      else (fmt_status, s, fmt, n)
  end.

(** A piece of the pattern: text, its format, and whether it is an item. *)
Definition piece : Type := list Z * list Z * bool.

Definition flush (nstr : list Z) : list piece := match nstr with [] => [] | _ => [(nstr, [], false)] end.

(** The outer loop: the pieces and whether the pattern has an error. *)
Fixpoint init_loop (fuel : nat) (p : list Z) (i : nat) (nstr : list Z) : list piece * bool :=
  match fuel with
  | O => ([], true)
  | S fuel' =>
      if (i <? length p)%nat then
        let c := char_at p i in
        if negb (c =? percent) then init_loop fuel' p (S i) (nstr ++ [c])
        else if (S i <? length p)%nat && (char_at p (S i) =? percent)
        then init_loop fuel' p (S i) (nstr ++ [percent])
        else
          let '(fmt_status, s, fmt, n) := item_loop (length p) p i (S i) false 0 [] [] in
          if fmt_status : bool then
            let '(l, _) := init_loop fuel' p (S i) nstr in
            ((str "pattern_error", fmt, false) :: l, true)
          else
            let '(l, e) := init_loop fuel' p n [] in
            (flush nstr ++ (s, fmt, true) :: l, e)
      else (flush nstr, false)
  end.

(** s_format_items *)
Definition format_items (name fmt : list Z) : option FormatItem :=
  match name with
  | [109] => Some MessageFormatItem
  | [112] => Some LevelFormatItem
  | [114] => Some ElapseFormatItem
  | [99] => Some NameFormatItem
  | [116] => Some ThreadIdFormatItem
  | [110] => Some NewLineFormatItem
  | [100] => Some (DateTimeFormatItem (match fmt with [] => str "%Y-%m-%d %H:%M:%S" | _ => fmt end))
  | [102] => Some FileNameFormatItem
  | [108] => Some LineFormatItem
  | [84] => Some TabFormatItem
  | [70] => Some FiberIdFormatItem
  | [78] => Some ThreadNameFormatItem
  | _ => None
  end.

Definition make_item (x : piece) : FormatItem * bool :=
  let '(s, fmt, is_item) := x in
  if negb is_item then (StringFormatItem s, false)
  else
    match format_items s fmt with
    | Some it => (it, false)
    | None => (StringFormatItem (str "<<error_format %" ++ s ++ str ">>"), true)
    end.

Record LogFormatter := mk { m_pattern : list Z; m_items : list FormatItem; m_error : bool }.

Definition init (pattern : list Z) : list FormatItem * bool :=
  let '(vec, err) := init_loop (S (length pattern)) pattern 0 [] in
  let made := make_item <$> vec in
  (made.*1, err || existsb snd made).

(** The constructor. *)
Definition new (pattern : list Z) : LogFormatter :=
  let '(items, err) := init pattern in mk pattern items err.

(** The pattern of a new logger. *)
Definition default_pattern : list Z :=
  str "%d{%Y-%m-%d %H:%M:%S}%T%t%T%N%T%F%T[%p]%T[%c]%T%f:%l%T%m%n".

Definition dec (n : Z) : list Z := str (pretty n).

Section format.
Context {S : Type}.
Variable strftime : list Z → Z → option (list Z).

Definition format_item (logger_name : list Z) (level : Level) (event : LogEvent) (i : FormatItem)
    : M S (list Z) :=
  match i with
  | MessageFormatItem => mret (m_ss event)
  | LevelFormatItem => mret (ToString level)
  | ElapseFormatItem => mret (dec (m_elapse event))
  | NameFormatItem => mret logger_name
  | ThreadIdFormatItem => mret (dec (m_threadId event))
  | NewLineFormatItem => mret [10]
  | DateTimeFormatItem fmt =>
      match strftime (c_str fmt) (m_time event) with Some t => mret t | None => faultM Indeterminate end
  | FileNameFormatItem => mret (m_file event)
  | LineFormatItem => mret (dec (m_line event))
  | TabFormatItem => mret [9]
  | FiberIdFormatItem => mret (dec (m_fiberId event))
  | ThreadNameFormatItem => mret (m_threadName event)
  | StringFormatItem s => mret s
  end.

Fixpoint format (items : list FormatItem) (logger_name : list Z) (level : Level) (event : LogEvent)
    : M S (list Z) :=
  match items with
  | [] => mret []
  | i :: l =>
      a ← format_item logger_name level event i;
      b ← format l logger_name level event;
      mret (a ++ b)
  end.
End format.
End LogFormatter.
