(* ===== verification/LogFormatterProps.v ===== *)
(** Format patterns are parsed as they are written: the items of a pattern that
    is rendered from text and items are those items, in their order. *)
From stdpp Require Import base list numbers option strings.
From Stdlib Require Import ZArith Lia.
From S2P Require Import Prelude CString LogFormatter.

Module LogFormatterProps.
Import LogFormatter.
Local Open Scope Z_scope.

(** ** Patterns as they are meant *)
Inductive token :=
| Text (s : list Z)
| Item (name : list Z) (fmt : option (list Z)).

Definition render_token (t : token) : list Z :=
  match t with
  | Text s => s
  | Item name None => percent :: name
  | Item name (Some fmt) => percent :: name ++ lbrace :: fmt ++ [rbrace]
  end.

Definition render (l : list token) : list Z := concat (render_token <$> l).

(** The class of an item, and what the parser has to make of a token. *)
Definition meaning (t : token) : FormatItem :=
  match t with
  | Text s => StringFormatItem s
  | Item name fmt => default (StringFormatItem []) (format_items name (default [] fmt))
  end.

Definition token_ok (t : token) : Prop :=
  match t with
  | Text s => s ≠ [] ∧ Forall (λ c, c ≠ percent) s
  | Item name fmt =>
      is_Some (format_items name (default [] fmt)) ∧
      match fmt with Some f => Forall (λ c, c ≠ rbrace) f | None => True end
  end.

(** What may follow a token: text is not followed by text, and an item without
    braces not by a letter or a brace. *)
Definition may_follow (t : token) (rest : list token) : Prop :=
  match t, rest with
  | Text _, Text _ :: _ => False
  | Item _ None, Text (c :: _) :: _ => isalpha c = false ∧ c ≠ lbrace ∧ c ≠ rbrace
  | _, _ => True
  end.

Fixpoint pattern_ok (l : list token) : Prop :=
  match l with
  | [] => True
  | t :: l' => token_ok t ∧ may_follow t l' ∧ pattern_ok l'
  end.

(** ** The loops *)
Lemma char_at_app p q i : char_at (p ++ q) (length p + i) = char_at q i.
Proof. unfold char_at. rewrite List.app_nth2 by lia. f_equal. lia. Qed.

Lemma char_at_behind p q n i : n = (length p + i)%nat → char_at (p ++ q) n = char_at q i.
Proof. intros ->. apply char_at_app. Qed.

Lemma char_at_Forall (P : Z → Prop) p q i :
  Forall P p → (i < length p)%nat → P (char_at (p ++ q) i).
Proof.
  intros HP Hi. unfold char_at. rewrite List.app_nth1 by done.
  rewrite Forall_forall in HP. apply HP, list_elem_of_In, List.nth_In, Hi.
Qed.

Lemma substr_middle p q r i n :
  i = length p → n = length q → substr (p ++ q ++ r) i n = q.
Proof.
  intros -> ->. unfold substr. rewrite drop_app_length. by rewrite take_app_length.
Qed.

Lemma name_alpha name fmt :
  is_Some (format_items name fmt) → name ≠ [] ∧ Forall (λ c, isalpha c = true) name.
Proof.
  intros [i Hi]. split; [by intros ->|].
  unfold format_items in Hi.
  repeat match type of Hi with
  | match ?x with _ => _ end = _ => destruct x; try discriminate Hi
  end; repeat constructor.
Qed.

Lemma alpha_other c : isalpha c = true → (c =? lbrace) = false ∧ (c =? rbrace) = false ∧ c ≠ percent.
Proof. unfold isalpha, lbrace, rbrace, percent. intros. lia. Qed.

(** One round on a letter of the name, and on a character of the format. *)
Lemma step_letter fuel p i n s :
  isalpha (char_at p n) = true → (n < length p)%nat →
  item_loop (S fuel) p i n false 0 s [] =
  item_loop fuel p i (S n) false 0
    (if (S n =? length p)%nat then match s with [] => drop (S i) p | _ => s end else s) [].
Proof.
  intros Ha Hn. cbn [item_loop]. cbv zeta. destruct (alpha_other _ Ha) as (Hl & _ & _).
  rewrite (proj2 (Nat.ltb_lt _ _) Hn), Ha, Hl. done.
Qed.

Lemma step_fmt fuel p i n b s :
  char_at p n ≠ rbrace → (n < length p)%nat → s ≠ [] →
  item_loop (S fuel) p i n true b s [] = item_loop fuel p i (S n) true b s [].
Proof.
  intros Hc Hn Hs. cbn [item_loop]. cbv zeta.
  rewrite (proj2 (Nat.ltb_lt _ _) Hn), (proj2 (Z.eqb_neq _ _) Hc).
  destruct s; [done|]. cbn [negb andb]. by destruct (S n =? length p)%nat.
Qed.

(** Scanning the letters of an item's name, up to the end of the pattern. *)
Lemma scan_name k : ∀ fuel p i n,
  (∀ j, (n ≤ j < n + k)%nat → isalpha (char_at p j) = true) → (n + k < length p)%nat →
  item_loop (k + fuel) p i n false 0 [] [] = item_loop fuel p i (n + k) false 0 [] [].
Proof.
  induction k as [|k IH]; intros fuel p i n Ha Hlt; [by rewrite Nat.add_0_r|].
  change (S k + fuel)%nat with (S (k + fuel)).
  rewrite step_letter by (try apply Ha; lia).
  rewrite (proj2 (Nat.eqb_neq (S n) (length p))) by lia.
  rewrite IH; [f_equal; lia|intros; apply Ha; lia|lia].
Qed.

Lemma scan_fmt k : ∀ fuel p i n b s,
  (∀ j, (n ≤ j < n + k)%nat → char_at p j ≠ rbrace) → (n + k ≤ length p)%nat → s ≠ [] →
  item_loop (k + fuel) p i n true b s [] = item_loop fuel p i (n + k) true b s [].
Proof.
  induction k as [|k IH]; intros fuel p i n b s Ha Hlt Hs; [by rewrite Nat.add_0_r|].
  change (S k + fuel)%nat with (S (k + fuel)).
  rewrite step_fmt by (try apply Ha; done || lia).
  rewrite IH; [f_equal; lia|intros; apply Ha; lia|lia|done].
Qed.

(** ** An item *)
Section item.
Context (pre name : list Z) (Hname : name ≠ []) (Halpha : Forall (λ c, isalpha c = true) name).

Lemma name_letters rest j :
  (S (length pre) ≤ j < S (length pre) + length name)%nat →
  isalpha (char_at (pre ++ percent :: name ++ rest) j) = true.
Proof.
  intros Hj. replace j with (length pre + S (j - S (length pre)))%nat by lia.
  rewrite char_at_app. change (percent :: name ++ rest) with ([percent] ++ name ++ rest).
  change (S (j - S (length pre)))%nat with (length [percent] + (j - S (length pre)))%nat.
  rewrite char_at_app. apply (char_at_Forall (λ c, isalpha c = true)); [done|lia].
Qed.

Lemma name_substr rest : substr (pre ++ percent :: name ++ rest) (S (length pre)) (length name) = name.
Proof.
  change (percent :: name ++ rest) with ([percent] ++ name ++ rest). rewrite app_assoc.
  apply substr_middle; [rewrite length_app; simpl; lia|done].
Qed.

Lemma char_behind rest :
  char_at (pre ++ percent :: name ++ rest) (S (length pre) + length name) = char_at rest 0.
Proof.
  replace (pre ++ percent :: name ++ rest) with ((pre ++ percent :: name) ++ rest) by (by rewrite <-app_assoc).
  apply char_at_behind. rewrite length_app. simpl. lia.
Qed.

(** At the end of the pattern. *)
Lemma item_last fuel :
  (length name < fuel)%nat →
  item_loop fuel (pre ++ percent :: name) (length pre) (S (length pre)) false 0 [] [] =
  (false, name, [], (S (length pre) + length name)%nat).
Proof.
  intros Hf. pose proof (name_letters []) as Hl. pose proof (name_substr []) as Hs.
  rewrite app_nil_r in Hl, Hs.
  destruct (length name) as [|k] eqn:Hk; [by destruct name|].
  assert (length (pre ++ percent :: name) = (S (length pre) + S k)%nat) as Hlen
    by (rewrite length_app; simpl; lia).
  replace fuel with (k + S (S (fuel - k - 2)))%nat by lia.
  rewrite scan_name by (try (intros; apply Hl); lia).
  rewrite step_letter by (try apply Hl; lia).
  rewrite (proj2 (Nat.eqb_eq _ _)) by lia.
  cbn [item_loop]. rewrite (proj2 (Nat.ltb_ge _ _)) by lia.
  replace (drop (S (length pre)) (pre ++ percent :: name)) with name; [do 2 f_equal; lia|].
  rewrite <-Hs at 1. unfold substr. rewrite take_ge; [done|]. rewrite length_drop. lia.
Qed.

(** Before something that ends the name. *)
Lemma item_plain fuel c rest :
  isalpha c = false → c ≠ lbrace → c ≠ rbrace → (length name < fuel)%nat →
  item_loop fuel (pre ++ percent :: name ++ c :: rest) (length pre) (S (length pre)) false 0 [] [] =
  (false, name, [], (S (length pre) + length name)%nat).
Proof.
  intros Hc Hl Hr Hf. set (p := pre ++ _).
  assert (length p = (S (length pre) + length name + S (length rest))%nat) as Hlen
    by (unfold p; rewrite length_app; simpl; rewrite length_app; simpl; lia).
  replace fuel with (length name + S (fuel - length name - 1))%nat by lia.
  rewrite scan_name by (try (intros; apply name_letters); lia).
  cbn [item_loop]. cbv zeta. rewrite (proj2 (Nat.ltb_lt _ _)) by lia.
  unfold p at 1 2 3. rewrite char_behind. change (char_at (c :: rest) 0) with c.
  rewrite Hc, (proj2 (Z.eqb_neq _ _) Hl), (proj2 (Z.eqb_neq _ _) Hr). simpl.
  replace (S (length pre + length name) - length pre - 1)%nat with (length name) by lia.
  unfold p. by rewrite name_substr.
Qed.

(** With a format. *)
Lemma item_braces fuel f rest :
  Forall (λ c, c ≠ rbrace) f → (length name + length f + 1 < fuel)%nat →
  item_loop fuel (pre ++ percent :: name ++ lbrace :: f ++ rbrace :: rest) (length pre)
    (S (length pre)) false 0 [] [] =
  (false, name, f, (length pre + length (percent :: name ++ lbrace :: f ++ [rbrace]))%nat).
Proof.
  intros Hff Hf. set (p := pre ++ _).
  assert (length p = (S (length pre) + length name + S (length f + S (length rest)))%nat) as Hlen
    by (unfold p; rewrite length_app; simpl; rewrite length_app; simpl; rewrite length_app; simpl; lia).
  set (n := (S (length pre) + length name)%nat).
  assert (∀ j, char_at p (S n + j) = char_at (f ++ rbrace :: rest) j) as Hbehind.
  { intros j. unfold p. replace (pre ++ percent :: name ++ lbrace :: f ++ rbrace :: rest)
      with ((pre ++ percent :: name ++ [lbrace]) ++ f ++ rbrace :: rest) by (by rewrite <-!app_assoc; simpl; rewrite <-!app_assoc).
    apply char_at_behind. rewrite length_app. simpl. rewrite length_app. simpl. lia. }
  replace fuel with (length name + S (length f + S (fuel - length name - length f - 2)))%nat by lia.
  rewrite scan_name by (try (intros; apply name_letters); lia). fold n.
  cbn [item_loop]. cbv zeta. rewrite (proj2 (Nat.ltb_lt _ _)) by lia.
  assert (char_at p n = lbrace) as -> by (unfold p, n; by rewrite char_behind).
  change (if lbrace =? lbrace then ?a else ?b) with a.
  cbn [negb andb isalpha lbrace Z.leb Z.compare].
  replace (substr p (S (length pre)) (n - length pre - 1)) with name
    by (unfold p, n; symmetry; replace (_ - _ - 1)%nat with (length name) by lia; apply name_substr).
  change (if negb false && negb (isalpha 123) && negb (123 =? 123) && _ then _ else ?b) with b.
  rewrite scan_fmt; [|..|done].
  2:{ intros j Hj. replace j with (S n + (j - S n))%nat by lia. rewrite Hbehind.
      apply (char_at_Forall (λ c, c ≠ rbrace)); [done|lia]. }
  2: lia.
  cbn [item_loop]. cbv zeta. rewrite (proj2 (Nat.ltb_lt _ _)) by lia.
  rewrite Hbehind, <-(Nat.add_0_r (length f)), char_at_app. cbn [negb andb].
  change (char_at (rbrace :: rest) 0) with rbrace. simpl.
  f_equal; [f_equal|rewrite length_app; simpl; rewrite length_app; simpl; lia].
  replace (_ - _ - 1)%nat with (length f) by lia. unfold p.
  replace (pre ++ _) with ((pre ++ percent :: name ++ [lbrace]) ++ f ++ rbrace :: rest)
    by (by rewrite <-!app_assoc; simpl; rewrite <-!app_assoc).
  apply substr_middle; [|done]. unfold n. rewrite length_app; simpl; rewrite length_app; simpl; lia.
Qed.
End item.

(** ** The whole pattern *)
Lemma init_text k : ∀ fuel p i nstr,
  (∀ j, (i ≤ j < i + k)%nat → char_at p j ≠ percent) → (i + k ≤ length p)%nat →
  init_loop (k + fuel) p i nstr = init_loop fuel p (i + k) (nstr ++ substr p i k).
Proof.
  induction k as [|k IH]; intros fuel p i nstr Hp Hlen.
  - unfold substr. by rewrite take_0, app_nil_r, Nat.add_0_r.
  - cbn [init_loop Nat.add]. cbv zeta. rewrite (proj2 (Nat.ltb_lt _ _)) by lia.
    rewrite (proj2 (Z.eqb_neq _ _)) by (apply Hp; lia). cbn [negb].
    rewrite IH by (try (intros; apply Hp); lia).
    replace (S i + k)%nat with (i + S k)%nat by lia. f_equal. rewrite <-app_assoc. f_equal.
    unfold substr, char_at.
    destruct (drop i p) as [|c l] eqn:E.
    { apply (f_equal length) in E. rewrite length_drop in E. simpl in E. lia. }
    rewrite <-(drop_drop p i 1) || replace (S i) with (i + 1)%nat by lia; rewrite <-?drop_drop, E. simpl.
    f_equal. rewrite <-(take_drop i p), E, List.app_nth2; rewrite length_take; [|lia].
    replace (i - _)%nat with 0%nat by lia. done.
Qed.

(** The rest of a pattern, behind [pre] and with the text [nstr] pending. *)
Definition pieces (t : token) : piece :=
  match t with Text s => (s, [], false) | Item name fmt => (name, default [] fmt, true) end.

Lemma init_item fuel pre name fmt rest nstr :
  name ≠ [] → Forall (λ c, isalpha c = true) name →
  match fmt with Some f => Forall (λ c, c ≠ rbrace) f
  | None => match rest with c :: _ => isalpha c = false ∧ c ≠ lbrace ∧ c ≠ rbrace | [] => True end end →
  init_loop (S fuel) (pre ++ render_token (Item name fmt) ++ rest) (length pre) nstr =
  let '(l, e) := init_loop fuel (pre ++ render_token (Item name fmt) ++ rest)
                   (length pre + length (render_token (Item name fmt))) [] in
  (flush nstr ++ (name, default [] fmt, true) :: l, e).
Proof.
  intros Hname Halpha Hend. set (p := pre ++ _).
  assert (∃ q, p = pre ++ percent :: name ++ q) as [q Hq].
  { unfold p. destruct fmt; simpl; [|by eexists]. eexists. by rewrite <-app_assoc. }
  assert (length p = (length pre + (S (length name + length q)))%nat) as Hlen
    by (rewrite Hq, length_app; simpl; rewrite length_app; lia).
  cbn [init_loop]. cbv zeta. rewrite (proj2 (Nat.ltb_lt _ _)) by lia.
  assert (char_at p (length pre) = percent) as ->.
  { rewrite Hq, <-(Nat.add_0_r (length pre)), char_at_app. done. }
  assert (char_at p (S (length pre)) ≠ percent) as Hsnd.
  { rewrite Hq. apply alpha_other, name_letters; [done|]. destruct name; [done|simpl; lia]. }
  change (negb (percent =? percent)) with false. cbv iota.
  rewrite (proj2 (Z.eqb_neq _ _) Hsnd), andb_false_r.
  replace (item_loop _ _ _ _ _ _ _ _)
    with (false, name, default [] fmt, (length pre + length (render_token (Item name fmt)))%nat); [done|].
  symmetry. clear Hlen Hq Hsnd q. unfold p. destruct fmt as [f|]; simpl render_token.
  - rewrite <-app_comm_cons, <-app_assoc, <-app_comm_cons, <-app_assoc. simpl.
    apply item_braces; [done..|]. repeat (rewrite length_app; simpl). lia.
  - destruct rest as [|c rest].
    + rewrite app_nil_r. rewrite item_last; [f_equal; simpl; lia|done..|].
      rewrite length_app. simpl. lia.
    + destruct Hend as (? & ? & ?). simpl.
      rewrite item_plain; [f_equal; simpl; lia|done..|].
      rewrite !length_app. simpl. rewrite length_app. lia.
Qed.

Lemma render_cons t l : render (t :: l) = render_token t ++ render l.
Proof. done. Qed.

Lemma token_nonempty t : token_ok t → (1 ≤ length (render_token t))%nat.
Proof.
  destruct t as [[|c s]|name [f|]]; simpl; intros H; try lia. by destruct H.
Qed.

(** What may follow, on the rendered text. *)
Lemma follow_text name l :
  pattern_ok l → may_follow (Item name None) l →
  match render l with c :: _ => isalpha c = false ∧ c ≠ lbrace ∧ c ≠ rbrace | [] => True end.
Proof.
  destruct l as [|[[|c s]|n fmt] l]; simpl; intros Hok Hf; try done.
  - by destruct Hok as ((? & _) & _).
  - destruct fmt; done.
Qed.

Lemma init_loop_render l : ∀ fuel pre nstr,
  pattern_ok l → (length (render l) < fuel)%nat →
  (nstr ≠ [] → match l with Text _ :: _ => False | _ => True end) →
  init_loop fuel (pre ++ render l) (length pre) nstr = (flush nstr ++ (pieces <$> l), false).
Proof.
  induction l as [|t l IH]; intros fuel pre nstr Hok Hfuel Hn.
  { destruct fuel as [|fuel]; [simpl in Hfuel; lia|]. cbn [init_loop]. cbv zeta.
    rewrite (proj2 (Nat.ltb_ge _ _)) by (rewrite length_app; simpl; lia). by rewrite app_nil_r. }
  destruct Hok as (Ht & Hfol & Hok). rewrite render_cons in *. rewrite length_app in Hfuel.
  destruct t as [s|name fmt].
  - destruct nstr; [|by destruct (Hn ltac:(done))]. clear Hn. destruct Ht as [Hs Hp]. simpl in Hfuel |- *.
    replace fuel with (length s + (fuel - length s))%nat by lia.
    rewrite init_text.
    + simpl. rewrite substr_middle by done. rewrite app_assoc, <-length_app.
      rewrite IH; [destruct s; done|done|lia|]. intros _. by destruct l as [|[]].
    + intros j Hj. replace j with (length pre + (j - length pre))%nat by lia.
      rewrite char_at_app. apply (char_at_Forall (λ c, c ≠ percent)); [done|lia].
    + rewrite !length_app. lia.
  - destruct Ht as [Hi Hf]. destruct (name_alpha _ _ Hi) as [Hname Ha].
    pose proof (token_nonempty (Item name fmt) (conj Hi Hf)).
    destruct fuel as [|fuel]; [lia|].
    rewrite init_item; [|done|done|].
    + rewrite app_assoc, <-length_app, IH; [done|done|lia|done].
    + destruct fmt; [done|]. by eapply follow_text.
Qed.

Lemma make_pieces l :
  pattern_ok l →
  (make_item <$> (pieces <$> l)).*1 = meaning <$> l ∧ existsb snd (make_item <$> (pieces <$> l)) = false.
Proof.
  induction l as [|t l IH]; [done|]. intros (Ht & _ & Hok). destruct (IH Hok) as [IH1 IH2].
  rewrite !fmap_cons. cbn [existsb]. rewrite IH1, IH2.
  destruct t as [s|name fmt]; [done|]. destruct Ht as [[it Hit] _].
  unfold pieces, make_item, meaning. simpl. by rewrite Hit.
Qed.

(** A pattern that is written as text and items, [%x] or [%x{format}] with
    a known letter, each item without braces followed by something that is
    neither a letter nor a brace and no text following text, is parsed into
    exactly those items, in their order and with their formats, and without an
    error; so a logger accepts it. *)
Theorem patterns_parse (l : list token) :
  pattern_ok l → new (render l) = mk (render l) (meaning <$> l) false.
Proof.
  intros Hok. unfold new, init.
  pose proof (init_loop_render l (S (length (render l))) [] [] Hok) as Hl.
  simpl app in Hl. change (length []) with 0%nat in Hl.
  rewrite Hl by (done || lia). destruct (make_pieces l Hok) as [H1 H2]. simpl flush. simpl app.
  by rewrite H1, H2.
Qed.

Definition default_tokens : list token :=
  [Item (str "d") (Some (str "%Y-%m-%d %H:%M:%S")); Item (str "T") None; Item (str "t") None;
   Item (str "T") None; Item (str "N") None; Item (str "T") None; Item (str "F") None;
   Item (str "T") None; Text (str "["); Item (str "p") None; Text (str "]"); Item (str "T") None;
   Text (str "["); Item (str "c") None; Text (str "]"); Item (str "T") None; Item (str "f") None;
   Text (str ":"); Item (str "l") None; Item (str "T") None; Item (str "m") None; Item (str "n") None].

(** The pattern of a new logger is one of them. *)
Lemma patterns_parse_witness :
  default_pattern = render default_tokens ∧
  new default_pattern = mk default_pattern (meaning <$> default_tokens) false.
Proof.
  split; [by vm_compute|].
  replace default_pattern with (render default_tokens) by (by vm_compute).
  apply patterns_parse. unfold default_tokens.
  repeat match goal with
  | |- pattern_ok (_ :: _) => split; [|split]
  | |- pattern_ok [] => exact I
  | |- may_follow _ _ => vm_compute; done
  | |- token_ok _ => vm_compute; split; [first [done | by eexists]|]; repeat constructor; discriminate
  end.
Defined.

End LogFormatterProps.
