(* ===== verification/Yaml.v ===== *)
(** What the configuration and the loggers use of the YAML library.

    A document is a tree. [Yaml] is the library as the code calls it, a
    parameter: [Load] parses a text ([None] when it throws), [emit] is
    [stream << node] ([None] stands for a node without contents, such as a new
    one or the answer to a missing key), and the operations on nodes, which
    answer [None] when they throw. [YamlLaws] is what is known of it: what it
    emits it reads back, and how maps and sequences work. *)
From stdpp Require Import base list numbers option.
From Stdlib Require Import ZArith Lia.
From S2P Require Import Prelude.

Inductive Node :=
| Null
| Scalar (s : list Z)
| Sequence (l : list Node)
| Map (l : list (Node * Node)).

Class Yaml := {
  Load : list Z → option Node;
  emit : option Node → list Z;
  (** [node.as<std::string>()] *)
  as_string : Node → option (list Z);
  (** [node[key]], [node.size()], [node[i]] *)
  get_field : Node → list Z → option (option Node);
  size : Node → nat;
  get_elem : Node → nat → option (option Node);
  (** [node.push_back(x)] and [node[key] = x] *)
  append : Node → option Node → option Node;
  put_field : list Z → Node → option Node → option Node
}.

(** A map's entry of a key, and a map with an entry set. *)
Definition is_key (key : list Z) (e : Node * Node) : bool :=
  match e.1 with Scalar s => bool_decide (s = key) | _ => false end.
Fixpoint set_key (key : list Z) (x : Node) (l : list (Node * Node)) : list (Node * Node) :=
  match l with
  | [] => [(Scalar key, x)]
  | e :: l' => if is_key key e then (e.1, x) :: l' else e :: set_key key x l'
  end.

(** Texts that are emitted without loss. *)
Class Printable := printable : list Z → Prop.

(** Induction over the trees. *)
Section node_induction.
Variable P : Node → Prop.
Hypothesis Hnull : P Null.
Hypothesis Hscalar : ∀ s, P (Scalar s).
Hypothesis Hseq : ∀ l, Forall P l → P (Sequence l).
Hypothesis Hmap : ∀ l, Forall (λ e, P e.1 ∧ P e.2) l → P (Map l).

Fixpoint Node_nested_ind (n : Node) : P n :=
  match n with
  | Null => Hnull
  | Scalar s => Hscalar s
  | Sequence l =>
      Hseq l ((fix go (l : list Node) : Forall P l :=
        match l with
        | [] => Forall_nil_2 P
        | x :: l' => Forall_cons_2 P x l' (Node_nested_ind x) (go l')
        end) l)
  | Map l =>
      Hmap l ((fix go (l : list (Node * Node)) : Forall (λ e, P e.1 ∧ P e.2) l :=
        match l with
        | [] => Forall_nil_2 _
        | (k, x) :: l' =>
            Forall_cons_2 (λ e, P e.1 ∧ P e.2) (k, x) l'
              (conj (Node_nested_ind k) (Node_nested_ind x)) (go l')
        end) l)
  end.
End node_induction.

(** Trees of printable scalars; the keys of maps are scalars. *)
Fixpoint node_ok `{Printable} (n : Node) : Prop :=
  match n with
  | Null => True
  | Scalar s => printable s
  | Sequence l =>
      (fix all (l : list Node) := match l with [] => True | x :: l' => node_ok x ∧ all l' end) l
  | Map l =>
      (fix all (l : list (Node * Node)) :=
         match l with
         | [] => True
         | (k, x) :: l' =>
             match k with Scalar s => printable s | _ => False end ∧ node_ok x ∧ all l'
         end) l
  end.

Class YamlLaws `{Yaml, Printable} := {
  load_emit n : node_ok n → Load (emit (Some n)) = Some n;
  load_emit_none : Load (emit None) = Some Null;
  as_string_scalar s : as_string (Scalar s) = Some s;
  get_field_map l key : get_field (Map l) key = Some (snd <$> List.find (is_key key) l);
  size_null : size Null = O;
  size_sequence l : size (Sequence l) = length l;
  get_elem_sequence l i : i < length l → get_elem (Sequence l) i = Some (l !! i);
  append_new x : append x None = Some (Sequence [x]);
  append_sequence x l : append x (Some (Sequence l)) = Some (Sequence (l ++ [x]));
  put_field_new key x : put_field key x None = Some (Map [(Scalar key, x)]);
  put_field_map key x l : put_field key x (Some (Map l)) = Some (Map (set_key key x l))
}.

Lemma node_ok_seq `{Printable} l : node_ok (Sequence l) ↔ Forall node_ok l.
Proof.
  induction l as [|x l IH]; [by split|]. rewrite list.Forall_cons. simpl in *. tauto.
Qed.

Definition key_ok `{Printable} (k : Node) : Prop :=
  match k with Scalar s => printable s | _ => False end.

Lemma node_ok_map `{Printable} l : node_ok (Map l) ↔ Forall (λ e, key_ok e.1 ∧ node_ok e.2) l.
Proof.
  induction l as [|[k x] l IH]; [by split|]. rewrite list.Forall_cons. unfold key_ok in *. simpl in *. tauto.
Qed.

(** ** Operations on nodes *)
Section nodes.
Context {Y : Yaml} {S : Type}.

(** [YAML::Load], which throws. *)
Definition load (v : list Z) : M S Node :=
  match Load v with Some n => mret n | None => throw yaml_exception end.

(** The operations on nodes, which throw. *)
Definition or_throw {A} (o : option A) : M S A :=
  match o with Some x => mret x | None => throw yaml_exception end.

Definition field (n : Node) (key : list Z) : M S (option Node) := or_throw (get_field n key).
Definition elem (n : Node) (i : nat) : M S (option Node) := or_throw (get_elem n i).
Definition push_back (x : Node) (n : option Node) : M S (option Node) := or_throw (Some <$> append x n).
Definition set_field (key : list Z) (x : Node) (n : option Node) : M S (option Node) :=
  or_throw (Some <$> put_field key x n).

(** [node.as<std::string>()] of a node that may be missing. *)
Definition to_string (n : option Node) : M S (list Z) :=
  match n with Some n => or_throw (as_string n) | None => throw yaml_exception end.

(** [node.Scalar()]: empty when it is none. *)
Definition scalar (n : Node) : list Z := match n with Scalar s => s | _ => [] end.
Definition IsScalar (n : Node) : bool := match n with Scalar _ => true | _ => false end.
End nodes.

(** The same by the laws. *)
Section laws.
Context `{YamlLaws} {S : Type}.
Implicit Type s : S.

Lemma push_back_new x s : push_back x None s = Ok (Some (Sequence [x])) s.
Proof. unfold push_back. by rewrite append_new. Qed.
Lemma push_back_sequence x l s :
  push_back x (Some (Sequence l)) s = Ok (Some (Sequence (l ++ [x]))) s.
Proof. unfold push_back. by rewrite append_sequence. Qed.
Lemma set_field_new key x s : set_field key x None s = Ok (Some (Map [(Scalar key, x)])) s.
Proof. unfold set_field. by rewrite put_field_new. Qed.
Lemma set_field_map key x l s :
  set_field key x (Some (Map l)) s = Ok (Some (Map (set_key key x l))) s.
Proof. unfold set_field. by rewrite put_field_map. Qed.
Lemma elem_middle l x k s : elem (Sequence (l ++ x :: k)) (length l) s = Ok (Some x) s.
Proof.
  unfold elem. rewrite get_elem_sequence by (rewrite length_app; simpl; lia).
  by rewrite list_lookup_middle.
Qed.
Lemma field_map l key s : field (Map l) key s = Ok (snd <$> List.find (is_key key) l) s.
Proof. unfold field. by rewrite get_field_map. Qed.
Lemma to_string_scalar v s : to_string (Some (Scalar v)) s = Ok v s.
Proof. unfold to_string. by rewrite as_string_scalar. Qed.
End laws.
