(* ===== verification/YamlModel.v ===== *)
(** A YAML library for examples: an instance of [Yaml] that satisfies its laws.

    Words of digits and small letters stand for themselves; any other tree is
    written with its kind and its lengths in front. *)
From stdpp Require Import base list numbers option sets.
From Stdlib Require Import ZArith Lia.
From S2P Require Import Prelude Yaml.

Module YamlModel.
Local Open Scope Z_scope.

Definition plain_char (c : Z) : bool := ((48 <=? c) && (c <=? 57)) || ((97 <=? c) && (c <=? 122)).

Definition plain (s : list Z) : bool := match s with [] => false | _ => forallb plain_char s end.

Fixpoint enc (n : Node) : list Z :=
  match n with
  | Null => [1]
  | Scalar s => 2 :: Z.of_nat (length s) :: s
  | Sequence l => 3 :: Z.of_nat (length l) :: concat (map enc l)
  | Map l =>
      4 :: Z.of_nat (length l) :: concat (map (λ e, match e with (k, x) => enc k ++ enc x end) l)
  end.

Definition dec_two (d : list Z → option (Node * list Z)) (t : list Z) :=
  '(k, r) ← d t; '(x, r) ← d r; Some ((k, x), r).

Fixpoint dec_many {A} (d : list Z → option (A * list Z)) (k : nat) (t : list Z)
    : option (list A * list Z) :=
  match k with
  | O => Some ([], t)
  | S k' => '(x, r) ← d t; '(l, r) ← dec_many d k' r; Some (x :: l, r)
  end.

Fixpoint dec (fuel : nat) (t : list Z) : option (Node * list Z) :=
  match fuel with
  | O => None
  | S fuel' =>
      match t with
      | 1 :: r => Some (Null, r)
      | 2 :: k :: r => Some (Scalar (take (Z.to_nat k) r), drop (Z.to_nat k) r)
      | 3 :: k :: r => '(l, r) ← dec_many (dec fuel') (Z.to_nat k) r; Some (Sequence l, r)
      | 4 :: k :: r => '(l, r) ← dec_many (dec_two (dec fuel')) (Z.to_nat k) r; Some (Map l, r)
      | _ => None
      end
  end.

#[export] Instance yaml : Yaml := {
  Load t :=
    if plain t then Some (Scalar t)
    else match dec (length t) t with Some (n, []) => Some n | _ => None end;
  emit o :=
    match o with
    | None => [1]
    | Some (Scalar s) => if plain s then s else enc (Scalar s)
    | Some n => enc n
    end;
  as_string n := match n with Scalar s => Some s | _ => None end;
  get_field n key :=
    match n with
    | Scalar _ => None
    | Map l => Some (snd <$> List.find (is_key key) l)
    | _ => Some None
    end;
  size n := match n with Sequence l => length l | Map l => length l | _ => O end;
  get_elem n i :=
    match n with Scalar _ => None | Sequence l => Some (l !! i) | _ => Some None end;
  append x n :=
    match n with
    | None | Some Null => Some (Sequence [x])
    | Some (Sequence l) => Some (Sequence (l ++ [x]))
    | Some _ => None
    end;
  put_field key x n :=
    match n with
    | None | Some Null => Some (Map [(Scalar key, x)])
    | Some (Map l) => Some (Map (set_key key x l))
    | Some _ => None
    end
}.

#[export] Instance everything : Printable := λ _, True.

Lemma dec_many_enc {A} (d : list Z → option (A * list Z)) (e : A → list Z) (l : list A) r :
  (∀ x r, x ∈ l → d (e x ++ r) = Some (x, r)) →
  dec_many d (length l) (concat (map e l) ++ r) = Some (l, r).
Proof.
  induction l as [|x l IH]; intros Hd; [done|]. simpl. rewrite <-app_assoc, Hd by set_solver. simpl.
  rewrite IH by (intros; apply Hd; set_solver). done.
Qed.

Lemma elem_length {A} (e : A → list Z) x l : x ∈ l → (length (e x) ≤ length (concat (map e l)))%nat.
Proof.
  induction 1 as [x l|x y l _ IH]; simpl; rewrite length_app; lia.
Qed.

Lemma dec_enc n : ∀ fuel r, (length (enc n) ≤ fuel)%nat → dec fuel (enc n ++ r) = Some (n, r).
Proof.
  induction n as [|s|l IH|l IH] using Node_nested_ind; intros [|fuel] r Hf;
    cbn [enc length] in Hf; try lia.
  - done.
  - simpl. by rewrite Nat2Z.id, take_app_length, drop_app_length.
  - cbn [enc dec app]. rewrite Nat2Z.id, dec_many_enc; [done|].
    intros x r' Hx. rewrite Forall_forall in IH. apply IH; [done|].
    pose proof (elem_length enc x l Hx) as Hl. simpl in Hf. lia.
  - cbn [enc dec app]. rewrite Nat2Z.id, dec_many_enc; [done|].
    intros [k x] r' Hx. rewrite Forall_forall in IH. destruct (IH _ Hx) as [IHk IHx].
    pose proof (elem_length (λ e, match e with (k, x) => enc k ++ enc x end) _ l Hx) as Hl.
    cbn beta iota in Hl. rewrite length_app in Hl. simpl in IHk, IHx.
    simpl in Hf. unfold dec_two. rewrite <-app_assoc, IHk by lia. simpl. by rewrite IHx by lia.
Qed.

Lemma enc_not_plain n : plain (enc n) = false.
Proof. by destruct n. Qed.

#[export] Instance laws : YamlLaws.
Proof.
  split; [|done..].
  assert (∀ n, Load (enc n) = Some n) as Hl.
  { intros n. simpl. rewrite enc_not_plain, <-(app_nil_r (enc n)), dec_enc; [done|].
    by rewrite app_nil_r. }
  intros n _. destruct n; [apply (Hl Null)| |apply (Hl (Sequence l))|apply (Hl (Map l))].
  simpl emit. destruct (plain s) eqn:E; [simpl; by rewrite E|apply (Hl (Scalar s))].
Qed.

(** Words are scalars and are emitted as they are. *)
Lemma load_plain s : plain s = true → Load s = Some (Scalar s) ∧ emit (Some (Scalar s)) = s.
Proof. intros E. simpl. by rewrite E. Qed.
End YamlModel.
