(* ===== verification/Config.v ===== *)
(** The configuration: [config.h] and [config.cc].

    Module [LexicalCast] has the conversions between containers and YAML texts;
    those of the elements are arguments, as the template parameters are. Module
    [ConfigVar] is a variable with its listeners, which act on a state [S] of
    the application; module [ConfigMgr] the table of all variables and loading
    them from a document. Messages to the log are not modelled here. *)
From stdpp Require Import base list gmap numbers option strings sorting.
From Stdlib Require Import ZArith Lia.
From S2P Require Import Prelude CString Yaml.

Module LexicalCast.
(** A container as the conversions use it: inserting at its end or where it
    belongs, and its elements in the order of the iterators. *)
Record Container (T C : Type) := mk_container {
  empty : C;
  insert : T → C → C;
  elements : C → list T
}.
Arguments empty {T C}.
Arguments insert {T C}.
Arguments elements {T C}.

(** vector and list; a set as the list of its elements in order ([less] is the
    order); an unordered set. *)
Definition vector {T} : Container T (list T) := mk_container _ _ [] (λ x l, l ++ [x]) id.

Fixpoint set_insert {T} (less : T → T → bool) (x : T) (l : list T) : list T :=
  match l with
  | [] => [x]
  | y :: l' =>
      if less x y then x :: l else if less y x then y :: set_insert less x l' else l
  end.
Definition ordered_set {T} (less : T → T → bool) : Container T (list T) :=
  mk_container _ _ [] (set_insert less) id.

Definition unordered_set {T} `{Countable T} : Container T (gset T) :=
  mk_container _ _ ∅ (λ x s, {[x]} ∪ s) stdpp.base.elements.

(** Maps with text keys; inserting keeps an entry that is there. *)
Definition less_key {T} (a b : list Z * T) : bool := is_lt (compare_bytes a.1 b.1).
Definition ordered_map {T} : Container (list Z * T) (list (list Z * T)) := ordered_set less_key.
Definition unordered_map {T} : Container (list Z * T) (gmap (list Z) T) :=
  mk_container _ _ ∅ (λ e m, match m !! e.1 with Some _ => m | None => <[e.1 := e.2]> m end)
    map_to_list.

Section casts.
Context {Y : Yaml} {S T C : Type}.
Variable K : Container T C.
(** [LexicalCast<std::string, T>] and [LexicalCast<T, std::string>] *)
Variable from : list Z → M S T.
Variable to : T → M S (list Z).

(** [for(size_t i = 0; i < node.size(); ++i)] with [k] elements left. *)
Fixpoint insert_elems (k i : nat) (n : Node) (c : C) : M S C :=
  match k with
  | O => mret c
  | Datatypes.S k' =>
      e ← elem n i;
      x ← from (emit e);
      insert_elems k' (Datatypes.S i) n (insert K x c)
  end.

Definition sequence_from (v : list Z) : M S C :=
  node ← load v;
  insert_elems (size node) 0 node (empty K).

Fixpoint push_all (l : list T) (n : option Node) : M S (option Node) :=
  match l with
  | [] => mret n
  | i :: l' =>
      t ← to i;
      x ← load t;
      n ← push_back x n;
      push_all l' n
  end.

Definition sequence_to (v : C) : M S (list Z) :=
  node ← push_all (elements K v) None;
  mret (emit node).
End casts.

Section map_casts.
Context {Y : Yaml} {S T C : Type}.
Variable K : Container (list Z * T) C.
Variable from : list Z → M S T.
Variable to : T → M S (list Z).

Fixpoint insert_pairs (l : list (Node * Node)) (c : C) : M S C :=
  match l with
  | [] => mret c
  | (k, x) :: l' =>
      y ← from (emit (Some x));
      insert_pairs l' (insert K (scalar k, y) c)
  end.

(** The elements of a sequence have no key: asking for it throws. *)
Definition pairs_from (v : list Z) : M S C :=
  node ← load v;
  match node with
  | Map l => insert_pairs l (empty K)
  | Sequence (_ :: _) => throw yaml_exception
  | _ => mret (empty K)
  end.

Fixpoint set_all (l : list (list Z * T)) (n : option Node) : M S (option Node) :=
  match l with
  | [] => mret n
  | (k, v) :: l' =>
      t ← to v;
      x ← load t;
      n ← set_field k x n;
      set_all l' n
  end.

Definition pairs_to (v : C) : M S (list Z) :=
  node ← set_all (elements K v) None;
  mret (emit node).
End map_casts.

(** The specialisations. *)
Section specialisations.
Context {Y : Yaml} {S T : Type}.
Variable from : list Z → M S T.
Variable to : T → M S (list Z).
Variable less : T → T → bool.

Definition vector_from : list Z → M S (list T) := sequence_from vector from.
Definition vector_to : list T → M S (list Z) := sequence_to vector to.
Definition list_from : list Z → M S (list T) := sequence_from vector from.
Definition list_to : list T → M S (list Z) := sequence_to vector to.
Definition set_from : list Z → M S (list T) := sequence_from (ordered_set less) from.
Definition set_to : list T → M S (list Z) := sequence_to (ordered_set less) to.
Definition unordered_set_from `{Countable T} : list Z → M S (gset T) :=
  sequence_from unordered_set from.
Definition unordered_set_to `{Countable T} : gset T → M S (list Z) := sequence_to unordered_set to.
Definition map_from : list Z → M S (list (list Z * T)) := pairs_from ordered_map from.
Definition map_to : list (list Z * T) → M S (list Z) := pairs_to ordered_map to.
Definition unordered_map_from : list Z → M S (gmap (list Z) T) := pairs_from unordered_map from.
Definition unordered_map_to : gmap (list Z) T → M S (list Z) := pairs_to unordered_map to.
End specialisations.

(** The general template: [boost::lexical_cast], which throws. *)
Definition lexical_from {S T} (lexical_cast : list Z → option T) (v : list Z) : M S T :=
  match lexical_cast v with Some x => mret x | None => throw bad_lexical_cast end.
Definition lexical_to {S T} (lexical_cast : T → list Z) (v : T) : M S (list Z) :=
  mret (lexical_cast v).
End LexicalCast.

Module ConfigVar.
Local Open Scope Z_scope.

Section config_var.
Context {S T : Type}.
Variable eqb : T → T → bool.
Variable from : ∀ {X}, list Z → M X T.
Variable to : ∀ {X}, T → M X (list Z).

Definition on_change_cb : Type := T → T → M S unit.

(** A variable, the application's state, and the static counter of the ids. *)
Record t := mk {
  app : S;
  m_name : list Z;
  m_description : list Z;
  m_val : T;
  m_cbs : list (Z * on_change_cb);
  s_func_id : Z
}.

Definition new (app : S) (s_func_id : Z) (name : list Z) (val : T) (description : list Z) : t :=
  mk app (tolower <$> name) description val [] s_func_id.

Definition set_val (v : T) (s : t) : t :=
  mk (app s) (m_name s) (m_description s) v (m_cbs s) (s_func_id s).
Definition set_cbs (l : list (Z * on_change_cb)) (s : t) : t :=
  mk (app s) (m_name s) (m_description s) (m_val s) l (s_func_id s).
Definition set_app (a : S) (s : t) : t :=
  mk a (m_name s) (m_description s) (m_val s) (m_cbs s) (s_func_id s).

(** A callback runs while the variable is locked for reading: it works on the
    application, not on the variable. *)
Definition in_app {A} (m : M S A) : M t A := λ s,
  match m (app s) with
  | Ok a x => Ok a (set_app x s)
  | Exn e x => Exn e (set_app x s)
  | Fault f => Fault f
  end.

Definition getVal : M t T := gets m_val.

Definition setVal (val : T) : M t unit :=
  old ← getVal;
  if eqb val old then mret tt
  else
    s ← get;
    _ ← forM (m_cbs s) (λ i, in_app (i.2 old val));
    modify (set_val val).

(** A [try] that catches every standard exception. *)
Definition catch {A} (m : M t A) (a : A) : M t A := λ s,
  match m s with Exn _ s' => Ok a s' | r => r end.

Definition toString : M t (list Z) := catch (v ← getVal; to v) [].

Definition fromString (val : list Z) : M t bool :=
  _ ← catch (v ← from val; setVal v) tt;
  mret false.

Definition addListener (cb : on_change_cb) : M t Z :=
  _ ← modify (λ s, mk (app s) (m_name s) (m_description s) (m_val s) (m_cbs s)
                     (uint 64 (s_func_id s + 1)));
  id ← gets s_func_id;
  (* the id is new and, while the counter has not wrapped, the greatest *)
  _ ← modify (λ s, set_cbs (filter (λ i, i.1 ≠ id) (m_cbs s) ++ [(id, cb)]) s);
  mret id.

Definition delListener (key : Z) : M t unit :=
  modify (λ s, set_cbs (filter (λ i, i.1 ≠ key) (m_cbs s)) s).

Definition getListener (key : Z) : M t (option on_change_cb) :=
  gets (λ s, snd <$> List.find (λ i, i.1 =? key) (m_cbs s)).

Definition clearListener : M t unit := modify (set_cbs []).
End config_var.
Arguments t : clear implicits.
End ConfigVar.

(** What the manager promises to the variables' table: converting a text and
    storing it in the variable at a pointer. *)
Class ConfigVarBase (S : Type) := var_fromString : Z → list Z → M S bool.

Module ConfigMgr.
Local Open Scope Z_scope.

Definition name_chars : list Z := str "abcdefghijklmnopqrstuvwxyz._12345678".

(** [find_first_not_of] finds nothing. *)
Definition valid_name (name : list Z) : bool := forallb (λ c, bool_decide (c ∈ name_chars)) name.

Definition extend (prefix key : list Z) : list Z :=
  match prefix with [] => key | _ => prefix ++ str "." ++ key end.

Fixpoint ListAllMember (prefix : list Z) (node : Node) : list (list Z * Node) :=
  if negb (valid_name prefix) then []
  else
    (prefix, node) ::
    match node with
    | Map l => flat_map (λ e, match e with (k, x) => ListAllMember (extend prefix (scalar k)) x end) l
    | _ => []
    end.

(** The order of the names in the table. *)
Definition entry_le (a b : list Z * (Z * Z)) : Prop := is_lt (compare_bytes b.1 a.1) = false.
#[export] Instance entry_le_dec a b : Decision (entry_le a b).
Proof. unfold entry_le. apply _. Defined.

Section manager.
Context {Y : Yaml} {S : Type} `{!ConfigVarBase S}.

(** The table: the type of each variable and the pointer to it. *)
Record t := mk { app : S; datas : gmap (list Z) (Z * Z) }.

Definition in_app {A} (m : M S A) : M t A := λ s,
  match m (app s) with
  | Ok a x => Ok a (mk x (datas s))
  | Exn e x => Exn e (mk x (datas s))
  | Fault f => Fault f
  end.

Definition LookupBase (name : list Z) : M t (option Z) :=
  gets (λ s, snd <$> datas s !! name).

(** Lookup with a default value; [create] makes the variable. The null pointer
    is [None]. *)
Definition Lookup (type : Z) (create : M S Z) (name : list Z) : M t (option Z) :=
  s ← get;
  match datas s !! name with
  | Some (type', p) => mret (if type' =? type then Some p else None)
  | None =>
      if negb (valid_name name) then throw invalid_argument
      else
        p ← in_app create;
        _ ← modify (λ s, mk (app s) (<[name := (type, p)]> (datas s)));
        mret (Some p)
  end.

Definition Lookup_only (type : Z) (name : list Z) : M t (option Z) :=
  gets (λ s, match datas s !! name with
             | Some (type', p) => if type' =? type then Some p else None
             | None => None
             end).

Definition node_text (n : Node) : list Z := if IsScalar n then scalar n else emit (Some n).

Definition LoadFromYaml (root : Node) : M t unit :=
  forM (ListAllMember [] root) (λ node,
    match node.1 with
    | [] => mret tt
    | key =>
        var ← LookupBase (tolower <$> key);
        match var with
        | Some p => _ ← in_app (var_fromString p (node_text node.2)); mret tt
        | None => mret tt
        end
    end).

Definition Visit (cb : Z → M S unit) : M t unit :=
  s ← get;
  forM (merge_sort entry_le (map_to_list (datas s)))
    (λ e, in_app (cb e.2.2)).
End manager.
Arguments t : clear implicits.
End ConfigMgr.
