(* ===== verification/ConfigProps.v ===== *)
(** The configuration: conversions that lose nothing, listeners, and the
    variables a document reaches. *)
From stdpp Require Import base list gmap numbers option strings sorting.
From Stdlib Require Import ZArith Lia Sorted.
From S2P Require Import Prelude CString Yaml YamlModel Config.

Module CastProps.
Import LexicalCast.

(** A value is printed as a text that is read back as that value, on its own
    and as a node of a larger document. *)
Class RoundTrips `{Yaml, Printable} {S T} (ok : T → Prop) (from : list Z → M S T)
    (to : T → M S (list Z)) : Prop :=
  round_trips x : ok x → ∃ t n,
    Load t = Some n ∧ node_ok n ∧
    ∀ s, to x s = Ok t s ∧ from t s = Ok x s ∧ from (emit (Some n)) s = Ok x s.

(** Inserting the elements one after the other builds the container again. *)
Class Rebuilds {T C} (K : Container T C) (ok : C → Prop) : Prop :=
  rebuild c : ok c → fold_left (λ c x, insert K x c) (elements K c) (empty K) = c.

Section sequences.
Context `{YamlLaws} {S T C : Type} (K : Container T C).
Context (ok : T → Prop) (from : list Z → M S T) (to : T → M S (list Z)) `{!RoundTrips ok from to}.
Context (cok : C → Prop) `{!Rebuilds K cok}.

Definition reads (x : T) (n : Node) : Prop :=
  node_ok n ∧ ∀ s, from (emit (Some n)) s = Ok x s.

Lemma push_all_spec l : Forall ok l → ∃ ns, Forall2 reads l ns ∧
  (∀ pre s, push_all to l (Some (Sequence pre)) s = Ok (Some (Sequence (pre ++ ns))) s) ∧
  ∀ s, push_all to l None s = Ok (match ns with [] => None | _ => Some (Sequence ns) end) s.
Proof.
  induction 1 as [|x l Hx _ (ns & Hns & IH & _)].
  { exists []. split; [done|]. split; [|done]. intros pre s. by rewrite app_nil_r. }
  destruct (round_trips x Hx) as (t & n & Hl & Hn & Hs).
  exists (n :: ns). split; [constructor; [split; [done|apply Hs]|done]|].
  split; [intros pre s|intros s]; destruct (Hs s) as (Hto & _); simpl; unfold_M; rewrite Hto;
    unfold load; rewrite Hl; unfold_M; rewrite ?push_back_new, ?push_back_sequence, IH;
    [by rewrite <-app_assoc|done].
Qed.

Lemma insert_elems_spec l ns : Forall2 reads l ns → ∀ pre c s,
  insert_elems K from (length ns) (length pre) (Sequence (pre ++ ns)) c s =
  Ok (fold_left (λ c x, insert K x c) l c) s.
Proof.
  induction 1 as [|x n l ns [_ Hx] _ IH]; intros pre c s; [done|]. simpl. unfold_M.
  rewrite elem_middle. rewrite Hx.
  specialize (IH (pre ++ [n]) (insert K x c) s). rewrite <-app_assoc, length_app, Nat.add_1_r in IH.
  done.
Qed.

Lemma reads_ok l ns : Forall2 reads l ns → Forall node_ok ns.
Proof. induction 1 as [|x n l ns [] _ IH]; by constructor. Qed.

#[export] Instance sequence_round_trips :
  RoundTrips (λ c, Forall ok (elements K c) ∧ cok c) (sequence_from K from) (sequence_to K to).
Proof.
  intros c [Hok Hc]. destruct (push_all_spec _ Hok) as (ns & Hns & _ & Hpush).
  assert (∀ t s, Load t = Some (match ns with [] => Null | _ => Sequence ns end) →
    sequence_from K from t s = Ok c s) as Hfrom.
  { intros t s Ht. unfold sequence_from, load. rewrite Ht. unfold_M.
    rewrite <-(rebuild c Hc). destruct ns as [|n ns].
    - rewrite size_null. by inversion Hns.
    - rewrite size_sequence. exact (insert_elems_spec _ _ Hns [] _ s). }
  unfold sequence_to. unfold_M. destruct ns as [|n ns].
  - eexists (emit None), Null. split_and!; [apply load_emit_none|done|]. intros s. rewrite Hpush.
    split_and!; [done|by apply Hfrom, load_emit_none|by apply Hfrom, load_emit].
  - assert (node_ok (Sequence (n :: ns))) as Hok' by (apply node_ok_seq; by eapply reads_ok).
    eexists (emit _), (Sequence (n :: ns)). split_and!; [by apply load_emit|done|]. intros s.
    rewrite Hpush. split_and!; [done|by apply Hfrom, load_emit..].
Qed.
End sequences.

Section maps.
Context `{YamlLaws} {S T C : Type} (K : Container (list Z * T) C).
Context (ok : T → Prop) (from : list Z → M S T) (to : T → M S (list Z)) `{!RoundTrips ok from to}.
Context (cok : C → Prop) `{!Rebuilds K cok}.

Definition entry_reads (e : list Z * T) (p : Node * Node) : Prop :=
  p.1 = Scalar e.1 ∧ printable e.1 ∧ node_ok p.2 ∧ ∀ s, from (emit (Some p.2)) s = Ok e.2 s.

Definition entry_ok (e : list Z * T) : Prop := printable e.1 ∧ ok e.2.

Lemma set_key_fresh key x l : key ∉ (scalar ∘ fst) <$> l → set_key key x l = l ++ [(Scalar key, x)].
Proof.
  induction l as [|e l IH]; intros Hk; [done|]. rewrite fmap_cons, not_elem_of_cons in Hk. simpl.
  destruct (is_key key e) eqn:E; [|by rewrite IH by apply Hk].
  destruct Hk as [Hk _]. unfold is_key in E. destruct e as [[|s| |] y]; try done. simpl in *.
  by apply bool_decide_eq_true in E.
Qed.

Lemma set_all_spec l : Forall entry_ok l → NoDup l.*1 → ∃ ps, Forall2 entry_reads l ps ∧
  (∀ pre s, (∀ k, k ∈ l.*1 → k ∉ (scalar ∘ fst) <$> pre) →
     set_all to l (Some (Map pre)) s = Ok (Some (Map (pre ++ ps))) s) ∧
  ∀ s, set_all to l None s = Ok (match ps with [] => None | _ => Some (Map ps) end) s.
Proof.
  induction 1 as [|[k x] l [Hk Hx] _ IH]; intros Hnd.
  { exists []. split; [done|]. split; [|done]. intros pre s _. by rewrite app_nil_r. }
  apply list.NoDup_cons in Hnd as [Hnk Hnd]. destruct (IH Hnd) as (ps & Hps & IHp & _). clear IH.
  destruct (round_trips x Hx) as (t & n & Hl & Hn & Hs).
  exists ((Scalar k, n) :: ps).
  split; [constructor; [split_and!; [done..|apply Hs]|done]|].
  assert (∀ pre s, (∀ k', k' ∈ k :: l.*1 → k' ∉ (scalar ∘ fst) <$> pre) →
    set_all to l (Some (Map (pre ++ [(Scalar k, n)]))) s = Ok (Some (Map (pre ++ (Scalar k, n) :: ps))) s) as Hrest.
  { intros pre s Hpre. rewrite IHp; [by rewrite <-app_assoc|]. intros k' Hk'.
    rewrite fmap_app, not_elem_of_app. split; [apply Hpre; set_solver|]. simpl. set_solver. }
  split; [intros pre s Hpre|intros s]; destruct (Hs s) as (Hto & _); simpl; unfold_M; rewrite Hto;
    unfold load; rewrite Hl; unfold_M.
  - rewrite set_field_map, set_key_fresh by (apply Hpre; set_solver). by apply Hrest.
  - rewrite set_field_new. apply (Hrest []). set_solver.
Qed.

Lemma insert_pairs_spec l ps : Forall2 entry_reads l ps → ∀ c s,
  insert_pairs K from ps c s = Ok (fold_left (λ c x, insert K x c) l c) s.
Proof.
  induction 1 as [|[k x] [k' n] l ps (Hk & _ & _ & Hx) _ IH]; intros c s; [done|]. simpl in *. subst.
  unfold_M. rewrite Hx. apply IH.
Qed.

Lemma entry_reads_ok l ps :
  Forall2 entry_reads l ps → Forall (λ e, key_ok e.1 ∧ node_ok e.2) ps.
Proof.
  induction 1 as [|x [k n] l ps (Hk & Hp & Hn & _) _ IH]; constructor; [|done].
  simpl in *. by subst.
Qed.

#[export] Instance pairs_round_trips :
  RoundTrips (λ c, Forall entry_ok (elements K c) ∧ NoDup (elements K c).*1 ∧ cok c)
    (pairs_from K from) (pairs_to K to).
Proof.
  intros c (Hok & Hnd & Hc). destruct (set_all_spec _ Hok Hnd) as (ps & Hps & _ & Hset).
  assert (∀ t s, Load t = Some (match ps with [] => Null | _ => Map ps end) →
    pairs_from K from t s = Ok c s) as Hfrom.
  { intros t s Ht. unfold pairs_from, load. rewrite Ht. unfold_M.
    rewrite <-(rebuild c Hc). destruct ps as [|p ps].
    - by inversion Hps.
    - exact (insert_pairs_spec _ _ Hps _ s). }
  unfold pairs_to. unfold_M. destruct ps as [|p ps].
  - eexists (emit None), Null. split_and!; [apply load_emit_none|done|]. intros s. rewrite Hset.
    split_and!; [done|by apply Hfrom, load_emit_none|by apply Hfrom, load_emit].
  - assert (node_ok (Map (p :: ps))) as Hok' by (apply node_ok_map; by eapply entry_reads_ok).
    eexists (emit _), (Map (p :: ps)). split_and!; [by apply load_emit|done|]. intros s.
    rewrite Hset. split_and!; [done|by apply Hfrom, load_emit..].
Qed.
End maps.
(** ** The containers *)
#[export] Instance vector_rebuilds {T} : Rebuilds (@vector T) (λ _, True).
Proof.
  intros l _. simpl.
  assert (∀ acc, fold_left (λ c x, c ++ [x]) l acc = acc ++ l) as Hf; [|apply (Hf [])].
  induction l as [|x l IH]; intros acc; simpl; [by rewrite app_nil_r|].
  by rewrite IH, <-app_assoc.
Qed.

(** The elements of an ordered set stand in the order of [less]. *)
Definition increasing {T} (less : T → T → bool) (l : list T) : Prop :=
  StronglySorted (λ a b, less a b = true ∧ less b a = false) l.

Lemma set_insert_last {T} (less : T → T → bool) x l :
  Forall (λ y, less y x = true ∧ less x y = false) l → set_insert less x l = l ++ [x].
Proof. induction 1 as [|y l [H1 H2] _ IH]; simpl; [done|]. by rewrite H2, H1, IH. Qed.

#[export] Instance ordered_set_rebuilds {T} (less : T → T → bool) :
  Rebuilds (ordered_set less) (increasing less).
Proof.
  intros l Hl. simpl.
  assert (∀ acc, Forall (λ y, Forall (λ x, less y x = true ∧ less x y = false) l) acc →
    fold_left (λ c x, set_insert less x c) l acc = acc ++ l) as Hf; [|by apply (Hf [])].
  induction Hl as [|x l Hl IH Hx]; intros acc Hacc; simpl; [by rewrite app_nil_r|].
  rewrite set_insert_last.
  - rewrite IH; [by rewrite <-app_assoc|]. apply Forall_app. split; [|by repeat constructor].
    eapply Forall_impl; [exact Hacc|]. intros y Hy. by inversion Hy.
  - eapply Forall_impl; [exact Hacc|]. intros y Hy. by inversion Hy.
Qed.

Lemma increasing_NoDup {T} (l : list (list Z * T)) : increasing less_key l → NoDup l.*1.
Proof.
  induction 1 as [|e l _ IH He]; simpl; constructor; [|done].
  rewrite list_elem_of_fmap. intros (e' & Heq & He'). rewrite Forall_forall in He.
  destruct (He e' He') as [Hl _]. unfold less_key in Hl. rewrite <-Heq in Hl.
  rewrite (proj2 (compare_bytes_eq e.1 e.1)) in Hl; done.
Qed.

#[export] Instance unordered_set_rebuilds {T} `{Countable T} : Rebuilds (@unordered_set T _ _) (λ _, True).
Proof.
  intros s _. simpl.
  assert (∀ l (acc : gset T), fold_left (λ c x, {[x]} ∪ c) l acc = list_to_set l ∪ acc) as Hf.
  { induction l as [|x l IH]; intros acc; simpl; [set_solver|]. rewrite IH. set_solver. }
  rewrite Hf, list_to_set_elements_L. set_solver.
Qed.

#[export] Instance unordered_map_rebuilds {T} : Rebuilds (@unordered_map T) (λ _, True).
Proof.
  intros m _. simpl.
  assert (∀ l (acc : gmap (list Z) T), NoDup l.*1 → (∀ k, k ∈ l.*1 → acc !! k = None) →
    fold_left (λ c e, match c !! e.1 with Some _ => c | None => <[e.1 := e.2]> c end) l acc
    = list_to_map l ∪ acc) as Hf.
  { induction l as [|[k x] l IH]; intros acc Hnd Hacc; simpl; [by rewrite (left_id_L ∅ (∪))|].
    apply list.NoDup_cons in Hnd as [Hk Hnd]. rewrite (Hacc k) by set_solver.
    rewrite IH; [|done|].
    - rewrite <-insert_union_r by (by apply not_elem_of_list_to_map_1).
      by rewrite insert_union_l.
    - intros k' Hk'. rewrite lookup_insert_ne by set_solver. apply Hacc. set_solver. }
  rewrite Hf; [|apply NoDup_fst_map_to_list|done].
  by rewrite list_to_map_to_list, (right_id_L ∅ (∪)).
Qed.

(** ** The specialisations *)
Section all.
Context `{YamlLaws} {S T : Type}.
Context (ok : T → Prop) (from : list Z → M S T) (to : T → M S (list Z)) (less : T → T → bool).

(** C35. When the conversions of an element type lose nothing, neither do those
    of the containers of it: printing a vector, a list, a set, an unordered set,
    a map or an unordered map as YAML and reading the text gives the value back,
    and so does reading it as a part of a larger document, so that nested
    containers are covered. Ordered containers are those whose elements stand in
    order; the keys of maps are printable. *)
Theorem containers_round_trip `{!EqDecision T, !Countable T} :
  RoundTrips ok from to →
  RoundTrips (Forall ok) (vector_from from) (vector_to to) ∧
  RoundTrips (Forall ok) (list_from from) (list_to to) ∧
  RoundTrips (λ l, Forall ok l ∧ increasing less l) (set_from from less) (set_to to less) ∧
  RoundTrips (set_Forall ok) (unordered_set_from from) (unordered_set_to to) ∧
  RoundTrips (λ l, Forall (entry_ok ok) l ∧ increasing less_key l) (map_from from) (map_to to) ∧
  RoundTrips (map_Forall (λ k x, printable k ∧ ok x)) (unordered_map_from from)
    (unordered_map_to to).
Proof.
  intros Hrt. split_and!; intros c Hc.
  - apply (sequence_round_trips vector ok from to (λ _, True) c). done.
  - apply (sequence_round_trips vector ok from to (λ _, True) c). done.
  - apply (sequence_round_trips (ordered_set less) ok from to (increasing less) c). done.
  - apply (sequence_round_trips unordered_set ok from to (λ _, True) c). split; [|done].
    by apply set_Forall_elements.
  - apply (pairs_round_trips ordered_map ok from to (increasing less_key) c).
    destruct Hc as [Hok Hinc]. split_and!; [done| |done]. by apply increasing_NoDup.
  - apply (pairs_round_trips unordered_map ok from to (λ _, True) c).
    split_and!; [|apply NoDup_fst_map_to_list|done].
    apply Forall_forall. intros [k x] Hkx. by apply elem_of_map_to_list, Hc in Hkx.
Qed.
End all.

Import YamlModel.

(** Words, whose conversions are the identity. *)
Definition word_from {S} : list Z → M S (list Z) := lexical_from (λ v, Some v).
Definition word_to {S} : list Z → M S (list Z) := lexical_to id.

Lemma words_round_trip {S} : RoundTrips (S := S) (λ v, plain v = true) word_from word_to.
Proof.
  intros v Hv. destruct (load_plain v Hv) as [Hl He].
  exists v, (Scalar v). split_and!; [done..|]. intros s. by rewrite He.
Qed.

(** A map from "b" to the empty vector and from "w" to the words "a" and "z9". *)
Lemma containers_round_trip_witness :
  let value := [(str "b", []); (str "w", [str "a"; str "z9"])] in
  ∃ t, map_to (vector_to word_to) value tt = Ok t tt ∧
       map_from (vector_from word_from) t tt = Ok value tt.
Proof.
  intros value.
  destruct (containers_round_trip (S := unit) _ word_from word_to (λ a b, is_lt (compare_bytes a b))
              words_round_trip) as (Hv & _).
  destruct (containers_round_trip _ _ _ (λ a b, false) Hv) as (_ & _ & _ & _ & Hm & _).
  destruct (Hm value) as (t & n & _ & _ & Hs).
  - split; repeat constructor.
  - exists t. by destruct (Hs tt) as (? & ? & _).
Defined.
End CastProps.

Module ConfigVarProps.
Import CastProps ConfigVar.

Section var.
Context `{YamlLaws} {S T : Type} (eqb : T → T → bool).
Context (from : ∀ X, list Z → M X T) (to : ∀ X, T → M X (list Z)).

(** What the listeners do to the application, in the order of their ids. *)
Definition notify (s : ConfigVar.t S T) (old new : T) : M S unit :=
  forM (m_cbs s) (λ i, i.2 old new).

Lemma forM_in_app {A} (l : list A) (f : A → M S unit) (s : ConfigVar.t S T) :
  forM l (λ x, ConfigVar.in_app (f x)) s =
  match forM l f (app s) with
  | Ok _ a => Ok tt (set_app a s) | Exn e a => Exn e (set_app a s) | Fault x => Fault x
  end.
Proof.
  revert s; induction l as [|x l IH]; intros s; [by destruct s|]. simpl. unfold_M. unfold in_app.
  destruct (f x (app s)) as [[] a|e a|?]; [|done|done]. unfold in_app in IH. rewrite IH. done.
Qed.

Lemma setVal_spec v s :
  setVal eqb v s =
  if eqb v (m_val s) then Ok tt s
  else match notify s (m_val s) v (app s) with
       | Ok _ a => Ok tt (set_val v (set_app a s))
       | Exn e a => Exn e (set_app a s)
       | Fault x => Fault x
       end.
Proof.
  unfold setVal, getVal. unfold_M. destruct (eqb v (m_val s)); [done|].
  unfold_M. rewrite forM_in_app. unfold notify.
  by destruct (forM _ _ (app s)) as [[] a|e a|?].
Qed.

(** A variable that is given the text of a value, as another variable of its
    type prints it, has this value afterwards: every listener was called once,
    in the order in which they were added, with the old and the new value, and
    before the value was stored. Equal values call nobody. When a listener
    throws, the listeners behind it are not called and the old value stays. The
    answer is false in each case, also when the value was stored. *)
Theorem from_string_sets (ok : T → Prop) (other s : ConfigVar.t S T) :
  RoundTrips (S := ConfigVar.t S T) ok (from _) (to _) → ok (m_val other) →
  ∃ t, toString to other = Ok t other ∧
  fromString eqb from t s =
  if eqb (m_val other) (m_val s) then Ok false s
  else match notify s (m_val s) (m_val other) (app s) with
       | Ok _ a => Ok false (set_val (m_val other) (set_app a s))
       | Exn e a => Ok false (set_app a s)
       | Fault x => Fault x
       end.
Proof.
  intros Hrt Hok. destruct (round_trips (m_val other) Hok) as (t & n & _ & _ & Hs).
  exists t. split.
  - unfold toString, getVal, catch. unfold_M. by rewrite (proj1 (Hs other)).
  - unfold fromString, catch. unfold_M. rewrite (proj1 (proj2 (Hs s))), setVal_spec.
    destruct (eqb _ _); [done|]. by destruct (notify _ _ _ _) as [[] a|e a|?].
Qed.
End var.

Import YamlModel.

(** Storing a word: a listener notes what it is told. *)
Definition noted : on_change_cb (S := list (list Z * list Z)) (T := list Z) :=
  λ old new a, Ok tt (a ++ [(old, new)]).
Definition example_var (v : list Z) (l : list (Z * on_change_cb)) :
    ConfigVar.t (list (list Z * list Z)) (list Z) :=
  set_cbs l (ConfigVar.new [] 0 (str "Name") v []).

Lemma from_string_sets_witness :
  ∃ t, toString (λ X, word_to) (example_var (str "new") [])
         = Ok t (example_var (str "new") []) ∧
  fromString (λ a b, bool_decide (a = b)) (λ X, word_from) t
    (example_var (str "old") [(1%Z, noted); (2%Z, noted)]) =
  Ok false (set_app [(str "old", str "new"); (str "old", str "new")]
              (example_var (str "new") [(1%Z, noted); (2%Z, noted)])).
Proof.
  destruct (from_string_sets (λ a b, bool_decide (a = b)) (λ X, word_from)
    (λ X, word_to) (λ v, plain v = true) (example_var (str "new") [])
    (example_var (str "old") [(1%Z, noted); (2%Z, noted)])) as (t & Ht & Hf).
  - apply words_round_trip.
  - done.
  - exists t. split; [exact Ht|]. rewrite Hf. done.
Defined.
End ConfigVarProps.

Module ConfigMgrProps.
Import ConfigMgr.

(** The nodes of a document and their names: the root has the empty name, the
    value of a key is called by the keys on the way to it, with dots between
    them; behind a name that is not allowed there are none. *)
Inductive member (root : Node) : list Z → Node → Prop :=
| member_root : member root [] root
| member_key p l k x :
    member root p (Map l) → (k, x) ∈ l → valid_name (extend p (scalar k)) = true →
    member root (extend p (scalar k)) x.

(** The same from a node with a prefix. *)
Inductive below (q : list Z) (n : Node) : list Z → Node → Prop :=
| below_here : below q n q n
| below_key p l k x :
    below q n p (Map l) → (k, x) ∈ l → valid_name (extend p (scalar k)) = true →
    below q n (extend p (scalar k)) x.

Lemma below_first q k x l p n :
  (k, x) ∈ l → valid_name (extend q (scalar k)) = true →
  below (extend q (scalar k)) x p n → below q (Map l) p n.
Proof. intros Hk Hv. induction 1; econstructor; try done. by constructor. Qed.

Lemma below_inv q n p y : below q n p y →
  (p = q ∧ y = n) ∨
  ∃ l k x, n = Map l ∧ (k, x) ∈ l ∧ valid_name (extend q (scalar k)) = true ∧
           below (extend q (scalar k)) x p y.
Proof.
  induction 1 as [|p l k x _ [[-> Heq]|(l' & k' & x' & ? & ? & ? & IH)] Hk Hv]; [by left| |].
  - right. exists l, k, x. split_and!; [done..|constructor].
  - right. exists l', k', x'. split_and!; [done..|]. by econstructor.
Qed.

Lemma ListAllMember_below n : ∀ q p y, valid_name q = true →
  (p, y) ∈ ListAllMember q n ↔ below q n p y.
Proof.
  induction n as [|s|l IH|l IH] using Node_nested_ind; intros q p y Hq; simpl; rewrite Hq; simpl.
  1-3: rewrite list_elem_of_singleton; split; [intros [= -> ->]; constructor|];
    intros [[-> ->]|(? & ? & ? & ? & _)]%below_inv; done.
  rewrite elem_of_cons, list_elem_of_In, List.in_flat_map. rewrite Forall_forall in IH. split.
  - intros [[= -> ->]|([k x] & Hkx & Hin)]; [constructor|].
    apply list_elem_of_In in Hkx, Hin.
    destruct (valid_name (extend q (scalar k))) eqn:Hv.
    + apply (IH _ Hkx) in Hin; [|done]. by eapply below_first.
    + destruct x; simpl in Hin; rewrite Hv in Hin; by apply elem_of_nil in Hin.
  - intros [[-> ->]|(l' & k & x & [= <-] & Hkx & Hv & Hb)]%below_inv; [by left|right].
    exists (k, x). rewrite <-!list_elem_of_In. split; [done|]. by apply (IH _ Hkx).
Qed.

(** Loading a document looks up exactly the nodes that its maps reach by
    allowed names: a name and a node are listed when the keys on the way to the
    node, joined by dots, make the name, and no prefix of it has another
    character than small letters, dots, underscores and the digits from 1 to 8. *)
Theorem members_are_paths root p n : (p, n) ∈ ListAllMember [] root ↔ member root p n.
Proof.
  rewrite ListAllMember_below by done. split; (induction 1; [constructor|by econstructor]).
Qed.

Lemma digits_refused : valid_name (str "port8080") = false ∧ valid_name (str "port8181") = true.
Proof. done. Qed.
End ConfigMgrProps.
