(* ===== verification/Settings.v ===== *)
(** The settings that parts of the program keep in static variables: the head of
    [http/http_parser.cc] and of [hook.cc].

    Each setting is a variable of the configuration ([ConfigVar]) under a name in
    the manager's table ([ConfigMgr]), and a static copy of its value that a
    listener keeps up to date. The parsers and [connect] read the copy. Before
    [main] the static initialisers of the two files run, in either order. Messages
    to the log are not modelled. *)
From stdpp Require Import base list gmap numbers option strings.
From Stdlib Require Import ZArith Lia.
From S2P Require Import Prelude CString Yaml Config.

Module Settings.
Local Open Scope Z_scope.

(** The static copies. *)
Record statics := mk_statics {
  s_http_request_buffer_size : Z;
  s_http_request_max_body_size : Z;
  s_http_response_buffer_size : Z;
  s_http_response_max_body_size : Z;
  s_connect_timeout : Z
}.

Definition set_request_buffer v s := mk_statics v (s_http_request_max_body_size s)
  (s_http_response_buffer_size s) (s_http_response_max_body_size s) (s_connect_timeout s).
Definition set_request_max_body v s := mk_statics (s_http_request_buffer_size s) v
  (s_http_response_buffer_size s) (s_http_response_max_body_size s) (s_connect_timeout s).
Definition set_response_buffer v s := mk_statics (s_http_request_buffer_size s)
  (s_http_request_max_body_size s) v (s_http_response_max_body_size s) (s_connect_timeout s).
Definition set_response_max_body v s := mk_statics (s_http_request_buffer_size s)
  (s_http_request_max_body_size s) (s_http_response_buffer_size s) v (s_connect_timeout s).
Definition set_connect_timeout v s := mk_statics (s_http_request_buffer_size s)
  (s_http_request_max_body_size s) (s_http_response_buffer_size s)
  (s_http_response_max_body_size s) v.

(** The global pointers to the variables. *)
Record globals := mk_globals {
  g_http_request_buffer_size : option Z;
  g_http_request_max_body_size : option Z;
  g_http_response_buffer_size : option Z;
  g_http_response_max_body_size : option Z;
  g_tcp_connect_timeout : option Z
}.

(** The types of the variables: [ConfigVar<uint64_t>] and [ConfigVar<int>]. *)
Definition uint64_t : Z := 64.
Definition int_t : Z := 32.

Definition variable : Type := ConfigVar.t statics Z.

(** The program: the statics, the variables by their address with their types,
    the counter of listeners that each type has, and the originals of the system
    calls by their names ([name_f]). A variable's own copy of the statics and of
    the counter is only meaningful while one of its methods runs. *)
Record program := mk {
  st : statics;
  vars : gmap Z (Z * variable);
  next_var : Z;
  func_ids : gmap Z Z;
  globs : globals;
  originals : gmap (list Z) Z
}.

Definition set_st x (s : program) :=
  mk x (vars s) (next_var s) (func_ids s) (globs s) (originals s).
Definition set_globs x (s : program) :=
  mk (st s) (vars s) (next_var s) (func_ids s) x (originals s).
Definition set_originals x (s : program) :=
  mk (st s) (vars s) (next_var s) (func_ids s) (globs s) x.

Definition func_id (ty : Z) (s : program) : Z := default 0 (func_ids s !! ty).

(** A method of the variable at [p]. *)
Definition lend (ty : Z) (v : variable) (s : program) : variable :=
  ConfigVar.mk (st s) (ConfigVar.m_name v) (ConfigVar.m_description v) (ConfigVar.m_val v)
    (ConfigVar.m_cbs v) (func_id ty s).
Definition give_back (p ty : Z) (v : variable) (s : program) : program :=
  mk (ConfigVar.app v) (<[p := (ty, v)]> (vars s)) (next_var s)
    (<[ty := ConfigVar.s_func_id v]> (func_ids s)) (globs s) (originals s).

Definition with_var {A} (p : option Z) (m : Z → M variable A) : M program A := λ s,
  match p ≫= λ p, vars s !! p with
  | None => Fault NullDeref
  | Some (ty, v) =>
      let p := default 0 p in
      match m ty (lend ty v s) with
      | Ok a v' => Ok a (give_back p ty v' s)
      | Exn e v' => Exn e (give_back p ty v' s)
      | Fault f => Fault f
      end
  end.

Definition getVal (p : option Z) : M program Z := with_var p (λ _, ConfigVar.getVal).
Definition setVal (p : option Z) (v : Z) : M program unit :=
  with_var p (λ _, ConfigVar.setVal Z.eqb v).
Definition addListener (p : option Z) (cb : Z → Z → M statics unit) : M program Z :=
  with_var p (λ _, ConfigVar.addListener cb).

(** [new ConfigVar<T>(name, default_value, description)] *)
Definition new_var (ty : Z) (name : list Z) (val : Z) (description : list Z) : M program Z :=
  λ s, Ok (next_var s)
    (mk (st s)
       (<[next_var s := (ty, ConfigVar.new (st s) (func_id ty s) name val description)]> (vars s))
       (next_var s + 1) (func_ids s) (globs s) (originals s)).

Section program.
Context {Y : Yaml}.
(** [boost::lexical_cast] from a text to the type of a variable. *)
Variable lexical_cast : Z → list Z → option Z.
(** [dlsym(RTLD_NEXT, name)] *)
Variable dlsym : list Z → Z.

#[export] Instance variables : ConfigVarBase program := λ p text,
  with_var (Some p) (λ ty,
    ConfigVar.fromString Z.eqb (λ _, LexicalCast.lexical_from (lexical_cast ty)) text).

Abbreviation MM := (M (ConfigMgr.t program)).

(** [ConfigMgr::Lookup<T>(name, default_value, description)] *)
Definition Lookup (ty : Z) (name : list Z) (val : Z) (description : list Z) : MM (option Z) :=
  ConfigMgr.Lookup ty (new_var ty name val description) name.

Definition set_glob (f : globals → globals) : MM unit :=
  ConfigMgr.in_app (modify (λ s, set_globs (f (globs s)) s)).
Definition set_static (f : statics → statics) : M program unit :=
  modify (λ s, set_st (f (st s)) s).
Definition global (f : globals → option Z) : M program (option Z) := gets (f ∘ globs).

(** *** http_parser.cc *)
Definition _RequestSizeIniter : M program unit :=
  p1 ← global g_http_request_buffer_size;
  p2 ← global g_http_request_max_body_size;
  p3 ← global g_http_response_buffer_size;
  p4 ← global g_http_response_max_body_size;
  v ← getVal p1; _ ← set_static (set_request_buffer v);
  v ← getVal p2; _ ← set_static (set_request_max_body v);
  v ← getVal p3; _ ← set_static (set_response_buffer v);
  v ← getVal p4; _ ← set_static (set_response_max_body v);
  _ ← addListener p1 (λ _ new_val, modify (set_request_buffer new_val));
  _ ← addListener p2 (λ _ new_val, modify (set_request_max_body new_val));
  _ ← addListener p3 (λ _ new_val, modify (set_response_buffer new_val));
  _ ← addListener p4 (λ _ new_val, modify (set_response_max_body new_val));
  mret tt.

(** The file's static variables with initialisers, in their order. *)
Definition http_parser_statics : MM unit :=
  p ← Lookup uint64_t (str "http.request.buffer_size") (4 * 1024) (str "http request buffer size");
  _ ← set_glob (λ g, mk_globals p (g_http_request_max_body_size g)
        (g_http_response_buffer_size g) (g_http_response_max_body_size g) (g_tcp_connect_timeout g));
  p ← Lookup uint64_t (str "http.request.max_body_size") (64 * 1024 * 1024)
        (str "http request max body size");
  _ ← set_glob (λ g, mk_globals (g_http_request_buffer_size g) p
        (g_http_response_buffer_size g) (g_http_response_max_body_size g) (g_tcp_connect_timeout g));
  p ← Lookup uint64_t (str "http.response.buffer_size") (4 * 1024)
        (str "http response buffer size");
  _ ← set_glob (λ g, mk_globals (g_http_request_buffer_size g) (g_http_request_max_body_size g)
        p (g_http_response_max_body_size g) (g_tcp_connect_timeout g));
  p ← Lookup uint64_t (str "http.response.max_body_size") (64 * 1024 * 1024)
        (str "http response max body size");
  _ ← set_glob (λ g, mk_globals (g_http_request_buffer_size g) (g_http_request_max_body_size g)
        (g_http_response_buffer_size g) p (g_tcp_connect_timeout g));
  ConfigMgr.in_app _RequestSizeIniter.

Definition getHttpRequestBufferSize : M program Z := gets (s_http_request_buffer_size ∘ st).
Definition getHttpRequestMaxBodySize : M program Z := gets (s_http_request_max_body_size ∘ st).
Definition getHttpResponseBufferSize : M program Z := gets (s_http_response_buffer_size ∘ st).
Definition getHttpResponseMaxBodySize : M program Z := gets (s_http_response_max_body_size ∘ st).

(** *** hook.cc *)
Definition HOOK_FUNC : list (list Z) :=
  map str ["sleep"; "usleep"; "nanosleep"; "socket"; "connect"; "accept"; "read"; "readv";
    "recv"; "recvfrom"; "recvmsg"; "write"; "writev"; "send"; "sendto"; "sendmsg"; "close";
    "fcntl"; "ioctl"; "getsockopt"; "setsockopt"]%string.

(** The flag [is_inited] is never set: the function works every time. *)
Definition hook_init : M program unit :=
  modify (λ s, set_originals
    (foldl (λ m name, <[name := dlsym name]> m) (originals s) HOOK_FUNC) s).

(** An [int] is converted to the [uint64_t] of the copy. *)
Definition _HOOKIniter : M program unit :=
  _ ← hook_init;
  p ← global g_tcp_connect_timeout;
  v ← getVal p; _ ← set_static (set_connect_timeout (uint 64 v));
  _ ← addListener p (λ _ new_val, modify (set_connect_timeout (uint 64 new_val)));
  mret tt.

Definition hook_statics : MM unit :=
  p ← Lookup int_t (str "tcp.connect.timeout") 5000 (str "tcp connect timeout");
  _ ← set_glob (λ g, mk_globals (g_http_request_buffer_size g) (g_http_request_max_body_size g)
        (g_http_response_buffer_size g) (g_http_response_max_body_size g) p);
  ConfigMgr.in_app _HOOKIniter.

(** *** The program before and after its static initialisation *)
Definition loaded : ConfigMgr.t program :=
  ConfigMgr.mk
    (mk (mk_statics 0 0 0 0 (uint 64 (-1))) ∅ 1 ∅ (mk_globals None None None None None)
       (foldl (λ m name, <[name := 0]> m) ∅ HOOK_FUNC)) ∅.

(** The order of two files is up to the linker. *)
Definition static_init (parser_first : bool) : MM unit :=
  if parser_first then _ ← http_parser_statics; hook_statics
  else _ ← hook_statics; http_parser_statics.

(** *** What the running program does with the configuration: it loads a document,
    declares a variable of its own, or assigns to one that it looks up. *)
Inductive event :=
| Load (root : Node)
| Declares (ty : Z) (name : list Z) (val : Z) (description : list Z)
| Assign (ty : Z) (name : list Z) (val : Z).

Definition step (e : event) : MM unit :=
  match e with
  | Load root => ConfigMgr.LoadFromYaml root
  | Declares ty name val description => _ ← Lookup ty name val description; mret tt
  | Assign ty name val =>
      p ← ConfigMgr.Lookup_only ty name;
      match p with
      | Some p => ConfigMgr.in_app (setVal (Some p) val)
      | None => mret tt
      end
  end.

(** A declaration that throws is given up. *)
Definition attempt (e : event) : MM unit := λ s,
  match step e s with Exn _ s' => Ok tt s' | r => r end.

Definition run (l : list event) : MM unit := forM l attempt.
End program.
End Settings.
