(* ===== verification/SettingsProps.v ===== *)
(** The static copies of the settings follow the configuration, whatever the
    program does with it. *)
From stdpp Require Import base list gmap numbers option strings.
From Stdlib Require Import ZArith Lia.
From S2P Require Import Prelude CString Yaml YamlModel FdManager Config ConfigProps Settings.

Module SettingsProps.
Import Settings.
Local Open Scope Z_scope.

(** ** The settings *)
Inductive setting :=
| RequestBuffer | RequestMaxBody | ResponseBuffer | ResponseMaxBody | ConnectTimeout.

Definition settings : list setting :=
  [RequestBuffer; RequestMaxBody; ResponseBuffer; ResponseMaxBody; ConnectTimeout].

Definition name (k : setting) : list Z :=
  match k with
  | RequestBuffer => str "http.request.buffer_size"
  | RequestMaxBody => str "http.request.max_body_size"
  | ResponseBuffer => str "http.response.buffer_size"
  | ResponseMaxBody => str "http.response.max_body_size"
  | ConnectTimeout => str "tcp.connect.timeout"
  end.

Definition type_of (k : setting) : Z := match k with ConnectTimeout => int_t | _ => uint64_t end.

Definition initial (k : setting) : Z :=
  match k with
  | RequestBuffer | ResponseBuffer => 4096
  | RequestMaxBody | ResponseMaxBody => 67108864
  | ConnectTimeout => 5000
  end.

Definition cached (k : setting) : statics → Z :=
  match k with
  | RequestBuffer => s_http_request_buffer_size
  | RequestMaxBody => s_http_request_max_body_size
  | ResponseBuffer => s_http_response_buffer_size
  | ResponseMaxBody => s_http_response_max_body_size
  | ConnectTimeout => s_connect_timeout
  end.

(** The copy that is kept of a value. *)
Definition copy (k : setting) (v : Z) : Z :=
  match k with ConnectTimeout => uint 64 v | _ => v end.

Definition store (k : setting) (v : Z) : statics → statics :=
  match k with
  | RequestBuffer => set_request_buffer v
  | RequestMaxBody => set_request_max_body v
  | ResponseBuffer => set_response_buffer v
  | ResponseMaxBody => set_response_max_body v
  | ConnectTimeout => set_connect_timeout (uint 64 v)
  end.

Definition listener (k : setting) : Z → Z → M statics unit := λ _ v, modify (store k v).

#[export] Instance setting_eq_dec : EqDecision setting.
Proof. solve_decision. Defined.

(** The setting that a name belongs to. *)
Definition owner (n : list Z) : option setting :=
  List.find (λ k, bool_decide (n = name k)) settings.

Lemma owner_name k : owner (name k) = Some k.
Proof. by destruct k. Qed.

Lemma owner_some n k : owner n = Some k → n = name k.
Proof. intros [_ H]%List.find_some. by apply bool_decide_eq_true in H. Qed.

Lemma owner_is n k : owner n = Some k ↔ n = name k.
Proof. split; [apply owner_some|intros ->; apply owner_name]. Qed.

Lemma cached_store k k' v s :
  cached k' (store k v s) = if decide (k = k') then copy k v else cached k' s.
Proof. by destruct k, k'. Qed.

Lemma store_same k v s : cached k s = copy k v → store k v s = s.
Proof. destruct k, s; simpl; by intros ->. Qed.

(** ** Assigning to a variable *)
Definition effect (o : option setting) (v : Z) (s : statics) : statics :=
  match o with Some k => store k v s | None => s end.

(** The listeners of a variable that belongs to [o]. *)
Definition heard (o : option setting) (v : variable) : Prop :=
  match o with
  | Some k => ∃ id, ConfigVar.m_cbs v = [(id, listener k)]
  | None => ConfigVar.m_cbs v = []
  end.

Definition current (o : option setting) (x : Z) (s : statics) : Prop :=
  match o with Some k => cached k s = copy k x | None => True end.

Lemma effect_same o x s : current o x s → effect o x s = s.
Proof. destruct o; [apply store_same|done]. Qed.

Lemma setVal_heard o x v :
  heard o v → current o (ConfigVar.m_val v) (ConfigVar.app v) →
  ConfigVar.setVal Z.eqb x v =
  Ok tt (ConfigVar.set_val x (ConfigVar.set_app (effect o x (ConfigVar.app v)) v)).
Proof.
  intros Hh Hc. rewrite ConfigVarProps.setVal_spec. destruct (Z.eqb_spec x (ConfigVar.m_val v)) as [->|].
  - rewrite effect_same by done. by destruct v.
  - unfold ConfigVarProps.notify. destruct o as [k|]; simpl in Hh; [destruct Hh as [id Hh]|];
      rewrite Hh; simpl; unfold_M; [done|by destruct v].
Qed.

Section program.
Context {Y : Yaml} (lexical_cast : Z → list Z → option Z) (dlsym : list Z → Z).
#[local] Existing Instance variables.

Abbreviation conf := (ConfigMgr.t program).

(** ** The invariant: the table knows distinct variables by their types, those of
    the settings have their listener and no other has any, and the copies are up
    to date with the values [x]. *)
Record sound (x : setting → Z) (s : conf) : Prop := {
  sound_settings k : ∃ p, ConfigMgr.datas s !! name k = Some (type_of k, p);
  sound_entry n ty p : ConfigMgr.datas s !! n = Some (ty, p) →
    p < next_var (ConfigMgr.app s) ∧ ∃ v, vars (ConfigMgr.app s) !! p = Some (ty, v) ∧
    heard (owner n) v ∧ from_option (λ k, ConfigVar.m_val v = x k) True (owner n);
  sound_distinct n n' ty ty' p :
    ConfigMgr.datas s !! n = Some (ty, p) → ConfigMgr.datas s !! n' = Some (ty', p) → n = n';
  sound_cached k : cached k (st (ConfigMgr.app s)) = copy k (x k);
  sound_originals n : n ∈ HOOK_FUNC → originals (ConfigMgr.app s) !! n = Some (dlsym n)
}.

(** The values after the variable called [n] was given the value [v]. *)
Definition assigned (n : list Z) (v : Z) (x : setting → Z) (k : setting) : Z :=
  if decide (n = name k) then v else x k.

Lemma type_unique x s n ty p k :
  sound x s → ConfigMgr.datas s !! n = Some (ty, p) → owner n = Some k → ty = type_of k.
Proof.
  intros Hs Hd ->%owner_some. destruct (sound_settings _ _ Hs k) as (p' & Hp'). congruence.
Qed.

(** What an assignment leaves behind keeps the invariant. *)
Definition put (p ty v : Z) (o : option setting) (u : variable) (s : conf) : conf :=
  ConfigMgr.mk (give_back p ty (ConfigVar.set_val v (ConfigVar.set_app
    (effect o v (st (ConfigMgr.app s))) (lend ty u (ConfigMgr.app s)))) (ConfigMgr.app s))
    (ConfigMgr.datas s).

Lemma put_sound x s n ty p v (u : variable) :
  sound x s → ConfigMgr.datas s !! n = Some (ty, p) → vars (ConfigMgr.app s) !! p = Some (ty, u) →
  sound (assigned n v x) (put p ty v (owner n) u s).
Proof.
  intros Hs Hd Hu. destruct (sound_entry _ _ Hs _ _ _ Hd) as (Hp & u' & Hu' & Hh & Hv).
  rewrite Hu in Hu'; injection Hu' as <-. split; simpl.
  - apply Hs.
  - intros n' ty' p' Hd'. destruct (sound_entry _ _ Hs _ _ _ Hd') as (Hp' & w & Hw & Hhw & Hvw).
    split; [done|]. destruct (decide (p' = p)) as [->|Hne].
    + pose proof (sound_distinct _ _ Hs _ _ _ _ _ Hd Hd') as ->. rewrite lookup_insert_eq.
      replace ty' with ty by congruence. eexists; split_and!; [done|done|].
      destruct (owner n') as [k|] eqn:Ho; [|done]. simpl. unfold assigned.
      apply owner_some in Ho as ->. by rewrite decide_True.
    + rewrite lookup_insert_ne by done. exists w. split_and!; [done..|].
      destruct (owner n') as [k|] eqn:Ho; [|done]. apply owner_some in Ho as ->. simpl.
      unfold assigned. rewrite decide_False; [done|]. intros ->. congruence.
  - intros n1 n2 ty1 ty2 p0. apply Hs.
  - intros k. unfold assigned. destruct (owner n) as [k'|] eqn:Ho; simpl.
    + apply owner_some in Ho as ->. rewrite cached_store. destruct (decide (k' = k)) as [->|Hk].
      * by rewrite decide_True.
      * rewrite decide_False; [apply Hs|]. intros Hn. apply Hk.
        pose proof (owner_name k') as H1. rewrite Hn, owner_name in H1. congruence.
    + rewrite decide_False; [apply Hs|]. intros ->. by rewrite owner_name in Ho.
  - apply Hs.
Qed.

Lemma setVal_sound x s n ty p v :
  sound x s → ConfigMgr.datas s !! n = Some (ty, p) →
  ∃ s', ConfigMgr.in_app (setVal (Some p) v) s = Ok tt s' ∧ sound (assigned n v x) s'.
Proof.
  intros Hs Hd. destruct (sound_entry _ _ Hs _ _ _ Hd) as (Hp & u & Hu & Hh & Hv).
  eexists. split; [|exact (put_sound _ _ _ _ _ v _ Hs Hd Hu)].
  unfold ConfigMgr.in_app, setVal, with_var. simpl. rewrite Hu.
  rewrite (setVal_heard (owner n)); [done|done|]. simpl. destruct (owner n) as [k|]; [|done].
  simpl in *. rewrite Hv. apply Hs.
Qed.

(** Giving a variable a text that does not convert changes nothing that is kept. *)
Definition read_text (ty : Z) (n t : list Z) (x : setting → Z) : setting → Z :=
  match lexical_cast ty t with Some v => assigned n v x | None => x end.

Lemma sound_ext x y s : (∀ k, x k = y k) → sound x s → sound y s.
Proof.
  intros He Hs. split.
  - apply Hs.
  - intros n ty p Hd. destruct (sound_entry _ _ Hs _ _ _ Hd) as (? & v & ? & ? & Hv).
    split; [done|]. exists v. split_and!; [done..|]. destruct (owner n); [|done]. simpl in *. congruence.
  - apply Hs.
  - intros k. rewrite <-He. apply Hs.
  - apply Hs.
Qed.

Lemma assigned_same x s n ty p (u : variable) :
  sound x s → ConfigMgr.datas s !! n = Some (ty, p) → vars (ConfigMgr.app s) !! p = Some (ty, u) →
  ∀ k, assigned n (ConfigVar.m_val u) x k = x k.
Proof.
  intros Hs Hd Hu k. unfold assigned. destruct (decide (n = name k)) as [->|]; [|done].
  destruct (sound_entry _ _ Hs _ _ _ Hd) as (_ & u' & Hu' & _ & Hv).
  rewrite Hu in Hu'; injection Hu' as <-. rewrite owner_name in Hv. by symmetry.
Qed.

Lemma fromString_sound x s n ty p t :
  sound x s → ConfigMgr.datas s !! n = Some (ty, p) →
  ∃ s', ConfigMgr.in_app (var_fromString (ConfigVarBase := variables lexical_cast) p t) s
          = Ok false s' ∧ sound (read_text ty n t x) s'.
Proof.
  intros Hs Hd. destruct (sound_entry _ _ Hs _ _ _ Hd) as (Hp & u & Hu & Hh & Hv).
  unfold ConfigMgr.in_app, var_fromString, variables, with_var. simpl. rewrite Hu.
  unfold ConfigVar.fromString, ConfigVar.catch, LexicalCast.lexical_from, read_text. unfold_M.
  destruct (lexical_cast ty t) as [v|].
  - unfold_M. rewrite (setVal_heard (owner n)); [|done|].
    + eexists. split; [done|]. exact (put_sound _ _ _ _ _ v _ Hs Hd Hu).
    + simpl. destruct (owner n) as [k|]; [|done]. simpl in *. rewrite Hv. apply Hs.
  - unfold_M. eexists. split; [done|].
    pose proof (put_sound _ _ _ _ _ (ConfigVar.m_val u) _ Hs Hd Hu) as Hput.
    apply (sound_ext _ x) in Hput; [|by eapply assigned_same].
    unfold put in Hput. rewrite effect_same in Hput; [exact Hput|].
    destruct (owner n) as [k|]; [|done]. simpl in *. rewrite Hv. apply Hs.
Qed.

(** ** Loading a document *)
Definition read_node (k : setting) (v : Z) (e : list Z * Node) : Z :=
  if decide (tolower <$> e.1 = name k)
  then default v (lexical_cast (type_of k) (ConfigMgr.node_text e.2)) else v.

Lemma read_text_node x s e p ty k :
  sound x s → ConfigMgr.datas s !! (tolower <$> e.1) = Some (ty, p) →
  read_text ty (tolower <$> e.1) (ConfigMgr.node_text e.2) x k = read_node k (x k) e.
Proof.
  intros Hs Hd. unfold read_text, read_node. destruct (decide (_ = name k)) as [Hk|Hk].
  - assert (ty = type_of k) as -> by (eapply type_unique; [done..|]; by rewrite owner_is).
    destruct (lexical_cast _ _); [|done]. simpl. unfold assigned. by rewrite decide_True.
  - destruct (lexical_cast _ _); [|done]. unfold assigned. by rewrite decide_False.
Qed.

Lemma read_node_ne k v e : tolower <$> e.1 ≠ name k → read_node k v e = v.
Proof. intros. unfold read_node. by rewrite decide_False. Qed.

(** The body of the loop in [LoadFromYaml]. *)
Definition load_node (node : list Z * Node) : M conf unit :=
  match node.1 with
  | [] => mret tt
  | key =>
      var ← ConfigMgr.LookupBase (tolower <$> key);
      match var with
      | Some p => _ ← ConfigMgr.in_app (var_fromString (ConfigVarBase := variables lexical_cast)
                         p (ConfigMgr.node_text node.2)); mret tt
      | None => mret tt
      end
  end.

Lemma load_node_sound e x s : sound x s →
  ∃ s', load_node e s = Ok tt s' ∧ sound (λ k, read_node k (x k) e) s'.
Proof.
  intros Hs. unfold load_node. destruct (e.1) as [|c key] eqn:Ek.
  { exists s. split; [done|]. eapply sound_ext; [|exact Hs]. intros k. rewrite read_node_ne; [done|].
    rewrite Ek. by destruct k. }
  unfold ConfigMgr.LookupBase. unfold_M. rewrite <-Ek.
  destruct (ConfigMgr.datas s !! (tolower <$> e.1)) as [[ty p]|] eqn:Hd; simpl.
  - destruct (fromString_sound _ _ _ _ _ (ConfigMgr.node_text e.2) Hs Hd) as (s' & Hf & Hs').
    exists s'. unfold_M. rewrite Hf. split; [done|]. eapply sound_ext; [|exact Hs'].
    intros k. by eapply read_text_node.
  - exists s. split; [done|]. eapply sound_ext; [|exact Hs]. intros k. rewrite read_node_ne; [done|].
    intros Hk. destruct (sound_settings _ _ Hs k) as (p & Hp). congruence.
Qed.

Lemma load_nodes l : ∀ x s, sound x s →
  ∃ s', forM l load_node s = Ok tt s' ∧ sound (λ k, foldl (read_node k) (x k) l) s'.
Proof.
  induction l as [|e l IH]; intros x s Hs; [by exists s|].
  destruct (load_node_sound e _ _ Hs) as (s1 & He & Hs1). destruct (IH _ _ Hs1) as (s2 & Hl & Hs2).
  exists s2. split; [|done]. cbn [forM]. unfold mbind at 1, M_bind at 1. by rewrite He.
Qed.

(** ** What an event does to the value of a setting *)
Definition expected (k : setting) (v : Z) (e : event) : Z :=
  match e with
  | Load root => foldl (read_node k) v (ConfigMgr.ListAllMember [] root)
  | Declares _ _ _ _ => v
  | Assign ty n w => if decide (n = name k ∧ ty = type_of k) then w else v
  end.

Lemma declares_sound x s ty n v d : sound x s →
  ∃ s', attempt lexical_cast (Declares ty n v d) s = Ok tt s' ∧ sound x s'.
Proof.
  intros Hs. unfold attempt, step, Lookup, ConfigMgr.Lookup. unfold_M.
  destruct (ConfigMgr.datas s !! n) as [[ty' p]|] eqn:Hd; [by exists s|].
  destruct (negb (ConfigMgr.valid_name n)); [by exists s|]. unfold ConfigMgr.in_app, new_var. unfold_M.
  eexists. split; [done|].
  assert (owner n = None) as Ho.
  { destruct (owner n) as [k|] eqn:Ho; [|done]. apply owner_some in Ho as ->.
    destruct (sound_settings _ _ Hs k) as (p & Hp). congruence. }
  split; simpl.
  - intros k. destruct (sound_settings _ _ Hs k) as (p & Hp). exists p.
    rewrite lookup_insert_ne; [done|]. intros ->. by rewrite owner_name in Ho.
  - intros n' ty' p' Hd'. destruct (decide (n' = n)) as [->|Hn].
    + rewrite lookup_insert_eq in Hd'. injection Hd' as <- <-. split; [lia|]. rewrite lookup_insert_eq.
      eexists. split_and!; [done| |]; by rewrite Ho.
    + rewrite lookup_insert_ne in Hd' by done.
      destruct (sound_entry _ _ Hs _ _ _ Hd') as (Hp' & u & Hu & Hh). split; [lia|].
      rewrite lookup_insert_ne by lia. by exists u.
  - assert (∀ n' ty', ConfigMgr.datas s !! n' = Some (ty', next_var (ConfigMgr.app s)) → False) as Hnew.
    { intros n' ty' Hd'. destruct (sound_entry _ _ Hs _ _ _ Hd') as [? _]. lia. }
    intros n1 n2 ty1 ty2 p [[<- Heq]|[_ H1]]%lookup_insert_Some [[<- Heq2]|[_ H2]]%lookup_insert_Some;
      [done| | |by eapply (sound_distinct _ _ Hs)];
      [injection Heq as <- <-; by apply Hnew in H2|injection Heq2 as <- <-; by apply Hnew in H1].
  - apply Hs.
  - apply Hs.
Qed.

Lemma event_sound e x s : sound x s →
  ∃ s', attempt lexical_cast e s = Ok tt s' ∧ sound (λ k, expected k (x k) e) s'.
Proof.
  intros Hs. destruct e as [root|ty n v d|ty n v].
  - destruct (load_nodes (ConfigMgr.ListAllMember [] root) _ _ Hs) as (s' & Hl & Hs').
    exists s'. split; [|exact Hs']. unfold attempt, step, ConfigMgr.LoadFromYaml. fold load_node.
    by rewrite Hl.
  - by apply declares_sound.
  - unfold attempt, step, ConfigMgr.Lookup_only. unfold_M.
    assert (∀ ty' p, ConfigMgr.datas s !! n = Some (ty', p) → ∀ k, n = name k → ty' = type_of k) as Ht.
    { intros ty' p Hd k ->. eapply type_unique; [done..|]. apply owner_name. }
    destruct (ConfigMgr.datas s !! n) as [[ty' p]|] eqn:Hd; [destruct (Z.eqb_spec ty' ty) as [->|Hne]|].
    + destruct (setVal_sound _ _ _ _ _ v Hs Hd) as (s' & Hset & Hs'). exists s'. rewrite Hset.
      split; [done|]. eapply sound_ext; [|exact Hs']. intros k. simpl. unfold assigned.
      repeat case_decide; naive_solver.
    + exists s. split; [done|]. eapply sound_ext; [|exact Hs]. intros k. simpl.
      case_decide as Hk; [|done]. destruct Hk as [Hk ->]. by specialize (Ht _ _ eq_refl _ Hk).
    + exists s. split; [done|]. eapply sound_ext; [|exact Hs]. intros k. simpl.
      case_decide as Hk; [|done]. destruct Hk as [-> _].
      destruct (sound_settings _ _ Hs k) as (p & Hp). congruence.
Qed.

Lemma events_sound l : ∀ x s, sound x s →
  ∃ s', run lexical_cast l s = Ok tt s' ∧ sound (λ k, foldl (expected k) (x k) l) s'.
Proof.
  induction l as [|e l IH]; intros x s Hs; [by exists s|].
  destruct (event_sound e _ _ Hs) as (s1 & He & Hs1). destruct (IH _ _ Hs1) as (s2 & Hl & Hs2).
  exists s2. split; [|done]. unfold run in *. simpl. unfold_M. by rewrite He.
Qed.
(** ** Static initialisation *)
Definition check_entry (s : conf) (e : list Z * (Z * Z)) : Prop :=
  e.2.2 < next_var (ConfigMgr.app s) ∧ ∃ v, vars (ConfigMgr.app s) !! e.2.2 = Some (e.2.1, v) ∧
  heard (owner e.1) v ∧ from_option (λ k, ConfigVar.m_val v = initial k) True (owner e.1).

(** What has to be computed for the invariant. *)
Definition checks (s : conf) : Prop :=
  Forall (check_entry s) (map_to_list (ConfigMgr.datas s)) ∧
  NoDup ((snd ∘ snd) <$> map_to_list (ConfigMgr.datas s)) ∧
  Forall (λ k, ∃ p, ConfigMgr.datas s !! name k = Some (type_of k, p)) settings ∧
  Forall (λ k, cached k (st (ConfigMgr.app s)) = copy k (initial k)) settings ∧
  Forall (λ n, originals (ConfigMgr.app s) !! n = Some (dlsym n)) HOOK_FUNC.

Lemma in_settings k : k ∈ settings.
Proof. destruct k; set_solver. Qed.

Lemma checks_sound s : checks s → sound initial s.
Proof.
  unfold checks. rewrite !Forall_forall. intros (Hl & Hnd & Hk & Hc & Ho). split; [| | | |done].
  - intros k. apply Hk, in_settings.
  - intros n ty p Hd%elem_of_map_to_list. exact (Hl _ Hd).
  - intros n n' ty ty' p Hd%elem_of_map_to_list Hd'%elem_of_map_to_list.
    apply list_elem_of_lookup in Hd as [i Hi], Hd' as [j Hj].
    assert (i = j) as <-; [|congruence].
    eapply NoDup_lookup; [exact Hnd|rewrite list_lookup_fmap, Hi|rewrite list_lookup_fmap, Hj]; done.
  - intros k. apply Hc, in_settings.
Qed.

(** The computation leaves the conversion to 64 bits as it is. *)
Lemma initialised parser_first :
  ∃ s, static_init dlsym parser_first loaded = Ok tt s ∧ sound initial s.
Proof.
  assert (∃ s, static_init dlsym parser_first loaded = Ok tt s ∧ checks s) as (s & Hi & Hs).
  { unfold checks, check_entry, heard, listener, store, copy, static_init, hook_statics, _HOOKIniter, loaded.
    generalize (uint 64). intros u.
    destruct parser_first; (eexists; split; [vm_compute; reflexivity|]); vm_compute; split_and!.
    all: repeat constructor; repeat eexists; set_solver. }
  exists s. split; [done|by apply checks_sound].
Qed.

(** C36. After static initialisation, whichever of the two files is first, the
    program may load documents, declare variables and assign to them in any order:
    nothing throws or faults, and the sizes that the parsers read are always the
    values that the configuration has, namely those of the last member of a
    document, or the last assignment, that named the setting, converted to its
    type and was a value of it, or else the defaults. The timeout of [connect] is
    such an [int] converted to 64 bits, so that a negative one is a huge timeout,
    and -1 is none. The originals of all system calls are those that dlsym found. *)
Theorem settings_follow parser_first l : ∃ s,
  (_ ← static_init dlsym parser_first; run lexical_cast l) loaded = Ok tt s ∧
  let p := ConfigMgr.app s in
  let value k := foldl (expected k) (initial k) l in
  getHttpRequestBufferSize p = Ok (value RequestBuffer) p ∧
  getHttpRequestMaxBodySize p = Ok (value RequestMaxBody) p ∧
  getHttpResponseBufferSize p = Ok (value ResponseBuffer) p ∧
  getHttpResponseMaxBodySize p = Ok (value ResponseMaxBody) p ∧
  s_connect_timeout (st p) = uint 64 (value ConnectTimeout) ∧
  (∀ n, n ∈ HOOK_FUNC → originals p !! n = Some (dlsym n)).
Proof.
  destruct (initialised parser_first) as (s0 & Hi & H0).
  destruct (events_sound l _ _ H0) as (s & Hr & Hs). exists s. unfold_M. rewrite Hi. split; [done|].
  pose proof (sound_cached _ _ Hs) as Hc. simpl.
  unfold getHttpRequestBufferSize, getHttpRequestMaxBodySize, getHttpResponseBufferSize,
    getHttpResponseMaxBodySize, gets. simpl.
  split_and!; [f_equal; apply (Hc RequestBuffer)|f_equal; apply (Hc RequestMaxBody)
    |f_equal; apply (Hc ResponseBuffer)|f_equal; apply (Hc ResponseMaxBody)|apply (Hc ConnectTimeout)
    |apply Hs].
Qed.
End program.

(** ** Example: a document with a request size, a text that does not convert, and
    no timeout *)
Import YamlModel.

Definition example_cast (ty : Z) (t : list Z) : option Z :=
  if bool_decide (t = str "8192") then Some 8192
  else if bool_decide (t = str "-1") then Some (-1) else None.

Definition example_conf : Node :=
  Map [(Scalar (str "http"), Map [
         (Scalar (str "request"), Map [(Scalar (str "buffer_size"), Scalar (str "8192"));
                                       (Scalar (str "max_body_size"), Scalar (str "1G"))])]);
       (Scalar (str "tcp.connect.timeout"), Scalar (str "-1"))].

Example example_settings :
  let values l := (λ k, foldl (expected example_cast k) (initial k) l) <$> settings in
  values [] = [4096; 67108864; 4096; 67108864; 5000] ∧
  values [Load example_conf] = [8192; 67108864; 4096; 67108864; -1] ∧
  values [Load example_conf; Assign uint64_t (name RequestBuffer) 1;
          Assign uint64_t (name ConnectTimeout) 1] = [1; 67108864; 4096; 67108864; -1] ∧
  uint 64 (-1) = FdManager.no_timeout.
Proof. by vm_compute. Qed.
End SettingsProps.
