(* ===== verification/Log.v ===== *)
(** Loggers, appenders, their manager and their configuration: the second part
    of [log.h] and [log.cc].

    Appenders and loggers are shared objects at pointers of a heap [t]; a
    formatter does not change once it is made and is a value, the null pointer
    being [None]. What is written to the console is [stdout]; a file appender
    keeps what it has written to its own stream. [open] is whether a file can
    be opened. Each call holds the spin lock of one object at a time, or that of
    a logger and then that of one of its appenders or of the root logger, so
    that a single thread never waits for itself; the locks are left out. *)
From stdpp Require Import base list gmap numbers option strings sorting.
From Stdlib Require Import ZArith Lia.
From S2P Require Import Prelude CString LogFormatter Yaml Config.

Module Log.
Import LogLevel LogFormatter.
Local Open Scope Z_scope.

(** The subclasses; a file with whether its stream is open. *)
Inductive kind := StdoutLogAppender | FileLogAppender (m_filename : list Z) (is_open : bool).

Record LogAppender := mk_appender {
  m_kind : kind;
  ap_level : Level;
  m_hasFormatter : bool;
  ap_formatter : option LogFormatter;
  written : list Z
}.

Record Logger := mk_logger {
  m_name : list Z;
  lg_level : Level;
  m_appenders : list Z;
  lg_formatter : option LogFormatter;
  m_root : option Z
}.

Record t := mk {
  appenders : gmap Z LogAppender;
  loggers : gmap Z Logger;
  m_loggers : gmap (list Z) Z;
  root : Z;
  next : Z;
  stdout : list Z
}.

Definition set_appenders h (s : t) : t := mk h (loggers s) (m_loggers s) (root s) (next s) (stdout s).
Definition set_loggers h (s : t) : t := mk (appenders s) h (m_loggers s) (root s) (next s) (stdout s).
Definition set_table m (s : t) : t := mk (appenders s) (loggers s) m (root s) (next s) (stdout s).
Definition set_stdout o (s : t) : t := mk (appenders s) (loggers s) (m_loggers s) (root s) (next s) o.

Definition logger_at (p : Z) : M t Logger := s ← get; derefM (loggers s !! p).
Definition appender_at (p : Z) : M t LogAppender := s ← get; derefM (appenders s !! p).
Definition put_logger (p : Z) (l : Logger) : M t unit :=
  modify (λ s, set_loggers (<[p := l]> (loggers s)) s).
Definition put_appender (p : Z) (a : LogAppender) : M t unit :=
  modify (λ s, set_appenders (<[p := a]> (appenders s)) s).
(** [new]: a pointer that was not used before. *)
Definition alloc : M t Z := λ s,
  Ok (next s) (mk (appenders s) (loggers s) (m_loggers s) (root s) (next s + 1) (stdout s)).

(** *** Appenders *)
Definition with_formatter (f : option LogFormatter) (a : LogAppender) : LogAppender :=
  mk_appender (m_kind a) (ap_level a) (m_hasFormatter a) f (written a).

Definition LogAppender_getFormatter (p : Z) : M t (option LogFormatter) :=
  a ← appender_at p; mret (ap_formatter a).

Definition LogAppender_setFormatter (p : Z) (formatter : option LogFormatter) : M t unit :=
  a ← appender_at p;
  put_appender p (mk_appender (m_kind a) (ap_level a)
                    (match formatter with Some _ => true | None => false end) formatter (written a)).

Definition LogAppender_setLevel (p : Z) (level : Level) : M t unit :=
  a ← appender_at p;
  put_appender p (mk_appender (m_kind a) level (m_hasFormatter a) (ap_formatter a) (written a)).

Section log.
Context {Y : Yaml}.
Variable strftime : list Z → Z → option (list Z).
Variable open : list Z → bool.

Definition StdoutLogAppender_new : M t Z :=
  p ← alloc;
  _ ← put_appender p (mk_appender StdoutLogAppender DEBUG false None []);
  mret p.

Definition FileLogAppender_new (filename : list Z) : M t Z :=
  p ← alloc;
  _ ← put_appender p (mk_appender (FileLogAppender filename (open filename)) DEBUG false None []);
  mret p.

(** A stream that is not open is opened, a file being emptied. *)
Definition FileLogAppender_reopen (p : Z) : M t bool :=
  a ← appender_at p;
  match m_kind a with
  | FileLogAppender name false =>
      _ ← put_appender p (mk_appender (FileLogAppender name (open name)) (ap_level a)
                            (m_hasFormatter a) (ap_formatter a) []);
      mret (open name)
  | _ => mret true
  end.

(** The destructor closes an open stream. *)
Definition FileLogAppender_destroy (p : Z) : M t unit :=
  a ← appender_at p;
  _ ← (match m_kind a with
       | FileLogAppender name true =>
           put_appender p (mk_appender (FileLogAppender name false) (ap_level a) (m_hasFormatter a)
                             (ap_formatter a) (written a))
       | _ => mret tt
       end);
  modify (λ s, set_appenders (delete p (appenders s)) s).

(** [appender->log(logger, level, event)] of either class; the name in the text
    is that of the event's logger. *)
Definition LogAppender_log (p : Z) (level : Level) (event : LogEvent) : M t unit :=
  a ← appender_at p;
  if at_least level (ap_level a) then
    f ← derefM (ap_formatter a);
    e ← logger_at (m_logger event);
    text ← LogFormatter.format strftime (m_items f) (m_name e) level event;
    match m_kind a with
    | StdoutLogAppender => modify (λ s, set_stdout (stdout s ++ text) s)
    | FileLogAppender _ true =>
        put_appender p (mk_appender (m_kind a) (ap_level a) (m_hasFormatter a) (ap_formatter a)
                          (written a ++ text))
    | FileLogAppender _ false => mret tt
    end
  else mret tt.

Definition LogAppender_yaml (p : Z) : M t (list Z) :=
  a ← appender_at p;
  n ← (match m_kind a with
       | StdoutLogAppender => set_field (str "type") (Scalar (str "StdoutLogAppender")) None
       | FileLogAppender name _ =>
           n ← set_field (str "type") (Scalar (str "FileLogAppender")) None;
           set_field (str "file") (Scalar name) n
       end);
  n ← (match ap_level a with
       | UNKNOWN => mret n
       | l => set_field (str "level") (Scalar (ToString l)) n
       end);
  n ← (if m_hasFormatter a
       then match ap_formatter a with
            | Some f => set_field (str "formatter") (Scalar (m_pattern f)) n
            | None => mret n
            end
       else mret n);
  mret (emit n).

(** *** Loggers *)
Definition Logger_new (name : list Z) : M t Z :=
  p ← alloc;
  _ ← put_logger p (mk_logger name DEBUG [] (Some (LogFormatter.new default_pattern)) None);
  mret p.

Definition getFormatter (p : Z) : M t (option LogFormatter) :=
  g ← logger_at p; mret (lg_formatter g).

Definition set_list (l : list Z) (g : Logger) : Logger :=
  mk_logger (m_name g) (lg_level g) l (lg_formatter g) (m_root g).

Definition addAppenders (p a : Z) : M t unit :=
  g ← logger_at p;
  f ← LogAppender_getFormatter a;
  _ ← (match f with
       | Some _ => mret tt
       | None => x ← appender_at a; put_appender a (with_formatter (lg_formatter g) x)
       end);
  put_logger p (set_list (m_appenders g ++ [a]) g).

Fixpoint erase_first (a : Z) (l : list Z) : list Z :=
  match l with [] => [] | x :: l' => if x =? a then l' else x :: erase_first a l' end.

Definition delAppenders (p a : Z) : M t unit :=
  g ← logger_at p; put_logger p (set_list (erase_first a (m_appenders g)) g).

Definition clearAppenders (p : Z) : M t unit :=
  g ← logger_at p; put_logger p (set_list [] g).

Definition Logger_setLevel (p : Z) (level : Level) : M t unit :=
  g ← logger_at p;
  put_logger p (mk_logger (m_name g) level (m_appenders g) (lg_formatter g) (m_root g)).

(** Appenders without a formatter of their own take the logger's. *)
Definition setFormatter (p : Z) (val : option LogFormatter) : M t unit :=
  g ← logger_at p;
  _ ← put_logger p (mk_logger (m_name g) (lg_level g) (m_appenders g) val (m_root g));
  forM (m_appenders g) (λ i,
    a ← appender_at i;
    if m_hasFormatter a then mret tt else put_appender i (with_formatter val a)).

Definition setFormatter_pattern (p : Z) (val : list Z) : M t unit :=
  let new_val := LogFormatter.new val in
  if m_error new_val then mret tt else setFormatter p (Some new_val).

(** [fuel] bounds the way to the root logger: two loggers. *)
Fixpoint log (fuel : nat) (p : Z) (level : Level) (event : LogEvent) : M t unit :=
  match fuel with
  | O => faultM FuelExhausted
  | S fuel' =>
      g ← logger_at p;
      if at_least level (lg_level g) then
        match m_appenders g with
        | (_ :: _) as l => forM l (λ a, LogAppender_log a level event)
        | [] =>
            match m_root g with
            | Some r => log fuel' r level event
            | None => mret tt
            end
        end
      else mret tt
  end.

Definition debug (p : Z) (event : LogEvent) : M t unit := log 2 p DEBUG event.
Definition info (p : Z) (event : LogEvent) : M t unit := log 2 p INFO event.
Definition warn (p : Z) (event : LogEvent) : M t unit := log 2 p WARN event.
Definition error (p : Z) (event : LogEvent) : M t unit := log 2 p ERROR event.
Definition fatal (p : Z) (event : LogEvent) : M t unit := log 2 p FATAL event.

(** The destructor of LogEventWarp, where a statement of the log macros ends. *)
Definition LogEventWarp_destroy (m_event : LogEvent) : M t unit :=
  log 2 (m_logger m_event) (m_level m_event) m_event.

(** The macros LOG_LEVEL and LOG_FMT_LEVEL, for an event that they would make;
    [printed] is the text of the format and its arguments. *)
Definition LOG_LEVEL (logger : Z) (level : Level) (event : LogEvent) : M t unit :=
  g ← logger_at logger;
  if at_least level (lg_level g) then LogEventWarp_destroy event else mret tt.

Definition LOG_FMT_LEVEL (logger : Z) (level : Level) (printed : option (list Z)) (event : LogEvent)
    : M t unit :=
  g ← logger_at logger;
  if at_least level (lg_level g) then LogEventWarp_destroy (LogEvent_format printed event) else mret tt.

Fixpoint appenders_yaml (l : list Z) (n : option Node) : M t (option Node) :=
  match l with
  | [] => mret n
  | i :: l' => v ← LogAppender_yaml i; x ← load v; n ← push_back x n; appenders_yaml l' n
  end.

Definition Logger_yaml (p : Z) : M t (list Z) :=
  g ← logger_at p;
  n ← set_field (str "name") (Scalar (m_name g)) None;
  n ← (match lg_level g with
       | UNKNOWN => mret n
       | l => set_field (str "level") (Scalar (ToString l)) n
       end);
  n ← (match lg_formatter g with
       | Some f => set_field (str "formatter") (Scalar (m_pattern f)) n
       | None => mret n
       end);
  l ← appenders_yaml (m_appenders g) None;
  n ← (match l with Some x => set_field (str "appenders") x n | None => mret n end);
  mret (emit n).

(** *** LoggerManager *)
Definition getLogger (name : list Z) : M t Z :=
  s ← get;
  match m_loggers s !! name with
  | Some p => mret p
  | None =>
      p ← Logger_new name;
      g ← logger_at p;
      _ ← put_logger p (mk_logger (m_name g) (lg_level g) (m_appenders g) (lg_formatter g)
                          (Some (root s)));
      _ ← modify (λ s, set_table (<[name := p]> (m_loggers s)) s);
      mret p
  end.

(** The constructor, on an empty state. *)
Definition LoggerManager_new : M t unit :=
  r ← Logger_new (str "root");
  a ← StdoutLogAppender_new;
  _ ← addAppenders r a;
  modify (λ s, mk (appenders s) (loggers s) (<[str "root" := r]> (m_loggers s)) r (next s) (stdout s)).

Definition name_le (a b : list Z * Z) : Prop := is_lt (compare_bytes b.1 a.1) = false.
#[export] Instance name_le_dec a b : Decision (name_le a b).
Proof. unfold name_le. apply _. Defined.

Fixpoint loggers_yaml (l : list (list Z * Z)) (n : option Node) : M t (option Node) :=
  match l with
  | [] => mret n
  | (_, p) :: l' => v ← Logger_yaml p; x ← load v; n ← push_back x n; loggers_yaml l' n
  end.

Definition LoggerManager_yaml : M t (list Z) :=
  s ← get;
  n ← loggers_yaml (merge_sort name_le (map_to_list (m_loggers s))) None;
  mret (emit n).
End log.
End Log.
