(* ===== verification/LogProps.v ===== *)
(** Loggers: their state stays well formed whatever is done to them, and an
    event reaches the appenders it should, with its text. *)
From stdpp Require Import base list gmap numbers option strings sets.
From Stdlib Require Import ZArith Lia.
From S2P Require Import Prelude CString LogFormatter Yaml Config Log.

Module LogProps.
Import LogLevel LogFormatter Log.
Local Open Scope Z_scope.

(** ** Well-formed states *)

Record logger_wf (s : t) (g : Logger) : Prop := mk_logger_wf {
  g_formatter : is_Some (lg_formatter g);
  g_appenders : ∀ a, a ∈ m_appenders g → ∃ x, appenders s !! a = Some x ∧ is_Some (ap_formatter x);
  g_root : ∀ r, m_root g = Some r → r = root s
}.

Record wf (s : t) : Prop := mk_wf {
  wf_table : ∀ n p, m_loggers s !! n = Some p → ∃ g, loggers s !! p = Some g ∧ m_name g = n;
  wf_logger : ∀ p g, loggers s !! p = Some g → logger_wf s g;
  wf_root : ∃ g, loggers s !! root s = Some g ∧ m_root g = None;
  wf_next : ∀ p, is_Some (loggers s !! p) ∨ is_Some (appenders s !! p) → p < next s
}.
(** Two appenders that differ at most in what they have written or how. *)
Definition keeps (x y : LogAppender) : Prop := is_Some (ap_formatter x) → is_Some (ap_formatter y).

Lemma logger_wf_ext s s' g :
  appenders s' = appenders s → root s' = root s → logger_wf s g → logger_wf s' g.
Proof. intros Ha Hr [Hf Hap Hrt]. split; [done|by rewrite Ha|by rewrite Hr]. Qed.

Lemma logger_wf_appender s g a y :
  (∀ x, appenders s !! a = Some x → keeps x y) → logger_wf s g →
  logger_wf (set_appenders (<[a := y]> (appenders s)) s) g.
Proof.
  intros Hk [Hf Ha Hr]. split; [done| |done]. intros b Hb. destruct (Ha b Hb) as (x & Hx & Hfx). simpl.
  destruct (decide (a = b)) as [<-|].
  - exists y. rewrite lookup_insert_eq. split; [done|]. by eapply Hk.
  - exists x. by rewrite lookup_insert_ne.
Qed.

(** An appender that is there is changed. *)
Lemma wf_put_appender s a x y :
  wf s → appenders s !! a = Some x → keeps x y →
  wf (set_appenders (<[a := y]> (appenders s)) s).
Proof.
  intros [Ht Hl Hr Hn] Hx Hk. split; simpl; [done| |done|].
  - intros p g Hg. apply logger_wf_appender; [intros x' Hx'; by simplify_eq|by eapply Hl].
  - intros p Hp. apply Hn. rewrite lookup_insert_is_Some in Hp.
    destruct Hp as [?|[<-|[_ ?]]]; [by left|right; rewrite Hx; by eexists|by right].
Qed.

(** A new appender. *)
Lemma wf_new_appender s y :
  wf s → wf (mk (<[next s := y]> (appenders s)) (loggers s) (m_loggers s) (root s) (next s + 1) (stdout s)).
Proof.
  intros [Ht Hl Hr Hn].
  assert (∀ b, is_Some (appenders s !! b) → next s ≠ b) as Hne by (intros b Hb <-; specialize (Hn _ (or_intror Hb)); lia).
  split; simpl; [done| |done|].
  - intros p g Hg. destruct (Hl p g Hg) as [Hf Ha Hrt]. split; [done| |done].
    intros b Hb. destruct (Ha b Hb) as (x & Hx & Hfx). exists x. simpl.
    rewrite lookup_insert_ne; [done|]. by apply Hne.
  - intros p Hp. rewrite lookup_insert_is_Some in Hp.
    destruct Hp as [Hp|[<-|[_ Hp]]]; [specialize (Hn p (or_introl Hp))|..|specialize (Hn p (or_intror Hp))]; lia.
Qed.

(** A logger that is there is changed: same name, root and validity. *)
Lemma wf_put_logger s p g g' :
  wf s → loggers s !! p = Some g → m_name g' = m_name g → m_root g' = m_root g → logger_wf s g' →
  wf (set_loggers (<[p := g']> (loggers s)) s).
Proof.
  intros [Ht Hl Hr Hn] Hp Hname Hroot Hg'. split; simpl.
  - intros n q Hq. destruct (Ht n q Hq) as (x & Hx & Hxn).
    destruct (decide (p = q)) as [<-|]; [|exists x; by rewrite lookup_insert_ne].
    exists g'. rewrite lookup_insert_eq. split; [done|]. by simplify_eq.
  - intros q x Hx. apply lookup_insert_Some in Hx as [[<- <-]|[_ Hx]].
    + by eapply logger_wf_ext; [..|exact Hg'].
    + by eapply logger_wf_ext; [..|exact (Hl q x Hx)].
  - destruct Hr as (x & Hx & Hxr). destruct (decide (p = root s)) as [->|].
    + exists g'. rewrite lookup_insert_eq. split; [done|]. congruence.
    + exists x. by rewrite lookup_insert_ne.
  - intros q Hq. apply Hn. rewrite lookup_insert_is_Some in Hq.
    destruct Hq as [[<-|[_ ?]]|?]; [left; rewrite Hp; by eexists|by left|by right].
Qed.

Lemma wf_logger_at s p g : wf s → loggers s !! p = Some g → logger_wf s g.
Proof. intros H. by apply wf_logger. Qed.

Lemma wf_stdout s o : wf s → wf (set_stdout o s).
Proof. intros [Ht Hl Hr Hn]. split; simpl; try done. intros p g Hg. destruct (Hl p g Hg). by split. Qed.
#[export] Hint Resolve wf_stdout wf_logger_at : cpp.

(** A new logger in the table. *)
Definition add_logger (n : list Z) (s : t) : t :=
  mk (appenders s)
    (<[next s := mk_logger n DEBUG [] (Some (LogFormatter.new default_pattern)) (Some (root s))]> (loggers s))
    (<[n := next s]> (m_loggers s)) (root s) (next s + 1) (stdout s).

Lemma wf_fresh_logger s q : wf s → is_Some (loggers s !! q) → next s ≠ q.
Proof. intros [_ _ _ Hn] Hq <-. specialize (Hn _ (or_introl Hq)). lia. Qed.

Lemma wf_add_logger s n : wf s → m_loggers s !! n = None → wf (add_logger n s).
Proof.
  intros Hwf Hn. pose proof (wf_fresh_logger s) as Hne. pose proof Hwf as [Ht Hl Hr Hnx]. split; simpl.
  - intros m p [[<- <-]|[? Hp]]%lookup_insert_Some; [by eexists; rewrite lookup_insert_eq|].
    destruct (Ht m p Hp) as (g & Hg & Hgm). exists g. rewrite lookup_insert_ne; [done|].
    apply Hne; [done|by rewrite Hg].
  - intros p g [[<- <-]|[_ Hg]]%lookup_insert_Some.
    + split; simpl; [done|by intros ? ?%elem_of_nil|by intros r [= ->]].
    + by eapply logger_wf_ext; [..|exact (Hl p g Hg)].
  - destruct Hr as (g & Hg & Hgr). exists g. rewrite lookup_insert_ne; [done|].
    apply Hne; [done|by rewrite Hg].
  - intros p Hp. rewrite lookup_insert_is_Some in Hp.
    destruct Hp as [[<-|[_ Hp]]|Hp]; [lia|specialize (Hnx p (or_introl Hp))|specialize (Hnx p (or_intror Hp))]; lia.
Qed.

(** ** The operations *)
Section operations.

Lemma wp_logger_at s p g (Q : Logger → t → Prop) :
  loggers s !! p = Some g → Q g s → wp (logger_at p) Q s.
Proof. intros Hp HQ. unfold wp, logger_at. unfold_M. by rewrite Hp. Qed.

Lemma wp_appender_at s a x (Q : LogAppender → t → Prop) :
  appenders s !! a = Some x → Q x s → wp (appender_at a) Q s.
Proof. intros Ha HQ. unfold wp, appender_at. unfold_M. by rewrite Ha. Qed.

Lemma wp_put_logger s p g (Q : unit → t → Prop) :
  Q tt (set_loggers (<[p := g]> (loggers s)) s) → wp (put_logger p g) Q s.
Proof. done. Qed.

Lemma getLogger_spec s n : wf s → ∃ p s', getLogger n s = Ok p s' ∧ wf s' ∧
  m_loggers s' !! n = Some p ∧
  (s' = s ∨ (m_loggers s !! n = None ∧ p = next s ∧ s' = add_logger n s)).
Proof.
  intros Hwf. unfold getLogger, Logger_new, logger_at, alloc, put_logger. unfold_M.
  destruct (m_loggers s !! n) as [p|] eqn:Ep; [exists p, s; by auto|].
  simpl. rewrite lookup_insert_eq. simpl. rewrite insert_insert_eq.
  exists (next s), (add_logger n s). split; [done|].
  split; [by apply wf_add_logger|]. split; [apply lookup_insert_eq|auto].
Qed.

Lemma setLevel_spec s p g l : wf s → loggers s !! p = Some g →
  let s' := set_loggers (<[p := mk_logger (m_name g) l (m_appenders g) (lg_formatter g) (m_root g)]>
              (loggers s)) s in
  Logger_setLevel p l s = Ok tt s' ∧ wf s'.
Proof.
  intros Hwf Hp. unfold Logger_setLevel, logger_at, put_logger. unfold_M. rewrite Hp. split; [done|].
  eapply wf_put_logger; [done..|]. destruct (wf_logger s Hwf p g Hp). by split.
Qed.

Lemma set_list_spec s p g l : wf s → loggers s !! p = Some g →
  (∀ a, a ∈ l → ∃ x, appenders s !! a = Some x ∧ is_Some (ap_formatter x)) →
  wf (set_loggers (<[p := set_list l g]> (loggers s)) s).
Proof.
  intros Hwf Hp Hl. eapply wf_put_logger; [done..|]. destruct (wf_logger s Hwf p g Hp). by split.
Qed.

Lemma clear_spec s p g : wf s → loggers s !! p = Some g →
  let s' := set_loggers (<[p := set_list [] g]> (loggers s)) s in
  clearAppenders p s = Ok tt s' ∧ wf s'.
Proof.
  intros Hwf Hp. unfold clearAppenders, logger_at, put_logger. unfold_M. rewrite Hp. split; [done|].
  apply set_list_spec; [done..|]. by intros a ?%elem_of_nil.
Qed.

Lemma erase_first_subset a x l : x ∈ erase_first a l → x ∈ l.
Proof.
  induction l as [|y l IH]; [done|]. simpl. destruct (y =? a); [by right|]. rewrite !elem_of_cons. naive_solver.
Qed.

Lemma del_spec s p g a : wf s → loggers s !! p = Some g →
  let s' := set_loggers (<[p := set_list (erase_first a (m_appenders g)) g]> (loggers s)) s in
  delAppenders p a s = Ok tt s' ∧ wf s'.
Proof.
  intros Hwf Hp. unfold delAppenders, logger_at, put_logger. unfold_M. rewrite Hp. split; [done|].
  apply set_list_spec; [done..|]. intros x Hx%erase_first_subset.
  destruct (wf_logger s Hwf p g Hp) as [_ Ha _]. by apply Ha.
Qed.

(** The appender that is added: without a formatter it takes the logger's. *)
Definition adopted (g : Logger) (x : LogAppender) : LogAppender :=
  match ap_formatter x with Some _ => x | None => with_formatter (lg_formatter g) x end.

Lemma adopted_some g x : is_Some (lg_formatter g) → is_Some (ap_formatter (adopted g x)).
Proof. unfold adopted. by destruct (ap_formatter x) eqn:E; intros; [rewrite E|]. Qed.

Lemma add_spec s p g a x : wf s → loggers s !! p = Some g → appenders s !! a = Some x →
  let s' := mk (<[a := adopted g x]> (appenders s)) (<[p := set_list (m_appenders g ++ [a]) g]> (loggers s))
              (m_loggers s) (root s) (next s) (stdout s) in
  addAppenders p a s = Ok tt s' ∧ wf s'.
Proof.
  intros Hwf Hp Ha s'. pose proof (wf_logger s Hwf p g Hp) as [Hf Hap Hr].
  assert (addAppenders p a s = Ok tt s') as ->.
  { unfold addAppenders, LogAppender_getFormatter, logger_at, appender_at, put_logger, put_appender, s', adopted.
    unfold_M. rewrite Hp, Ha. destruct (ap_formatter x) eqn:E; simpl; unfold_M.
    - rewrite (insert_id (appenders s)) by done. by destruct s.
    - by rewrite Ha. }
  split; [done|].
  assert (wf (set_appenders (<[a := adopted g x]> (appenders s)) s)) as Hwf1.
  { eapply wf_put_appender; [done..|]. intros _. by apply adopted_some. }
  apply (set_list_spec _ p g (m_appenders g ++ [a]) Hwf1); [done|].
  intros b [Hb| ->%list_elem_of_singleton]%elem_of_app; simpl.
  - destruct (decide (a = b)) as [<-|].
    + exists (adopted g x). rewrite lookup_insert_eq. split; [done|]. by apply adopted_some.
    + rewrite lookup_insert_ne by done. by apply Hap.
  - exists (adopted g x). rewrite lookup_insert_eq. split; [done|]. by apply adopted_some.
Qed.

(** *** Changing one appender *)
Lemma change_appender s a x y : wf s → appenders s !! a = Some x → keeps x y →
  put_appender a y s = Ok tt (set_appenders (<[a := y]> (appenders s)) s) ∧
  wf (set_appenders (<[a := y]> (appenders s)) s).
Proof. intros Hwf Ha Hk. split; [done|]. by eapply wf_put_appender. Qed.

(** The logger's formatter goes to the appenders without one of their own. *)
Definition takes (f : LogFormatter) (l : list Z) (s s' : t) : Prop :=
  loggers s' = loggers s ∧ m_loggers s' = m_loggers s ∧ root s' = root s ∧ next s' = next s ∧
  stdout s' = stdout s ∧
  ∀ a, appenders s' !! a =
    (if decide (a ∈ l)
     then (λ x, if m_hasFormatter x then x else with_formatter (Some f) x) <$> appenders s !! a
     else appenders s !! a).

Lemma formatters_spec f l : ∀ s, wf s → (∀ a, a ∈ l → is_Some (appenders s !! a)) →
  wp (forM l (λ i, a ← appender_at i;
        if m_hasFormatter a then mret tt else put_appender i (with_formatter (Some f) a)))
    (λ _ s', wf s' ∧ takes f l s s') s.
Proof.
  induction l as [|a l IH]; intros s Hwf Hl.
  { split; [done|]. split_and!; try done. }
  destruct (Hl a) as [x Hx]; [by left|]. cbn [forM]. apply wp_bind.
  set (y := if m_hasFormatter x then x else with_formatter (Some f) x).
  assert (keeps x y) as Hk by (unfold keeps, y; by destruct (m_hasFormatter x)).
  assert (wp (a0 ← appender_at a; if m_hasFormatter a0 then mret tt else put_appender a (with_formatter (Some f) a0))
    (λ _ s1, s1 = set_appenders (<[a := y]> (appenders s)) s) s) as Hstep.
  { unfold wp, appender_at. unfold_M. rewrite Hx. unfold y. destruct (m_hasFormatter x); [|done].
    unfold_M. rewrite (insert_id (appenders s)) by done. by destruct s. }
  eapply wp_mono; [exact Hstep|]. intros _ s1 ->.
  eapply wp_mono; [apply IH|].
  - by eapply wf_put_appender.
  - intros b Hb. simpl. rewrite lookup_insert_is_Some. destruct (decide (a = b)); [by left|right].
    split; [done|]. apply Hl. by right.
  - intros _ s2 [Hwf2 (H1 & H2 & H3 & H4 & H5 & H6)]. split; [done|].
    split_and!; [done..|]. intros b. rewrite H6. simpl.
    destruct (decide (a = b)) as [<-|Hne].
    + rewrite lookup_insert_eq, Hx. rewrite (decide_True _ _ (list_elem_of_here a l)). simpl.
      fold y. destruct (decide (a ∈ l)); [|done]. unfold y. by destruct (m_hasFormatter x) eqn:E; simpl; rewrite ?E.
    + rewrite lookup_insert_ne by done.
      destruct (decide (b ∈ l)), (decide (b ∈ a :: l)); try done; exfalso; set_solver.
Qed.

Lemma setFormatter_spec s p g f : wf s → loggers s !! p = Some g →
  wp (setFormatter p (Some f)) (λ _ s', wf s' ∧
    takes f (m_appenders g)
      (set_loggers (<[p := mk_logger (m_name g) (lg_level g) (m_appenders g) (Some f) (m_root g)]> (loggers s)) s)
      s') s.
Proof.
  intros Hwf Hp. unfold setFormatter. apply wp_bind, (wp_logger_at s p g _ Hp), wp_bind, wp_put_logger.
  pose proof (wf_logger s Hwf p g Hp) as [Hf Hap Hr].
  apply formatters_spec.
  - eapply wf_put_logger; [done..|]. by split.
  - intros a Ha. destruct (Hap a Ha) as (x & Hx & _). simpl. by rewrite Hx.
Qed.

(** ** Delivering an event *)
Variable strftime : list Z → Z → option (list Z).

(** The text of an event, when every date fits. *)
Definition rendered (f : LogFormatter) (name : list Z) (level : Level) (ev : LogEvent) : option (list Z) :=
  match LogFormatter.format (S := unit) strftime (m_items f) name level ev tt with
  | Ok text _ => Some text
  | _ => None
  end.

Lemma format_item_pure {S} name level ev i (s : S) :
  format_item strftime name level ev i s =
  match format_item (S := unit) strftime name level ev i tt with
  | Ok x _ => Ok x s | Exn e _ => Exn e s | Fault x => Fault x
  end.
Proof. destruct i; try done. simpl. by destruct (strftime _ _). Qed.

Lemma format_pure {S} items name level ev (s : S) :
  LogFormatter.format strftime items name level ev s =
  match LogFormatter.format (S := unit) strftime items name level ev tt with
  | Ok x _ => Ok x s | Exn e _ => Exn e s | Fault x => Fault x
  end.
Proof.
  induction items as [|i l IH]; [done|]. simpl. unfold_M. rewrite format_item_pure.
  destruct (format_item (S := unit) _ _ _ _ _ tt) as [x []|e []|?]; [|done|done]. rewrite IH.
  by destruct (LogFormatter.format (S := unit) _ _ _ _ _ tt) as [y []|e []|?].
Qed.

Lemma format_rendered {S} f name level ev text (s : S) :
  rendered f name level ev = Some text →
  LogFormatter.format strftime (m_items f) name level ev s = Ok text s.
Proof.
  unfold rendered. intros H. rewrite format_pure.
  destruct (LogFormatter.format (S := unit) _ _ _ _ _ tt) as [x []| |]; by simplify_eq.
Qed.

Lemma rendered_total f name level ev :
  (∀ fmt time, is_Some (strftime fmt time)) → is_Some (rendered f name level ev).
Proof.
  intros Hfit. unfold rendered. induction (m_items f) as [|i l IH]; [done|]. simpl. unfold_M.
  assert (∃ x, format_item (S := unit) strftime name level ev i tt = Ok x tt) as [x ->].
  { destruct i; try by eexists. simpl. destruct (Hfit (c_str m_format) (m_time ev)) as [y ->]. by eexists. }
  by destruct (LogFormatter.format (S := unit) _ _ _ _ _ tt) as [y []| |]; [eexists|destruct IH..].
Qed.

Section event.
Context (level : Level) (ev : LogEvent) (name : list Z).

(** What an appender writes of the event, and the appender afterwards. *)
Definition text_of (x : LogAppender) : list Z :=
  if at_least level (ap_level x)
  then match ap_formatter x with Some f => default [] (rendered f name level ev) | None => [] end
  else [].
Definition console (x : LogAppender) : list Z :=
  match m_kind x with StdoutLogAppender => text_of x | _ => [] end.
Definition after (x : LogAppender) : LogAppender :=
  match m_kind x with
  | FileLogAppender _ true =>
      mk_appender (m_kind x) (ap_level x) (m_hasFormatter x) (ap_formatter x) (written x ++ text_of x)
  | _ => x
  end.

(** The state after the event has gone to the appenders [l]. *)
Record delivered (l : list Z) (s s' : t) : Prop := mk_delivered {
  d_loggers : loggers s' = loggers s;
  d_table : m_loggers s' = m_loggers s;
  d_root : root s' = root s;
  d_next : next s' = next s;
  d_stdout : stdout s' = stdout s ++ concat ((λ a, match appenders s !! a with Some x => console x | None => [] end) <$> l);
  d_appenders : ∀ a, appenders s' !! a = if decide (a ∈ l) then after <$> appenders s !! a else appenders s !! a
}.

Lemma appender_log_spec s a x e : wf s → appenders s !! a = Some x →
  loggers s !! m_logger ev = Some e → m_name e = name →
  (at_least level (ap_level x) = true → ∃ f text, ap_formatter x = Some f ∧ rendered f name level ev = Some text) →
  let s' := mk (<[a := after x]> (appenders s)) (loggers s) (m_loggers s) (root s) (next s)
              (stdout s ++ console x) in
  LogAppender_log strftime a level ev s = Ok tt s' ∧ wf s'.
Proof.
  intros Hwf Ha He Hn Hfmt s'.
  assert (wf s') as Hwf'.
  { apply (wf_stdout (set_appenders _ s)). eapply wf_put_appender; [done..|].
    unfold keeps, after. destruct (m_kind x) as [|? []]; done. }
  split; [|done]. unfold LogAppender_log, appender_at, logger_at. unfold_M. rewrite Ha.
  assert (s = mk (<[a := x]> (appenders s)) (loggers s) (m_loggers s) (root s) (next s) (stdout s)) as Hid
    by (rewrite insert_id by done; by destruct s).
  unfold s', after, console, text_of. destruct (at_least level (ap_level x)) eqn:El.
  - destruct (Hfmt eq_refl) as (f & text & Hf & Ht). rewrite Hf, Ht. simpl. rewrite He, Hn.
    rewrite (format_rendered _ _ _ _ _ _ Ht).
    destruct (m_kind x) as [|fn []] eqn:Ek; unfold put_appender, set_stdout; unfold_M;
      rewrite ?app_nil_r; try rewrite insert_id by done; by destruct s.
  - destruct (m_kind x) as [|fn []] eqn:Ek; rewrite !app_nil_r; rewrite insert_id; try done; try by destruct s.
    rewrite Ha. f_equal. destruct x; simpl in *. by subst.
Qed.

Lemma deliver_spec e l : ∀ s, wf s → NoDup l →
  loggers s !! m_logger ev = Some e → m_name e = name →
  (∀ a, a ∈ l → ∃ x, appenders s !! a = Some x ∧
     (at_least level (ap_level x) = true → ∃ f text, ap_formatter x = Some f ∧ rendered f name level ev = Some text)) →
  wp (forM l (λ a, LogAppender_log strftime a level ev)) (λ _ s', wf s' ∧ delivered l s s') s.
Proof.
  induction l as [|a l IH]; intros s Hwf Hnd He Hn Hl.
  { split; [done|]. split; simpl; try done. by rewrite app_nil_r. }
  apply list.NoDup_cons in Hnd as [Hal Hnd].
  destruct (Hl a) as (x & Hx & Hfx); [by left|].
  destruct (appender_log_spec s a x e Hwf Hx He Hn Hfx) as [Hrun Hwf1].
  cbn [forM]. apply wp_bind. unfold wp at 1. rewrite Hrun.
  eapply wp_mono; [apply IH; [done..|]|].
  - intros b Hb. simpl. rewrite lookup_insert_ne by (by intros ->). apply Hl. by right.
  - intros _ s2 [Hwf2 [H1 H2 H3 H4 H5 H6]]. split; [done|]. simpl in *. split; try done.
    + rewrite H5, fmap_cons. simpl. rewrite Hx, <-app_assoc. do 3 f_equal.
      apply list_fmap_ext. intros i b Hb. rewrite lookup_insert_ne; [done|].
      intros ->. by apply list_elem_of_lookup_2 in Hb.
    + intros b. rewrite H6. destruct (decide (a = b)) as [<-|Hne].
      * rewrite decide_False by done. rewrite lookup_insert_eq, decide_True by (by left). by rewrite Hx.
      * rewrite lookup_insert_ne by done.
        destruct (decide (b ∈ l)), (decide (b ∈ a :: l)); try done; exfalso; set_solver.
Qed.
End event.

(** The appenders that an event goes to: those of the logger or, when it has
    none, those of the root logger; each of the two has its own level. *)
Definition accepted (s : t) (level : Level) (p : Z) : option Logger :=
  match loggers s !! p with
  | Some g => if at_least level (lg_level g) then Some g else None
  | None => None
  end.
Definition route (s : t) (level : Level) (p : Z) : list Z :=
  match accepted s level p with
  | Some g =>
      match m_appenders g, m_root g with
      | [], Some r => match accepted s level r with Some gr => m_appenders gr | None => [] end
      | l, _ => l
      end
  | None => []
  end.

Lemma log_route s p g level ev : wf s → loggers s !! p = Some g →
  log strftime 2 p level ev s = forM (route s level p) (λ a, LogAppender_log strftime a level ev) s.
Proof.
  intros Hwf Hp. unfold route, accepted. cbn [log]. unfold logger_at. unfold_M. rewrite Hp.
  destruct (at_least level (lg_level g)); [|done].
  destruct (m_appenders g) as [|a l]; [|done]. destruct (m_root g) as [r|] eqn:Er; [|done].
  destruct (wf_logger s Hwf p g Hp) as [_ _ Hr]. rewrite (Hr r Er).
  destruct (wf_root s Hwf) as (gr & Hgr & Hrr). unfold logger_at. unfold_M. rewrite Hgr.
  destruct (at_least level (lg_level gr)); [|done]. rewrite Hrr. by destruct (m_appenders gr).
Qed.

Lemma route_there s p level a : wf s → a ∈ route s level p →
  ∃ x, appenders s !! a = Some x ∧ is_Some (ap_formatter x).
Proof.
  intros Hwf. unfold route, accepted. destruct (loggers s !! p) as [g|] eqn:Hp; [|by intros ?%elem_of_nil].
  destruct (at_least level (lg_level g)); [|by intros ?%elem_of_nil].
  destruct (m_appenders g) as [|b l] eqn:El.
  - destruct (m_root g) as [r|]; [|by intros ?%elem_of_nil].
    destruct (loggers s !! r) as [gr|] eqn:Hr; [|by intros ?%elem_of_nil].
    destruct (at_least level (lg_level gr)); [|by intros ?%elem_of_nil].
    by apply (wf_logger s Hwf r gr Hr).
  - rewrite <-El. by apply (wf_logger s Hwf p g Hp).
Qed.


(** The same without the order of the list, for a list with repetitions. *)
Lemma log_all_wf level ev e l : ∀ s, wf s → (∀ fmt time, is_Some (strftime fmt time)) →
  loggers s !! m_logger ev = Some e →
  (∀ a, a ∈ l → ∃ x, appenders s !! a = Some x ∧ is_Some (ap_formatter x)) →
  wp (forM l (λ a, LogAppender_log strftime a level ev)) (λ _ s', wf s') s.
Proof.
  induction l as [|a l IH]; intros s Hwf Hfit He Hl; [done|].
  destruct (Hl a) as (x & Hx & [f Hf]); [by left|].
  destruct (appender_log_spec level ev (m_name e) s a x e Hwf Hx He eq_refl) as [Hrun Hwf1].
  { intros _. destruct (rendered_total f (m_name e) level ev Hfit) as [text Ht]. by exists f, text. }
  cbn [forM]. apply wp_bind. unfold wp at 1. rewrite Hrun. apply IH; [done..|].
  intros b Hb. simpl. destruct (decide (a = b)) as [<-|].
  - rewrite lookup_insert_eq. eexists. split; [done|]. unfold after.
    destruct (m_kind x) as [|? []]; simpl; by rewrite Hf.
  - rewrite lookup_insert_ne by done. apply Hl. by right.
Qed.

(** ** Everything that is done to loggers *)
Variable open : list Z → bool.

Inductive op :=
| GetLogger (name : list Z) | AddAppender (p a : Z) | DelAppender (p a : Z) | Clear (p : Z)
| SetLevel (p : Z) (l : Level) | SetFormatter (p : Z) (f : LogFormatter)
| SetPattern (p : Z) (pattern : list Z) | NewStdout | NewFile (name : list Z) | Reopen (a : Z)
| AppenderLevel (a : Z) (l : Level) | AppenderFormatter (a : Z) (f : LogFormatter)
| Event (p : Z) (l : Level) (ev : LogEvent).

Definition run (o : op) : M t unit :=
  match o with
  | GetLogger name => _ ← getLogger name; mret tt
  | AddAppender p a => addAppenders p a
  | DelAppender p a => delAppenders p a
  | Clear p => clearAppenders p
  | SetLevel p l => Logger_setLevel p l
  | SetFormatter p f => setFormatter p (Some f)
  | SetPattern p pattern => setFormatter_pattern p pattern
  | NewStdout => _ ← StdoutLogAppender_new; mret tt
  | NewFile name => _ ← FileLogAppender_new open name; mret tt
  | Reopen a => _ ← FileLogAppender_reopen open a; mret tt
  | AppenderLevel a l => LogAppender_setLevel a l
  | AppenderFormatter a f => LogAppender_setFormatter a (Some f)
  | Event p l ev => log strftime 2 p l ev
  end.

(** The objects of an operation exist. *)
Definition exist (o : op) (s : t) : Prop :=
  match o with
  | AddAppender p a => is_Some (loggers s !! p) ∧ is_Some (appenders s !! a)
  | DelAppender p _ | Clear p | SetLevel p _ | SetFormatter p _ | SetPattern p _ => is_Some (loggers s !! p)
  | Reopen a | AppenderLevel a _ | AppenderFormatter a _ => is_Some (appenders s !! a)
  | Event p _ ev => is_Some (loggers s !! p) ∧ is_Some (loggers s !! m_logger ev)
  | GetLogger _ | NewStdout | NewFile _ => True
  end.

Lemma run_put_appender s a x y : wf s → appenders s !! a = Some x → keeps x y →
  wp (put_appender a y) (λ _ s', wf s') s.
Proof. intros Hwf Ha Hk. by eapply wf_put_appender. Qed.

Lemma run_wf o s : wf s → (∀ fmt time, is_Some (strftime fmt time)) → exist o s →
  wp (run o) (λ _ s', wf s') s.
Proof.
  intros Hwf Hfit He. destruct o; cbn [exist run] in *.
  - destruct (getLogger_spec s name Hwf) as (p & s' & Hr & Hwf' & _).
    unfold wp. unfold_M. by rewrite Hr.
  - destruct He as [[g Hg] [x Hx]]. apply wp_ok. destruct (add_spec s p g a x Hwf Hg Hx) as [-> ?]. eauto.
  - destruct He as [g Hg]. apply wp_ok. destruct (del_spec s p g a Hwf Hg) as [-> ?]. eauto.
  - destruct He as [g Hg]. apply wp_ok. destruct (clear_spec s p g Hwf Hg) as [-> ?]. eauto.
  - destruct He as [g Hg]. apply wp_ok. destruct (setLevel_spec s p g l Hwf Hg) as [-> ?]. eauto.
  - destruct He as [g Hg]. eapply wp_mono; [by apply (setFormatter_spec s p g f)|]. naive_solver.
  - destruct He as [g Hg]. unfold setFormatter_pattern. destruct (m_error _); [done|].
    eapply wp_mono; [by apply (setFormatter_spec s p g)|]. naive_solver.
  - exact (wf_new_appender s _ Hwf).
  - exact (wf_new_appender s _ Hwf).
  - destruct He as [x Hx]. apply wp_bind. unfold FileLogAppender_reopen.
    apply wp_bind, (wp_appender_at s a x _ Hx). destruct (m_kind x) as [|name []]; [done..|].
    apply wp_bind. eapply wp_mono; [eapply run_put_appender; [done..|by intros ?]|done].
  - destruct He as [x Hx]. unfold LogAppender_setLevel.
    apply wp_bind, (wp_appender_at s a x _ Hx). eapply run_put_appender; [done..|by intros ?].
  - destruct He as [x Hx]. unfold LogAppender_setFormatter.
    apply wp_bind, (wp_appender_at s a x _ Hx). eapply run_put_appender; [done..|by intros ?].
  - destruct He as [[g Hg] [e He]]. unfold wp. rewrite (log_route s p g l ev Hwf Hg).
    apply (log_all_wf l ev e); [done..|]. intros a. by apply route_there.
Qed.

(** The manager at the start, and what can come of it. *)
Definition nothing : t := mk ∅ ∅ ∅ 0 0 [].
Definition op_step (s s' : t) : Prop := ∃ o, exist o s ∧ run o s = Ok tt s'.

Lemma start_wf : wp LoggerManager_new (λ _ s, wf s) nothing.
Proof.
  unfold wp, LoggerManager_new. simpl. split; simpl.
  - intros n p [[<- <-]|[_ Hp]]%lookup_insert_Some; [|by rewrite lookup_empty in Hp].
    eexists. by rewrite lookup_insert_eq.
  - intros p g. rewrite insert_insert_eq. intros [[<- <-]|[_ Hg]]%lookup_insert_Some;
      [|by rewrite lookup_empty in Hg].
    split; simpl; [done| |done]. intros a ->%list_elem_of_singleton. eexists. split; [apply lookup_insert_eq|done].
  - eexists. by rewrite lookup_insert_eq.
  - intros p. rewrite !lookup_insert_is_Some, !lookup_empty.
    intros [[<-|[_ [<-|[_ []%is_Some_None]]]]|[<-|[_ [<-|[_ []%is_Some_None]]]]]; lia.
Qed.

End operations.

(** ** Examples *)
Definition no_dates (fmt : list Z) (time : Z) : option (list Z) := Some [].
Definition start : t := match LoggerManager_new nothing with Ok _ s => s | _ => nothing end.
Definition with_system : t := match getLogger (str "system") start with Ok _ s => s | _ => nothing end.
Definition example_event : LogEvent :=
  mk_event (str "socket.cc") 12 0 7 0 0 (str "closed") (str "main") 2 INFO.

Lemma with_system_wf : wf with_system.
Proof.
  pose proof start_wf as Hs. unfold wp in Hs. unfold with_system, start.
  destruct (LoggerManager_new nothing) as [[] s| |]; [|done..].
  destruct (getLogger_spec s (str "system") Hs) as (p & s' & -> & Hwf & _). done.
Qed.


End LogProps.
