(* ===== verification/LogConfig.v ===== *)
(** Configuring the loggers: the end of [log.cc].

    The definitions of loggers, their conversion from and to YAML, and the
    listener that applies a changed set of definitions to the loggers. A set is
    the list of its elements in the order of their names. *)
From stdpp Require Import base list gmap numbers option strings.
From Stdlib Require Import ZArith Lia.
From S2P Require Import Prelude CString LogFormatter Yaml Config Log.

Module LogConfig.
Import LogLevel.
Local Open Scope Z_scope.

Record LogAppenderDefine := mk_appender {
  type : Z;
  ap_level : Level;
  ap_formatter : list Z;
  file : list Z
}.

Record LogDefine := mk {
  name : list Z;
  level : Level;
  formatter : list Z;
  appenders : list LogAppenderDefine
}.

#[export] Instance LogAppenderDefine_eq_dec : EqDecision LogAppenderDefine.
Proof. solve_decision. Defined.
#[export] Instance LogDefine_eq_dec : EqDecision LogDefine.
Proof. solve_decision. Defined.

(** [operator==] and [operator<] *)
Definition eqb (a b : LogDefine) : bool := bool_decide (a = b).
Definition less (a b : LogDefine) : bool := is_lt (compare_bytes (name a) (name b)).

Section casts.
Context {Y : Yaml} {S : Type}.

(** The text of a field, or empty when it is missing. *)
Definition string_field (n : Node) (key : list Z) : M S (list Z) :=
  v ← field n key;
  match v with Some x => to_string (Some x) | None => mret [] end.

(** One appender of the list; [None] is one that is left out. *)
Definition appender_from (a : option Node) : M S (option LogAppenderDefine) :=
  match a with
  | None => mret None
  | Some a =>
      ty ← field a (str "type");
      match ty with
      | None => mret None
      | Some ty =>
          ty ← to_string (Some ty);
          if bool_decide (ty = str "FileLogAppender") then
            f ← field a (str "file");
            match f with
            | None => mret None
            | Some f =>
                f ← to_string (Some f);
                fmt ← string_field a (str "formatter");
                mret (Some (mk_appender 1 UNKNOWN fmt f))
            end
          else if bool_decide (ty = str "StdoutLogAppender") then
            fmt ← string_field a (str "formatter");
            mret (Some (mk_appender 2 UNKNOWN fmt []))
          else mret None
      end
  end.

Fixpoint appenders_from (k j : nat) (n : Node) : M S (list LogAppenderDefine) :=
  match k with
  | O => mret []
  | Datatypes.S k' =>
      a ← elem n j;
      d ← appender_from a;
      l ← appenders_from k' (Datatypes.S j) n;
      mret (match d with Some d => d :: l | None => l end)
  end.

(** LexicalCast<std::string, LogDefine> *)
Definition from_string (v : list Z) : M S LogDefine :=
  n ← load v;
  nm ← field n (str "name");
  match nm with
  | None => throw logic_error
  | Some nm =>
      nm ← to_string (Some nm);
      lv ← string_field n (str "level");
      fmt ← string_field n (str "formatter");
      l ← field n (str "appenders");
      l ← (match l with Some l => appenders_from (size l) 0 l | None => mret [] end);
      mret (mk nm (FromString lv) fmt l)
  end.

Definition set_level (l : Level) (n : option Node) : M S (option Node) :=
  match l with UNKNOWN => mret n | _ => set_field (str "level") (Scalar (ToString l)) n end.
Definition set_nonempty (key v : list Z) (n : option Node) : M S (option Node) :=
  match v with [] => mret n | _ => set_field key (Scalar v) n end.

Definition appender_node (a : LogAppenderDefine) : M S (option Node) :=
  n ← (if type a =? 1 then
         n ← set_field (str "type") (Scalar (str "FileLogAppender")) None;
         set_field (str "file") (Scalar (file a)) n
       else if type a =? 2 then set_field (str "type") (Scalar (str "StdoutLogAppender")) None
       else mret None);
  n ← set_level (ap_level a) n;
  set_nonempty (str "formatter") (ap_formatter a) n.

Fixpoint appender_nodes (l : list LogAppenderDefine) (n : option Node) : M S (option Node) :=
  match l with
  | [] => mret n
  | a :: l' =>
      x ← appender_node a;
      n ← push_back (default Null x) n;
      appender_nodes l' n
  end.

(** LexicalCast<LogDefine, std::string> *)
Definition to_string (v : LogDefine) : M S (list Z) :=
  n ← set_field (str "name") (Scalar (name v)) None;
  n ← set_level (level v) n;
  n ← set_nonempty (str "formatter") (formatter v) n;
  l ← appender_nodes (appenders v) None;
  n ← (match l with Some x => set_field (str "appenders") x n | None => mret n end);
  mret (emit n).
End casts.

(** *** The listener *)
Definition find (i : LogDefine) (l : list LogDefine) : option LogDefine :=
  List.find (λ d, negb (less d i) && negb (less i d)) l.

Section listener.
Variable strftime : list Z → Z → option (list Z).
Variable open : list Z → bool.

Definition make_appender (a : LogAppenderDefine) : M Log.t Z :=
  p ← (if type a =? 1 then Log.FileLogAppender_new open (file a)
       else if type a =? 2 then Log.StdoutLogAppender_new
       else faultM NullDeref);
  _ ← Log.LogAppender_setLevel p (ap_level a);
  _ ← (match ap_formatter a with
       | [] => mret tt
       | f =>
           let fmt := LogFormatter.new f in
           if LogFormatter.m_error fmt then mret tt else Log.LogAppender_setFormatter p (Some fmt)
       end);
  mret p.

(** A definition that is new or differs. *)
Definition apply_define (i : LogDefine) : M Log.t unit :=
  logger ← Log.getLogger (name i);
  _ ← Log.Logger_setLevel logger (level i);
  _ ← (match formatter i with [] => mret tt | f => Log.setFormatter_pattern logger f end);
  _ ← Log.clearAppenders logger;
  forM (appenders i) (λ a, ap ← make_appender a; Log.addAppenders logger ap).

Definition update (old_val : list LogDefine) (i : LogDefine) : M Log.t unit :=
  match find i old_val with
  | None => apply_define i
  | Some d => if eqb i d then mret tt else apply_define i
  end.

Definition remove (new_val : list LogDefine) (i : LogDefine) : M Log.t unit :=
  match find i new_val with
  | None =>
      logger ← Log.getLogger (name i);
      _ ← Log.Logger_setLevel logger UNKNOWN;
      Log.clearAppenders logger
  | Some _ => mret tt
  end.

(** The listener behind its message. *)
Definition reconfigure (old_val new_val : list LogDefine) : M Log.t unit :=
  _ ← forM new_val (update old_val);
  forM old_val (remove new_val).

Definition on_logger_conf_changed (event : LogFormatter.LogEvent) (old_val new_val : list LogDefine)
    : M Log.t unit :=
  r ← gets Log.root;
  _ ← Log.LOG_LEVEL strftime r INFO event;
  reconfigure old_val new_val.
End listener.
End LogConfig.
