(* ===== verification/LogConfigProps.v ===== *)
(** Definitions of loggers: their way through YAML, and what the listener makes
    of them. *)
From stdpp Require Import base list gmap numbers option strings.
From Stdlib Require Import ZArith Lia.
From S2P Require Import Prelude CString LogFormatter Yaml YamlModel Config ConfigProps Log LogProps LogConfig.

Module DefineProps.
Import LogLevel LogConfig CastProps.

(** What is read back of an appender: never a level, and a file only with the
    type that has one. *)
Definition forget_appender (a : LogAppenderDefine) : LogAppenderDefine :=
  mk_appender (type a) UNKNOWN (ap_formatter a) (if (type a =? 1)%Z then file a else []).
Definition forget (d : LogDefine) : LogDefine :=
  mk (name d) (level d) (formatter d) (forget_appender <$> appenders d).

Section yaml.
Context `{YamlLaws} {S : Type}.
(** Words of letters can be written. *)
Hypothesis words_printable : ∀ w, w ≠ [] → Forall (λ c, LogFormatter.isalpha c = true) w → printable w.

Definition appender_ok (a : LogAppenderDefine) : Prop :=
  (type a = 1 ∨ type a = 2)%Z ∧ printable (file a) ∧ printable (ap_formatter a).
Definition define_ok (d : LogDefine) : Prop :=
  printable (name d) ∧ printable (formatter d) ∧ Forall appender_ok (appenders d).

Definition level_field (l : Level) : list (Node * Node) :=
  match l with UNKNOWN => [] | _ => [(Scalar (str "level"), Scalar (ToString l))] end.
Definition text_field (key v : list Z) : list (Node * Node) :=
  match v with [] => [] | _ => [(Scalar key, Scalar v)] end.

Definition appender_fields (a : LogAppenderDefine) : list (Node * Node) :=
  (if (type a =? 1)%Z
   then [(Scalar (str "type"), Scalar (str "FileLogAppender")); (Scalar (str "file"), Scalar (file a))]
   else [(Scalar (str "type"), Scalar (str "StdoutLogAppender"))])
  ++ level_field (ap_level a) ++ text_field (str "formatter") (ap_formatter a).

Definition define_fields (d : LogDefine) : list (Node * Node) :=
  [(Scalar (str "name"), Scalar (name d))] ++ level_field (level d)
  ++ text_field (str "formatter") (formatter d)
  ++ match appenders d with
     | [] => []
     | l => [(Scalar (str "appenders"), Sequence ((λ a, Map (appender_fields a)) <$> l))]
     end.

(** Writing the fields of a node one after the other. *)
Ltac write_fields :=
  cbn [type ap_level ap_formatter file Z.eqb Pos.eqb set_level set_nonempty]; unfold_M;
  repeat (rewrite ?set_field_new, ?set_field_map; cbn [set_level set_nonempty]; unfold_M).

Lemma appender_node_spec a (s : S) :
  appender_ok a → appender_node a s = Ok (Some (Map (appender_fields a))) s.
Proof.
  intros [Ht _]. destruct a as [ty lv fmt fl]. simpl in Ht. unfold appender_node.
  destruct Ht as [-> | ->], lv, fmt; write_fields; reflexivity.
Qed.

Lemma appender_nodes_spec l (s : S) : Forall appender_ok l →
  (∀ pre, appender_nodes l (Some (Sequence pre)) s =
     Ok (Some (Sequence (pre ++ ((λ a, Map (appender_fields a)) <$> l)))) s) ∧
  appender_nodes l None s =
    Ok (match l with [] => None | _ => Some (Sequence ((λ a, Map (appender_fields a)) <$> l)) end) s.
Proof.
  induction 1 as [|a l Ha _ [IH _]]; [split; [|done]; intros pre; by rewrite app_nil_r|].
  split; [intros pre|]; cbn [appender_nodes]; unfold_M; rewrite (appender_node_spec a s Ha);
    cbn [default]; unfold_M; rewrite ?push_back_new, ?push_back_sequence, IH;
    [by rewrite <-app_assoc|done].
Qed.

Lemma to_string_spec d (s : S) :
  define_ok d → to_string d s = Ok (emit (Some (Map (define_fields d)))) s.
Proof.
  intros (_ & _ & Hl). destruct d as [nm lv fmt l]. simpl in Hl.
  unfold to_string. cbn [name level formatter appenders]. unfold_M.
  destruct (appender_nodes_spec l s Hl) as [_ Hnodes].
  destruct lv, fmt; write_fields; rewrite Hnodes; destruct l; write_fields; reflexivity.
Qed.

(** *** Reading *)
Lemma field_hit k x l (s : S) : field (Map ((Scalar k, x) :: l)) k s = Ok (Some x) s.
Proof. rewrite field_map. simpl. unfold is_key at 1. simpl. by rewrite bool_decide_true. Qed.

Lemma field_miss k k' x l (s : S) : k' ≠ k → field (Map ((Scalar k', x) :: l)) k s = field (Map l) k s.
Proof. intros Hk. rewrite !field_map. simpl. unfold is_key at 1. simpl. by rewrite bool_decide_false. Qed.

Lemma field_none k (s : S) : field (Map []) k s = Ok None s.
Proof. by rewrite field_map. Qed.

(** Reading the fields of a written node one after the other. *)
Ltac read_fields :=
  repeat first
    [ rewrite field_hit | rewrite field_none | rewrite to_string_scalar
    | rewrite field_miss by (vm_compute; discriminate)
    | rewrite bool_decide_true by done
    | rewrite bool_decide_false by (vm_compute; discriminate)
    | progress cbn [app Z.eqb Pos.eqb] ].

Lemma appender_from_spec a (s : S) : appender_ok a →
  appender_from (Some (Map (appender_fields a))) s = Ok (Some (forget_appender a)) s.
Proof.
  intros [Ht _]. destruct a as [ty lv fmt fl]. simpl in Ht. unfold appender_from, string_field.
  destruct Ht as [-> | ->], lv, fmt; unfold appender_fields, level_field, text_field;
    cbn [type ap_level ap_formatter file]; unfold_M; read_fields; reflexivity.
Qed.

Lemma appenders_from_spec l (s : S) : Forall appender_ok l → ∀ pre,
  appenders_from (length l) (length pre)
    (Sequence (pre ++ ((λ a, Map (appender_fields a)) <$> l))) s =
  Ok (forget_appender <$> l) s.
Proof.
  induction 1 as [|a l Ha _ IH]; intros pre; [done|]. cbn [appenders_from length]. unfold_M.
  rewrite fmap_cons, elem_middle. rewrite (appender_from_spec a s Ha).
  specialize (IH (pre ++ [Map (appender_fields a)])).
  rewrite <-app_assoc, length_app, Nat.add_1_r in IH. simpl in IH |- *. by rewrite IH.
Qed.

Lemma from_to_level l : FromString (ToString l) = l.
Proof. by destruct l. Qed.

Lemma from_string_spec d t (s : S) :
  define_ok d → Load t = Some (Map (define_fields d)) → from_string t s = Ok (forget d) s.
Proof.
  intros (_ & _ & Hl) Ht. destruct d as [nm lv fmt l]. cbn [appenders] in Hl.
  unfold from_string, load, string_field. rewrite Ht. unfold_M.
  unfold define_fields, level_field, text_field. cbn [name level formatter appenders].
  pose proof (appenders_from_spec l s Hl []) as Hread. cbn [app length] in Hread.
  destruct lv, fmt, l as [|a l]; read_fields;
    rewrite ?size_sequence, ?length_fmap, ?Hread; unfold forget; cbn [name level formatter appenders];
    rewrite ?from_to_level; reflexivity.
Qed.

(** *** The written node is printable *)
Ltac word := apply words_printable; [discriminate|repeat constructor].

Lemma level_field_ok l : Forall (λ e, key_ok e.1 ∧ node_ok e.2) (level_field l).
Proof. destruct l; repeat constructor; simpl; word. Qed.

Lemma text_field_ok key v :
  printable key → printable v → Forall (λ e, key_ok e.1 ∧ node_ok e.2) (text_field key v).
Proof. intros. destruct v; by repeat constructor. Qed.

Lemma appender_fields_ok a : appender_ok a → node_ok (Map (appender_fields a)).
Proof.
  intros (_ & Hf & Hfmt). apply node_ok_map. unfold appender_fields.
  rewrite !Forall_app. split_and!; [|apply level_field_ok|apply text_field_ok; [word|done]].
  destruct (_ =? _)%Z; repeat constructor; simpl; first [done | word].
Qed.

Lemma define_fields_ok d : define_ok d → node_ok (Map (define_fields d)).
Proof.
  intros (Hn & Hf & Hl). apply node_ok_map. unfold define_fields.
  rewrite !Forall_app. split_and!; [|apply level_field_ok|apply text_field_ok; [word|done]|].
  - repeat constructor; [simpl; word|done].
  - destruct (appenders d) eqn:E; [done|]. rewrite <-E in *. repeat constructor; [simpl; word|].
    apply node_ok_seq, Forall_fmap. eapply Forall_impl; [exact Hl|]. apply appender_fields_ok.
Qed.

Lemma forget_same d :
  Forall appender_ok (appenders d) →
  forget d = d ↔ Forall (λ a, ap_level a = UNKNOWN ∧ (type a = 2%Z → file a = [])) (appenders d).
Proof.
  destruct d as [nm lv fmt l]. unfold forget. cbn [name level formatter appenders]. intros Hl.
  assert (∀ l', mk nm lv fmt l' = mk nm lv fmt l ↔ l' = l) as -> by (intros; split; [by intros [=]|by intros ->]).
  induction Hl as [|[ty al af fl] l [Ht _] _ IH]; [by split|].
  rewrite list.Forall_cons, <-IH, fmap_cons. unfold forget_appender at 1. simpl in Ht |- *. split.
  - intros [= <- Hf Hl]. split; [|done]. split; [done|]. intros ->. done.
  - intros [[-> Hf] ->]. f_equal. destruct Ht as [-> | ->]; [done|]. simpl. by rewrite Hf.
Qed.

(** The YAML text of a logger's definition is read back as the definition
    except for the levels of its appenders, which come back unknown whatever
    they were, and files of appenders that write to the console: so a
    definition round trips exactly when no appender has a level of its own. *)
Theorem define_round_trip (d : LogDefine) (s : S) :
  define_ok d →
  ∃ t, to_string d s = Ok t s ∧ from_string t s = Ok (forget d) s ∧
       (forget d = d ↔ Forall (λ a, ap_level a = UNKNOWN ∧ (type a = 2%Z → file a = [])) (appenders d)).
Proof.
  intros Hd. exists (emit (Some (Map (define_fields d)))).
  split; [by apply to_string_spec|]. split; [by apply from_string_spec, load_emit, define_fields_ok|].
  apply forget_same. by destruct Hd as (_ & _ & Hl).
Qed.

(** The variable "logs": sets of definitions without levels of appenders. *)
Lemma logs_round_trip :
  RoundTrips
    (λ l, Forall (λ d, define_ok d ∧ forget d = d) l ∧ increasing less l)
    (LexicalCast.set_from (S := S) from_string less) (LexicalCast.set_to to_string less).
Proof.
  assert (RoundTrips (S := S) (λ d, define_ok d ∧ forget d = d) from_string to_string) as Hd.
  { intros d [Hd Hf]. exists (emit (Some (Map (define_fields d)))), (Map (define_fields d)).
    pose proof (define_fields_ok d Hd) as Hok.
    split; [by apply load_emit|]. split; [done|]. intros s.
    rewrite (from_string_spec d) by (try apply load_emit; done).
    split_and!; [by apply to_string_spec|by rewrite Hf..]. }
  intros l Hl. exact (sequence_round_trips (LexicalCast.ordered_set less) _ from_string
    to_string (increasing less) l Hl).
Qed.
End yaml.

Import YamlModel.
Definition example_define : LogDefine :=
  mk (str "system") INFO (str "%m%n")
    [mk_appender 1 ERROR [] (str "log.txt"); mk_appender 2 UNKNOWN (str "%p") []].

Lemma define_round_trip_witness :
  ∃ t, to_string example_define tt = Ok t tt ∧ from_string t tt = Ok (forget example_define) tt ∧
       forget example_define ≠ example_define.
Proof.
  destruct (define_round_trip (λ w _ _, I) example_define tt) as (t & Hto & Hfrom & _).
  - split; [exact I|split; [exact I|]].
    constructor; [split; [by left|done]|]. constructor; [split; [by right|done]|constructor].
  - exists t. done.
Defined.
End DefineProps.

Module ListenerProps.
Import LogLevel LogConfig LogProps.
Local Open Scope Z_scope.

Section listener.
Variable open : list Z → bool.

(** ** One definition *)

(** The appender that a definition describes, before a logger adopts it. *)
Definition valid_pattern (f : list Z) : option LogFormatter.LogFormatter :=
  match f with
  | [] => None
  | _ => let F := LogFormatter.new f in if LogFormatter.m_error F then None else Some F
  end.
Definition made (a : LogAppenderDefine) : Log.LogAppender :=
  Log.mk_appender
    (if type a =? 1 then Log.FileLogAppender (file a) (open (file a)) else Log.StdoutLogAppender)
    (ap_level a) (match valid_pattern (ap_formatter a) with Some _ => true | None => false end)
    (valid_pattern (ap_formatter a)) [].

Definition types_ok (d : LogDefine) : Prop := Forall (λ a, type a = 1 ∨ type a = 2) (appenders d).

Definition with_appender (x : Log.LogAppender) (s : Log.t) : Log.t :=
  Log.mk (<[Log.next s := x]> (Log.appenders s)) (Log.loggers s) (Log.m_loggers s) (Log.root s)
    (Log.next s + 1) (Log.stdout s).

Lemma make_appender_spec a s : type a = 1 ∨ type a = 2 →
  make_appender open a s = Ok (Log.next s) (with_appender (made a) s).
Proof.
  intros Ht. destruct a as [ty lv fmt fl]. cbn [type] in Ht.
  unfold make_appender, made, valid_pattern, with_appender.
  destruct Ht as [-> | ->]; cbn [type ap_level ap_formatter file Z.eqb Pos.eqb];
    unfold Log.FileLogAppender_new, Log.StdoutLogAppender_new, Log.LogAppender_setLevel,
      Log.LogAppender_setFormatter, Log.appender_at, Log.put_appender, Log.alloc; unfold_M;
    cbn [Log.appenders Log.set_appenders]; rewrite lookup_insert_eq;
    (destruct fmt as [|c fmt]; [|destruct (LogFormatter.m_error (LogFormatter.new (c :: fmt)))]);
    cbn -[LogFormatter.new]; unfold_M; rewrite ?lookup_insert_eq; cbn -[LogFormatter.new];
    rewrite ?insert_insert_eq; reflexivity.
Qed.

(** The loop over the appenders of a definition. *)
Record added (p : Z) (g : Log.Logger) (l : list LogAppenderDefine) (qs : list Z) (s s' : Log.t) : Prop := mk_added {
  ad_wf : wf s';
  ad_loggers : Log.loggers s' = <[p := Log.set_list (Log.m_appenders g ++ qs) g]> (Log.loggers s);
  ad_made : Forall2 (λ a q, Log.next s ≤ q ∧ Log.appenders s' !! q = Some (adopted g (made a))) l qs;
  ad_old : ∀ b, b < Log.next s → Log.appenders s' !! b = Log.appenders s !! b;
  ad_table : Log.m_loggers s' = Log.m_loggers s;
  ad_root : Log.root s' = Log.root s;
  ad_next : Log.next s ≤ Log.next s';
  ad_stdout : Log.stdout s' = Log.stdout s
}.

Lemma add_all_spec p l : ∀ s g, wf s → Log.loggers s !! p = Some g →
  Forall (λ a, type a = 1 ∨ type a = 2) l →
  wp (forM l (λ a, ap ← make_appender open a; Log.addAppenders p ap))
    (λ _ s', ∃ qs, added p g l qs s s') s.
Proof.
  induction l as [|a l IH]; intros s g Hwf Hp Hl.
  { exists []. split; try done; try lia. rewrite app_nil_r, insert_id; [done|]. by destruct g. }
  apply list.Forall_cons in Hl as [Ha Hl]. cbn [forM]. apply wp_bind. unfold wp at 1. unfold_M.
  rewrite make_appender_spec by done.
  set (s1 := with_appender (made a) s).
  assert (wf s1) as Hwf1 by exact (wf_new_appender s _ Hwf).
  destruct (add_spec s1 p g (Log.next s) (made a) Hwf1 Hp) as [Hadd Hwf2]; [apply lookup_insert_eq|].
  rewrite Hadd. set (s2 := Log.mk _ _ _ _ _ _) in *.
  set (g2 := Log.set_list (Log.m_appenders g ++ [Log.next s]) g).
  assert (Log.loggers s2 !! p = Some g2) as Hp2 by apply lookup_insert_eq.
  eapply wp_mono; [by apply (IH s2 g2)|].
  intros _ s' [qs [H1 H2 H3 H4 H5 H6 H7 H8]]. exists (Log.next s :: qs).
  assert (Log.next s2 = Log.next s + 1) as Hn by done. split; try done; try lia.
  - rewrite H2. unfold s2, s1, g2. simpl. rewrite insert_insert_eq. by rewrite <-app_assoc.
  - constructor.
    + split; [lia|]. rewrite H4 by lia. apply lookup_insert_eq.
    + eapply Forall2_impl; [exact H3|]. intros x q [Hq Hx]. split; [lia|done].
  - intros b Hb. rewrite H4 by lia. unfold s2, s1, with_appender. simpl.
    rewrite !lookup_insert_ne by lia. done.
Qed.

(** A logger as its definition says: the level; the formatter, when the
    definition has a valid one; and one appender for each of the definition,
    none of them older than [N], with their types, levels and formatters, where
    an appender without a valid one has the logger's. *)
Definition configured (N : Z) (s : Log.t) (d : LogDefine) : Prop := ∃ p g,
  Log.m_loggers s !! name d = Some p ∧ Log.loggers s !! p = Some g ∧
  Log.lg_level g = level d ∧
  (∀ f, valid_pattern (formatter d) = Some f → Log.lg_formatter g = Some f) ∧
  Forall2 (λ a q, N ≤ q ∧ Log.appenders s !! q = Some (adopted g (made a))) (appenders d)
    (Log.m_appenders g).

(** What else has changed when the logger [p] called [n] has been set. *)
Record only (n : list Z) (p : Z) (old : list Z) (s s' : Log.t) : Prop := mk_only {
  on_wf : wf s';
  on_table : Log.m_loggers s' !! n = Some p;
  on_tables : ∀ m, m ≠ n → Log.m_loggers s' !! m = Log.m_loggers s !! m;
  on_loggers : ∀ q, q ≠ p → Log.loggers s' !! q = Log.loggers s !! q;
  on_appenders : ∀ a, a < Log.next s → a ∉ old → Log.appenders s' !! a = Log.appenders s !! a;
  on_root : Log.root s' = Log.root s;
  on_next : Log.next s ≤ Log.next s';
  on_stdout : Log.stdout s' = Log.stdout s
}.

(** The appenders that a name's logger has, none if there is no such logger. *)
Definition appenders_of (s : Log.t) (n : list Z) : list Z :=
  match Log.m_loggers s !! n with
  | Some p => match Log.loggers s !! p with Some g => Log.m_appenders g | None => [] end
  | None => []
  end.

(** The logger of a name, made if need be. *)
Lemma get_spec n s : wf s → wp (Log.getLogger n) (λ p s1, ∃ g,
  only n p [] s s1 ∧ Log.loggers s1 !! p = Some g ∧ Log.appenders s1 = Log.appenders s ∧
  Log.m_appenders g = appenders_of s n) s.
Proof.
  intros Hwf. destruct (getLogger_spec s n Hwf) as (p & s1 & Hrun & Hwf1 & Hp & Hs1).
  unfold wp. rewrite Hrun. destruct (wf_table s1 Hwf1 n p Hp) as (g & Hg & _).
  exists g. unfold appenders_of. destruct Hs1 as [-> | (Hn & -> & ->)].
  - split_and!; [|done|done|by rewrite Hp, Hg]. by split.
  - split_and!; [|done|done|].
    + split; simpl; try done; try lia.
      * intros m Hm. by rewrite lookup_insert_ne.
      * intros q Hq. by rewrite lookup_insert_ne.
    + rewrite Hn. simpl in Hg. rewrite lookup_insert_eq in Hg. by simplify_eq.
Qed.

(** Setting the formatter by its pattern, where an empty one is left out. *)
Lemma pattern_spec f p g s : wf s → Log.loggers s !! p = Some g →
  wp (match f with [] => mret tt | c :: l => Log.setFormatter_pattern p (c :: l) end) (λ _ s1, wf s1 ∧ ∃ g1,
    Log.loggers s1 = <[p := g1]> (Log.loggers s) ∧ Log.lg_level g1 = Log.lg_level g ∧
    Log.m_name g1 = Log.m_name g ∧ Log.m_root g1 = Log.m_root g ∧
    (∀ F, valid_pattern f = Some F → Log.lg_formatter g1 = Some F) ∧
    Log.m_loggers s1 = Log.m_loggers s ∧ Log.root s1 = Log.root s ∧ Log.next s1 = Log.next s ∧
    Log.stdout s1 = Log.stdout s ∧
    ∀ a, a ∉ Log.m_appenders g → Log.appenders s1 !! a = Log.appenders s !! a) s.
Proof.
  intros Hwf Hp. unfold valid_pattern, Log.setFormatter_pattern.
  assert (Log.loggers s = <[p := g]> (Log.loggers s)) as Hsame by (by rewrite insert_id).
  destruct f as [|c f]; [split; [done|]; exists g; by split_and!|]. cbv zeta.
  destruct (LogFormatter.m_error _); [split; [done|]; exists g; by split_and!|].
  eapply wp_mono; [by apply (setFormatter_spec s p g)|].
  intros _ s1 (Hwf1 & Hl & Ht & Hr & Hn & Ho & Ha). simpl in *. split; [done|].
  eexists. split; [exact Hl|]. split_and!; try done.
  intros a Hna. rewrite Ha. by rewrite decide_False.
Qed.

Lemma apply_define_spec d s : wf s → types_ok d →
  wp (apply_define open d) (λ _ s', ∃ p,
    only (name d) p (appenders_of s (name d)) s s' ∧ configured (Log.next s) s' d) s.
Proof.
  intros Hwf Hd. unfold apply_define. apply wp_bind.
  eapply wp_mono; [by apply get_spec|]. intros p s1 (g & [Hwf1 Ht1 Hts1 Hl1 Ha1 Hr1 Hn1 Ho1] & Hg & Happ & Hgl).
  destruct (setLevel_spec s1 p g (level d) Hwf1 Hg) as [Hrun Hwf2].
  apply wp_bind. unfold wp at 1. rewrite Hrun. clear Hrun. set (s2 := Log.set_loggers _ s1) in *.
  apply wp_bind. eapply wp_mono; [eapply (pattern_spec (formatter d) p); [exact Hwf2|apply lookup_insert_eq]|].
  intros _ s3 (Hwf3 & g3 & Hl3 & Hlev & Hname & Hroot & Hf3 & Ht3 & Hr3 & Hn3 & Ho3 & Ha3).
  assert (Log.loggers s3 !! p = Some g3) as Hg3 by (rewrite Hl3; apply lookup_insert_eq).
  destruct (clear_spec s3 p g3 Hwf3 Hg3) as [Hrun Hwf4].
  apply wp_bind. unfold wp at 1. rewrite Hrun. clear Hrun. set (s4 := Log.set_loggers _ s3) in *.
  eapply wp_mono; [apply (add_all_spec p (appenders d) s4 (Log.set_list [] g3)); [done|apply lookup_insert_eq|done]|].
  intros _ s' [qs [H1 H2 H3 H4 H5 H6 H7 H8]]. simpl in *. exists p. split.
  - split; try done; try lia.
    + by rewrite H5, Ht3.
    + intros m Hm. by rewrite H5, Ht3, <-Hts1.
    + intros q Hq. rewrite H2. simpl. rewrite lookup_insert_ne, lookup_insert_ne by done.
      rewrite Hl3. simpl. by rewrite !lookup_insert_ne, Hl1 by done.
    + intros a Ha Hna. rewrite H4 by lia. rewrite Ha3 by (by rewrite Hgl). simpl. by rewrite Happ.
    + congruence.
  - exists p, (Log.set_list qs g3). split_and!; [by rewrite H5, Ht3| | |done|].
    + rewrite H2. apply lookup_insert_eq.
    + done.
    + eapply Forall2_impl; [exact H3|]. intros a q [Hq Hx]. split; [lia|done].
Qed.

(** ** All definitions *)

(** The loggers of removed definitions: silent, but they accept every level. *)
Definition removed (s : Log.t) (n : list Z) : Prop := ∃ p g,
  Log.m_loggers s !! n = Some p ∧ Log.loggers s !! p = Some g ∧
  Log.lg_level g = UNKNOWN ∧ Log.m_appenders g = [].

Lemma other_pointer n m p q old s s' :
  only n p old s s' → m ≠ n → Log.m_loggers s' !! m = Some q → q ≠ p.
Proof.
  intros Ho Hm Hq ->. destruct (wf_table s' (on_wf _ _ _ _ _ Ho) m p Hq) as (g & Hg & <-).
  destruct (wf_table s' (on_wf _ _ _ _ _ Ho) n p (on_table _ _ _ _ _ Ho)) as (g' & Hg' & <-). congruence.
Qed.

Lemma only_same n m p old s s' : only n p old s s' → m ≠ n →
  Log.m_loggers s' !! m = Log.m_loggers s !! m ∧
  ∀ q, Log.m_loggers s !! m = Some q → Log.loggers s' !! q = Log.loggers s !! q.
Proof.
  intros Ho Hm. pose proof (on_tables _ _ _ _ _ Ho m Hm) as Ht. split; [done|]. intros q Hq.
  apply (on_loggers _ _ _ _ _ Ho). rewrite <-Ht in Hq. by eapply other_pointer.
Qed.

Lemma only_configured N n p old s s' d : only n p old s s' → wf s → name d ≠ n →
  (∀ a, a ∈ old → a < N) → configured N s d → configured N s' d.
Proof.
  intros Ho Hwf Hd Hold (q & g & Hq & Hg & Hl & Hf & Ha).
  destruct (only_same n (name d) p old s s' Ho Hd) as [Ht Hs].
  exists q, g. rewrite Ht, Hs by done. split_and!; try done.
  eapply Forall2_impl; [exact Ha|]. intros a b [Hb Hx]. split; [done|].
  rewrite (on_appenders _ _ _ _ _ Ho); [done| |].
  - apply (wf_next s Hwf). right. by rewrite Hx.
  - intros Hin. specialize (Hold b Hin). lia.
Qed.

Lemma only_removed n p old s s' m : only n p old s s' → m ≠ n → removed s m → removed s' m.
Proof.
  intros Ho Hm (q & g & Hq & Hg & Hl & Ha).
  destruct (only_same n m p old s s' Ho Hm) as [Ht Hs]. exists q, g. by rewrite Ht, Hs.
Qed.

(** How far the listener is: the definitions that are applied and the names
    that are removed; everything else is as it was. *)
Record progress (s0 : Log.t) (conf : list LogDefine) (gone : list (list Z)) (s : Log.t) : Prop := mk_progress {
  pg_wf : wf s;
  pg_next : Log.next s0 ≤ Log.next s;
  pg_conf : ∀ d, d ∈ conf → configured (Log.next s0) s d;
  pg_gone : ∀ n, n ∈ gone → removed s n;
  pg_same : ∀ n, n ∉ name <$> conf → n ∉ gone →
    Log.m_loggers s !! n = Log.m_loggers s0 !! n ∧
    ∀ p, Log.m_loggers s0 !! n = Some p → Log.loggers s !! p = Log.loggers s0 !! p;
  pg_stdout : Log.stdout s = Log.stdout s0
}.

Lemma progress_old s0 conf gone s n a : wf s0 → progress s0 conf gone s →
  n ∉ name <$> conf → n ∉ gone → a ∈ appenders_of s n → a < Log.next s0.
Proof.
  intros Hwf0 Hpg Hc Hg. destruct (pg_same _ _ _ _ Hpg n Hc Hg) as [Ht Hs].
  unfold appenders_of. rewrite Ht. destruct (Log.m_loggers s0 !! n) as [p|] eqn:Ep; [|by intros ?%elem_of_nil].
  rewrite Hs by done. destruct (Log.loggers s0 !! p) as [g|] eqn:Eg; [|by intros ?%elem_of_nil].
  intros Ha. destruct (wf_logger s0 Hwf0 p g Eg) as [_ Hap _]. destruct (Hap a Ha) as (x & Hx & _).
  apply (wf_next s0 Hwf0). right. by rewrite Hx.
Qed.

(** One more name [n] has been dealt with. *)
Lemma progress_only s0 conf gone s n p old s' conf' gone' :
  progress s0 conf gone s → only n p old s s' → (∀ a, a ∈ old → a < Log.next s0) →
  (∀ d, d ∈ conf → name d ≠ n) →
  (∀ d, d ∈ conf' → d ∈ conf ∨ configured (Log.next s0) s' d) →
  (∀ m, m ∈ gone' → m ∈ gone ∧ m ≠ n ∨ removed s' m) →
  (∀ m, m ∉ name <$> conf' → m ∉ gone' → m ∉ name <$> conf ∧ m ∉ gone ∧ m ≠ n) →
  progress s0 conf' gone' s'.
Proof.
  intros [Hwf Hn Hc Hg Hs Ho] Honly Hold Hnc Hc' Hg' Hs'. split.
  - by destruct Honly.
  - pose proof (on_next _ _ _ _ _ Honly). lia.
  - intros d Hd. destruct (Hc' d Hd) as [Hd'|]; [|done]. by eapply only_configured; eauto.
  - intros m Hm. destruct (Hg' m Hm) as [[Hm' Hne]|]; [|done]. by eapply only_removed; eauto.
  - intros m Hm1 Hm2. destruct (Hs' m Hm1 Hm2) as (H1 & H2 & H3). destruct (Hs m H1 H2) as [Ht Hl].
    destruct (only_same n m p old s s' Honly H3) as [Ht' Hl']. split; [congruence|].
    intros q Hq. rewrite Hl', Hl; [done|done|congruence].
  - rewrite (on_stdout _ _ _ _ _ Honly). done.
Qed.

Lemma progress_define s0 conf gone s d : wf s0 → progress s0 conf gone s → types_ok d →
  name d ∉ name <$> conf → name d ∉ gone →
  wp (apply_define open d) (λ _ s', progress s0 (d :: conf) gone s') s.
Proof.
  intros Hwf0 Hpg Hd Hc Hg.
  eapply wp_mono; [apply apply_define_spec; [by eapply pg_wf|done]|].
  intros _ s' (p & Honly & Hconf). eapply progress_only; [done|done|..].
  - intros a Ha. by eapply progress_old.
  - intros d' Hd' Heq. apply Hc. rewrite <-Heq. by apply list_elem_of_fmap_2.
  - intros d' [->|Hd']%elem_of_cons; [right|by left].
    destruct Hconf as (q & g & H1 & H2 & H3 & H4 & H5). exists q, g. split_and!; try done.
    eapply Forall2_impl; [exact H5|]. intros x y [Hy Hx]. split; [|done].
    pose proof (pg_next _ _ _ _ Hpg). lia.
  - intros m Hm. left. split; [done|]. intros ->. done.
  - intros m. rewrite fmap_cons, not_elem_of_cons. naive_solver.
Qed.

Lemma progress_remove s0 conf gone s n : wf s0 → progress s0 conf gone s →
  n ∉ name <$> conf →
  wp (logger ← Log.getLogger n; _ ← Log.Logger_setLevel logger UNKNOWN; Log.clearAppenders logger)
    (λ _ s', progress s0 conf (n :: gone) s') s.
Proof.
  intros Hwf0 Hpg Hc. apply wp_bind. eapply wp_mono; [apply get_spec; by eapply pg_wf|].
  intros p s1 (g & Honly & Hg & Ha & _). pose proof (on_wf _ _ _ _ _ Honly) as Hwf1.
  destruct (setLevel_spec s1 p g UNKNOWN Hwf1 Hg) as [Hrun Hwf2].
  apply wp_bind. unfold wp at 1. rewrite Hrun. clear Hrun. set (s2 := Log.set_loggers _ s1) in *.
  assert (Log.loggers s2 !! p = Some _) as Hg2 by apply lookup_insert_eq.
  destruct (clear_spec s2 p _ Hwf2 Hg2) as [Hrun Hwf3].
  unfold wp. rewrite Hrun. set (s3 := Log.set_loggers _ s2) in *.
  assert (only n p [] s s3) as Honly3.
  { destruct Honly as [H1 H2 H3 H4 H5 H6 H7 H8]. split; try done.
    intros q Hq. unfold s3, s2. simpl. rewrite !lookup_insert_ne by done. by apply H4. }
  eapply progress_only; [done|exact Honly3|..].
  - by intros a ?%elem_of_nil.
  - intros d Hd Heq. apply Hc. rewrite <-Heq. by apply list_elem_of_fmap_2.
  - by left.
  - intros m Hm. destruct (decide (m = n)) as [->|Hne].
    + right. eexists p, _. split; [apply Honly3|]. split; [apply lookup_insert_eq|done].
    + left. split; [|done]. apply elem_of_cons in Hm as [?|?]; done.
  - intros m Hm1. rewrite not_elem_of_cons. naive_solver.
Qed.

(** *** The sets *)
Lemma not_less_name a b : negb (less a b) && negb (less b a) = true ↔ name a = name b.
Proof.
  unfold less. rewrite (compare_bytes_antisym (name a) (name b)).
  rewrite <-compare_bytes_eq. by destruct (compare_bytes (name a) (name b)).
Qed.

Lemma find_None i l : find i l = None ↔ name i ∉ name <$> l.
Proof.
  unfold find. induction l as [|d l IH]; simpl; [set_solver|].
  destruct (negb (less d i) && negb (less i d)) eqn:E.
  - apply not_less_name in E. rewrite E. split; [done|]. set_solver.
  - rewrite IH, not_elem_of_cons. split; [|naive_solver]. intros H. split; [|done].
    intros Heq. symmetry in Heq. apply not_less_name in Heq. congruence.
Qed.

Lemma find_same i l : NoDup (name <$> l) → find i l = Some i ↔ i ∈ l.
Proof.
  unfold find. induction l as [|d l IH]; simpl; [set_solver|]. intros [Hd Hnd]%list.NoDup_cons.
  rewrite elem_of_cons. destruct (negb (less d i) && negb (less i d)) eqn:E.
  - apply not_less_name in E. split; [intros [= ->]; by left|]. intros [->|Hi]; [done|].
    exfalso. apply Hd. rewrite E. by apply list_elem_of_fmap_2.
  - rewrite IH by done. split; [by right|]. intros [->|Hi]; [|done].
    by rewrite (proj2 (not_less_name d d) eq_refl) in E.
Qed.

Lemma update_spec old i s (Q : unit → Log.t → Prop) : NoDup (name <$> old) →
  (i ∈ old → Q tt s) → (i ∉ old → wp (apply_define open i) Q s) → wp (update open old i) Q s.
Proof.
  intros Hnd Hsame Hnew. unfold update. pose proof (find_same i old Hnd) as Hf.
  destruct (find i old) as [d|] eqn:E; [unfold eqb; case_bool_decide as Hid|].
  - subst d. apply Hsame. by apply Hf.
  - apply Hnew. intros Hi. apply Hf in Hi. congruence.
  - apply Hnew. intros Hi. apply Hf in Hi. congruence.
Qed.

Lemma update_all s0 old l : ∀ conf s, wf s0 → NoDup (name <$> old) → NoDup (name <$> l) →
  (∀ d, d ∈ l → name d ∉ name <$> conf) → Forall types_ok l → progress s0 conf [] s →
  wp (forM l (update open old)) (λ _ s', ∃ conf', progress s0 conf' [] s' ∧
    ∀ d, d ∈ conf' ↔ d ∈ conf ∨ d ∈ l ∧ d ∉ old) s.
Proof.
  induction l as [|i l IH]; intros conf s Hwf0 Ho Hnd Hc Ht Hpg.
  { exists conf. split; [done|]. set_solver. }
  apply list.NoDup_cons in Hnd as [Hi Hnd]. apply list.Forall_cons in Ht as [Hti Ht].
  cbn [forM]. apply wp_bind, update_spec; [done|intros Hin..].
  - eapply wp_mono; [apply (IH conf s); try done; intros d Hd; apply Hc; by right|].
    intros _ s' (conf' & Hpg' & Hconf'). exists conf'. split; [done|]. intros d. rewrite Hconf'. set_solver.
  - eapply wp_mono; [apply (progress_define s0 conf [] s i); [done..| |by intros ?%elem_of_nil]; apply Hc; by left|].
    intros [] s1 Hpg1; cbv beta in Hpg1. eapply wp_mono; [apply (IH (i :: conf) s1); try done|].
    + intros d Hd. rewrite fmap_cons, not_elem_of_cons. split; [|apply Hc; by right].
      intros Heq. apply Hi. rewrite <-Heq. by apply list_elem_of_fmap_2.
    + intros _ s' (conf' & Hpg' & Hconf'). exists conf'. split; [done|]. intros d. rewrite Hconf'. set_solver.
Qed.

Lemma remove_all s0 new conf l : ∀ gone s, wf s0 → (∀ d, d ∈ conf → d ∈ new) →
  progress s0 conf gone s →
  wp (forM l (remove new)) (λ _ s', ∃ gone', progress s0 conf gone' s' ∧
    ∀ n, n ∈ gone' ↔ n ∈ gone ∨ n ∈ name <$> l ∧ n ∉ name <$> new) s.
Proof.
  induction l as [|i l IH]; intros gone s Hwf0 Hc Hpg.
  { exists gone. split; [done|]. set_solver. }
  cbn [forM]. apply wp_bind. unfold remove at 1. pose proof (find_None i new) as Hf.
  destruct (find i new) as [d|] eqn:E.
  - unfold wp at 1, mret, M_ret. eapply wp_mono; [by apply (IH gone s)|]. intros _ s' (gone' & Hpg' & Hgone').
    exists gone'. split; [done|]. intros n. rewrite Hgone', fmap_cons, elem_of_cons.
    destruct (decide (n ∈ name <$> new)); [naive_solver|].
    assert (n ≠ name i) by (intros ->; by apply Hf in n0). naive_solver.
  - pose proof (proj1 Hf eq_refl) as Hn.
    eapply wp_mono; [apply (progress_remove s0 conf gone s (name i)); [done..|]|].
    + rewrite list_elem_of_fmap. intros (d & Hd & Hin). apply Hn. rewrite Hd.
      by apply list_elem_of_fmap_2, Hc.
    + intros [] s1 Hpg1; cbv beta in Hpg1. eapply wp_mono; [by apply (IH (name i :: gone) s1)|].
      intros _ s' (gone' & Hpg' & Hgone'). exists gone'. split; [done|]. intros n.
      rewrite Hgone', fmap_cons, !elem_of_cons. naive_solver.
Qed.

End listener.

(** The first document: one logger is defined; "old" disappears. *)
Definition system_define : LogDefine :=
  mk (str "system") INFO (str "%m%n") [mk_appender 1 UNKNOWN [] (str "log.txt")].
Definition old_define : LogDefine := mk (str "old") INFO [] [].

End ListenerProps.
