(* ===== verification/Socket.v ===== *)
(** Sockets: [socket.h] and [socket.cc].

    Module [Socket] is the class on top of the hooked calls of [Hook]: its state
    is the socket object together with the thread. The system calls below the
    hooks are the class [Kernel]; user memory that they read and write belongs
    to the kernel's state, so buffers are pointers. An address object is filled
    from the bytes the kernel answers. Messages to the log are left out. *)
From stdpp Require Import base list numbers option strings pretty.
From Stdlib Require Import ZArith Lia.
From S2P Require Import Prelude Endian FdManager Hook Address.

Module Socket.
Import Address.
Local Open Scope Z_scope.

Definition SOCK_STREAM : Z := 1.
Definition SOCK_DGRAM : Z := 2.
Definition SO_REUSEADDR : Z := 2.
Definition SO_ERROR : Z := 4.
Definition IPPROTO_TCP : Z := 6.
Definition TCP_NODELAY : Z := 1.

Definition TCP : Z := SOCK_STREAM.
Definition UDP : Z := SOCK_DGRAM.
Definition IPv4 : Z := AF_INET.
Definition IPv6 : Z := AF_INET6.
Definition UNIX : Z := AF_UNIX.

(** The value of an option, and the header of a message. *)
Inductive optval := OptInt (v : Z) | OptTimeval (tv_sec tv_usec : Z).
Record msghdr := mk_msghdr {
  msg_iov : Z;
  msg_iovlen : Z;
  msg_name : option (list Z);
  msg_namelen : Z
}.

Abbreviation syscall K := (Hook.syscall (K := K)).

Class Kernel (K : Type) := {
  k_socket : Z → Z → Z → syscall K;
  k_bind : Z → list Z → Z → syscall K;
  k_listen : Z → Z → syscall K;
  k_connect : Z → list Z → Z → syscall K;
  k_so_error : Z → K → Z * Z * K;
  k_accept : Z → syscall K;
  k_close : Z → syscall K;
  k_send : Z → Z → Z → Z → syscall K;
  k_sendto : Z → Z → Z → Z → list Z → Z → syscall K;
  k_sendmsg : Z → msghdr → Z → syscall K;
  k_recv : Z → Z → Z → Z → syscall K;
  k_recvfrom : Z → Z → Z → Z → Z → syscall K;
  k_recvmsg : Z → msghdr → Z → syscall K;
  (** The bytes that the last [recvfrom] stored as the sender's address. *)
  k_name : K → list Z;
  k_setsockopt : Z → Z → Z → optval → syscall K;
  (** Result, errno and the option's value. *)
  k_getsockopt : Z → Z → Z → K → Z * Z * Z * K;
  (** Result, errno, the address's bytes and its length, for a buffer length. *)
  k_getsockname : Z → Z → K → Z * Z * list Z * Z * K;
  k_getpeername : Z → Z → K → Z * Z * list Z * Z * K
}.

(** The IO manager of this thread, as far as sockets cancel events. *)
Class Canceller (K : Type) := {
  iom_cancelEvent : Z → Z → K → bool * K;
  iom_cancelAllEvents : Z → K → bool * K
}.

Record Socket := mk {
  m_sockfd : Z;
  m_family : Z;
  m_type : Z;
  m_protocol : Z;
  m_isConnected : bool;
  m_localAddress : option Addr;
  m_remoteAddress : option Addr
}.

Definition new (family type protocol : Z) : Socket := mk (-1) family type protocol false None None.

Definition createTCP (addr : Addr) : Socket := new (getFamily addr) TCP 0.
Definition createUDP (addr : Addr) : Socket := new (getFamily addr) UDP 0.
Definition createTCPSocket : Socket := new IPv4 TCP 0.
Definition createUDPSocket : Socket := new IPv4 UDP 0.
Definition createTCPSocket6 : Socket := new IPv6 TCP 0.
Definition createUDPSocket6 : Socket := new IPv6 UDP 0.
Definition createUnixTCPSocket : Socket := new UNIX TCP 0.
Definition createUnixUDPSocket : Socket := new UNIX UDP 0.

Definition set_fd (fd : Z) (x : Socket) : Socket :=
  mk fd (m_family x) (m_type x) (m_protocol x) (m_isConnected x) (m_localAddress x) (m_remoteAddress x).
Definition set_connected (b : bool) (x : Socket) : Socket :=
  mk (m_sockfd x) (m_family x) (m_type x) (m_protocol x) b (m_localAddress x) (m_remoteAddress x).
Definition set_local (a : Addr) (x : Socket) : Socket :=
  mk (m_sockfd x) (m_family x) (m_type x) (m_protocol x) (m_isConnected x) (Some a) (m_remoteAddress x).
Definition set_remote (a : Addr) (x : Socket) : Socket :=
  mk (m_sockfd x) (m_family x) (m_type x) (m_protocol x) (m_isConnected x) (m_localAddress x) (Some a).

Section socket.
Context {host : Host} {K : Type} `{!Hook.IOM K, !Kernel K, !Canceller K}.
Variable fstat : Z → K → option bool.
Variable fcntl_f : Z → Z → Z → K → Z * K.
(** Whether the thread belongs to an IO manager, and the default timeout of
    [connect]. *)
Variable in_iom : bool.
Variable s_connect_timeout : Z.

Record t := mk_t { sys : Hook.t K; sock : Socket }.

Definition sysM {A} (m : M (Hook.t K) A) : M t A := λ s,
  match m (sys s) with
  | Ok a h => Ok a (mk_t h (sock s))
  | Exn e h => Exn e (mk_t h (sock s))
  | Fault f => Fault f
  end.
Definition this : M t Socket := gets sock.
Definition assign (f : Socket → Socket) : M t unit := modify (λ s, mk_t (sys s) (f (sock s))).

Definition isValid : M t bool := x ← this; mret (negb (m_sockfd x =? -1)).

(** *** Options *)
Definition setSockOpt (level optname : Z) (v : optval) : M t bool :=
  x ← this;
  let '(sec, usec) := match v with OptTimeval s u => (s, u) | OptInt _ => (0, 0) end in
  ret ← sysM (Hook.setsockopt fstat fcntl_f (k_setsockopt (m_sockfd x) level optname v)
                (m_sockfd x) level optname sec usec);
  mret (ret =? 0).

(** [None] when the call fails. *)
Definition getSockOpt (level optname : Z) : M t (option Z) := λ s,
  let '(ret, e, v, k) := k_getsockopt (m_sockfd (sock s)) level optname (Hook.k_of (sys s)) in
  (r ← sysM (Hook.getsockopt (λ _, (ret, e, k))); mret (if r =? 0 then Some v else None)) s.

Definition getError : M t Z :=
  v ← getSockOpt Hook.SOL_SOCKET SO_ERROR;
  match v with Some error => mret error | None => sysM (gets Hook.errno) end.

(** The timeval of a number of milliseconds. *)
Definition timeval_of (val : Z) : optval :=
  OptTimeval (sint 32 (Z.quot val 1000)) (sint 32 (Z.rem val 1000 * 1000)).

Definition getTimeout (optname : Z) : M t Z :=
  x ← this;
  ctx ← sysM (Hook.FdMgr_get fstat fcntl_f (m_sockfd x) false);
  match ctx with Some c => mret (sint 64 (FdManager.getTimeout optname c)) | None => mret (-1) end.

Definition getSendTimeout : M t Z := getTimeout FdManager.SO_SNDTIMEO.
Definition setSendTimeout (val : Z) : M t unit :=
  _ ← setSockOpt Hook.SOL_SOCKET FdManager.SO_SNDTIMEO (timeval_of val); mret tt.
Definition getRecvTimeout : M t Z := getTimeout FdManager.SO_RCVTIMEO.
Definition setRecvTimeout (val : Z) : M t unit :=
  _ ← setSockOpt Hook.SOL_SOCKET FdManager.SO_RCVTIMEO (timeval_of val); mret tt.

(** *** Creating the descriptor *)
Definition initSocket : M t unit :=
  _ ← setSockOpt Hook.SOL_SOCKET SO_REUSEADDR (OptInt 1);
  x ← this;
  if m_type x =? SOCK_STREAM
  then _ ← setSockOpt IPPROTO_TCP TCP_NODELAY (OptInt 1); mret tt
  else mret tt.

Definition newSocket : M t unit :=
  x ← this;
  fd ← sysM (Hook.socket fstat fcntl_f (k_socket (m_family x) (m_type x) (m_protocol x)));
  _ ← assign (set_fd fd);
  if fd =? -1 then mret tt else initSocket.

(** *** Addresses *)

(** An address object whose first bytes are overwritten; the eight unused bytes
    of an IPv4 address are not kept. *)
Definition load_address (a : Addr) (d : list Z) : Addr :=
  let b := splice (getAddr a) 0 (take (length (getAddr a)) d) in
  let at_ i n := object_value (take n (drop i b)) in
  match a with
  | IPv4Address _ => IPv4Address (mk_in (at_ 0%nat 2%nat) (at_ 2%nat 2%nat) (at_ 4%nat 4%nat))
  | IPv6Address _ =>
      IPv6Address (mk_in6 (at_ 0%nat 2%nat) (at_ 2%nat 2%nat) (at_ 4%nat 4%nat)
                     (take 16 (drop 8 b)) (at_ 24%nat 4%nat))
  | UnixAddress _ l => UnixAddress (mk_un (at_ 0%nat 2%nat) (drop 2 b)) l
  | UnknownAddress _ => UnknownAddress (mk_any (at_ 0%nat 2%nat) (drop 2 b))
  end.

Definition empty_address (family : Z) : Addr :=
  if family =? AF_INET then IPv4Address (IPv4Address_new 0 0)
  else if family =? AF_INET6 then IPv6Address IPv6Address_new
  else if family =? AF_UNIX then UnixAddress_new
  else UnknownAddress_family family.

(** Asking the kernel for the address; on failure the object that is returned
    is not stored. *)
Definition ask_address (query : Z → Z → K → Z * Z * list Z * Z * K) (store : Addr → Socket → Socket)
    : M t Addr := λ s,
  let x := sock s in
  let res := empty_address (m_family x) in
  let '(ret, e, d, addrlen, k) := query (m_sockfd x) (getAddrLen res) (Hook.k_of (sys s)) in
  (r ← sysM (Hook.call (λ _, (ret, e, k)));
   if negb (r =? 0) then mret (UnknownAddress_family (m_family x))
   else
     let res := load_address res d in
     let res := if m_family x =? AF_UNIX then setAddrLen addrlen res else res in
     _ ← assign (store res);
     mret res) s.

Definition getLocalAddress : M t Addr :=
  x ← this;
  match m_localAddress x with Some a => mret a | None => ask_address k_getsockname set_local end.

Definition getRemoteAddress : M t Addr :=
  x ← this;
  match m_remoteAddress x with Some a => mret a | None => ask_address k_getpeername set_remote end.

(** *** bind, listen, connect, accept, close *)

(** The first test of bind and connect: the descriptor exists or is made. *)
Definition ensure_valid : M t bool :=
  v ← isValid;
  if v : bool then mret true else _ ← newSocket; isValid.

Definition bind (addr : Addr) : M t bool :=
  v ← ensure_valid;
  if negb v then mret false
  else
    x ← this;
    if negb (getFamily addr =? m_family x) then mret false
    else
      r ← sysM (Hook.call (k_bind (m_sockfd x) (getAddr addr) (getAddrLen addr)));
      if negb (r =? 0) then mret false
      else _ ← getLocalAddress; mret true.

Definition listen (backlog : Z) : M t bool :=
  v ← isValid;
  if negb v then mret false
  else
    x ← this;
    r ← sysM (Hook.call (k_listen (m_sockfd x) backlog));
    mret (r =? 0).

Definition close : M t bool :=
  x ← this;
  if negb (m_isConnected x) && (m_sockfd x =? -1) then mret true
  else
    _ ← assign (set_connected false);
    _ ← (if m_sockfd x =? -1 then mret tt
         else
           _ ← sysM (Hook.close fstat fcntl_f (k_close (m_sockfd x)) in_iom (m_sockfd x));
           assign (set_fd (-1)));
    mret true.

Definition connect (addr : Addr) (timeout : Z) : M t bool :=
  v ← ensure_valid;
  if negb v then mret false
  else
    x ← this;
    if negb (getFamily addr =? m_family x) then mret false
    else
      let f := k_connect (m_sockfd x) (getAddr addr) (getAddrLen addr) in
      let e := k_so_error (m_sockfd x) in
      r ← (if timeout =? FdManager.no_timeout
           then sysM (Hook.connect fstat fcntl_f f e s_connect_timeout (m_sockfd x))
           else sysM (Hook.connect_with_timeout fstat fcntl_f f e (m_sockfd x) timeout));
      if negb (r =? 0) then _ ← close; mret false
      else
        _ ← assign (set_connected true);
        _ ← getLocalAddress;
        _ ← getRemoteAddress;
        mret true.

(** init(sockfd) of a fresh object *)
Definition init (sockfd : Z) : M t bool :=
  ctx ← sysM (Hook.FdMgr_get fstat fcntl_f sockfd false);
  match ctx with
  | Some c =>
      if FdManager.m_isSocket c && negb (FdManager.m_isClosed c) then
        _ ← assign (set_fd sockfd);
        _ ← assign (set_connected true);
        _ ← initSocket;
        _ ← getLocalAddress;
        _ ← getRemoteAddress;
        mret true
      else mret false
  | None => mret false
  end.

(** Another object in the same thread. *)
Definition with_socket {A} (y : Socket) (m : M t A) : M t (A * Socket) := λ s,
  match m (mk_t (sys s) y) with
  | Ok a s' => Ok (a, sock s') (mk_t (sys s') (sock s))
  | Exn e s' => Exn e (mk_t (sys s') (sock s))
  | Fault f => Fault f
  end.

Definition accept (fuel : nat) : M t (option Socket) :=
  x ← this;
  newfd ← sysM (Hook.accept fstat fcntl_f fuel (m_sockfd x) (k_accept (m_sockfd x)));
  if newfd =? -1 then mret None
  else
    r ← with_socket (new (m_family x) (m_type x) (m_protocol x)) (init newfd);
    let '(ok, y) := r in mret (if ok : bool then Some y else None).

(** *** IO: the result is an int *)

(** [if(isConnected()) return f(); return -1] *)
Definition if_connected (f : Socket → M t Z) : M t Z :=
  x ← this;
  if m_isConnected x then n ← f x; mret (sint 32 n) else mret (-1).

Definition send (fuel : nat) (buffer length flags : Z) : M t Z :=
  if_connected (λ x : Socket, sysM (Hook.send fstat fcntl_f fuel (m_sockfd x) (k_send (m_sockfd x) buffer length flags))).

Definition send_iov (fuel : nat) (buffers length flags : Z) : M t Z :=
  if_connected (λ x : Socket, sysM (Hook.sendmsg fstat fcntl_f fuel (m_sockfd x)
    (k_sendmsg (m_sockfd x) (mk_msghdr buffers length None 0) flags))).

Definition sendTo (fuel : nat) (buffer length : Z) (to : Addr) (flags : Z) : M t Z :=
  if_connected (λ x : Socket, sysM (Hook.sendto fstat fcntl_f fuel (m_sockfd x)
    (k_sendto (m_sockfd x) buffer length flags (getAddr to) (getAddrLen to)))).

Definition sendTo_iov (fuel : nat) (buffers length : Z) (to : Addr) (flags : Z) : M t Z :=
  if_connected (λ x : Socket, sysM (Hook.sendmsg fstat fcntl_f fuel (m_sockfd x)
    (k_sendmsg (m_sockfd x) (mk_msghdr buffers length (Some (getAddr to)) (getAddrLen to)) flags))).

Definition recv (fuel : nat) (buffer length flags : Z) : M t Z :=
  if_connected (λ x : Socket, sysM (Hook.recv fstat fcntl_f fuel (m_sockfd x) (k_recv (m_sockfd x) buffer length flags))).

Definition recv_iov (fuel : nat) (buffers length flags : Z) : M t Z :=
  if_connected (λ x : Socket, sysM (Hook.recvmsg fstat fcntl_f fuel (m_sockfd x)
    (k_recvmsg (m_sockfd x) (mk_msghdr buffers length None 0) flags))).

(** The address object of the caller is filled with the sender's. *)
Definition recvFrom (fuel : nat) (buffer length : Z) (from : Addr) (flags : Z) : M t (Z * Addr) :=
  x ← this;
  if m_isConnected x then
    n ← sysM (Hook.recvfrom fstat fcntl_f fuel (m_sockfd x)
                (k_recvfrom (m_sockfd x) buffer length flags (getAddrLen from)));
    h ← gets sys;
    mret (sint 32 n,
          if n =? -1 then from
          else load_address from (take (Z.to_nat (getAddrLen from)) (k_name (Hook.k_of h))))
  else mret (-1, from).

(** This one sends. *)
Definition recvFrom_iov (fuel : nat) (buffers length : Z) (from : Addr) (flags : Z) : M t Z :=
  if_connected (λ x : Socket, sysM (Hook.sendmsg fstat fcntl_f fuel (m_sockfd x)
    (k_sendmsg (m_sockfd x) (mk_msghdr buffers length (Some (getAddr from)) (getAddrLen from)) flags))).

(** *** Cancelling; without an IO manager [GetThis()] is null *)
Definition cancel (f : Z → K → bool * K) : M t bool :=
  x ← this;
  if in_iom then sysM (Hook.iom_ask (f (m_sockfd x))) else faultM NullDeref.

Definition cancelRead : M t bool := cancel (λ fd, iom_cancelEvent fd Hook.READ).
Definition cancelWrite : M t bool := cancel (λ fd, iom_cancelEvent fd Hook.WRITE).
Definition cancelAccept : M t bool := cancel (λ fd, iom_cancelEvent fd Hook.READ).
Definition cancelAll : M t bool := cancel iom_cancelAllEvents.

(** *** The text of a socket *)
Definition dump_address (name : string) (addr : option Addr) : R string :=
  match addr with
  | Some a => text ← Address.toString a; mret (name +:+ text)%string
  | None => mret EmptyString
  end.

Definition dump (x : Socket) : R string :=
  local ← dump_address ", localaddress= " (m_localAddress x);
  remote ← dump_address ", remoteaddress= " (m_remoteAddress x);
  mret ("[Socket socket= " +:+ pretty (m_sockfd x) +:+ ", is_connected= " +:+
    (if m_isConnected x then "1" else "0") +:+ ", family= " +:+ pretty (m_family x) +:+
    ", type = " +:+ pretty (m_type x) +:+ ", protocol = " +:+ pretty (m_protocol x) +:+
    local +:+ remote +:+ "]")%string.
End socket.
Arguments t : clear implicits.
End Socket.
