(* ===== verification/SocketProps.v ===== *)
(** Sockets: the phases a socket goes through, timeouts, and the addresses it
    remembers. *)
From stdpp Require Import base list numbers option.
From Stdlib Require Import ZArith Lia.
From S2P Require Import Prelude Endian FdManager Hook Address Socket.

Module SocketProps.
Import Socket.
Local Open Scope Z_scope.

(** ** The hooked calls throw nothing *)
Definition no_exn {S A} (m : M S A) : Prop := ∀ s, match m s with Exn _ _ => False | _ => True end.

Lemma no_exn_bind {S A B} (m : M S A) (k : A → M S B) :
  no_exn m → (∀ a, no_exn (k a)) → no_exn (m ≫= k).
Proof. intros Hm Hk s. specialize (Hm s). unfold mbind, M_bind. destruct (m s) as [a s'| |]; [apply Hk|done..]. Qed.

Lemma no_exn_fault {S A} f : no_exn (S := S) (A := A) (faultM f).
Proof. by intros s. Qed.
Lemma no_exn_ret {S A} (a : A) : no_exn (S := S) (mret a).
Proof. by intros s. Qed.
Lemma no_exn_get {S} : no_exn (S := S) get.
Proof. by intros s. Qed.
Lemma no_exn_put {S} (x : S) : no_exn (put x).
Proof. by intros s. Qed.
Lemma no_exn_gets {S A} (f : S → A) : no_exn (gets f).
Proof. by intros s. Qed.
Lemma no_exn_modify {S} (f : S → S) : no_exn (modify f).
Proof. by intros s. Qed.
Lemma no_exn_signed {S} w z : no_exn (S := S) (signed w z).
Proof. intros s. unfold signed. by destruct (decide _). Qed.

Create HintDb quiet discriminated.
#[export] Hint Resolve no_exn_fault no_exn_ret no_exn_get no_exn_put no_exn_gets no_exn_modify
  no_exn_signed : quiet.

(** Walk through a handler. *)
Ltac quiet :=
  repeat first
    [ progress intros
    | solve [auto with quiet]
    | apply no_exn_bind
    | match goal with
      | |- no_exn (match ?x with _ => _ end) => destruct x
      | |- no_exn (let '(_, _) := ?x in _) => destruct x
      end
    | progress cbv zeta ].

Section fd.
Context {K : Type} (fstat : Z → K → option bool) (fcntl_f : Z → Z → Z → K → Z * K).

Lemma no_exn_fd_sys {A} (f : K → A * K) : no_exn (FdManager.sys f).
Proof. intros s. unfold FdManager.sys. by destruct (f _). Qed.
#[local] Hint Resolve no_exn_fd_sys : quiet.

Lemma no_exn_get_fd fd b : no_exn (FdManager.get_fd fstat fcntl_f fd b).
Proof. unfold FdManager.get_fd, FdManager.FdCtx_new, FdManager.init, FdManager.index. quiet. Qed.

Lemma no_exn_del fd : no_exn (FdManager.del (K := K) fd).
Proof. unfold FdManager.del. quiet. Qed.

Lemma no_exn_update fd g : no_exn (FdManager.update (K := K) fd g).
Proof. unfold FdManager.update. quiet. Qed.
End fd.
#[export] Hint Resolve no_exn_get_fd no_exn_del no_exn_update : quiet.

Section hook.
Context {K : Type} `{!Hook.IOM K}.
Context (fstat : Z → K → option bool) (fcntl_f : Z → Z → Z → K → Z * K).

Lemma no_exn_call (f : Hook.syscall) : no_exn (Hook.call (K := K) f).
Proof. intros s. unfold Hook.call. by destruct (f _) as [[? ?] ?]. Qed.
Lemma no_exn_iom (f : K → K) : no_exn (Hook.iom f).
Proof. by intros s. Qed.
Lemma no_exn_ask {A} (f : K → A * K) : no_exn (Hook.iom_ask f).
Proof. intros s. unfold Hook.iom_ask. by destruct (f _). Qed.
Lemma no_exn_fdm {A} (m : M (FdManager.t K) A) : no_exn m → no_exn (Hook.fdm m).
Proof. intros Hm s. specialize (Hm (Hook.fds s)). unfold Hook.fdm. by destruct (m _). Qed.
#[local] Hint Resolve no_exn_call no_exn_iom no_exn_ask no_exn_fdm : quiet.
#[local] Hint Unfold Hook.set_errno Hook.is_hook_enable Hook.FdMgr_get : quiet.

Lemma no_exn_FdMgr_get fd b : no_exn (Hook.FdMgr_get fstat fcntl_f fd b).
Proof. unfold Hook.FdMgr_get. quiet. Qed.
Lemma no_exn_errno e : no_exn (Hook.set_errno (K := K) e).
Proof. unfold Hook.set_errno. quiet. Qed.
Lemma no_exn_enabled : no_exn (Hook.is_hook_enable (K := K)).
Proof. unfold Hook.is_hook_enable. quiet. Qed.
#[local] Hint Resolve no_exn_FdMgr_get no_exn_errno no_exn_enabled : quiet.

Lemma no_exn_uninterrupted fuel f : no_exn (Hook.call_uninterrupted (K := K) fuel f).
Proof. induction fuel; cbn [Hook.call_uninterrupted]; quiet. Qed.
#[local] Hint Resolve no_exn_uninterrupted : quiet.

Lemma no_exn_retry fuel f fd event to : no_exn (Hook.do_io_retry (K := K) fuel f fd event to).
Proof.
  induction fuel as [|fuel IH]; [quiet|]. change (no_exn (Hook.do_io_retry (S fuel) f fd event to)).
  cbn [Hook.do_io_retry]. quiet.
Qed.
#[local] Hint Resolve no_exn_retry : quiet.

Lemma no_exn_do_io fuel fd f event ty : no_exn (Hook.do_io fstat fcntl_f fuel fd f event ty).
Proof. unfold Hook.do_io. quiet. Qed.
#[local] Hint Resolve no_exn_do_io : quiet.

Lemma no_exn_accept fuel fd f : no_exn (Hook.accept fstat fcntl_f fuel fd f).
Proof. unfold Hook.accept. quiet. Qed.
Lemma no_exn_socket f : no_exn (Hook.socket fstat fcntl_f f).
Proof. unfold Hook.socket. quiet. Qed.
Lemma no_exn_connect_to f e fd to : no_exn (Hook.connect_with_timeout fstat fcntl_f f e fd to).
Proof. unfold Hook.connect_with_timeout. quiet. Qed.
Lemma no_exn_close f b fd : no_exn (Hook.close fstat fcntl_f f b fd).
Proof. unfold Hook.close. quiet. Qed.
Lemma no_exn_setsockopt f fd l o s u : no_exn (Hook.setsockopt fstat fcntl_f f fd l o s u).
Proof. unfold Hook.setsockopt, Hook.timeval_ms. quiet. Qed.
End hook.
#[export] Hint Resolve no_exn_call no_exn_ask no_exn_FdMgr_get no_exn_do_io no_exn_accept no_exn_socket
  no_exn_connect_to no_exn_close no_exn_setsockopt : quiet.

(** ** Phases *)
Inductive phase := NoFd | Opened (fd : Z) | Connected (fd : Z).

(** A connected socket without a descriptor does not exist. *)
Definition phase_of (x : Socket) : option phase :=
  if m_sockfd x =? -1 then if m_isConnected x then None else Some NoFd
  else Some (if m_isConnected x then Connected (m_sockfd x) else Opened (m_sockfd x)).

(** What no operation changes: the kind of socket, and an address that is known. *)
Record stable (x y : Socket) : Prop := mk_stable {
  st_family : m_family y = m_family x;
  st_type : m_type y = m_type x;
  st_protocol : m_protocol y = m_protocol x;
  st_local : ∀ a, m_localAddress x = Some a → m_localAddress y = Some a;
  st_remote : ∀ a, m_remoteAddress x = Some a → m_remoteAddress y = Some a
}.

#[export] Instance stable_preorder : PreOrder stable.
Proof.
  split; [by intros x|]. intros x y z [H1 H2 H3 H4 H5] [G1 G2 G3 G4 G5].
  split; try congruence; intros a Ha; eauto.
Qed.

(** Only the remembered addresses have changed. *)
Definition same_phase (x y : Socket) : Prop :=
  stable x y ∧ m_sockfd y = m_sockfd x ∧ m_isConnected y = m_isConnected x.

#[export] Instance same_phase_preorder : PreOrder same_phase.
Proof.
  split; [by intros x|]. intros x y z (H1 & H2 & H3) (G1 & G2 & G3).
  split_and!; [by etrans|congruence..].
Qed.

Lemma same_phase_of x y : same_phase x y → phase_of y = phase_of x.
Proof. intros (_ & H1 & H2). unfold phase_of. by rewrite H1, H2. Qed.

Lemma stable_set_fd fd x : stable x (set_fd fd x).
Proof. by split. Qed.
Lemma stable_set_connected b x : stable x (set_connected b x).
Proof. by split. Qed.
#[local] Hint Resolve stable_set_fd stable_set_connected : core.

Section socket.
Context {host : Host} {K : Type} `{!Hook.IOM K, !Kernel K, !Canceller K}.
Context (fstat : Z → K → option bool) (fcntl_f : Z → Z → Z → K → Z * K).
Context (in_iom : bool) (s_connect_timeout : Z).

(** Where an operation can end, started on the object [x]; the thread's state is
    arbitrary, and nothing is thrown. *)
Definition ends {A} (m : M (t K) A) (x : Socket) (Q : A → Socket → Prop) : Prop :=
  ∀ s, sock s = x → match m s with Ok a s' => Q a (sock s') | Exn _ _ => False | Fault _ => True end.

Lemma ends_bind {A B} (m : M (t K) A) (k : A → M (t K) B) x Q :
  ends m x (λ a y, ends (k a) y Q) → ends (m ≫= k) x Q.
Proof.
  intros Hm s Hs. specialize (Hm s Hs). unfold mbind, M_bind. destruct (m s); [by apply Hm|done..].
Qed.

Lemma ends_mono {A} (m : M (t K) A) x (P Q : A → Socket → Prop) :
  ends m x P → (∀ a y, P a y → Q a y) → ends m x Q.
Proof. intros Hm HPQ s Hs. specialize (Hm s Hs). destruct (m s); eauto. Qed.

Lemma ends_ret {A} (a : A) x (Q : A → Socket → Prop) : Q a x → ends (mret a) x Q.
Proof. by intros HQ s <-. Qed.

Lemma ends_this x (Q : Socket → Socket → Prop) : Q x x → ends this x Q.
Proof. by intros HQ s <-. Qed.

Lemma ends_assign f x (Q : unit → Socket → Prop) : Q tt (f x) → ends (assign f) x Q.
Proof. by intros HQ s <-. Qed.

Lemma ends_sysM {A} (m : M (Hook.t K) A) x (Q : A → Socket → Prop) :
  no_exn m → (∀ a, Q a x) → ends (sysM m) x Q.
Proof.
  intros Hm HQ s <-. specialize (Hm (sys s)). unfold sysM. destruct (m (sys s)); [apply HQ|done..].
Qed.

Lemma ends_setSockOpt l o v x : ends (setSockOpt fstat fcntl_f l o v) x (λ _ y, y = x).
Proof.
  unfold setSockOpt. apply ends_bind, ends_this. destruct v; apply ends_bind, ends_sysM; auto with quiet;
    intros a; by apply ends_ret.
Qed.

Lemma ends_initSocket x : ends (initSocket fstat fcntl_f) x (λ _ y, y = x).
Proof.
  unfold initSocket. apply ends_bind. eapply ends_mono; [apply ends_setSockOpt|]. intros _ y ->.
  apply ends_bind, ends_this. destruct (_ =? _); [|by apply ends_ret].
  apply ends_bind. eapply ends_mono; [apply ends_setSockOpt|]. intros _ y ->. by apply ends_ret.
Qed.

Lemma ends_newSocket x : ends (newSocket fstat fcntl_f) x (λ _ y, ∃ fd, y = set_fd fd x).
Proof.
  unfold newSocket. apply ends_bind, ends_this, ends_bind, ends_sysM; [auto with quiet|]. intros fd.
  apply ends_bind, ends_assign. destruct (_ =? _); [apply ends_ret; by eexists|].
  eapply ends_mono; [apply ends_initSocket|]. intros _ y ->. by eexists.
Qed.

Lemma ends_isValid x : ends isValid x (λ b y, y = x ∧ b = negb (m_sockfd x =? -1)).
Proof. unfold isValid. apply ends_bind, ends_this. by apply ends_ret. Qed.

Lemma ends_ensure_valid x : ends (ensure_valid fstat fcntl_f) x (λ b y,
  stable x y ∧ m_isConnected y = m_isConnected x ∧ b = negb (m_sockfd y =? -1) ∧
  (m_sockfd x ≠ -1 → m_sockfd y = m_sockfd x)).
Proof.
  unfold ensure_valid. apply ends_bind. eapply ends_mono; [apply ends_isValid|]. intros b y [-> ->].
  destruct (Z.eqb_spec (m_sockfd x) (-1)) as [E|E]; simpl.
  - apply ends_bind. eapply ends_mono; [apply ends_newSocket|]. intros _ y [fd ->].
    eapply ends_mono; [apply ends_isValid|]. intros b y [-> ->]. by split_and!.
  - apply ends_ret. split_and!; try done. by rewrite (proj2 (Z.eqb_neq _ _) E).
Qed.

Lemma ends_ask q store x :
  (∀ a, same_phase x (store a x)) → ends (ask_address q store) x (λ _ y, same_phase x y).
Proof.
  intros Hstore s <-. unfold ask_address.
  destruct (q _ _ _) as [[[[ret e] d] len] k]. revert s Hstore.
  assert (∀ x : Socket, (∀ a, same_phase x (store a x)) → ends
    (r ← sysM (Hook.call (λ _, (ret, e, k)));
     if negb (r =? 0) then mret (Address.UnknownAddress_family (m_family x))
     else
       let res := load_address (empty_address (m_family x)) d in
       let res := if m_family x =? Address.AF_UNIX then Address.setAddrLen len res else res in
       _ ← assign (store res); mret res) x (λ _ y, same_phase x y)) as Hrun.
  { intros x Hx. apply ends_bind, ends_sysM; [auto with quiet|]. intros r.
    destruct (negb _); [by apply ends_ret|]. cbv zeta.
    apply ends_bind, ends_assign, ends_ret, Hx. }
  intros s Hs. apply (Hrun _ Hs s eq_refl).
Qed.

Lemma ends_getLocalAddress x : ends getLocalAddress x (λ _ y, same_phase x y).
Proof.
  unfold getLocalAddress. apply ends_bind, ends_this. destruct (m_localAddress x) eqn:E; [by apply ends_ret|].
  apply ends_ask. intros a. split_and!; try done. split; try done. intros b. by rewrite E.
Qed.

Lemma ends_getRemoteAddress x : ends getRemoteAddress x (λ _ y, same_phase x y).
Proof.
  unfold getRemoteAddress. apply ends_bind, ends_this. destruct (m_remoteAddress x) eqn:E; [by apply ends_ret|].
  apply ends_ask. intros a. split_and!; try done. split; try done. intros b. by rewrite E.
Qed.

(** *** The operations *)
Lemma ends_bind_op addr x : ends (bind fstat fcntl_f addr) x (λ b y,
  stable x y ∧ m_isConnected y = m_isConnected x ∧
  (m_sockfd x ≠ -1 → m_sockfd y = m_sockfd x) ∧ (b = true → m_sockfd y ≠ -1)).
Proof.
  unfold bind. apply ends_bind. eapply ends_mono; [apply ends_ensure_valid|].
  intros b y (Hst & Hc & -> & Hfd). destruct (Z.eqb_spec (m_sockfd y) (-1)) as [E|E]; simpl.
  { by apply ends_ret. }
  apply ends_bind, ends_this. destruct (negb _); [by apply ends_ret|].
  apply ends_bind, ends_sysM; [auto with quiet|]. intros r. destruct (negb _); [by apply ends_ret|].
  apply ends_bind. eapply ends_mono; [apply ends_getLocalAddress|]. intros _ z (Hst' & Hfd' & Hc').
  apply ends_ret. split_and!; [by etrans|congruence|intros; rewrite Hfd'; auto|congruence].
Qed.

Lemma ends_listen n x : ends (listen n) x (λ b y, y = x ∧ (b = true → m_sockfd x ≠ -1)).
Proof.
  unfold listen. apply ends_bind. eapply ends_mono; [apply ends_isValid|]. intros b y [-> ->].
  destruct (Z.eqb_spec (m_sockfd x) (-1)) as [E|E]; simpl; [by apply ends_ret|].
  apply ends_bind, ends_this, ends_bind, ends_sysM; [auto with quiet|]. intros r. by apply ends_ret.
Qed.

Lemma ends_close x : ends (close fstat fcntl_f in_iom) x (λ b y,
  b = true ∧ stable x y ∧ m_isConnected y = false ∧ m_sockfd y = -1).
Proof.
  unfold close. apply ends_bind, ends_this.
  destruct (Z.eqb_spec (m_sockfd x) (-1)) as [E|E], (m_isConnected x) eqn:Ec; simpl.
  - apply ends_bind, ends_assign, ends_bind, ends_ret, ends_ret. by split_and!.
  - by apply ends_ret.
  - apply ends_bind, ends_assign, ends_bind, ends_bind, ends_sysM; [auto with quiet|]. intros r.
    apply ends_assign, ends_ret. by split_and!.
  - apply ends_bind, ends_assign, ends_bind, ends_bind, ends_sysM; [auto with quiet|]. intros r.
    apply ends_assign, ends_ret. by split_and!.
Qed.

Lemma ends_connect addr timeout x :
  ends (connect fstat fcntl_f in_iom s_connect_timeout addr timeout) x (λ b y, stable x y ∧
    if b then m_isConnected y = true ∧ m_sockfd y ≠ -1 ∧ (m_sockfd x ≠ -1 → m_sockfd y = m_sockfd x)
    else (m_isConnected y = false ∧ m_sockfd y = -1) ∨
         (m_isConnected y = m_isConnected x ∧ (m_sockfd x ≠ -1 → m_sockfd y = m_sockfd x))).
Proof.
  unfold connect. apply ends_bind. eapply ends_mono; [apply ends_ensure_valid|].
  intros b y (Hst & Hc & -> & Hfd). destruct (Z.eqb_spec (m_sockfd y) (-1)) as [E|E]; simpl.
  { apply ends_ret. auto. }
  apply ends_bind, ends_this. destruct (negb _); [apply ends_ret; auto|]. cbv zeta.
  apply ends_bind.
  assert (∀ m : M (Hook.t K) Z, no_exn m → ends (sysM m) y (λ _ z, z = y)) as Hsys
    by (intros m Hm; by apply ends_sysM).
  eapply (ends_mono _ _ (λ _ z, z = y)).
  { destruct (_ =? _); apply Hsys; unfold Hook.connect; auto with quiet. }
  intros r z ->. destruct (negb _).
  - apply ends_bind. eapply ends_mono; [apply ends_close|]. intros _ z (_ & Hst' & Hc' & Hfd').
    apply ends_ret. split; [by etrans|by left].
  - apply ends_bind, ends_assign, ends_bind. eapply ends_mono; [apply ends_getLocalAddress|].
    intros _ z (H1 & H2 & H3). apply ends_bind. eapply ends_mono; [apply ends_getRemoteAddress|].
    intros _ w (G1 & G2 & G3). apply ends_ret. simpl in *.
    split; [etrans; [exact Hst|etrans; [|exact G1]; etrans; [|exact H1]; done]|].
    split_and!; [congruence|congruence|intros; rewrite G2, H2; auto].
Qed.

Lemma ends_init fd x : ends (init fstat fcntl_f fd) x (λ b y, stable x y ∧
  if b then m_isConnected y = true ∧ m_sockfd y = fd ∧ fd ≠ -1 else y = x).
Proof.
  intros s Hs. unfold init. unfold mbind at 1, M_bind. unfold sysM at 1.
  destruct (Hook.FdMgr_get fstat fcntl_f fd false (sys s)) as [c h| |] eqn:E; [| |done].
  2:{ pose proof (no_exn_FdMgr_get fstat fcntl_f fd false (sys s)) as Hn. by rewrite E in Hn. }
  destruct c as [c|]; [|by subst].
  assert (fd ≠ -1) as Hfd.
  { intros ->. unfold Hook.FdMgr_get, Hook.fdm, FdManager.get_fd in E. simpl in E. by simplify_eq. }
  destruct (_ && _); [|by subst]. rewrite Hs. clear Hs E s.
  assert (ends (_ ← assign (set_fd fd); _ ← assign (set_connected true);
    _ ← initSocket fstat fcntl_f; _ ← getLocalAddress; _ ← getRemoteAddress; mret true) x (λ b y, stable x y ∧
    if b then m_isConnected y = true ∧ m_sockfd y = fd ∧ fd ≠ -1 else y = x)) as Hrun; [|by apply (Hrun (mk_t h x))].
  apply ends_bind, ends_assign, ends_bind, ends_assign, ends_bind.
  eapply ends_mono; [apply ends_initSocket|]. intros _ y ->. apply ends_bind.
  eapply ends_mono; [apply ends_getLocalAddress|]. intros _ y (H1 & H2 & H3). apply ends_bind.
  eapply ends_mono; [apply ends_getRemoteAddress|]. intros _ z (G1 & G2 & G3). apply ends_ret.
  split; [etrans; [|exact G1]; etrans; [|exact H1]; done|]. simpl in *. split_and!; congruence.
Qed.

Lemma ends_with_socket {A} y (m : M (t K) A) x Q :
  ends m y Q → ends (with_socket y m) x (λ r z, z = x ∧ Q r.1 r.2).
Proof.
  intros Hm s <-. unfold with_socket. specialize (Hm (mk_t (sys s) y) eq_refl).
  by destruct (m _) as [a s'| |].
Qed.

Lemma ends_accept fuel x : ends (accept fstat fcntl_f fuel) x (λ o y, y = x ∧
  ∀ z, o = Some z → m_isConnected z = true ∧ m_sockfd z ≠ -1 ∧ stable (new (m_family x) (m_type x) (m_protocol x)) z).
Proof.
  unfold accept. apply ends_bind, ends_this, ends_bind, ends_sysM; [auto with quiet|]. intros fd.
  destruct (_ =? _); [by apply ends_ret|]. apply ends_bind.
  eapply ends_mono; [apply ends_with_socket, ends_init|]. intros [b z] y [-> [Hst Hz]]. simpl in *.
  apply ends_ret. split; [done|]. destruct b; [|done]. intros z' [= <-].
  destruct Hz as (H1 & H2 & H3). split_and!; [done|congruence|done].
Qed.

Lemma ends_if_connected (f : Socket → M (t K) Z) x :
  ends (f x) x (λ _ y, y = x) → ends (if_connected f) x (λ n y, y = x ∧ (m_isConnected x = false → n = -1)).
Proof.
  intros Hf. unfold if_connected. apply ends_bind, ends_this. destruct (m_isConnected x); [|by apply ends_ret].
  apply ends_bind. eapply ends_mono; [exact Hf|]. intros n y ->. by apply ends_ret.
Qed.

(** Everything a socket can be asked; buffers are pointers. *)
Inductive op :=
| Bind (addr : Address.Addr) | Listen (backlog : Z) | Connect (addr : Address.Addr) (timeout : Z)
| Accept (fuel : nat) | Close
| Send (fuel : nat) (buffer length flags : Z) | SendV (fuel : nat) (buffers length flags : Z)
| SendTo (fuel : nat) (buffer length : Z) (to : Address.Addr) (flags : Z)
| SendToV (fuel : nat) (buffers length : Z) (to : Address.Addr) (flags : Z)
| Recv (fuel : nat) (buffer length flags : Z) | RecvV (fuel : nat) (buffers length flags : Z)
| RecvFrom (fuel : nat) (buffer length : Z) (from : Address.Addr) (flags : Z)
| RecvFromV (fuel : nat) (buffers length : Z) (from : Address.Addr) (flags : Z)
| SetSendTimeout (ms : Z) | SetRecvTimeout (ms : Z) | LocalAddress | RemoteAddress | CancelAll.

Inductive answer := Bool (b : bool) | Int (n : Z) | Client (o : option Socket) | Unit.

Definition run (o : op) : M (t K) answer :=
  match o with
  | Bind a => Bool <$> bind fstat fcntl_f a
  | Listen n => Bool <$> listen n
  | Connect a timeout => Bool <$> connect fstat fcntl_f in_iom s_connect_timeout a timeout
  | Accept fuel => Client <$> accept fstat fcntl_f fuel
  | Close => Bool <$> close fstat fcntl_f in_iom
  | Send fuel b n f => Int <$> send fstat fcntl_f fuel b n f
  | SendV fuel b n f => Int <$> send_iov fstat fcntl_f fuel b n f
  | SendTo fuel b n a f => Int <$> sendTo fstat fcntl_f fuel b n a f
  | SendToV fuel b n a f => Int <$> sendTo_iov fstat fcntl_f fuel b n a f
  | Recv fuel b n f => Int <$> recv fstat fcntl_f fuel b n f
  | RecvV fuel b n f => Int <$> recv_iov fstat fcntl_f fuel b n f
  | RecvFrom fuel b n a f => (λ r, Int r.1) <$> recvFrom fstat fcntl_f fuel b n a f
  | RecvFromV fuel b n a f => Int <$> recvFrom_iov fstat fcntl_f fuel b n a f
  | SetSendTimeout v => (λ _, Unit) <$> setSendTimeout fstat fcntl_f v
  | SetRecvTimeout v => (λ _, Unit) <$> setRecvTimeout fstat fcntl_f v
  | LocalAddress => (λ _, Unit) <$> getLocalAddress
  | RemoteAddress => (λ _, Unit) <$> getRemoteAddress
  | CancelAll => Bool <$> cancelAll in_iom
  end.

(** The abstract socket: from which phase to which, with which answer. *)
Definition transition (o : op) (p : phase) (r : answer) (q : phase) : Prop :=
  match o, r with
  | Bind _, Bool b =>
      match p with NoFd => (q = NoFd ∧ b = false) ∨ ∃ fd, q = Opened fd | _ => q = p end
  | Listen _, Bool b => q = p ∧ (p = NoFd → b = false)
  | Connect _ _, Bool true =>
      ∃ fd, q = Connected fd ∧ (p = NoFd ∨ p = Opened fd ∨ p = Connected fd)
  | Connect _ _, Bool false => q = NoFd ∨ q = p ∨ (p = NoFd ∧ ∃ fd, q = Opened fd)
  | Accept _, Client c => q = p ∧ ∀ z, c = Some z → ∃ fd, phase_of z = Some (Connected fd)
  | Close, Bool b => q = NoFd ∧ b = true
  | (Send _ _ _ _ | SendV _ _ _ _ | SendTo _ _ _ _ _ | SendToV _ _ _ _ _
     | Recv _ _ _ _ | RecvV _ _ _ _ | RecvFrom _ _ _ _ _ | RecvFromV _ _ _ _ _), Int n =>
      q = p ∧ ((∀ fd, p ≠ Connected fd) → n = -1)
  | (SetSendTimeout _ | SetRecvTimeout _ | LocalAddress | RemoteAddress), Unit => q = p
  | CancelAll, Bool _ => q = p
  | _, _ => False
  end.

Lemma ends_fmap {A B} (f : A → B) (m : M (t K) A) x (Q : B → Socket → Prop) :
  ends m x (λ a, Q (f a)) → ends (f <$> m) x Q.
Proof. intros Hm s Hs. specialize (Hm s Hs). unfold fmap, M_fmap. by destruct (m s). Qed.

Definition allowed (o : op) (x : Socket) (p : phase) (r : answer) (y : Socket) : Prop :=
  stable x y ∧ ∃ q, phase_of y = Some q ∧ transition o p r q.

Lemma not_connected x p : phase_of x = Some p → (∀ fd, p ≠ Connected fd) → m_isConnected x = false.
Proof.
  unfold phase_of. destruct (_ =? _), (m_isConnected x); try done. intros [= <-] Hn. by destruct (Hn (m_sockfd x)).
Qed.

(** An operation that leaves the object alone, and an input or output. *)
Lemma allowed_same o x p r : phase_of x = Some p → transition o p r p → allowed o x p r x.
Proof. intros Hp Ht. split; [done|]. by exists p. Qed.

Lemma ends_io o x p (m : M (t K) Z) :
  phase_of x = Some p →
  ends m x (λ n y, y = x ∧ (m_isConnected x = false → n = -1)) →
  (∀ n, ((∀ fd, p ≠ Connected fd) → n = -1) → transition o p (Int n) p) →
  ends (Int <$> m) x (allowed o x p).
Proof.
  intros Hp Hm Ho. apply ends_fmap. eapply ends_mono; [exact Hm|]. intros n y [-> Hn].
  apply allowed_same; [done|]. apply Ho. intros Hc. by apply Hn, (not_connected x p).
Qed.

Lemma phase_cases x p : phase_of x = Some p →
  (m_sockfd x = -1 ∧ m_isConnected x = false ∧ p = NoFd) ∨
  (m_sockfd x ≠ -1 ∧ m_isConnected x = false ∧ p = Opened (m_sockfd x)) ∨
  (m_sockfd x ≠ -1 ∧ m_isConnected x = true ∧ p = Connected (m_sockfd x)).
Proof.
  unfold phase_of. destruct (Z.eqb_spec (m_sockfd x) (-1)), (m_isConnected x); naive_solver.
Qed.

Lemma phase_NoFd x : m_isConnected x = false → m_sockfd x = -1 → phase_of x = Some NoFd.
Proof. intros H1 H2. unfold phase_of. by rewrite H1, H2. Qed.
Lemma phase_fd x : m_sockfd x ≠ -1 →
  phase_of x = Some (if m_isConnected x then Connected (m_sockfd x) else Opened (m_sockfd x)).
Proof. intros H1. unfold phase_of. by rewrite (proj2 (Z.eqb_neq _ _) H1). Qed.

Lemma run_bind addr x p : phase_of x = Some p → ends (run (Bind addr)) x (allowed (Bind addr) x p).
Proof.
  intros Hp. apply ends_fmap. eapply ends_mono; [apply ends_bind_op|]. intros b y (Hst & Hc & Hfd & Hb).
  split; [done|]. destruct (phase_cases x p Hp) as [(H1 & H2 & ->)|[(H1 & H2 & ->)|(H1 & H2 & ->)]].
  - destruct (decide (m_sockfd y = -1)) as [Hy|Hy].
    + exists NoFd. split; [apply phase_NoFd; congruence|]. left. split; [done|]. destruct b; [|done].
      by destruct Hb.
    + exists (Opened (m_sockfd y)). rewrite phase_fd, Hc, H2 by done. split; [done|]. right. by eexists.
  - exists (Opened (m_sockfd x)). rewrite phase_fd, Hc, H2, Hfd by (rewrite ?Hfd; done). done.
  - exists (Connected (m_sockfd x)). rewrite phase_fd, Hc, H2, Hfd by (rewrite ?Hfd; done). done.
Qed.

Lemma run_connect addr to x p :
  phase_of x = Some p → ends (run (Connect addr to)) x (allowed (Connect addr to) x p).
Proof.
  intros Hp. apply ends_fmap. eapply ends_mono; [apply ends_connect|]. intros [] y (Hst & Hy).
  - destruct Hy as (Hc & Hy & Hfd). split; [done|]. exists (Connected (m_sockfd y)).
    rewrite phase_fd, Hc by done. split; [done|]. exists (m_sockfd y). split; [done|].
    destruct (phase_cases x p Hp) as [(H1 & H2 & ->)|[(H1 & H2 & ->)|(H1 & H2 & ->)]];
      [by left|right; left|right; right]; by rewrite Hfd.
  - split; [done|]. destruct Hy as [[Hc Hfd]|[Hc Hfd]].
    { exists NoFd. split; [by apply phase_NoFd|by left]. }
    destruct (phase_cases x p Hp) as [(H1 & H2 & ->)|[(H1 & H2 & ->)|(H1 & H2 & ->)]].
    + destruct (decide (m_sockfd y = -1)) as [Hy|Hy].
      * exists NoFd. split; [apply phase_NoFd; congruence|by left].
      * exists (Opened (m_sockfd y)). rewrite phase_fd, Hc, H2 by done. split; [done|]. right. right.
        split; [done|]. by eexists.
    + eexists. rewrite phase_fd, Hc, H2, Hfd by (rewrite ?Hfd; done). split; [done|]. right. by left.
    + eexists. rewrite phase_fd, Hc, H2, Hfd by (rewrite ?Hfd; done). split; [done|]. right. by left.
Qed.

Lemma run_ends o x p : phase_of x = Some p → ends (run o) x (allowed o x p).
Proof.
  intros Hp. destruct o; try (apply ends_io; [done| |by intros n Hn; split];
    apply ends_if_connected, ends_sysM; [apply no_exn_do_io|done]).
  - by apply run_bind.
  - apply ends_fmap. eapply ends_mono; [apply ends_listen|]. intros b y [-> Hb].
    apply allowed_same; [done|]. split; [done|]. intros ->. destruct b; [|done].
    destruct (phase_cases x _ Hp) as [(H1 & _)|[(_ & _ & ?)|(_ & _ & ?)]]; try done. by destruct Hb.
  - by apply run_connect.
  - apply ends_fmap. eapply ends_mono; [apply ends_accept|]. intros c y [-> Hc].
    apply allowed_same; [done|]. split; [done|]. intros z Hz. destruct (Hc z Hz) as (H1 & H2 & _).
    exists (m_sockfd z). by rewrite phase_fd, H1.
  - apply ends_fmap. eapply ends_mono; [apply ends_close|]. intros b y (-> & Hst & Hc & Hfd).
    split; [done|]. exists NoFd. split; [by apply phase_NoFd|done].
  - apply ends_fmap. unfold recvFrom. apply ends_bind, ends_this.
    destruct (m_isConnected x) eqn:Ec.
    + apply ends_bind, ends_sysM; [apply no_exn_do_io|]. intros n. apply ends_bind. intros s Hs.
      subst x. intros s' Hs'. rewrite <-Hs' in *. apply (allowed_same _ _ p); [done|]. split; [done|].
      intros Hnc. by rewrite (not_connected _ p Hp Hnc) in Ec.
    + apply ends_ret, allowed_same; [done|]. by split.
  - apply ends_fmap. unfold setSendTimeout. apply ends_bind.
    eapply ends_mono; [apply ends_setSockOpt|]. intros _ y ->. by apply ends_ret, allowed_same.
  - apply ends_fmap. unfold setRecvTimeout. apply ends_bind.
    eapply ends_mono; [apply ends_setSockOpt|]. intros _ y ->. by apply ends_ret, allowed_same.
  - apply ends_fmap. eapply ends_mono; [apply ends_getLocalAddress|]. intros a y Hy; cbv beta in Hy.
    split; [apply Hy|]. exists p. by rewrite (same_phase_of _ _ Hy).
  - apply ends_fmap. eapply ends_mono; [apply ends_getRemoteAddress|]. intros a y Hy; cbv beta in Hy.
    split; [apply Hy|]. exists p. by rewrite (same_phase_of _ _ Hy).
  - apply ends_fmap. unfold cancelAll, cancel. apply ends_bind, ends_this.
    destruct in_iom; [|by intros s Hs]. apply ends_sysM; [auto with quiet|]. intros b. by apply allowed_same.
Qed.


(** *** The remembered peer *)
Definition sock_step (s s' : t K) : Prop := ∃ o r, run o s = Ok r s'.

(** Once a socket has found the address of its peer, it reports this
    address whatever is done with it, also after it was closed and connected to
    somebody else: closing does not forget the addresses. *)
Theorem peer_is_remembered (s s' : t K) (a : Address.Addr) :
  phase_of (sock s) ≠ None → m_remoteAddress (sock s) = Some a → star sock_step s s' →
  getRemoteAddress s' = Ok a s'.
Proof.
  intros Hp Ha Hstar.
  assert (phase_of (sock s') ≠ None ∧ m_remoteAddress (sock s') = Some a) as [_ Ha'].
  { apply (star_invariant sock_step (λ s, phase_of (sock s) ≠ None ∧ m_remoteAddress (sock s) = Some a))
      in Hstar; [done| |done].
    intros u v [Hu Hua] (o & r & Hrun). destruct (phase_of (sock u)) as [p|] eqn:E; [|done].
    pose proof (run_ends o (sock u) p E u eq_refl) as Hend. rewrite Hrun in Hend.
    destruct Hend as [Hst (q & -> & _)]. split; [done|]. by apply Hst. }
  unfold getRemoteAddress, this. unfold_M. by rewrite Ha'.
Qed.

(** *** Timeouts *)
Lemma timeval_of_ms v : 0 ≤ v < 2 ^ 31 * 1000 →
  timeval_of v = OptTimeval (v / 1000) (v `mod` 1000 * 1000) ∧
  ∀ h : Hook.t K, Hook.timeval_ms (v / 1000) (v `mod` 1000 * 1000) h = Ok v h.
Proof.
  intros Hv. assert (0 ≤ v / 1000 < 2 ^ 31) as Hq by (split; [apply Z.div_pos; lia|apply Z.div_lt_upper_bound; lia]).
  pose proof (Z.mod_pos_bound v 1000 ltac:(lia)) as Hm.
  assert (∀ z, 0 ≤ z < 2 ^ 31 → in_sint 32 z) as Hin by (unfold in_sint; simpl; lia).
  split.
  - unfold timeval_of. rewrite Z.quot_div_nonneg, Z.rem_mod_nonneg by lia.
    rewrite !sint_id by (try apply Hin; lia). done.
  - intros h. pose proof (Z.div_mod v 1000 ltac:(lia)) as Hdm.
    unfold Hook.timeval_ms, signed. unfold_M.
    rewrite Z.quot_div_nonneg, Z.div_mul by lia.
    rewrite !decide_True by (unfold in_sint; simpl; lia). unfold_M. f_equal.
    rewrite uint_id by (unfold in_uint; lia). lia.
Qed.

Definition timeout_option (optname : Z) : Prop :=
  optname = FdManager.SO_RCVTIMEO ∨ optname = FdManager.SO_SNDTIMEO.

(** The context that the table has for a descriptor. *)
Definition context (h : Hook.t K) (fd : Z) : option FdManager.FdCtx :=
  if fd <? 0 then None else mjoin (FdManager.m_fds (Hook.fds h) !! Z.to_nat fd).

Lemma FdMgr_get_context h fd c : context h fd = Some c →
  Hook.FdMgr_get fstat fcntl_f fd false h = Ok (Some c) h.
Proof.
  unfold context. destruct (Z.ltb_spec fd 0) as [|Hfd]; [done|]. intros Hc.
  destruct (FdManager.m_fds (Hook.fds h) !! Z.to_nat fd) as [[c'|]|] eqn:E; try done.
  simpl in Hc. simplify_eq. apply lookup_lt_Some in E as Hlt.
  unfold Hook.FdMgr_get, Hook.fdm, FdManager.get_fd, FdManager.index. unfold_M.
  rewrite (proj2 (Z.eqb_neq fd (-1))) by lia.
  rewrite (proj2 (Z.leb_gt _ _)) by lia. rewrite (proj2 (Z.ltb_ge fd 0)) by lia. rewrite E.
  by destruct h as [[k l] e b].
Qed.

Lemma set_timeout_spec optname v s c : timeout_option optname → 0 ≤ v < 2 ^ 31 * 1000 →
  Hook.t_hook_enable (sys s) = true → context (sys s) (m_sockfd (sock s)) = Some c →
  wp (setSockOpt fstat fcntl_f Hook.SOL_SOCKET optname (timeval_of v)) (λ _ s',
    sock s' = sock s ∧
    context (sys s') (m_sockfd (sock s)) = Some (FdManager.setTimeout optname v c)) s.
Proof.
  intros Hopt Hv Hen Hc. destruct (timeval_of_ms v Hv) as [-> Hms].
  unfold setSockOpt, Hook.setsockopt, Hook.is_hook_enable, this, sysM, wp. unfold_M. rewrite Hen. cbn [negb].
  rewrite (proj2 (orb_true_iff _ _)) by (destruct Hopt as [-> | ->]; [by left|by right]).
  cbn [Z.eqb Hook.SOL_SOCKET Pos.eqb andb].
  rewrite (FdMgr_get_context _ _ _ Hc), Hms. unfold Hook.fdm, FdManager.update, Hook.call. unfold_M.
  destruct (k_setsockopt _ _ _ _ _) as [[n e] k].
  assert (∀ h, FdManager.m_fds (Hook.fds h) =
      alter (fmap (FdManager.setTimeout optname v)) (Z.to_nat (m_sockfd (sock s)))
        (FdManager.m_fds (Hook.fds (sys s))) →
    context h (m_sockfd (sock s)) = Some (FdManager.setTimeout optname v c)) as Hctx.
  { intros h Hh. unfold context in *. rewrite Hh. destruct (_ <? 0); [done|].
    rewrite list_lookup_alter_eq. destruct (FdManager.m_fds (Hook.fds (sys s)) !! _) as [[c'|]|]; try done.
    simpl in *. by simplify_eq. }
  split; [done|]. apply Hctx. by destruct (n =? -1).
Qed.

(** A timeout of a socket that the hooks know, in milliseconds and below
    [2^31] seconds, is what reading it gives back, for receiving and for sending;
    it is the one the hooked calls wait with, and the kernel's answer to the
    option does not matter. *)
Theorem timeout_round_trip (s : t K) (c : FdManager.FdCtx) (v : Z) :
  0 ≤ v < 2 ^ 31 * 1000 → Hook.t_hook_enable (sys s) = true →
  context (sys s) (m_sockfd (sock s)) = Some c →
  (∃ s', setRecvTimeout fstat fcntl_f v s = Ok tt s' ∧ sock s' = sock s ∧
         getRecvTimeout fstat fcntl_f s' = Ok v s') ∧
  (∃ s', setSendTimeout fstat fcntl_f v s = Ok tt s' ∧ sock s' = sock s ∧
         getSendTimeout fstat fcntl_f s' = Ok v s').
Proof.
  intros Hv Hen Hc.
  assert (∀ optname, timeout_option optname → ∃ s' b,
    setSockOpt fstat fcntl_f Hook.SOL_SOCKET optname (timeval_of v) s = Ok b s' ∧ sock s' = sock s ∧
    getTimeout fstat fcntl_f optname s' = Ok v s') as Hall.
  { intros optname Hopt. pose proof (set_timeout_spec optname v s c Hopt Hv Hen Hc) as Hset.
    apply wp_ok in Hset as (b & s' & Hrun & Hs' & Hctx). exists s', b. split_and!; try done.
    unfold getTimeout, this, sysM. unfold_M. rewrite Hs', (FdMgr_get_context _ _ _ Hctx).
    assert (sint 64 (FdManager.getTimeout optname (FdManager.setTimeout optname v c)) = v) as ->.
    { destruct Hopt as [-> | ->]; simpl; apply sint_id; unfold in_sint; lia. }
    rewrite <-Hs'. by destruct s'. }
  unfold setRecvTimeout, setSendTimeout, getRecvTimeout, getSendTimeout. split.
  - destruct (Hall FdManager.SO_RCVTIMEO) as (s' & b & Hrun & ? & ?); [by left|].
    exists s'. unfold_M. by rewrite Hrun.
  - destruct (Hall FdManager.SO_SNDTIMEO) as (s' & b & Hrun & ? & ?); [by right|].
    exists s'. unfold_M. by rewrite Hrun.
Qed.
End socket.

(** ** An example: a kernel on which everything succeeds *)
#[local] Instance little : Host := WINDGENT_LITTLE_ENDIAN.
#[local] Instance idle_iom : Hook.IOM unit := {
  iom_addCondTimer _ _ _ k := k; iom_cancelTimer k := k; iom_addEvent _ _ k := (0, k);
  iom_yield k := (false, k); iom_addTimer _ k := k; iom_hold k := k; iom_cancelAll _ k := k
}.
Definition yes : Hook.syscall (K := unit) := λ k, (0, 0, k).
#[local] Instance easy_kernel : Kernel unit := {
  k_socket _ _ _ := λ k, (5, 0, k); k_bind _ _ _ := yes; k_listen _ _ := yes; k_connect _ _ _ := yes;
  k_so_error _ := λ k, (0, 0, k); k_accept _ := λ k, (6, 0, k); k_close _ := yes;
  k_send _ _ n _ := λ k, (n, 0, k); k_sendto _ _ n _ _ _ := λ k, (n, 0, k); k_sendmsg _ _ _ := yes;
  k_recv _ _ n _ := λ k, (n, 0, k); k_recvfrom _ _ n _ _ := λ k, (n, 0, k); k_recvmsg _ _ _ := yes;
  k_name _ := []; k_setsockopt _ _ _ _ := yes; k_getsockopt _ _ _ := λ k, (0, 0, 0, k);
  k_getsockname _ n := λ k, (0, 0, [], n, k); k_getpeername _ n := λ k, (0, 0, [], n, k)
}.
#[local] Instance idle_canceller : Canceller unit := {
  iom_cancelEvent _ _ k := (true, k); iom_cancelAllEvents _ k := (true, k)
}.

Definition is_socket (fd : Z) (k : unit) : option bool := Some true.
Definition no_fcntl (fd cmd arg : Z) (k : unit) : Z * unit := (0, k).

Definition thread : Hook.t unit := Hook.mk (FdManager.new tt) 0 true.
Definition fresh : t unit := mk_t thread createTCPSocket.
Definition server_addr : Address.Addr := Address.IPv4Address (Address.IPv4Address_new 2130706433 80).
Abbreviation run0 := (run is_socket no_fcntl true FdManager.no_timeout).
Definition after (o : op) (s : t unit) : t unit := match run0 o s with Ok _ s' => s' | _ => s end.
Definition connected_socket : t unit := after (Connect server_addr FdManager.no_timeout) fresh.


Lemma peer_is_remembered_witness :
  let s' := after (Connect server_addr FdManager.no_timeout) (after Close connected_socket) in
  getRemoteAddress s' = Ok (Address.IPv4Address (Address.IPv4Address_new 0 0)) s'.
Proof.
  apply (peer_is_remembered is_socket no_fcntl true FdManager.no_timeout connected_socket).
  - by vm_compute.
  - by vm_compute.
  - apply (star_snoc _ _ (after Close connected_socket)); [apply star_one; exists Close, (Bool true); by vm_compute|].
    exists (Connect server_addr FdManager.no_timeout), (Bool true). by vm_compute.
Defined.

Lemma timeout_round_trip_witness :
  ∃ s', setRecvTimeout is_socket no_fcntl 1500 connected_socket = Ok tt s' ∧
        getRecvTimeout is_socket no_fcntl s' = Ok 1500 s'.
Proof.
  destruct (timeout_round_trip is_socket no_fcntl connected_socket
    (FdManager.mk_ctx true true true false false 5 FdManager.no_timeout FdManager.no_timeout) 1500)
    as [(s' & Hrun & _ & Hget) _].
  - lia.
  - by vm_compute.
  - by vm_compute.
  - exists s'. exact (conj Hrun Hget).
Defined.
End SocketProps.
