(* ===== verification/TcpServer.v ===== *)
(** TCP servers: [tcp_server.h] and [tcp_server.cc].

    Sockets are shared objects at pointers of a heap; one that nothing refers to
    any more is closed by its destructor. What the server schedules on its two IO
    managers is a list of tasks each, which hold on to their sockets until they
    are finished; what a task does is a function of this module. A round of the accepting loop is one step: while it waits in
    [accept], others may run. *)
From stdpp Require Import base list gmap numbers option.
From Stdlib Require Import ZArith Lia.
From S2P Require Import Prelude Endian FdManager Hook Address Socket.

Module TcpServer.
Import Socket.
Local Open Scope Z_scope.

(** What is scheduled: accepting on a socket, the function of stop, a client. *)
Inductive task := AcceptTask (sock : Z) | StopTask | ClientTask (client : Z).

#[export] Instance task_eq_dec : EqDecision task.
Proof. solve_decision. Defined.

Section server.
Context {host : Host} {K : Type} `{!Hook.IOM K, !Kernel K, !Canceller K}.
Variable fstat : Z → K → option bool.
Variable fcntl_f : Z → Z → Z → K → Z * K.
Variable in_iom : bool.

Record t := mk {
  thread : Hook.t K;
  heap : gmap Z Socket;
  next : Z;
  m_socks : list Z;
  m_isStop : bool;
  m_recvTimeout : Z;
  m_acceptWorker : list task;
  m_worker : list task
}.

Definition set_thread h (s : t) : t :=
  mk h (heap s) (next s) (m_socks s) (m_isStop s) (m_recvTimeout s) (m_acceptWorker s) (m_worker s).
Definition set_heap h (s : t) : t :=
  mk (thread s) h (next s) (m_socks s) (m_isStop s) (m_recvTimeout s) (m_acceptWorker s) (m_worker s).
Definition set_socks l (s : t) : t :=
  mk (thread s) (heap s) (next s) l (m_isStop s) (m_recvTimeout s) (m_acceptWorker s) (m_worker s).
Definition set_stop b (s : t) : t :=
  mk (thread s) (heap s) (next s) (m_socks s) b (m_recvTimeout s) (m_acceptWorker s) (m_worker s).
Definition setReadTimeout v (s : t) : t :=
  mk (thread s) (heap s) (next s) (m_socks s) (m_isStop s) v (m_acceptWorker s) (m_worker s).
Definition schedule_accept x (s : t) : t :=
  mk (thread s) (heap s) (next s) (m_socks s) (m_isStop s) (m_recvTimeout s)
    (m_acceptWorker s ++ [x]) (m_worker s).
Definition schedule_worker x (s : t) : t :=
  mk (thread s) (heap s) (next s) (m_socks s) (m_isStop s) (m_recvTimeout s)
    (m_acceptWorker s) (m_worker s ++ [x]).

(** The constructor, with the configured timeout. *)
Definition new (h : Hook.t K) (read_timeout : Z) : t := mk h ∅ 0 [] true read_timeout [] [].

(** A method of the socket at [p]. *)
Definition on {A} (p : Z) (m : M (Socket.t K) A) : M t A := λ s,
  match heap s !! p with
  | None => Fault NullDeref
  | Some x =>
      match m (mk_t (thread s) x) with
      | Ok a u => Ok a (set_thread (sys u) (set_heap (<[p := sock u]> (heap s)) s))
      | Exn e u => Exn e (set_thread (sys u) (set_heap (<[p := sock u]> (heap s)) s))
      | Fault f => Fault f
      end
  end.

Definition alloc (x : Socket) : M t Z := λ s,
  Ok (next s) (mk (thread s) (<[next s := x]> (heap s)) (next s + 1) (m_socks s) (m_isStop s)
                 (m_recvTimeout s) (m_acceptWorker s) (m_worker s)).

Definition close_at (p : Z) : M t unit := _ ← on p (close fstat fcntl_f in_iom); mret tt.

(** A pointer goes out of scope; [~Socket] closes. *)
Definition release (p : Z) : M t unit :=
  s ← get;
  if bool_decide (p ∈ m_socks s) || bool_decide (AcceptTask p ∈ m_acceptWorker s)
     || bool_decide (ClientTask p ∈ m_worker s)
  then mret tt
  else _ ← close_at p; modify (λ s, set_heap (delete p (heap s)) s).

(** [m_socks.clear()] *)
Definition clear_socks : M t unit :=
  s ← get;
  _ ← modify (set_socks []);
  forM (m_socks s) release.

Definition SOMAXCONN : Z := 4096.

(** One round of the loop of bind: whether the address failed. *)
Definition bind_one (addr : Address.Addr) : M t bool :=
  p ← alloc (createTCP addr);
  b ← on p (bind fstat fcntl_f addr);
  if negb b then _ ← release p; mret true
  else
    l ← on p (listen SOMAXCONN);
    if negb l then _ ← release p; mret true
    else _ ← modify (λ s, set_socks (m_socks s ++ [p]) s); mret false.

Fixpoint bind_loop (addrs fails : list Address.Addr) : M t (list Address.Addr) :=
  match addrs with
  | [] => mret fails
  | addr :: l =>
      failed ← bind_one addr;
      bind_loop l (if failed : bool then fails ++ [addr] else fails)
  end.

(** [fails] is passed by value: the caller's vector stays as it is. *)
Definition bind_all (addrs fails : list Address.Addr) : M t bool :=
  fails ← bind_loop addrs fails;
  match fails with
  | _ :: _ => _ ← clear_socks; mret false
  | [] => mret true
  end.

Definition bind (addr : Address.Addr) : M t bool := bind_all [addr] [].

Definition start : M t bool :=
  s ← get;
  if negb (m_isStop s) then mret true
  else
    _ ← modify (set_stop false);
    _ ← forM (m_socks s) (λ p, modify (schedule_accept (AcceptTask p)));
    mret true.

Definition stop : M t unit :=
  _ ← modify (set_stop true);
  modify (schedule_accept StopTask).

(** The function that stop schedules. *)
Definition stop_task : M t unit :=
  s ← get;
  _ ← forM (m_socks s) (λ p, _ ← on p (cancelAll in_iom); close_at p);
  clear_socks.

(** One round of handleAccept behind the test. *)
Definition accept_round (fuel : nat) (p : Z) : M t unit :=
  client ← on p (accept fstat fcntl_f fuel);
  match client with
  | Some x =>
      c ← alloc x;
      s ← get;
      _ ← on c (setRecvTimeout fstat fcntl_f (sint 64 (m_recvTimeout s)));
      modify (schedule_worker (ClientTask c))
  | None => mret tt
  end.

Fixpoint handleAccept (rounds fuel : nat) (p : Z) : M t unit :=
  match rounds with
  | O => faultM FuelExhausted
  | S rounds' =>
      s ← get;
      if m_isStop s then mret tt
      else _ ← accept_round fuel p; handleAccept rounds' fuel p
  end.

(** The destructor. *)
Definition destroy : M t unit :=
  s ← get;
  _ ← forM (m_socks s) close_at;
  clear_socks.
End server.
Arguments t : clear implicits.
End TcpServer.
