(* ===== verification/TcpServerProps.v ===== *)
(** TCP servers: binding all addresses or none, and what a restart leaves. *)
From stdpp Require Import base list gmap numbers option.
From Stdlib Require Import ZArith Lia.
From S2P Require Import Prelude Endian FdManager Hook Address Socket SocketProps TcpServer.

Module TcpServerProps.
Import Socket SocketProps TcpServer.
Local Open Scope Z_scope.

Section server.
Context {host : Host} {K : Type} `{!Hook.IOM K, !Kernel K, !Canceller K}.
Context (fstat : Z → K → option bool) (fcntl_f : Z → Z → Z → K → Z * K) (in_iom : bool).
Abbreviation server := (TcpServer.t K).

(** What holds when the code returns; it does not throw. *)
Definition pwp {A} (m : M server A) (Q : A → server → Prop) (s : server) : Prop :=
  match m s with Ok a s' => Q a s' | Exn _ _ => False | Fault _ => True end.

Lemma pwp_bind {A B} (m : M server A) (k : A → M server B) Q s :
  pwp m (λ a s', pwp (k a) Q s') s → pwp (m ≫= k) Q s.
Proof. unfold pwp, mbind, M_bind. by destruct (m s). Qed.

Lemma pwp_mono {A} (m : M server A) (P Q : A → server → Prop) s :
  pwp m P s → (∀ a s', P a s' → Q a s') → pwp m Q s.
Proof. unfold pwp. destruct (m s); eauto. Qed.

(** A method of one socket changes that socket and the thread. *)
Lemma pwp_on {A} p (m : M (Socket.t K) A) x (P : A → Socket → Prop) (Q : A → server → Prop) s :
  heap s !! p = Some x → ends m x P →
  (∀ a y h, P a y → Q a (set_thread h (set_heap (<[p := y]> (heap s)) s))) →
  pwp (on p m) Q s.
Proof.
  intros Hp Hm HQ. unfold pwp, on. rewrite Hp. specialize (Hm (mk_t (thread s) x) eq_refl).
  destruct (m _) as [a u| |]; [by apply HQ|done..].
Qed.

(** The server with another heap and thread. *)
Definition moved (s s' : server) : Prop :=
  m_socks s' = m_socks s ∧ m_isStop s' = m_isStop s ∧ m_recvTimeout s' = m_recvTimeout s ∧
  m_acceptWorker s' = m_acceptWorker s ∧ m_worker s' = m_worker s.

#[export] Instance moved_preorder : PreOrder moved.
Proof.
  split; [by intros s|]. intros s1 s2 s3 (H1 & H2 & H3 & H4 & H5) (G1 & G2 & G3 & G4 & G5).
  split_and!; congruence.
Qed.

Definition closed (s : server) (p : Z) : Prop :=
  ∃ x, heap s !! p = Some x ∧ m_sockfd x = -1 ∧ m_isConnected x = false.

(** Closing or another method keeps the closed ones closed. *)
Lemma close_at_spec p x s : heap s !! p = Some x →
  pwp (close_at fstat fcntl_f in_iom p) (λ _ s', moved s s' ∧ closed s' p ∧
    next s' = next s ∧ ∀ q, q ≠ p → heap s' !! q = heap s !! q) s.
Proof.
  intros Hp. unfold close_at. apply pwp_bind. eapply pwp_on; [exact Hp|apply ends_close|].
  intros b y h (_ & _ & Hc & Hfd). split; [done|]. split; [|split].
  - exists y. split; [apply lookup_insert_eq|done].
  - done.
  - intros q Hq. simpl. by rewrite lookup_insert_ne.
Qed.

Lemma ends_cancelAll x : ends (K := K) (cancelAll in_iom) x (λ _ y, y = x).
Proof.
  unfold cancelAll, cancel. apply ends_bind, ends_this. destruct in_iom; [|by intros s Hs].
  apply ends_sysM; [auto with quiet|done].
Qed.

(** Cancelling and closing each of a list of sockets. *)
Lemma close_each l : ∀ s, (∀ p, p ∈ l → is_Some (heap s !! p)) →
  pwp (forM l (λ p, _ ← on p (cancelAll in_iom); close_at fstat fcntl_f in_iom p))
    (λ _ s', moved s s' ∧ next s' = next s ∧ (∀ p, p ∈ l → closed s' p) ∧
       ∀ q, q ∉ l → heap s' !! q = heap s !! q) s.
Proof.
  induction l as [|p l IH]; intros s Hl.
  { split_and!; try done. by intros p ?%elem_of_nil. }
  destruct (Hl p) as [x Hx]; [by left|]. cbn [forM]. apply pwp_bind, pwp_bind.
  eapply pwp_on; [exact Hx|apply ends_cancelAll|]. intros b y h ->.
  eapply pwp_mono; [eapply close_at_spec, lookup_insert_eq|].
  intros _ s1 (Hm1 & Hc1 & Hn1 & Ho1). eapply pwp_mono; [apply IH|].
  - intros q Hq. destruct (decide (q = p)) as [->|Hne].
    + destruct Hc1 as (z & Hz & _). by rewrite Hz.
    + rewrite Ho1 by done. simpl. rewrite lookup_insert_ne by done. apply Hl. by right.
  - intros _ s2 (Hm2 & Hn2 & Hc2 & Ho2). split; [by etrans|]. split; [by rewrite Hn2, Hn1|]. split.
    + intros q [->|Hq]%elem_of_cons; [|by apply Hc2]. destruct (decide (p ∈ l)) as [Hin|Hin]; [by apply Hc2|].
      destruct Hc1 as (z & Hz & ?). exists z. by rewrite Ho2.
    + intros q [Hq1 Hq2]%not_elem_of_cons. rewrite Ho2, Ho1 by done. simpl. by rewrite lookup_insert_ne.
Qed.

(** Sockets that tasks hold are not destroyed. *)
Lemma release_held l : ∀ s, (∀ p, p ∈ l → AcceptTask p ∈ m_acceptWorker s) →
  forM l (release fstat fcntl_f in_iom) s = Ok tt s.
Proof.
  induction l as [|p l IH]; intros s Hl; [done|]. cbn [forM].
  unfold mbind at 1, M_bind. unfold release at 1. unfold_M.
  rewrite (bool_decide_eq_true_2 (AcceptTask p ∈ _)) by (apply Hl; by left).
  rewrite orb_true_r. unfold_M. apply IH. intros q Hq. apply Hl. by right.
Qed.

(** *** A loop that does not end *)
Lemma accept_refused fuel p x s : (0 < fuel)%nat →
  (∀ k, ∃ e k', k_accept (-1) k = (-1, e, k')) →
  heap s !! p = Some x → m_sockfd x = -1 →
  ∃ h, accept_round fstat fcntl_f fuel p s = Ok tt (set_thread h (set_heap (<[p := x]> (heap s)) s)).
Proof.
  intros Hfuel Hk Hp Hfd. unfold accept_round, on. unfold mbind at 1, M_bind. rewrite Hp.
  assert (∃ h, accept fstat fcntl_f fuel (mk_t (thread s) x) = Ok None (mk_t h x)) as [h ->]; [|by exists h].
  unfold accept, this, sysM. unfold_M. cbn [sock sys]. rewrite Hfd.
  assert (∃ h, Hook.accept fstat fcntl_f fuel (-1) (k_accept (-1)) (thread s) = Ok (-1) h) as [h ->];
    [|by exists h].
  assert (∃ h, Hook.call (k_accept (-1)) (thread s) = Ok (-1) h) as [h Hcall].
  { unfold Hook.call. destruct (Hk (Hook.k_of (thread s))) as (e & k' & ->). by eexists. }
  exists h. unfold Hook.accept, Hook.do_io, Hook.is_hook_enable, Hook.FdMgr_get, Hook.fdm, FdManager.get_fd.
  unfold_M. destruct (Hook.t_hook_enable (thread s)); cbn [negb Z.eqb Pos.eqb];
    [replace (Hook.mk _ _ _) with (thread s) by (by destruct (thread s))|]; by rewrite Hcall.
Qed.

Lemma handleAccept_spins rounds : ∀ fuel p x s, (0 < fuel)%nat →
  (∀ k, ∃ e k', k_accept (-1) k = (-1, e, k')) →
  m_isStop s = false → heap s !! p = Some x → m_sockfd x = -1 →
  handleAccept fstat fcntl_f rounds fuel p s = Fault FuelExhausted.
Proof.
  induction rounds as [|rounds IH]; intros fuel p x s Hfuel Hk Hs Hp Hfd; [done|].
  cbn [handleAccept]. unfold_M. rewrite Hs. unfold mbind, M_bind.
  destruct (accept_refused fuel p x s Hfuel Hk Hp Hfd) as [h ->].
  eapply (IH fuel p x); try done. simpl. apply lookup_insert_eq.
Qed.

(** The server with tasks for accepting behind the others. *)
Definition with_tasks (b : bool) (l : list Z) (s : server) : server :=
  TcpServer.mk (thread s) (heap s) (next s) (m_socks s) b (m_recvTimeout s)
    (m_acceptWorker s ++ (AcceptTask <$> l)) (m_worker s).

Lemma schedule_all l : ∀ s : server,
  forM l (λ p, modify (schedule_accept (AcceptTask p))) s = Ok tt (with_tasks (m_isStop s) l s).
Proof.
  induction l as [|p l IH]; intros s.
  { unfold with_tasks. rewrite app_nil_r. by destruct s. }
  cbn [forM]. unfold mbind, M_bind, modify. rewrite IH. unfold with_tasks. simpl. by rewrite <-app_assoc.
Qed.

Lemma start_spec s : m_isStop s = true → start s = Ok true (with_tasks false (m_socks s) s).
Proof. intros Hs. unfold start. unfold_M. rewrite Hs. cbn [negb]. unfold_M. by rewrite schedule_all. Qed.

(** A server that is started, stopped and started again before the IO
    manager came to the function that the stop scheduled loses its sockets: once
    this function has run, the server counts as running, but has no socket, and
    each of its accepting loops, which are all scheduled twice, never ends: on
    the closed descriptor [accept] fails at once, and the loop only asks whether
    the server was stopped. (The function runs on a manager, and [accept] fails
    on the descriptor -1.) *)
Theorem restart_spins (s s' : server) :
  (∀ k, ∃ e k', k_accept (-1) k = (-1, e, k')) →
  m_isStop s = true → (∀ p, p ∈ m_socks s → is_Some (heap s !! p)) →
  (_ ← start; _ ← stop; _ ← start; stop_task fstat fcntl_f in_iom) s = Ok tt s' →
  m_isStop s' = false ∧ m_socks s' = [] ∧
  ∀ p rounds fuel, p ∈ m_socks s → (0 < fuel)%nat →
    handleAccept fstat fcntl_f rounds fuel p s' = Fault FuelExhausted.
Proof.
  intros Hk Hstop Hheap Hrun.
  unfold mbind at 1, M_bind in Hrun. rewrite start_spec in Hrun by done.
  unfold mbind at 1, M_bind, stop in Hrun. unfold_M.
  rewrite start_spec in Hrun by done. set (s3 := with_tasks _ _ _) in Hrun.
  assert (∀ p, p ∈ m_socks s → AcceptTask p ∈ m_acceptWorker s3) as Hheld.
  { intros p Hp. simpl. rewrite !elem_of_app. right. by apply list_elem_of_fmap_2. }
  assert (pwp (stop_task fstat fcntl_f in_iom) (λ _ s', m_isStop s' = false ∧ m_socks s' = [] ∧
    ∀ p, p ∈ m_socks s → closed s' p) s3) as Htask.
  { unfold stop_task, clear_socks. unfold mbind at 1, M_bind, get. cbn beta iota.
    change (m_socks s3) with (m_socks s). apply pwp_bind.
    eapply pwp_mono; [apply close_each, Hheap|].
    intros _ s4 ((Hm1 & Hm2 & Hm3 & Hm4 & Hm5) & Hn & Hc & _).
    unfold pwp. unfold_M. rewrite Hm1. change (m_socks s3) with (m_socks s).
    rewrite release_held; [done|]. intros p Hp. simpl. rewrite Hm4. by apply Hheld. }
  unfold pwp in Htask. rewrite Hrun in Htask. destruct Htask as (H1 & H2 & H3). split_and!; [done..|].
  intros p rounds fuel Hp Hfuel. destruct (H3 p Hp) as (x & Hx & Hfd & _).
  by apply (handleAccept_spins rounds fuel p x).
Qed.

(** *** Binding *)

(** Pointers in use are older than the next one. *)
Record swf (s : server) : Prop := mk_swf {
  sw_heap : ∀ p, is_Some (heap s !! p) → p < next s;
  sw_socks : ∀ p, p ∈ m_socks s → p < next s;
  sw_tasks : ∀ p, AcceptTask p ∈ m_acceptWorker s ∨ ClientTask p ∈ m_worker s → p < next s
}.

Definition idle_tasks (s s' : server) : Prop :=
  m_acceptWorker s' = m_acceptWorker s ∧ m_worker s' = m_worker s.

Lemma release_spec p s :
  pwp (release fstat fcntl_f in_iom p) (λ _ s', moved s s' ∧ next s' = next s ∧
    (∀ q, q ≠ p → heap s' !! q = heap s !! q) ∧
    (p ∉ m_socks s → AcceptTask p ∉ m_acceptWorker s → ClientTask p ∉ m_worker s → heap s' !! p = None)) s.
Proof.
  unfold release. apply pwp_bind. unfold pwp at 1. unfold get.
  case_bool_decide as E1; [by split_and!|]. case_bool_decide as E2; [by split_and!|].
  case_bool_decide as E3; [by split_and!|]. simpl.
  apply pwp_bind. destruct (heap s !! p) as [x|] eqn:Ex.
  - eapply pwp_mono; [by eapply close_at_spec|]. intros _ s1 (Hm & _ & Hn & Ho). split_and!; simpl.
    + done.
    + done.
    + intros q Hq. by rewrite lookup_delete_ne, Ho.
    + intros _ _ _. apply lookup_delete_eq.
  - unfold close_at, pwp, on. unfold_M. by rewrite Ex.
Qed.

(** A listening socket for an address. *)
Definition bound (s : server) (addr : Address.Addr) (p : Z) : Prop :=
  ∃ x, heap s !! p = Some x ∧ m_sockfd x ≠ -1 ∧ m_family x = Address.getFamily addr ∧ m_type x = TCP.

Lemma bind_one_spec addr s : swf s →
  pwp (bind_one fstat fcntl_f in_iom addr) (λ failed s', swf s' ∧ idle_tasks s s' ∧
    next s' = next s + 1 ∧ (∀ q, q ≠ next s → heap s' !! q = heap s !! q) ∧
    if failed then m_socks s' = m_socks s ∧ heap s' !! next s = None
    else m_socks s' = m_socks s ++ [next s] ∧ bound s' addr (next s)) s.
Proof.
  intros [Hh Hs Ht]. unfold bind_one. apply pwp_bind. unfold pwp at 1, alloc.
  set (p := next s). set (x := createTCP addr).
  assert (p ∉ m_socks s ∧ AcceptTask p ∉ m_acceptWorker s ∧ ClientTask p ∉ m_worker s) as (Hp1 & Hp2 & Hp3).
  { split_and!; intros Hp; [apply Hs in Hp|specialize (Ht p (or_introl Hp))|specialize (Ht p (or_intror Hp))];
      unfold p in *; lia. }
  assert (∀ s1 : server, moved s s1 → next s1 = p + 1 → (∀ q, q ≠ p → heap s1 !! q = heap s !! q) → swf s1) as Hswf.
  { intros s1 (H1 & H2 & H3 & H4 & H5) Hn Ho. split; rewrite Hn.
    - intros q Hq. destruct (decide (q = p)) as [->|Hne]; [lia|]. rewrite Ho in Hq by done. apply Hh in Hq. unfold p; lia.
    - rewrite H1. intros q Hq%Hs. unfold p; lia.
    - rewrite H4, H5. intros q Hq%Ht. unfold p; lia. }
  assert (∀ s1 : server, moved s s1 → next s1 = p + 1 → (∀ q, q ≠ p → heap s1 !! q = heap s !! q) →
    pwp (_ ← release fstat fcntl_f in_iom p; mret true) (λ failed s', swf s' ∧ idle_tasks s s' ∧
      next s' = p + 1 ∧ (∀ q, q ≠ p → heap s' !! q = heap s !! q) ∧
      if failed then m_socks s' = m_socks s ∧ heap s' !! p = None
      else m_socks s' = m_socks s ++ [p] ∧ bound s' addr p) s1) as Hfail.
  { intros s1 Hm Hn Ho. pose proof Hm as (H1 & H2 & H3 & H4 & H5). apply pwp_bind.
    eapply pwp_mono; [apply release_spec|]. intros _ s2 (Hm2 & Hn2 & Ho2 & Hnone).
    assert (∀ q, q ≠ p → heap s2 !! q = heap s !! q) as Ho' by (intros q Hq; by rewrite Ho2, Ho).
    assert (moved s s2) as Hms by (by etrans). assert (next s2 = p + 1) as Hns by congruence.
    split_and!; [by apply Hswf|apply Hms..|done|done|apply Hms|].
    apply Hnone; by rewrite ?H1, ?H4, ?H5. }
  apply pwp_bind. eapply pwp_on; [apply lookup_insert_eq|apply ends_bind_op|].
  intros b y h (Hst & _ & _ & Hfd). destruct b; simpl.
  2:{ apply Hfail; [done|done|]. intros q Hq. simpl. by rewrite !lookup_insert_ne. }
  apply pwp_bind. eapply pwp_on; [apply lookup_insert_eq|apply ends_listen|].
  intros l z h' [-> Hl]. destruct l; simpl.
  2:{ apply Hfail; [done|done|]. intros q Hq. simpl. by rewrite !lookup_insert_ne. }
  unfold pwp. simpl. split_and!; try done.
  - destruct (Hswf (set_thread h' (set_heap (<[p := y]> (<[p := y]> (<[p := x]> (heap s))))
      (TcpServer.mk h (heap s) (p + 1) (m_socks s) (m_isStop s) (m_recvTimeout s) (m_acceptWorker s) (m_worker s))))) as [Gh Gs Gt];
      [done|done|intros q Hq; simpl; by rewrite !lookup_insert_ne|]. split; simpl; [exact Gh| |exact Gt].
    intros q [Hq%Gs| ->%list_elem_of_singleton]%elem_of_app; simpl in *; lia.
  - intros q Hq. by rewrite !lookup_insert_ne.
  - exists y. simpl. rewrite lookup_insert_eq. split_and!; [done|by apply Hfd|apply (st_family _ _ Hst)|apply (st_type _ _ Hst)].
Qed.

Lemma bind_loop_spec addrs : ∀ fails s, swf s →
  pwp (bind_loop fstat fcntl_f in_iom addrs fails) (λ fails' s', swf s' ∧ idle_tasks s s' ∧
    next s ≤ next s' ∧ (∀ q, q < next s → heap s' !! q = heap s !! q) ∧
    ∃ ps, m_socks s' = m_socks s ++ ps ∧ (∀ p, p ∈ ps → next s ≤ p) ∧
      (∀ p, next s ≤ p → p ∉ ps → heap s' !! p = None) ∧
      (fails' = [] → fails = [] ∧ Forall2 (bound s') addrs ps)) s.
Proof.
  induction addrs as [|addr addrs IH]; intros fails s Hwf.
  { split_and!; try done; try lia. exists []. split_and!; [by rewrite app_nil_r|by intros p ?%elem_of_nil| |done].
    intros p Hp _. destruct (heap s !! p) eqn:E; [|done]. assert (p < next s); [|lia].
    apply (sw_heap s Hwf). by rewrite E. }
  cbn [bind_loop]. apply pwp_bind. eapply pwp_mono; [by apply bind_one_spec|].
  intros failed s1 (Hwf1 & [Ha1 Hw1] & Hn1 & Ho1 & Hf1).
  eapply pwp_mono; [by apply IH|].
  intros fails' s2 (Hwf2 & [Ha2 Hw2] & Hn2 & Ho2 & ps & Hps & Hnew & Hnone & Hall).
  split_and!; [done|split; congruence|lia|intros q Hq; rewrite Ho2, Ho1 by lia; done|].
  destruct failed.
  - destruct Hf1 as [Hs1 Hnone1]. exists ps. rewrite Hps, Hs1. split_and!; [done| | |].
    + intros p Hp. specialize (Hnew p Hp). lia.
    + intros p Hp Hin. destruct (decide (p = next s)) as [->|Hne]; [by rewrite Ho2 by lia|].
      apply Hnone; [lia|done].
    + intros Hnil. destruct (Hall Hnil) as [Happ _]. by destruct fails.
  - destruct Hf1 as [Hs1 Hb1]. exists (next s :: ps). rewrite Hps, Hs1, <-app_assoc. split_and!; [done| | |].
    + intros p [->|Hp]%elem_of_cons; [lia|]. specialize (Hnew p Hp). lia.
    + intros p Hp [Hne Hin]%not_elem_of_cons. apply Hnone; [lia|done].
    + intros Hnil. destruct (Hall Hnil) as [Hfn Hb2]. split; [done|]. constructor; [|done].
      destruct Hb1 as (x & Hx & ?). exists x. by rewrite Ho2 by lia.
Qed.

Lemma release_all l : ∀ s,
  pwp (forM l (release fstat fcntl_f in_iom)) (λ _ s', moved s s' ∧ next s' = next s ∧
    (∀ q, q ∉ l → heap s' !! q = heap s !! q) ∧
    ∀ p, p ∈ l → p ∉ m_socks s → AcceptTask p ∉ m_acceptWorker s → ClientTask p ∉ m_worker s →
      heap s' !! p = None) s.
Proof.
  induction l as [|p l IH]; intros s; [split_and!; try done; by intros p ?%elem_of_nil|].
  cbn [forM]. apply pwp_bind. eapply pwp_mono; [apply release_spec|].
  intros _ s1 (Hm1 & Hn1 & Ho1 & Hd1). eapply pwp_mono; [apply IH|].
  intros _ s2 (Hm2 & Hn2 & Ho2 & Hd2). pose proof Hm1 as (E1 & _ & _ & E4 & E5).
  split_and!; [by etrans|congruence| |].
  - intros q [Hq1 Hq2]%not_elem_of_cons. by rewrite Ho2, Ho1.
  - intros q Hq H1 H2 H3. destruct (decide (q ∈ l)) as [Hin|Hin]; [by apply Hd2; rewrite ?E1, ?E4, ?E5|].
    rewrite Ho2 by done. apply elem_of_cons in Hq as [->|]; [by apply Hd1|done].
Qed.

End server.

(** ** An example, on the kernel on which everything succeeds but accepting *)
#[local] Existing Instance little.
#[local] Existing Instance idle_iom.
#[local] Existing Instance idle_canceller.
#[local] Existing Instance easy_kernel.
#[local] Instance refusing_kernel : Kernel unit := {
  k_socket := k_socket; k_bind := k_bind; k_listen := k_listen; k_connect := k_connect;
  k_so_error := k_so_error; k_accept fd := λ k, (-1, Hook.EBADF, k); k_close := k_close;
  k_send := k_send; k_sendto := k_sendto; k_sendmsg := k_sendmsg;
  k_recv := k_recv; k_recvfrom := k_recvfrom; k_recvmsg := k_recvmsg;
  k_name := k_name; k_setsockopt := k_setsockopt; k_getsockopt := k_getsockopt;
  k_getsockname := k_getsockname; k_getpeername := k_getpeername
}.

Definition empty_server : TcpServer.t unit := TcpServer.new SocketProps.thread 120000.
Definition bound_server : TcpServer.t unit :=
  match bind_all is_socket no_fcntl true [server_addr] [] empty_server with Ok _ s => s | _ => empty_server end.

Lemma empty_swf : swf empty_server.
Proof.
  split; simpl.
  - intros p Hp. rewrite lookup_empty in Hp. by destruct Hp.
  - by intros p ?%elem_of_nil.
  - by intros p [?%elem_of_nil|?%elem_of_nil].
Qed.


Definition restarted_server : TcpServer.t unit :=
  match (_ ← start; _ ← stop; _ ← start; stop_task is_socket no_fcntl true) bound_server with
  | Ok _ s => s | _ => bound_server end.

Lemma restart_spins_witness :
  m_isStop restarted_server = false ∧ m_socks restarted_server = [] ∧
  handleAccept is_socket no_fcntl 1000 1 0 restarted_server = Fault FuelExhausted.
Proof.
  destruct (restart_spins is_socket no_fcntl true bound_server restarted_server) as (H1 & H2 & H3).
  - intros k. exists Hook.EBADF, k. reflexivity.
  - by vm_compute.
  - assert (m_socks bound_server = [0]) as -> by (by vm_compute).
    intros p ->%list_elem_of_singleton. apply (bool_decide_unpack (is_Some _)). by vm_compute.
  - by vm_compute.
  - split; [exact H1|]. split; [exact H2|]. apply H3; [|lia].
    apply (bool_decide_unpack (0 ∈ m_socks bound_server)). by vm_compute.
Defined.
End TcpServerProps.
