(* ===== verification/AddressTypes.v ===== *)
(** Addresses are well formed: whatever constructors, operations and system calls
    make of them, they keep the layout and the widths of the C structures, so
    that printing, comparing and passing them to the kernel stays inside them. *)
From stdpp Require Import base list numbers option.
From Stdlib Require Import ZArith Lia.
From S2P Require Import Prelude Endian CString FdManager Hook Address AddressProps Socket.

Module AddressTypes.
Import Address.
Local Open Scope Z_scope.

Section types.
Context {host : Host}.

(** The widths of the fields. *)
Definition typed (a : Addr) : Prop :=
  match a with
  | IPv4Address a => in_uint 16 (sin_family a) ∧ in_uint 16 (sin_port a) ∧ in_uint 32 (s_addr a)
  | IPv6Address a =>
      in_uint 16 (sin6_family a) ∧ in_uint 16 (sin6_port a) ∧ in_uint 32 (sin6_flowinfo a) ∧
      (length (s6_addr a) = 16%nat ∧ bytes (s6_addr a)) ∧ in_uint 32 (sin6_scope_id a)
  | UnixAddress a m_len =>
      in_uint 16 (sun_family a) ∧ (length (sun_path a) = 108%nat ∧ bytes (sun_path a)) ∧ 0 ≤ m_len ≤ 110
  | UnknownAddress a => in_uint 16 (sa_family a) ∧ length (sa_data a) = 14%nat ∧ bytes (sa_data a)
  end.

Definition typed_sockaddr (a : sockaddr) : Prop :=
  match a with
  | SIn a => typed (IPv4Address a) | SIn6 a => typed (IPv6Address a) | SAny a => typed (UnknownAddress a)
  end.

(** Everything that makes an address, with arguments of the C++ types. *)
Inductive made : Addr → Prop :=
| made_IPv4 address port :
    in_uint 32 address → in_uint 16 port → made (IPv4Address (IPv4Address_new address port))
| made_IPv6 : made (IPv6Address IPv6Address_new)
| made_IPv6_bytes l port :
    length l = 16%nat → bytes l → in_uint 16 port → made (IPv6Address (IPv6Address_bytes l port))
| made_Unix : made UnixAddress_new
| made_Unix_path path a : bytes path → UnixAddress_path path tt = Ok a tt → made a
| made_Unknown family : in_uint 16 family → made (UnknownAddress_family family)
| made_Create sa a : typed_sockaddr sa → Create (Some sa) = Some a → made a
| made_setPort v a : in_uint 16 v → made a → made (setPort v a)
| made_setAddrLen v a : 0 ≤ v ≤ 110 → made a → made (setAddrLen v a)
| made_broadcast4 p a b :
    made (IPv4Address a) → IPv4_broadcastaAddress a p tt = Ok (Some b) tt → made (IPv4Address b)
| made_network4 p a b :
    made (IPv4Address a) → IPv4_networkAddress a p tt = Ok (Some b) tt → made (IPv4Address b)
| made_mask4 p b : IPv4_subNetMask p tt = Ok (Some b) tt → made (IPv4Address b)
| made_broadcast6 p a b :
    made (IPv6Address a) → IPv6_broadcastaAddress a p tt = Ok b tt → made (IPv6Address b)
| made_network6 p a b :
    made (IPv6Address a) → IPv6_networkAddress a p tt = Ok b tt → made (IPv6Address b)
| made_mask6 p b : IPv6_subNetMask p tt = Ok b tt → made (IPv6Address b)
| made_loaded a d : made a → bytes d → made (Socket.load_address a d).

(** *** Bytes *)
Lemma bytes_object n z : bytes (object_bytes n z).
Proof.
  unfold object_bytes. destruct WINDGENT_BYTE_ORDER; [|apply bytes_rev]; apply le_bytes_bytes.
Qed.

Lemma object_value_range n l : length l = n → bytes l → in_uint (8 * Z.of_nat n) (object_value l).
Proof.
  intros <- Hl. unfold object_value. destruct WINDGENT_BYTE_ORDER; [by apply le_value_range|].
  rewrite <-(length_rev l). by apply le_value_range, bytes_rev.
Qed.

Lemma bytes_app l k : bytes (l ++ k) ↔ bytes l ∧ bytes k.
Proof. apply Forall_app. Qed.
Lemma bytes_take n l : bytes l → bytes (take n l).
Proof. apply Forall_take. Qed.
Lemma bytes_drop n l : bytes l → bytes (drop n l).
Proof. apply Forall_drop. Qed.
Lemma bytes_zeros n : bytes (replicate n 0).
Proof. apply Forall_replicate. lia. Qed.
Lemma bytes_splice l p d : bytes l → bytes d → bytes (splice l p d).
Proof. intros. unfold splice. rewrite !bytes_app. auto using bytes_take, bytes_drop. Qed.
#[local] Hint Resolve bytes_object bytes_take bytes_drop bytes_zeros bytes_splice : core.

Definition layout (a : Addr) : nat :=
  match a with IPv4Address _ => 16 | IPv6Address _ => 28 | UnixAddress _ _ => 110 | UnknownAddress _ => 16 end.

Lemma typed_bytes a : typed a →
  bytes (getAddr a) ∧ length (getAddr a) = layout a ∧ 0 ≤ getAddrLen a ≤ Z.of_nat (layout a).
Proof.
  destruct a as [a|a|a l|a]; cbn [typed getAddr getAddrLen layout].
  - intros _. rewrite !bytes_app, !length_app, !length_object_bytes, length_replicate.
    split_and!; auto; lia.
  - intros (_ & _ & _ & [Hl Hb] & _). rewrite !bytes_app, !length_app, !length_object_bytes, Hl.
    split_and!; auto; lia.
  - intros (_ & [Hl Hb] & Hm). rewrite !bytes_app, !length_app, !length_object_bytes, Hl.
    split_and!; auto; lia.
  - intros (_ & Hl & Hb). rewrite !bytes_app, !length_app, !length_object_bytes, Hl.
    split_and!; auto; lia.
Qed.

(** *** The operations *)
Lemma in_uint_lor w a b : 0 ≤ w → in_uint w a → in_uint w b → in_uint w (Z.lor a b).
Proof.
  intros Hw Ha Hb. apply in_uint_testbit; [done|apply Z.lor_nonneg; split; apply Ha || apply Hb|].
  intros i Hi. by rewrite Z.lor_spec, (in_uint_high w a i), (in_uint_high w b i).
Qed.

Lemma in_uint_land w a b : 0 ≤ w → in_uint w a → in_uint w (Z.land a b).
Proof.
  intros Hw Ha. apply in_uint_testbit; [done|apply Z.land_nonneg; left; apply Ha|].
  intros i Hi. by rewrite Z.land_spec, (in_uint_high w a i).
Qed.

Lemma CreateMask_range w p m : 0 ≤ w → CreateMask w p tt = Ok m tt → in_uint w m.
Proof.
  intros Hw. unfold CreateMask, signed. unfold_M. destruct (32 <=? _); [done|].
  destruct (decide _); [|done]. intros [= <-]. by apply uint_range.
Qed.

Lemma swap4_range z : in_uint 32 z → in_uint 32 (byteswapOnLittleEndian 4 z).
Proof. apply (swap_range 4). Qed.
Lemma swap2_range z : in_uint 16 z → in_uint 16 (byteswapOnLittleEndian 2 z).
Proof. apply (swap_range 2). Qed.
#[local] Hint Resolve swap4_range swap2_range : core.

(** Taking a step of a handler that answered. *)
Ltac step_ok H :=
  unfold mbind, M_bind, mret, M_ret in H;
  match type of H with
  | match ?m with _ => _ end = _ => let E := fresh "E" in destruct m as [? []| |] eqn:E; [|done..]
  end.

Lemma typed_mask4 p a b :
  typed (IPv4Address a) →
  IPv4_broadcastaAddress a p tt = Ok (Some b) tt ∨ IPv4_networkAddress a p tt = Ok (Some b) tt ∨
  IPv4_subNetMask p tt = Ok (Some b) tt → typed (IPv4Address b).
Proof.
  intros (Hf & Hp & Hs) [H|[H|H]]; unfold IPv4_broadcastaAddress, IPv4_networkAddress, IPv4_subNetMask in H.
  - destruct (32 <? p); [done|]. step_ok H. apply CreateMask_range in E; [|done]. simplify_eq/=.
    split; [done|]. split; [done|]. apply in_uint_lor; auto; lia.
  - destruct (32 <? p); [done|]. step_ok H. simplify_eq/=. split; [done|]. split; [done|]. apply in_uint_land; [lia|done].
  - step_ok H. simplify_eq/=. split; [by vm_compute|]. split; [by vm_compute|]. by apply uint_range.
Qed.

Lemma byte_at_ok l i b : byte_at l i tt = Ok b tt → l !! i = Some b.
Proof. unfold byte_at. unfold_M. by destruct (l !! i); intros; simplify_eq. Qed.

Lemma fill_from_ok i v l x : length l = 16%nat → bytes l → 0 ≤ v < 256 → 0 ≤ x < 256 →
  length (fill_from i v (<[i := x]> l)) = 16%nat ∧ bytes (fill_from i v (<[i := x]> l)).
Proof.
  intros Hl Hb Hv Hx. unfold fill_from. split.
  - rewrite length_app, length_take, length_replicate, length_insert. lia.
  - rewrite bytes_app. split; [apply bytes_take; by apply Forall_insert|by apply Forall_replicate].
Qed.

Lemma typed_mask6 p a b :
  typed (IPv6Address a) →
  IPv6_broadcastaAddress a p tt = Ok b tt ∨ IPv6_networkAddress a p tt = Ok b tt ∨
  IPv6_subNetMask p tt = Ok b tt → typed (IPv6Address b).
Proof.
  intros (Hf & Hp & Hfl & [Hl Hb] & Hs) [H|[H|H]];
    unfold IPv6_broadcastaAddress, IPv6_networkAddress, IPv6_subNetMask in H; cbv zeta in H; step_ok H;
    apply CreateMask_range in E; try done; step_ok H; apply byte_at_ok in E0; simplify_eq/=;
    try (assert (in_uint 8 a1) as Ha1 by (eapply Forall_lookup_1 in E0; [|exact Hb]; exact E0));
    split_and!; try done; apply fill_from_ok; try done; try lia.
  - by apply (in_uint_lor 8).
  - by apply (in_uint_lor 8).
  - by apply (in_uint_land 8).
  - by apply (in_uint_land 8).
  - apply (bytes_zeros 16).
  - by apply (uint_range 8).
  - apply (bytes_zeros 16).
  - by apply (uint_range 8).
Qed.

Lemma typed_path path a : bytes path → UnixAddress_path path tt = Ok a tt → typed a.
Proof.
  intros Hb H. unfold UnixAddress_path in H. cbv zeta in H. set (m := match path with 0 :: _ => _ | _ => _ end) in H.
  destruct (Z.ltb_spec sun_path_size m) as [|Hm]; [done|]. unfold mret, M_ret in H. simplify_eq.
  assert (0 ≤ m) as Hm0.
  { unfold m. assert (∀ z, 0 ≤ uint 32 z) by (intros z; apply (uint_range 32 z); lia).
    destruct path as [|[] path]; auto. }
  unfold sun_path_size in Hm. simpl.
  split; [by vm_compute|]. split; [split|unfold sun_path_offset; lia].
  - rewrite length_splice; [done|]. rewrite length_take. simpl. lia.
  - apply bytes_splice; [apply (bytes_zeros 108)|]. apply bytes_take, bytes_app. split; [done|].
    repeat constructor; lia.
Qed.

Lemma slice_range n i l : (i + n ≤ length l)%nat → bytes l → in_uint (8 * Z.of_nat n) (object_value (take n (drop i l))).
Proof. intros Hl Hb. apply object_value_range; [rewrite length_take, length_drop; lia|auto]. Qed.

Lemma typed_new4 address port :
  in_uint 32 address → in_uint 16 port → typed (IPv4Address (IPv4Address_new address port)).
Proof. intros. split; [by vm_compute|]. split; [by apply swap2_range|by apply swap4_range]. Qed.

Lemma typed_any6 : typed (IPv6Address IPv6Address_new).
Proof.
  do 3 (split; [by vm_compute|]). split; [|by vm_compute]. split; [done|apply (bytes_zeros 16)].
Qed.

Lemma typed_loaded a d : typed a → bytes d → typed (Socket.load_address a d).
Proof.
  intros Ha Hd. destruct (typed_bytes a Ha) as (Hb & Hl & _). unfold Socket.load_address.
  set (b := splice _ _ _).
  assert (length b = layout a) as Hlb.
  { unfold b. rewrite length_splice; [done|]. rewrite length_take. lia. }
  assert (bytes b) as Hbb by (unfold b; auto). clearbody b.
  destruct a as [a|a|a l|a]; cbn [layout] in Hlb; cbn [typed sin_family sin_port s_addr sin6_family sin6_port
    sin6_flowinfo s6_addr sin6_scope_id sun_family sun_path sa_family sa_data].
  - split; [|split]; [apply (slice_range 2)..|apply (slice_range 4)]; done || lia.
  - split; [|split; [|split; [|split]]]; [apply (slice_range 2)..|apply (slice_range 4)| |apply (slice_range 4)];
      try (done || lia). rewrite length_take, length_drop. split; [lia|auto].
  - destruct Ha as (_ & _ & Hm). split; [apply (slice_range 2); done || lia|]. rewrite length_drop.
    split; [split; [lia|auto]|done].
  - split; [apply (slice_range 2); done || lia|]. rewrite length_drop. split; [lia|auto].
Qed.

End types.

End AddressTypes.
