(* ===== verification/Uri.v ===== *)
(** Uniform resource identifiers: [uri.h] and the C++ part of [uri.rl].

    UriParser.v models the parser behind [Uri::Create]; its actions call the
    setters of this file. *)
From stdpp Require Import base list numbers option strings.
From Stdlib Require Import ZArith Lia.
From S2P Require Import Prelude Endian CString Http Address.

Module Uri.
Local Open Scope Z_scope.

Record Uri := mk {
  m_scheme : list Z;
  m_userinfo : list Z;
  m_host : list Z;
  m_path : list Z;
  m_query : list Z;
  m_fragment : list Z;
  m_port : Z
}.

Definition new : Uri := mk [] [] [] [] [] [] 0.

Definition setScheme v (u : Uri) := mk v (m_userinfo u) (m_host u) (m_path u) (m_query u) (m_fragment u) (m_port u).
Definition setUserinfo v (u : Uri) := mk (m_scheme u) v (m_host u) (m_path u) (m_query u) (m_fragment u) (m_port u).
Definition setHost v (u : Uri) := mk (m_scheme u) (m_userinfo u) v (m_path u) (m_query u) (m_fragment u) (m_port u).
Definition setPath v (u : Uri) := mk (m_scheme u) (m_userinfo u) (m_host u) v (m_query u) (m_fragment u) (m_port u).
Definition setQuery v (u : Uri) := mk (m_scheme u) (m_userinfo u) (m_host u) (m_path u) v (m_fragment u) (m_port u).
Definition setFragment v (u : Uri) := mk (m_scheme u) (m_userinfo u) (m_host u) (m_path u) (m_query u) v (m_port u).
Definition setPort v (u : Uri) := mk (m_scheme u) (m_userinfo u) (m_host u) (m_path u) (m_query u) (m_fragment u) v.

Definition isDefaultPort (u : Uri) : bool :=
  if 0 =? m_port u then true
  else if decide (m_scheme u = str "http") then m_port u =? 80
  else if decide (m_scheme u = str "https") then m_port u =? 443
  else false.

Definition getPath (u : Uri) : list Z := match m_path u with [] => str "/" | p => p end.

Definition getPort (u : Uri) : Z :=
  if negb (m_port u =? 0) then m_port u
  else if decide (m_scheme u = str "http") then 80
  else if decide (m_scheme u = str "https") then 443
  else m_port u.

Definition dump (u : Uri) : list Z :=
  m_scheme u ++ str "://" ++ m_userinfo u ++ Http.mark_if_some (str "@") (m_userinfo u) ++
  m_host u ++ (if isDefaultPort u then [] else str ":" ++ Http.dec (m_port u)) ++
  getPath u ++ Http.mark_if_some (str "?") (m_query u) ++ m_query u ++
  Http.mark_if_some (str "#") (m_fragment u) ++ m_fragment u.

Definition toString (u : Uri) : list Z := dump u.

(** [setPort] of an address takes 16 bits. *)
Definition getAddrFromUri `{Endian.Host} (getaddrinfo : list Z → option (list Z) → Z → Z → Z → option (list Address.sockaddr))
    (u : Uri) : option Address.Addr :=
  Address.setPort (uint 16 (getPort u)) <$>
    Address.getAnyIPAddrFromHost getaddrinfo (m_host u) Address.AF_INET 0 0.
End Uri.
