(* ===== verification/UriParser.v ===== *)
(** [Uri::Create]: the grammar and the actions of [uri.rl], in the notation of
    [Ragel].

    The pointer [mark] is a position in the text or NULL; a string made of NULL
    and a length throws, which ends the machine. At the end of the text the
    leaving actions of a final state are executed ([eof] is [pe]). *)
From stdpp Require Import base list numbers option strings.
From Stdlib Require Import ZArith Lia.
From S2P Require Import Prelude Endian CString HttpParser Address Uri Ragel.

Module UriParser.
Import Machine.
Local Open Scope Z_scope.

Module Action.
Inductive action :=
| marku | markh | save_scheme | save_port | save_userinfo | save_host | save_path | save_query | save_fragment.
End Action.
#[global] Instance action_eq : EqDecision Action.action.
Proof. solve_decision. Defined.

Section grammar.
Local Open Scope gram_scope.
Abbreviation gram := (Ragel.gram Action.action).
Abbreviation chars s := (GCls (one_of s)).

Definition sub_delims : gram := chars "!$&'()*+,;=".
Definition unreserved : gram := GCls alpha <|> GCls digit <|> chars "-._~".
Definition pct_encoded : gram := lit "%" ++ GCls xdigit ++ GCls xdigit.

Definition scheme : gram :=
  (GCls alpha ++ (GCls alpha <|> GCls digit <|> chars "+-.")*) >! Action.marku %! Action.save_scheme.

Definition userinfo : gram := (unreserved <|> pct_encoded <|> sub_delims <|> lit ":")*.
(** The 2 of the fourth case is the character with that code. *)
Definition dec_octet : gram :=
  GCls digit
  <|> GCls [(49, 57)] ++ GCls digit
  <|> lit "1" ++ GRep 2 (Some 2%nat) (GCls digit)
  <|> GCls (code 2) ++ GCls [(48, 52)] ++ GCls digit
  <|> lit "25" ++ GCls [(48, 53)].
Definition IPv4address : gram :=
  dec_octet ++ lit "." ++ dec_octet ++ lit "." ++ dec_octet ++ lit "." ++ dec_octet.
Definition h16 : gram := GRep 1 (Some 4%nat) (GCls xdigit).
Definition ls32 : gram := h16 ++ lit ":" ++ h16 <|> IPv4address.
Definition IPv6address : gram :=
  let hs n := GRep n (Some n) (h16 ++ lit ":") in
  hs 6%nat ++ ls32
  <|> lit "::" ++ hs 5%nat ++ ls32
  <|> GOpt h16 ++ lit "::" ++ hs 4%nat ++ ls32
  <|> GOpt (hs 1%nat ++ h16) ++ lit "::" ++ hs 3%nat ++ ls32
  <|> GOpt (hs 2%nat ++ h16) ++ lit "::" ++ hs 2%nat ++ ls32
  <|> GOpt (hs 3%nat ++ h16) ++ lit "::" ++ hs 1%nat ++ ls32
  <|> GOpt (hs 4%nat ++ h16) ++ lit "::" ++ ls32
  <|> GOpt (hs 5%nat ++ h16) ++ lit "::" ++ h16
  <|> GOpt (hs 6%nat ++ h16) ++ lit "::".
Definition IPvFuture : gram :=
  lit "v" ++ GPlus (GCls xdigit) ++ lit "." ++ GPlus (unreserved <|> sub_delims <|> lit ":").
Definition IP_literal : gram := lit "[" ++ (IPv6address <|> IPvFuture) ++ lit "]".
Definition reg_name : gram := (unreserved <|> pct_encoded <|> sub_delims)*.
Definition host : gram := IP_literal <|> IPv4address <|> reg_name.
Definition port : gram := (GCls digit)*.

Definition authority : gram :=
  (GOpt (userinfo %! Action.save_userinfo ++ lit "@") ++
   host >! Action.markh %! Action.save_host ++
   GOpt (lit ":" ++ port >! Action.markh %! Action.save_port)) >! Action.markh.

Definition pchar : gram :=
  GCls (minus any ascii) <|> unreserved <|> pct_encoded <|> sub_delims <|> lit ":" <|> lit "@".
Definition segment : gram := pchar*.
Definition segment_nz : gram := GPlus pchar.
(** [pchar - ":"] is [pchar] without the alternative that is the colon. *)
Definition segment_nz_nc : gram :=
  GPlus (GCls (minus any ascii) <|> unreserved <|> pct_encoded <|> sub_delims <|> lit "@").

Definition path_abempty : gram := GOpt (lit "/" ++ segment) ++ (lit "/" ++ segment)*.
Definition path_absolute : gram := lit "/" ++ GOpt (segment_nz ++ (lit "/" ++ segment)*).
Definition path_noscheme : gram := segment_nz_nc ++ (lit "/" ++ segment)*.
Definition path_rootless : gram := segment_nz ++ (lit "/" ++ segment)*.
Definition path_empty : gram := GEps.

Definition query : gram := (pchar <|> lit "/" <|> lit "?")* >! Action.marku %! Action.save_query.
Definition fragment : gram := (pchar <|> lit "/" <|> lit "?")* >! Action.marku %! Action.save_fragment.

Definition hier_part : gram :=
  lit "//" ++ authority ++ path_abempty >! Action.markh %! Action.save_path
  <|> path_absolute <|> path_rootless <|> path_empty.
Definition relative_part : gram :=
  lit "//" ++ authority ++ path_abempty <|> path_absolute <|> path_noscheme <|> path_empty.
Definition relative_ref : gram :=
  relative_part ++ GOpt (lit "?" ++ query) ++ GOpt (lit "#" ++ fragment).
Definition URI : gram :=
  scheme ++ lit ":" ++ hier_part ++ GOpt (lit "?" ++ query) ++ GOpt (lit "#" ++ fragment).
Definition URI_reference : gram := URI <|> relative_ref.
Definition main : gram := URI_reference.
End grammar.

Definition state : Type := list (re Action.action).
Definition uri_parser_start : state := [Machine.main main].

(** What ends a run early: [std::string(NULL, n)] throws, [atoi(NULL)] reads
    through a null pointer. *)
Inductive failure := logic_error | null_read.

(** The object under construction, [mark], and how the run failed. *)
Record vars := mk { uri : Uri.Uri; mark : option nat; failed : option failure }.

Section create.
Variable uristr : list Z.

Definition fail (f : failure) (v : vars) : vars * bool := (mk (uri v) (mark v) (Some f), false).

(** [set(std::string(mark, fpc - mark))]; [mark] is [mark'] afterwards. *)
Definition save (set : list Z → Uri.Uri → Uri.Uri) (mark' : option nat) (fpc : nat) (v : vars) : vars * bool :=
  match mark v with
  | None => fail logic_error v
  | Some m => (mk (set (HttpParser.text uristr m (fpc - m)) (uri v)) mark' (failed v), true)
  end.

Definition save_port (fpc : nat) (v : vars) : vars * bool :=
  match mark v with
  | None => fail null_read v
  | Some m =>
      let u := if (fpc =? m)%nat then uri v
               else Uri.setPort (HttpParser.atoi (c_str (drop m uristr))) (uri v) in
      (mk u None (failed v), true)
  end.

Definition if_marked (m : vars → vars * bool) (v : vars) : vars * bool :=
  match mark v with Some _ => m v | None => (v, true) end.

Definition act (a : Action.action) (fpc : nat) (v : vars) : vars * bool :=
  match a with
  | Action.marku | Action.markh => (mk (uri v) (Some fpc) (failed v), true)
  | Action.save_scheme => save Uri.setScheme None fpc v
  | Action.save_port => save_port fpc v
  | Action.save_userinfo => if_marked (save Uri.setUserinfo None fpc) v
  | Action.save_host => if_marked (save Uri.setHost (mark v) fpc) v
  | Action.save_path => save Uri.setPath None fpc v
  | Action.save_query => save Uri.setQuery None fpc v
  | Action.save_fragment => save Uri.setFragment None fpc v
  end.

(** The loop up to [pe], and the actions at [eof]. *)
Definition write_exec : option state * vars :=
  let '(cs, p, v) := exec false act uri_parser_start 0 uristr (mk Uri.new None None) in
  match cs, failed v with
  | Some s, None => (cs, if final s then (do_actions act (at_eof s) p v).1 else v)
  | _, _ => (cs, v)
  end.

Inductive created := Created (u : Uri.Uri) | Null | Failed (f : failure).

Definition Create : created :=
  let '(cs, v) := write_exec in
  match failed v, cs with
  | Some f, _ => Failed f
  | None, None => Null
  | None, Some s => if final s then Created (uri v) else Null
  end.
End create.
End UriParser.
