(* ===== verification/UriParserProps.v ===== *)
(** Properties of [Uri::Create].

    Which texts are accepted is the grammar's language ([created_in_language]);
    what [toString] prints is parsed back ([uri_round_trip]); an authority that
    ends in a colon makes [Create] throw ([empty_port_throws]). *)
From stdpp Require Import base list numbers option strings.
From Stdlib Require Import ZArith Lia.
From S2P Require Import Prelude CString Http HttpParser Uri Ragel RagelProps UriParser HttpRoundTrip.
Import Machine Ragel UriParser.
Local Open Scope Z_scope.

(** ** The language *)
Section run.
Variable uristr : list Z.

Lemma act_failed a p v v' go :
  UriParser.act uristr a p v = (v', go) → failed v = None → go = bool_decide (failed v' = None).
Proof.
  unfold UriParser.act, save, save_port, if_marked, fail.
  destruct a, (mark v); intros [= <- <-] Hf; cbn; by rewrite ?Hf.
Qed.

Lemma actions_failed acts p v v' go :
  do_actions (UriParser.act uristr) acts p v = (v', go) → failed v = None → go = bool_decide (failed v' = None).
Proof.
  revert v. induction acts as [|a acts IH]; intros v; cbn [do_actions].
  { by intros [= <- <-] ->. }
  destruct (UriParser.act uristr a p v) as [v1 go1] eqn:E. intros H Hf.
  pose proof (act_failed a p v v1 go1 E Hf) as Hg. destruct go1; [|by injection H as <- <-].
  symmetry in Hg. apply bool_decide_eq_true in Hg. by apply IH in H.
Qed.

(** Without a failure the whole text is read, or the error state reached. *)
Lemma exec_whole L p l v o p' v' :
  exec false (UriParser.act uristr) L p l v = (o, p', v') → failed v = None → failed v' = None →
  o = None ∨ p' = (p + length l)%nat.
Proof.
  revert L p v. induction l as [|c l IH]; intros L p v; cbn [exec length].
  { intros [= <- <- <-] _ _. right. lia. }
  destruct (step false L c) as [[acts L1]|]; [|by intros [= <- <- <-]; left].
  destruct (do_actions (UriParser.act uristr) acts p v) as [v1 go] eqn:E. intros H Hf Hf'.
  pose proof (actions_failed _ _ _ _ _ E Hf) as Hg. destruct go.
  - symmetry in Hg. apply bool_decide_eq_true in Hg. destruct (IH _ _ _ H Hg Hf') as [->| ->]; [by left|right; lia].
  - injection H as <- <- <-. by rewrite Hf' in Hg.
Qed.
End run.

Lemma uri_prio_free : state_prio_free uri_parser_start = true.
Proof. vm_compute. reflexivity. Qed.

Lemma run_prefix {A} `{EqDecision A} cond (L : list (re A)) w w' L' :
  run cond L (w ++ w') = Some L' → run cond L w ≠ None.
Proof.
  revert L. induction w as [|c w IH]; intros L; cbn [run app]; [done|].
  destruct (step cond L c) as [[_ L1]|]; [apply IH|done].
Qed.


(** ** The parts of a URI with an authority *)
Definition scheme_chars : cls := alpha ++ digit ++ one_of "+-.".
Definition reg_chars : cls := alpha ++ digit ++ one_of "-._~!$&'()*+,;=".
Definition pchars : cls := minus any ascii ++ reg_chars ++ one_of ":@".
Definition path_chars : cls := pchars ++ code 47.
Definition query_chars : cls := path_chars ++ code 63.

Abbreviation states := (list state).

(** All that can be reached by characters of [k]: [new] are those whose
    successors are not known yet. *)
Fixpoint grow (n : nat) (k : cls) (seen new : states) : states :=
  match n, new with
  | S n, _ :: _ =>
      let seen := new ++ seen in
      grow n k seen (List.filter (λ L, negb (in_states seen L)) (behind false new k))
  | _, _ => new ++ seen
  end.

Definition q_scheme : states := Eval vm_compute in behind false [uri_parser_start] alpha.
Definition q_colon : states := Eval vm_compute in behind false q_scheme (code 58).
Definition q_auth : states := Eval vm_compute in behind_text false q_colon (str "//").
Definition q_host : states := Eval vm_compute in grow 40 reg_chars [] (behind false q_auth reg_chars).
Definition q_at : states := Eval vm_compute in behind false q_host (code 64).
Definition q_host_at : states := Eval vm_compute in grow 40 reg_chars [] (behind false q_at reg_chars).
Definition q_port0 : states := Eval vm_compute in behind false q_host (code 58) ++ behind false q_host_at (code 58).
Definition q_port : states := Eval vm_compute in behind false q_port0 digit.
Definition q_path : states := Eval vm_compute in behind false q_port (code 47).
Definition q_ask : states := Eval vm_compute in behind false q_path (code 63).
Definition q_query : states := Eval vm_compute in behind false q_ask (code 97).
Definition q_hash : states := Eval vm_compute in behind false (q_path ++ q_query) (code 35).
Definition q_fragment : states := Eval vm_compute in behind false q_hash (code 97).
Definition x1 (Q : states) : states := behind false Q (code 37).
Definition x2 (Q : states) : states := behind false (x1 Q) (code 48).

Lemma scheme_first : leads false [uri_parser_start] alpha [Action.marku] q_scheme = true.
Proof. vm_compute. reflexivity. Qed.
Lemma scheme_rest : leads false q_scheme scheme_chars [] q_scheme = true.
Proof. vm_compute. reflexivity. Qed.
Lemma scheme_end : leads false q_scheme (code 58) [Action.save_scheme] q_colon = true.
Proof. vm_compute. reflexivity. Qed.
Lemma slashes : literal false q_colon [] (str "//") q_auth = true.
Proof. vm_compute. reflexivity. Qed.
Lemma scan_host :
  scans false q_auth reg_chars [Action.markh] q_host reg_chars (x1 q_auth ++ x1 q_host) (x2 q_auth ++ x2 q_host) = true.
Proof. vm_compute. reflexivity. Qed.
Lemma userinfo_end : leads false q_host (code 64) [Action.save_userinfo] q_at = true.
Proof. vm_compute. reflexivity. Qed.
Lemma scan_host_at :
  scans false q_at reg_chars [Action.markh] q_host_at reg_chars (x1 q_at ++ x1 q_host_at) (x2 q_at ++ x2 q_host_at) = true.
Proof. vm_compute. reflexivity. Qed.
Lemma host_path : leads false (q_host ++ q_host_at) (code 47) [Action.save_host; Action.markh] q_path = true.
Proof. vm_compute. reflexivity. Qed.
Lemma host_colon : leads false (q_host ++ q_host_at) (code 58) [Action.save_host] q_port0 = true.
Proof. vm_compute. reflexivity. Qed.
Lemma port_first : leads false q_port0 digit [Action.markh] q_port = true.
Proof. vm_compute. reflexivity. Qed.
Lemma port_rest : leads false q_port digit [] q_port = true.
Proof. vm_compute. reflexivity. Qed.
Lemma port_path : leads false q_port (code 47) [Action.save_port; Action.markh] q_path = true.
Proof. vm_compute. reflexivity. Qed.
(** The entering action of an empty port and that of the path are one and the
    same, and it is executed once, in front of what ends the port. *)
Lemma no_port_path : leads false q_port0 (code 47) [Action.markh; Action.save_port] q_path = true.
Proof. vm_compute. reflexivity. Qed.
Lemma uri_scan_path : scans false q_path path_chars [] q_path path_chars (x1 q_path) (x2 q_path) = true.
Proof. vm_compute. reflexivity. Qed.
Lemma path_query : leads false q_path (code 63) [Action.save_path] q_ask = true.
Proof. vm_compute. reflexivity. Qed.
Lemma path_fragment : leads false q_path (code 35) [Action.save_path] q_hash = true.
Proof. vm_compute. reflexivity. Qed.
Lemma uri_scan_query : scans false q_ask query_chars [Action.marku] q_query query_chars (x1 q_query) (x2 q_query) = true.
Proof. vm_compute. reflexivity. Qed.
Lemma query_fragment : leads false q_query (code 35) [Action.save_query] q_hash = true.
Proof. vm_compute. reflexivity. Qed.
Lemma uri_scan_fragment :
  scans false q_hash query_chars [Action.marku] q_fragment query_chars (x1 q_fragment) (x2 q_fragment) = true.
Proof. vm_compute. reflexivity. Qed.
(** At the end of the text. *)
Lemma ends : forallb (λ e : states * list Action.action, forallb (λ L, final L && bool_decide (at_eof L = e.2)) e.1)
  [(q_path, [Action.save_path]); (q_query, [Action.save_query]); (q_fragment, [Action.save_fragment])] = true.
Proof. vm_compute. reflexivity. Qed.

(** ** What the parts do to the object *)
Section parts.
Variable B : list Z.
Abbreviation act := (UriParser.act B).
Abbreviation vars := UriParser.vars.

Lemma save_text set mark' m w l u f :
  drop m B = w ++ l → save B set mark' (m + length w) (UriParser.mk u (Some m) f) = (UriParser.mk (set w u) mark' f, true).
Proof.
  intros Hd. unfold save, HttpParser.text. cbn [mark UriParser.uri UriParser.failed].
  replace (m + length w - m)%nat with (length w) by lia. by rewrite Hd, take_app_length.
Qed.

(** The rest of a text is read, and ends the run with the object [u']. *)
Definition finishes (L : state) (p : nat) (l : list Z) (v : vars) (u' : Uri.Uri) : Prop :=
  ∃ L' v', exec false act L p l v = (Some L', (p + length l)%nat, v') ∧ final L' = true ∧ failed v' = None ∧
    do_actions act (at_eof L') (p + length l) v' = (UriParser.mk u' None None, true).

(** A step towards the end. *)
Lemma finishes_step L p w l v L' v' u' :
  exec false act L p (w ++ l) v = exec false act L' (p + length w) l v' →
  finishes L' (p + length w) l v' u' → finishes L p (w ++ l) v u'.
Proof.
  intros E (L1 & v1 & E1 & H). exists L1, v1. rewrite E, E1, length_app, Nat.add_assoc. done.
Qed.

Lemma end_state Q acts L : (Q, acts) ∈ [(q_path, [Action.save_path]); (q_query, [Action.save_query]); (q_fragment, [Action.save_fragment])] →
  In L Q → final L = true ∧ at_eof L = acts.
Proof.
  intros H HL. pose proof (proj1 (forallb_forall _ _) ends (Q, acts) (proj1 (list_elem_of_In _ _) H)) as Hq.
  pose proof (proj1 (forallb_forall _ _) Hq L HL) as He. cbn [fst snd] in He.
  apply andb_true_iff in He as [H1 H2]. by apply bool_decide_eq_true in H2.
Qed.

(** What saves the text behind [mark], at the end of it. *)
Lemma finishes_saved Q a set L m w u :
  (Q, [a]) ∈ [(q_path, [Action.save_path]); (q_query, [Action.save_query]); (q_fragment, [Action.save_fragment])] →
  (∀ p v, act a p v = save B set None p v) → In L Q → drop m B = w →
  finishes L (m + length w) [] (UriParser.mk u (Some m) None) (set w u).
Proof.
  intros HQ Ha HL Hd. destruct (end_state Q [a] L HQ HL) as [Hf He]. eexists L, _. cbn [exec length].
  rewrite Nat.add_0_r. split; [done|]. split; [done|]. split; [done|]. rewrite He. cbn [do_actions].
  rewrite Ha, (save_text set None m w []) by (by rewrite app_nil_r). done.
Qed.

Lemma fragment_read L p f u :
  In L q_hash → drop p B = f → pct_word query_chars query_chars f = true →
  finishes L p f (UriParser.mk u None None) (Uri.setFragment f u).
Proof.
  intros HL Hd Hf.
  destruct (exec_pct_word false act _ _ _ _ _ _ _ L f p [] (UriParser.mk u None None)
    (UriParser.mk u (Some p) None) uri_scan_fragment HL Hf eq_refl)
    as (L1 & HL1 & E).
  rewrite <-(app_nil_r f) at 1. eapply finishes_step; [exact E|].
  apply (finishes_saved q_fragment Action.save_fragment); [|done|done|done]. right; right; left.
Qed.

(** An optional fragment. *)
Definition tail_of (mark_ : list Z) (w : list Z) : list Z := match w with [] => [] | _ => mark_ ++ w end.

Lemma saved_hash Q a set L m w f u :
  (Q, [a]) ∈ [(q_path, [Action.save_path]); (q_query, [Action.save_query]); (q_fragment, [Action.save_fragment])] →
  (∀ p v, act a p v = save B set None p v) → leads false Q (code 35) [a] q_hash = true →
  In L Q → drop m B = w ++ tail_of (str "#") f → f = [] ∨ pct_word query_chars query_chars f = true →
  Uri.m_fragment (set w u) = [] →
  finishes L (m + length w) (tail_of (str "#") f) (UriParser.mk u (Some m) None) (Uri.setFragment f (set w u)).
Proof.
  intros HQ Ha Hlead HL Hd Hf Hempty. destruct f as [|c f].
  - cbn [tail_of] in *. rewrite app_nil_r in Hd.
    replace (Uri.setFragment [] (set w u)) with (set w u) by (destruct (set w u); cbn in *; by subst).
    by apply (finishes_saved Q a set).
  - destruct Hf as [|Hf]; [done|]. cbn [tail_of] in *.
    assert (do_actions act [a] (m + length w) (UriParser.mk u (Some m) None) = (UriParser.mk (set w u) None None, true)) as Hdo.
    { cbn [do_actions]. by rewrite Ha, (save_text set None m w _ u None Hd). }
    destruct (exec_code false act Q 35 [a] q_hash L (m + length w) (c :: f) _ _ Hlead HL Hdo) as (L1 & HL1 & E).
    apply (finishes_step L (m + length w) (str "#") (c :: f) _ L1 (UriParser.mk (set w u) None None)).
    { cbn [app length]. by rewrite Nat.add_1_r. }
    apply fragment_read; [done| |done]. rewrite <-drop_drop, (drop_next B m w _ Hd). done.
Qed.

(** The end of a path, with a query and a fragment or without. *)
Lemma path_rest L m path query fragment u :
  In L q_path → drop m B = path ++ tail_of (str "?") query ++ tail_of (str "#") fragment →
  query = [] ∨ pct_word query_chars query_chars query = true →
  fragment = [] ∨ pct_word query_chars query_chars fragment = true →
  Uri.m_query u = [] → Uri.m_fragment u = [] →
  finishes L (m + length path) (tail_of (str "?") query ++ tail_of (str "#") fragment) (UriParser.mk u (Some m) None)
    (Uri.setFragment fragment (Uri.setQuery query (Uri.setPath path u))).
Proof.
  intros HL Hd Hq Hf Hq0 Hf0. destruct query as [|c query].
  - replace (Uri.setQuery [] (Uri.setPath path u)) with (Uri.setPath path u) by (destruct u; cbn in *; by subst).
    apply (saved_hash q_path Action.save_path Uri.setPath); [left|done|apply path_fragment|done|done|done|done].
  - destruct Hq as [|Hq]; [done|]. cbn [tail_of] in *.
    assert (do_actions act [Action.save_path] (m + length path) (UriParser.mk u (Some m) None) =
      (UriParser.mk (Uri.setPath path u) None None, true)) as Hdo.
    { cbn [do_actions UriParser.act]. by rewrite (save_text Uri.setPath None m path _ u None Hd). }
    destruct (exec_code false act q_path 63 _ q_ask L (m + length path) ((c :: query) ++ tail_of (str "#") fragment) _ _
      path_query HL Hdo) as (L1 & HL1 & E1).
    rewrite <-app_assoc. apply (finishes_step L (m + length path) (str "?") _ _ L1 (UriParser.mk (Uri.setPath path u) None None)).
    { cbn [app length]. by rewrite Nat.add_1_r. }
    cbn [length]. set (q := (m + length path + 1)%nat).
    assert (drop q B = (c :: query) ++ tail_of (str "#") fragment) as Hdq.
    { unfold q. rewrite <-drop_drop, (drop_next B m path _ Hd). done. }
    destruct (exec_pct_word false act _ _ _ _ _ _ _ L1 (c :: query) q (tail_of (str "#") fragment)
      (UriParser.mk (Uri.setPath path u) None None) (UriParser.mk (Uri.setPath path u) (Some q) None) uri_scan_query HL1 Hq eq_refl) as (L2 & HL2 & E2).
    eapply finishes_step; [exact E2|].
    apply (saved_hash q_query Action.save_query Uri.setQuery); [right; left|done|apply query_fragment|done|done|done|done].
Qed.

(** The scheme and the slashes. *)
Lemma scheme_read scheme l u m :
  starts alpha scheme_chars scheme → drop 0 B = scheme ++ str "://" ++ l →
  ∃ L, In L q_auth ∧
    exec false act uri_parser_start 0 (scheme ++ str "://" ++ l) (UriParser.mk u m None) =
    exec false act L (length scheme + 3) l (UriParser.mk (Uri.setScheme scheme u) None None).
Proof.
  intros Hs Hd.
  destruct (exec_word false act _ _ _ _ _ uri_parser_start scheme 0%nat (str "://" ++ l) (UriParser.mk u m None)
    (UriParser.mk u (Some 0%nat) None) scheme_first scheme_rest ltac:(by left) Hs eq_refl) as (L1 & HL1 & E1).
  assert (do_actions act [Action.save_scheme] (0 + length scheme) (UriParser.mk u (Some 0%nat) None) =
    (UriParser.mk (Uri.setScheme scheme u) None None, true)) as Hdo.
  { cbn [do_actions UriParser.act]. by rewrite (save_text Uri.setScheme None 0 scheme _ u None Hd). }
  destruct (exec_code false act _ 58 _ _ L1 (0 + length scheme) (str "//" ++ l) _ _ scheme_end HL1 Hdo) as (L2 & HL2 & E2).
  destruct (exec_literal false act q_colon [] (str "//") q_auth L2 (S (0 + length scheme)) l
    (UriParser.mk (Uri.setScheme scheme u) None None) (UriParser.mk (Uri.setScheme scheme u) None None) slashes HL2 eq_refl)
    as (L3 & HL3 & E3).
  exists L3. split; [done|]. change (str "://" ++ l) with (58 :: str "//" ++ l) in *. rewrite E1, E2, E3. f_equal.
  simpl. lia.
Qed.

(** The name of the user. *)
Lemma userinfo_read L p w l u m :
  In L q_auth → drop p B = w ++ 64 :: l → pct_word reg_chars reg_chars w = true →
  ∃ L', In L' q_at ∧
    exec false act L p (w ++ 64 :: l) (UriParser.mk u m None) =
    exec false act L' (p + length w + 1) l (UriParser.mk (Uri.setUserinfo w u) None None).
Proof.
  intros HL Hd Hw.
  destruct (exec_pct_word false act _ _ _ _ _ _ _ L w p (64 :: l) (UriParser.mk u m None) (UriParser.mk u (Some p) None)
    scan_host HL Hw eq_refl) as (L1 & HL1 & E1).
  assert (do_actions act [Action.save_userinfo] (p + length w) (UriParser.mk u (Some p) None) =
    (UriParser.mk (Uri.setUserinfo w u) None None, true)) as Hdo.
  { cbn [do_actions UriParser.act if_marked mark]. by rewrite (save_text Uri.setUserinfo None p w _ u None Hd). }
  destruct (exec_code false act _ 64 _ _ L1 (p + length w) l _ _ userinfo_end HL1 Hdo) as (L2 & HL2 & E2).
  exists L2. split; [done|]. rewrite E1, E2. f_equal. lia.
Qed.

(** The host, from the start of an authority or behind the user. *)
Lemma host_read L p w l u m :
  In L q_auth ∨ In L q_at → pct_word reg_chars reg_chars w = true →
  ∃ L', In L' (q_host ++ q_host_at) ∧
    exec false act L p (w ++ l) (UriParser.mk u m None) = exec false act L' (p + length w) l (UriParser.mk u (Some p) None).
Proof.
  intros [HL|HL] Hw.
  - destruct (exec_pct_word false act _ _ _ _ _ _ _ L w p l (UriParser.mk u m None) (UriParser.mk u (Some p) None)
      scan_host HL Hw eq_refl) as (L1 & HL1 & E1). exists L1. split; [|done]. apply in_or_app. by left.
  - destruct (exec_pct_word false act _ _ _ _ _ _ _ L w p l (UriParser.mk u m None) (UriParser.mk u (Some p) None)
      scan_host_at HL Hw eq_refl) as (L1 & HL1 & E1). exists L1. split; [|done]. apply in_or_app. by right.
Qed.

Lemma save_host_text m w l u :
  drop m B = w ++ l → UriParser.act B Action.save_host (m + length w) (UriParser.mk u (Some m) None) =
    (UriParser.mk (Uri.setHost w u) (Some m) None, true).
Proof. intros Hd. cbn [UriParser.act if_marked mark]. by apply (save_text Uri.setHost (Some m) m w l u None). Qed.

(** No port: the path begins behind the host. *)
Lemma host_slash L m w l u :
  In L (q_host ++ q_host_at) → drop m B = w ++ 47 :: l →
  ∃ L', In L' q_path ∧
    exec false act L (m + length w) (47 :: l) (UriParser.mk u (Some m) None) =
    exec false act L' (m + length w + 1) l (UriParser.mk (Uri.setHost w u) (Some (m + length w)%nat) None).
Proof.
  intros HL Hd.
  assert (do_actions act [Action.save_host; Action.markh] (m + length w) (UriParser.mk u (Some m) None) =
    (UriParser.mk (Uri.setHost w u) (Some (m + length w)%nat) None, true)) as Hdo.
  { cbn [do_actions]. by rewrite (save_host_text m w _ u Hd). }
  destruct (exec_code false act _ 47 _ _ L (m + length w) l _ _ host_path HL Hdo) as (L1 & HL1 & E1).
  exists L1. split; [done|]. rewrite E1. f_equal. lia.
Qed.

Lemma host_colon_read L m w l u :
  In L (q_host ++ q_host_at) → drop m B = w ++ 58 :: l →
  ∃ L', In L' q_port0 ∧
    exec false act L (m + length w) (58 :: l) (UriParser.mk u (Some m) None) =
    exec false act L' (m + length w + 1) l (UriParser.mk (Uri.setHost w u) (Some m) None).
Proof.
  intros HL Hd.
  assert (do_actions act [Action.save_host] (m + length w) (UriParser.mk u (Some m) None) =
    (UriParser.mk (Uri.setHost w u) (Some m) None, true)) as Hdo.
  { cbn [do_actions]. by rewrite (save_host_text m w _ u Hd). }
  destruct (exec_code false act _ 58 _ _ L (m + length w) l _ _ host_colon HL Hdo) as (L1 & HL1 & E1).
  exists L1. split; [done|]. rewrite E1. f_equal. lia.
Qed.

Lemma c_str_app w l : Forall (λ c, c ≠ 0) w → c_str (w ++ l) = w ++ c_str l.
Proof.
  induction 1 as [|c w Hc _ IH]; [done|]. cbn [app c_str]. destruct (Z.eqb_spec c 0); [done|]. by rewrite IH.
Qed.

(** A port of at least a digit. *)
Lemma port_read L p n l u m :
  In L q_port0 → 0 ≤ n < 2 ^ 31 → drop p B = Http.dec n ++ 47 :: l →
  ∃ L', In L' q_path ∧
    exec false act L p (Http.dec n ++ 47 :: l) (UriParser.mk u m None) =
    exec false act L' (p + length (Http.dec n) + 1) l
      (UriParser.mk (Uri.setPort n u) (Some (p + length (Http.dec n))%nat) None).
Proof.
  intros HL Hn Hd. destruct (dec_spec n ltac:(lia)) as (Hds & Hne & _).
  pose proof (digits_start _ Hds Hne) as Hw. set (w := Http.dec n) in *.
  destruct (exec_word false act _ _ _ _ _ L w p (47 :: l) (UriParser.mk u m None) (UriParser.mk u (Some p) None)
    port_first port_rest HL Hw eq_refl) as (L1 & HL1 & E1).
  assert (HttpParser.atoi (c_str (drop p B)) = n) as Hport.
  { rewrite Hd, c_str_app. { cbn [c_str Z.eqb]. rewrite atoi_digits by done. by apply atoi_dec. }
    eapply Forall_impl; [exact Hds|]. intros c Hc ->. done. }
  assert (do_actions act [Action.save_port; Action.markh] (p + length w) (UriParser.mk u (Some p) None) =
    (UriParser.mk (Uri.setPort n u) (Some (p + length w)%nat) None, true)) as Hdo.
  { cbn [do_actions UriParser.act]. unfold save_port. cbn [mark UriParser.uri UriParser.failed]. rewrite Hport.
    destruct (Nat.eqb_spec (p + length w) p) as [E|_]; [|done]. destruct w; [done|simpl in E; lia]. }
  destruct (exec_code false act _ 47 _ _ L1 (p + length w) l _ _ port_path HL1 Hdo) as (L2 & HL2 & E2).
  exists L2. split; [done|]. rewrite E1, E2. f_equal. lia.
Qed.
End parts.

(** ** What is printed is parsed back *)
Record well_formed (u : Uri.Uri) : Prop := {
  wf_scheme : starts alpha scheme_chars (Uri.m_scheme u);
  wf_userinfo : Uri.m_userinfo u = [] ∨ pct_word reg_chars reg_chars (Uri.m_userinfo u) = true;
  wf_host : pct_word reg_chars reg_chars (Uri.m_host u) = true;
  wf_port : 0 ≤ Uri.m_port u < 2 ^ 31;
  wf_path : Uri.m_path u = [] ∨ ∃ w, Uri.m_path u = 47 :: w ∧ pct_text path_chars w = true;
  wf_query : Uri.m_query u = [] ∨ pct_word query_chars query_chars (Uri.m_query u) = true;
  wf_fragment : Uri.m_fragment u = [] ∨ pct_word query_chars query_chars (Uri.m_fragment u) = true
}.

(** An empty path is printed as that of the root, a default port not at all. *)
Definition canonical (u : Uri.Uri) : Uri.Uri :=
  Uri.setPort (if Uri.isDefaultPort u then 0 else Uri.m_port u) (Uri.setPath (Uri.getPath u) u).

Definition user_text (u : Uri.Uri) : list Z := match Uri.m_userinfo u with [] => [] | w => w ++ [64] end.
Definition port_text (u : Uri.Uri) : list Z := if Uri.isDefaultPort u then [] else 58 :: Http.dec (Uri.m_port u).

Lemma dump_parts u :
  Uri.toString u = Uri.m_scheme u ++ str "://" ++ user_text u ++ Uri.m_host u ++ port_text u ++ Uri.getPath u ++
    tail_of (str "?") (Uri.m_query u) ++ tail_of (str "#") (Uri.m_fragment u).
Proof.
  unfold Uri.toString, Uri.dump, user_text, port_text, tail_of, Http.mark_if_some.
  destruct (Uri.m_userinfo u), (Uri.m_query u), (Uri.m_fragment u); by rewrite ?app_nil_r, <-?app_assoc.
Qed.

Lemma path_text u : well_formed u → ∃ w, Uri.getPath u = 47 :: w ∧ pct_text path_chars w = true.
Proof.
  intros Hu. unfold Uri.getPath. destruct (wf_path u Hu) as [->|(w & -> & Hw)]; [by exists []|by exists w].
Qed.

Lemma finishes_from B L p l v L' p' l' v' u :
  exec false (UriParser.act B) L p l v = exec false (UriParser.act B) L' p' l' v' → (p + length l = p' + length l')%nat →
  finishes B L' p' l' v' u → finishes B L p l v u.
Proof. intros E Hp (L1 & v1 & E1 & H). exists L1, v1. by rewrite E, Hp. Qed.

Lemma finishes_created B u : finishes B uri_parser_start 0 B (UriParser.mk Uri.new None None) u → Create B = Created u.
Proof.
  intros (L & v & E & Hf & Hv & Hd). unfold Create, write_exec. by rewrite E, Hv, Hf, Hd.
Qed.

(** The path and what is behind it. *)
Lemma path_read B L m w query fragment u :
  In L q_path → drop m B = 47 :: w ++ tail_of (str "?") query ++ tail_of (str "#") fragment → pct_text path_chars w = true →
  query = [] ∨ pct_word query_chars query_chars query = true →
  fragment = [] ∨ pct_word query_chars query_chars fragment = true →
  Uri.m_query u = [] → Uri.m_fragment u = [] →
  finishes B L (m + 1) (w ++ tail_of (str "?") query ++ tail_of (str "#") fragment) (UriParser.mk u (Some m) None)
    (Uri.setFragment fragment (Uri.setQuery query (Uri.setPath (47 :: w) u))).
Proof.
  intros HL Hd Hw Hq Hf Hq0 Hf0.
  destruct (exec_scanned false (UriParser.act B) _ _ _ _ _ _ _ L w (m + 1)
    (tail_of (str "?") query ++ tail_of (str "#") fragment) (UriParser.mk u (Some m) None) uri_scan_path HL Hw) as (L1 & HL1 & E).
  eapply finishes_step; [exact E|]. replace (m + 1 + length w)%nat with (m + length (47%Z :: w))%nat by (simpl; lia).
  by apply path_rest.
Qed.

(** The authority with the slash behind it. *)
Lemma authority_read B L p u l u0 :
  well_formed u → In L q_auth → drop p B = user_text u ++ Uri.m_host u ++ port_text u ++ 47 :: l →
  Uri.m_userinfo u0 = [] → Uri.m_port u0 = 0 →
  let q := (p + length (user_text u ++ Uri.m_host u ++ port_text u))%nat in
  ∃ L', In L' q_path ∧
    exec false (UriParser.act B) L p (user_text u ++ Uri.m_host u ++ port_text u ++ 47 :: l) (UriParser.mk u0 None None) =
    exec false (UriParser.act B) L' (q + 1) l
      (UriParser.mk (Uri.setPort (if Uri.isDefaultPort u then 0 else Uri.m_port u)
        (Uri.setHost (Uri.m_host u) (Uri.setUserinfo (Uri.m_userinfo u) u0))) (Some q) None).
Proof.
  intros Hu HL Hd Hu0 Hp0 q.
  set (u1 := Uri.setUserinfo (Uri.m_userinfo u) u0). set (p1 := (p + length (user_text u))%nat).
  assert (∃ L1, (In L1 q_auth ∨ In L1 q_at) ∧
    exec false (UriParser.act B) L p (user_text u ++ Uri.m_host u ++ port_text u ++ 47 :: l) (UriParser.mk u0 None None) =
    exec false (UriParser.act B) L1 p1 (Uri.m_host u ++ port_text u ++ 47 :: l) (UriParser.mk u1 None None))
    as (L1 & HL1 & E1).
  { unfold p1, u1, user_text in *. destruct (wf_userinfo u Hu) as [E|Hw].
    - rewrite E. exists L. split; [by left|]. rewrite Nat.add_0_r. cbn [app]. f_equal. destruct u0. cbn in *. by subst.
    - destruct (Uri.m_userinfo u) as [|c w]; [done|]. rewrite <-app_assoc in *.
      destruct (userinfo_read B L p (c :: w) _ u0 None HL Hd Hw) as (L1 & HL1 & E).
      exists L1. split; [by right|]. change ([64] ++ ?x) with (64 :: x). rewrite E. f_equal.
      rewrite length_app. simpl. lia. }
  pose proof (drop_next B p _ _ Hd) as Hd1. fold p1 in Hd1.
  destruct (host_read B L1 p1 (Uri.m_host u) (port_text u ++ 47 :: l) u1 None HL1 (wf_host u Hu)) as (L2 & HL2 & E2).
  assert (q = (p1 + length (Uri.m_host u) + length (port_text u))%nat) as Hq.
  { unfold q, p1. rewrite !length_app. lia. }
  unfold port_text in *. destruct (Uri.isDefaultPort u).
  - destruct (host_slash B L2 p1 (Uri.m_host u) l u1 HL2 Hd1) as (L3 & HL3 & E3).
    exists L3. split; [done|]. rewrite E1, E2. cbn [app length] in *. rewrite E3, Hq, Nat.add_0_r.
    do 2 f_equal. unfold u1. destruct u0. cbn in *. by subst.
  - change ((58 :: Http.dec (Uri.m_port u)) ++ 47 :: l) with (58 :: (Http.dec (Uri.m_port u) ++ 47 :: l)) in *.
    destruct (host_colon_read B L2 p1 (Uri.m_host u) _ u1 HL2 Hd1) as (L3 & HL3 & E3).
    pose proof (drop_next B p1 _ _ Hd1) as Hd2.
    assert (drop (p1 + length (Uri.m_host u) + 1) B = Http.dec (Uri.m_port u) ++ 47 :: l) as Hd3
      by (by rewrite <-drop_drop, Hd2).
    destruct (port_read B L3 _ (Uri.m_port u) l (Uri.setHost (Uri.m_host u) u1) (Some p1) HL3 (wf_port u Hu) Hd3)
      as (L4 & HL4 & E4).
    exists L4. split; [done|]. rewrite E1, E2, E3, E4.
    assert (p1 + length (Uri.m_host u) + 1 + length (Http.dec (Uri.m_port u)) = q)%nat as -> by (rewrite Hq; simpl; lia).
    done.
Qed.

Lemma canonical_default u : Uri.isDefaultPort (canonical u) = Uri.isDefaultPort u.
Proof.
  unfold canonical. destruct (Uri.isDefaultPort u) eqn:E; [done|]. revert E. unfold Uri.isDefaultPort. by destruct u.
Qed.

Lemma canonical_path u : Uri.getPath (canonical u) = Uri.getPath u.
Proof. unfold canonical, Uri.getPath. destruct u as [? ? ? [|c w] ? ? ?]; done. Qed.

(** C27. A well-formed URI with a host is parsed back from what [toString] prints:
    every part is the same, but for an empty path, which is that of the root, and
    a default port, which is not printed; the port to connect to is the same. *)
Theorem uri_round_trip (u : Uri.Uri) :
  well_formed u →
  Create (Uri.toString u) = Created (canonical u) ∧ Uri.toString (canonical u) = Uri.toString u ∧
  Uri.getPort (canonical u) = Uri.getPort u ∧ Uri.getPath (canonical u) = Uri.getPath u.
Proof.
  intros Hu. destruct (path_text u Hu) as (w & Hw & Hpw). split; [|split; [|split]].
  - apply finishes_created. rewrite dump_parts, Hw. change ((47 :: w) ++ ?x) with (47 :: w ++ x).
    set (rest := user_text u ++ Uri.m_host u ++ port_text u ++ 47 :: w ++
      tail_of (str "?") (Uri.m_query u) ++ tail_of (str "#") (Uri.m_fragment u)).
    set (B := Uri.m_scheme u ++ str "://" ++ rest). assert (drop 0 B = Uri.m_scheme u ++ str "://" ++ rest) as Hd by done.
    destruct (scheme_read B (Uri.m_scheme u) rest Uri.new None (wf_scheme u Hu) Hd) as (L1 & HL1 & E1).
    assert (drop (length (Uri.m_scheme u) + 3) B = rest) as Hd1.
    { rewrite <-drop_drop. pose proof (drop_next B 0 _ _ Hd) as H. cbn [Nat.add] in H. by rewrite H. }
    destruct (authority_read B L1 _ u _ (Uri.setScheme (Uri.m_scheme u) Uri.new) Hu HL1 Hd1 eq_refl eq_refl) as (L2 & HL2 & E2).
    set (q := (length (Uri.m_scheme u) + 3 + length (user_text u ++ Uri.m_host u ++ port_text u))%nat) in *.
    eapply finishes_from; [exact (eq_trans E1 E2)| |].
    { unfold B, q, rest. rewrite !length_app. simpl. rewrite !length_app. lia. }
    assert (drop q B = 47 :: w ++ tail_of (str "?") (Uri.m_query u) ++ tail_of (str "#") (Uri.m_fragment u)) as Hd2.
    { apply (drop_next B _ (user_text u ++ Uri.m_host u ++ port_text u)). rewrite Hd1. unfold rest. by rewrite <-!app_assoc. }
    match goal with |- finishes _ _ _ _ (UriParser.mk ?u1 _ _) _ =>
      pose proof (path_read B L2 q w (Uri.m_query u) (Uri.m_fragment u) u1 HL2 Hd2 Hpw (wf_query u Hu) (wf_fragment u Hu)
        eq_refl eq_refl) as H end.
    match type of H with finishes _ _ _ _ _ ?u' => assert (canonical u = u') as -> end; [|exact H].
    unfold canonical. rewrite Hw. by destruct u.
  - rewrite !dump_parts, canonical_path. unfold port_text. rewrite canonical_default.
    unfold canonical, user_text. by destruct (Uri.isDefaultPort u), u.
  - unfold Uri.getPort. unfold canonical, Uri.isDefaultPort. destruct u as [s ui h p q f n].
    cbn [Uri.m_port Uri.m_scheme Uri.setPort Uri.setPath]. rewrite (Z.eqb_sym 0 n).
    destruct (Z.eqb_spec n 0) as [->|Hn]; [done|].
    destruct (decide (s = str "http")), (decide (s = str "https"));
      try destruct (Z.eqb_spec n 80) as [->|]; try destruct (Z.eqb_spec n 443) as [->|];
      try destruct (Z.eqb_spec n 0); done.
  - apply canonical_path.
Qed.

(** ** Authorities that make Create throw *)

Lemma no_port_read B L p l u m :
  In L q_port0 → ∃ L', In L' q_path ∧
    exec false (UriParser.act B) L p (47 :: l) (UriParser.mk u m None) =
    exec false (UriParser.act B) L' (S p) l (UriParser.mk u None None).
Proof.
  intros HL. assert (do_actions (UriParser.act B) [Action.markh; Action.save_port] p (UriParser.mk u m None) =
    (UriParser.mk u None None, true)) as Hdo.
  { cbn [do_actions UriParser.act UriParser.uri UriParser.failed]. unfold save_port. cbn [mark UriParser.uri UriParser.failed].
    by rewrite Nat.eqb_refl. }
  exact (exec_code false (UriParser.act B) _ 47 _ _ L p l _ _ no_port_path HL Hdo).
Qed.

(** A colon without a port, and a path: [mark] is not set at the path's start, so
    that the string in [save_path] is made of a null pointer. *)
Theorem empty_port_throws (scheme host path rest : list Z) :
  starts alpha scheme_chars scheme → pct_word reg_chars reg_chars host = true → pct_text path_chars path = true →
  rest = [] ∨ (∃ l, rest = 63 :: l) ∨ (∃ l, rest = 35 :: l) →
  Create (scheme ++ str "://" ++ host ++ str ":/" ++ path ++ rest) = Failed logic_error.
Proof.
  intros Hs Hh Hp Hrest. set (text := host ++ str ":/" ++ path ++ rest). set (B := scheme ++ str "://" ++ text).
  assert (drop 0 B = scheme ++ str "://" ++ text) as Hd by done.
  destruct (scheme_read B scheme text Uri.new None Hs Hd) as (L1 & HL1 & E1).
  set (m := (length scheme + 3)%nat) in *.
  assert (drop m B = host ++ 58 :: 47 :: path ++ rest) as Hd1.
  { unfold m. rewrite <-drop_drop. pose proof (drop_next B 0 _ _ Hd) as H. cbn [Nat.add] in H. by rewrite H. }
  set (u := Uri.setScheme scheme Uri.new) in *.
  destruct (host_read B L1 m host (58 :: 47 :: path ++ rest) u None (or_introl HL1) Hh) as (L2 & HL2 & E2).
  destruct (host_colon_read B L2 m host (47 :: path ++ rest) u HL2 Hd1) as (L3 & HL3 & E3).
  set (q := (m + length host + 1)%nat) in *. set (u1 := Uri.setHost host u) in *.
  destruct (no_port_read B L3 q (path ++ rest) u1 (Some m) HL3) as (L4 & HL4 & E4).
  destruct (exec_scanned false (UriParser.act B) _ _ _ _ _ _ _ L4 path (S q) rest (UriParser.mk u1 None None)
    uri_scan_path HL4 Hp) as (L5 & HL5 & E5).
  pose proof (eq_trans E1 (eq_trans E2 (eq_trans E3 (eq_trans E4 E5)))) as E. clear E1 E2 E3 E4 E5.
  change (scheme ++ str "://" ++ text) with B in E.
  assert (∀ l c acts Q, rest = c :: l → leads false q_path (code c) acts Q = true → acts = [Action.save_path] →
    ∃ L' pos v, exec false (UriParser.act B) uri_parser_start 0 B (UriParser.mk Uri.new None None) = (Some L', pos, v) ∧
      failed v = Some logic_error) as Hstop.
  { intros l c acts Q -> Hl ->. 
    destruct (exec_leads false (UriParser.act B) _ _ _ _ L5 c (S q + length path) l (UriParser.mk u1 None None) Hl HL5)
      as (L6 & _ & E6); [unfold mem, code; simpl; by rewrite !Z.leb_refl|].
    cbn [do_actions UriParser.act] in E6. unfold save in E6. cbn [mark] in E6. eexists _, _, _.
    split; [exact (eq_trans E E6)|done]. }
  unfold Create, write_exec.
  destruct Hrest as [->|[[l Hl]|[l Hl]]].
  - destruct (end_state q_path [Action.save_path] L5 ltac:(left) HL5) as [Hf He].
    change (scheme ++ str "://" ++ host ++ str ":/" ++ path ++ []) with B. rewrite E. cbn [exec].
    cbn [UriParser.failed]. rewrite Hf, He. done.
  - destruct (Hstop l 63 _ _ Hl path_query eq_refl) as (L6 & pos & v & E6 & Hv).
    change (scheme ++ str "://" ++ host ++ str ":/" ++ path ++ rest) with B. rewrite E6, Hv. by rewrite Hv.
  - destruct (Hstop l 35 _ _ Hl path_fragment eq_refl) as (L6 & pos & v & E6 & Hv).
    change (scheme ++ str "://" ++ host ++ str ":/" ++ path ++ rest) with B. rewrite E6, Hv. by rewrite Hv.
Qed.

(** The same with an empty host behind a user. *)
Example no_host_no_port : Create (str "http://u@:80/p") = Created (Uri.mk (str "http") (str "u") [] (str "/p") [] [] 80) ∧
  Create (str "http://u@:/p") = Failed logic_error.
Proof. split; vm_compute; reflexivity. Qed.

(** A password that starts with a digit is taken for a port: the user's name is
    what is behind it. *)
Example password_for_user :
  Create (str "http://me:42@h/") = Created (Uri.mk (str "http") (str "42") (str "h") (str "/") [] [] 0) ∧
  Create (str "http://me:x@h/") = Created (Uri.mk (str "http") (str "me:x") (str "h") (str "/") [] [] 0).
Proof. split; vm_compute; reflexivity. Qed.

(** References without an authority are accepted, and lose their path. *)
Example relative_path_lost :
  Create (str "/a/b?c#d") = Created (Uri.mk [] [] [] [] (str "c") (str "d") 0) ∧
  Create (str "mailto:a@b") = Created (Uri.mk (str "mailto") [] [] [] [] [] 0).
Proof. split; vm_compute; reflexivity. Qed.

(** *** Witnesses *)
Definition sample_uri : Uri.Uri :=
  Uri.mk (str "http") (str "me") (str "127.0.0.1") (str "/a%20b/c") (str "x=1") (str "top") 8080.

Lemma sample_uri_well_formed : well_formed sample_uri.
Proof.
  constructor; try (right; vm_compute; reflexivity); try (vm_compute; reflexivity).
  - by apply starts_check.
  - cbn. lia.
  - right. exists (str "a%20b/c"). split; vm_compute; reflexivity.
Qed.

Lemma uri_round_trip_witness :
  Create (str "http://me@127.0.0.1:8080/a%20b/c?x=1#top") = Created sample_uri.
Proof. exact (proj1 (uri_round_trip sample_uri sample_uri_well_formed)). Defined.

Lemma empty_port_throws_witness : Create (str "http://localhost:/index.html?x") = Failed logic_error.
Proof.
  apply (empty_port_throws (str "http") (str "localhost") (str "index.html") (str "?x"));
    [by apply starts_check|vm_compute; reflexivity|vm_compute; reflexivity|]. right. left. by exists (str "x").
Defined.
