(* ===== verification/HttpClient.v ===== *)
(** The calls a client makes: the static functions of [HttpConnection] and the
    request functions of [HttpConnectionPool] ([http/http_connection.cc]).

    They combine what the other files model: a URI and the lookup of its host,
    a socket, the request built from the caller's arguments, and the exchange on
    the stream over that socket. [ClientSocket] is what they need of the socket;
    the instance is the class of [Socket]. The stream reads and writes the same
    state. Error texts are left out, but the call that a text makes is not. *)
From stdpp Require Import base list gmap numbers option strings.
From Stdlib Require Import ZArith Lia.
From S2P Require Import Prelude Endian CString Address Stream Http HttpParser HttpSession HttpConnection FdManager Hook Socket Uri UriParser.

(** The socket of one connection. *)
Class ClientSocket (W : Type) := {
  sk_createTCP : Address.Addr → M W unit;
  sk_connect : Address.Addr → M W bool;
  sk_setRecvTimeout : Z → M W unit;
  sk_getRemoteAddress : M W Address.Addr;
  sk_isConnected : W → bool;
  (** The destructors of the stream, which owns the socket, and of the socket. *)
  sk_destroy : M W unit
}.

Section instance.
Context {host : Host} {K : Type} `{!Hook.IOM K, !Socket.Kernel K}.
Variable fstat : Z → K → option bool.
Variable fcntl_f : Z → Z → Z → K → Z * K.
Variable in_iom : bool.
Variable s_connect_timeout : Z.

#[local] Instance socket_client : ClientSocket (Socket.t K) := {|
  sk_createTCP addr := Socket.assign (λ _, Socket.createTCP addr);
  sk_connect addr := Socket.connect fstat fcntl_f in_iom s_connect_timeout addr FdManager.no_timeout;
  sk_setRecvTimeout val := Socket.setRecvTimeout fstat fcntl_f (sint 64 val);
  sk_getRemoteAddress := Socket.getRemoteAddress;
  sk_isConnected s := Socket.m_isConnected (Socket.sock s);
  sk_destroy := _ ← Socket.close fstat fcntl_f in_iom; mret tt
|}.
End instance.

Module HttpClient.
Local Open Scope Z_scope.

Section client.
Context {host : Host} {MX : MaxSize} {W : Type} `{!Stream W, !ClientSocket W} {C : Type}.
Variable getaddrinfo : list Z → option (list Z) → Z → Z → Z → option (list Address.sockaddr).
Variable lexical_cast : list Z → option Z.
Variable httpclient_parser_init : C.
Variable httpclient_parser_execute : C → list Z → nat → option (C * nat * list HttpParser.callback).
Variable httpclient_parser_has_error httpclient_parser_is_finished : C → bool.
Variable chunked chunks_done : C → bool.
Variable content_len : C → Z.
Variable fuel : nat.
(** The fresh buffer of [recvResponse]. *)
Variable buffer : list Z.

Import HttpConnection.

Definition talk (req : Http.HttpRequest) : M W HttpResult :=
  exchange lexical_cast httpclient_parser_init httpclient_parser_execute httpclient_parser_has_error
    httpclient_parser_is_finished chunked chunks_done content_len fuel buffer req.

(** The text of a timeout names the other side. *)
Definition describe (r : HttpResult) : M W unit :=
  match result r with
  | TIMEOUT | CLOSED_BY_PEER => _ ← sk_getRemoteAddress; mret tt
  | _ => mret tt
  end.

(** HttpConnection::doRequest(req, uri, timeout_ms). The text for a closed
    connection names the address that was looked up. *)
Definition doRequest (req : Http.HttpRequest) (uri : Uri.Uri) (timeout_ms : Z) : M W HttpResult :=
  match Uri.getAddrFromUri getaddrinfo uri with
  | None => mret (mk_result INVALID_HOST None)
  | Some addr =>
      _ ← sk_createTCP addr;
      c ← sk_connect addr;
      if negb c then _ ← sk_destroy; mret (mk_result CONNECT_FAILED None)
      else
        _ ← sk_setRecvTimeout timeout_ms;
        r ← talk req;
        _ ← (match result r with TIMEOUT => _ ← sk_getRemoteAddress; mret tt | _ => mret tt end);
        _ ← sk_destroy;
        mret r
  end.

(** doRequest(method, uri, ...) *)
Definition doRequest_method (method : Http.HttpMethod) (uri : Uri.Uri) (timeout_ms : Z)
    (headers : list (list Z * list Z)) (body : list Z) : M W HttpResult :=
  doRequest (make_request method (Uri.getPath uri) (Uri.m_query uri) (Uri.m_fragment uri) (Uri.m_host uri) headers body)
    uri timeout_ms.

(** doRequest(method, url, ...) *)
Definition doRequest_url (method : Http.HttpMethod) (url : list Z) (timeout_ms : Z)
    (headers : list (list Z * list Z)) (body : list Z) : M W HttpResult :=
  match UriParser.Create url with
  | UriParser.Null => mret (mk_result INVALID_URL None)
  | UriParser.Created uri => doRequest_method method uri timeout_ms headers body
  | UriParser.Failed UriParser.logic_error => throw logic_error
  | UriParser.Failed UriParser.null_read => faultM NullDeref
  end.

Definition doGet := doRequest_url Http.GET.
Definition doGet_uri := doRequest_method Http.GET.
Definition doPost := doRequest_url Http.POST.
Definition doPost_uri := doRequest_method Http.POST.

(** *** Over a pool: the pool's bookkeeping and the socket of each connection *)
Record pooled := mk_pooled { pool : HttpConnectionPool.t; sockets : gmap Z W }.

Definition in_pool {A} (m : M HttpConnectionPool.t A) : M pooled A := λ s,
  match m (pool s) with
  | Ok a p => Ok a (mk_pooled p (sockets s))
  | Exn e p => Exn e (mk_pooled p (sockets s))
  | Fault f => Fault f
  end.

(** On the socket of connection [q]. *)
Definition on {A} (q : Z) (m : M W A) : M pooled A := λ s,
  match sockets s !! q with
  | None => Fault NullDeref
  | Some w =>
      match m w with
      | Ok a w' => Ok a (mk_pooled (pool s) (<[q := w']> (sockets s)))
      | Exn e w' => Exn e (mk_pooled (pool s) (<[q := w']> (sockets s)))
      | Fault f => Fault f
      end
  end.

(** What the outside answers during one request: the clock before and after
    connecting and at the end, the address of a new object, whether the host is
    found and answers, and the socket that is then connected. *)
Record world := mk_world {
  now : Z;
  now_created : Z;
  now_released : Z;
  new_addr : Z;
  host_found : bool;
  host_answers : bool;
  new_socket : W
}.

(** HttpConnectionPool::doRequest(req, timeout_ms); the connection is released
    when its pointer goes out of scope. *)
Definition pool_doRequest (e : world) (req : Http.HttpRequest) (timeout_ms : Z) : M pooled HttpResult :=
  o ← in_pool (HttpConnectionPool.getConnection (now e) (now_created e) (new_addr e) (host_found e) (host_answers e));
  match o with
  | None => mret (mk_result POOL_GET_CONN_FAILED None)
  | Some q =>
      _ ← modify (λ s, mk_pooled (pool s)
             (if decide (q = new_addr e) then <[q := new_socket e]> (sockets s) else sockets s));
      _ ← on q (sk_setRecvTimeout timeout_ms);
      r ← on q (talk req);
      _ ← on q (describe r);
      keeps ← on q (gets sk_isConnected);
      _ ← in_pool (HttpConnectionPool.use q keeps);
      _ ← in_pool (HttpConnectionPool.releasePtr q (now_released e));
      mret r
  end.

(** HttpConnectionPool::doRequest(method, url, ...), doGet and doPost. *)
Definition pool_doRequest_url (m_host m_vhost : list Z) (e : world) (method : Http.HttpMethod) (url : list Z)
    (timeout_ms : Z) (headers : list (list Z * list Z)) (body : list Z) : M pooled HttpResult :=
  pool_doRequest e (make_pool_request method url m_host m_vhost headers body) timeout_ms.

Definition pool_doGet m_host m_vhost e := pool_doRequest_url m_host m_vhost e Http.GET.
Definition pool_doPost m_host m_vhost e := pool_doRequest_url m_host m_vhost e Http.POST.
Definition pool_doGet_uri m_host m_vhost e (uri : Uri.Uri) :=
  pool_doGet m_host m_vhost e (uri_text (Uri.getPath uri) (Uri.m_query uri) (Uri.m_fragment uri)).
Definition pool_doPost_uri m_host m_vhost e (uri : Uri.Uri) :=
  pool_doPost m_host m_vhost e (uri_text (Uri.getPath uri) (Uri.m_query uri) (Uri.m_fragment uri)).
End client.
Arguments pooled : clear implicits.
Arguments world : clear implicits.
End HttpClient.
