(* ===== verification/HttpClientProps.v ===== *)
(** Clients: how the request is built from the caller's arguments, what a call
    answers and that its socket does not outlive it, and the pool's bookkeeping
    around its requests. *)
From stdpp Require Import base list gmap numbers option strings.
From Stdlib Require Import ZArith Lia.
From S2P Require Import Prelude Endian CString Address Stream Http HttpProps HttpParser HttpSession HttpConnection HttpPoolProps FdManager Hook Socket SocketProps Uri HttpClient.

Module HttpClientProps.
Local Open Scope Z_scope.

(** ** Building a request *)
Section requests.
Import Http HttpConnection.

Definition same (k name : list Z) : bool := bool_decide (fold_case k = fold_case name).

(** What the caller's fields make of the map: [connection] is not stored. *)
Definition stored (headers : list (list Z * list Z)) : gmap (list Z) (list Z) :=
  foldl (λ g h, if same h.1 (str "connection") then g else <[fold_case h.1 := h.2]> g) ∅ headers.

(** Some field is a host with a value; the caller wants to keep the connection. *)
Definition names_host (headers : list (list Z * list Z)) : bool :=
  existsb (λ h, same h.1 (str "host") && match h.2 with [] => false | _ => true end) headers.
Definition keeps_alive (headers : list (list Z * list Z)) : bool :=
  existsb (λ h, same h.1 (str "connection") && same h.2 (str "keep-alive")) headers.

(** The request but for its header fields and how it ends. *)
Definition rest (r : HttpRequest) :=
  (m_method r, rq_version r, m_path r, m_query r, m_fragment r, rq_body r, m_params r, m_cookies r).

Lemma not_both k : same k (str "connection") = true → same k (str "host") = false.
Proof. unfold same. rewrite bool_decide_eq_true, bool_decide_eq_false. intros ->. vm_compute. discriminate. Qed.

Lemma add_headers_spec headers has_host req :
  sorted_map (rq_headers req) →
  let '(r, b) := add_headers headers has_host req in
  sorted_map (rq_headers r) ∧ rest r = rest req ∧
  to_map (rq_headers r) =
    foldl (λ g h, if same h.1 (str "connection") then g else <[fold_case h.1 := h.2]> g) (to_map (rq_headers req)) headers ∧
  rq_close r = rq_close req && negb (keeps_alive headers) ∧ b = has_host || names_host headers.
Proof.
  revert has_host req. induction headers as [|[k v] l IH]; intros has_host req Hs; cbn [add_headers].
  { rewrite andb_true_r, orb_false_r. done. }
  rewrite !strcasecmp_eq. fold (same k (str "connection")) (same k (str "host")) (same v (str "keep-alive")).
  unfold keeps_alive, names_host. cbn [existsb fst snd foldl].
  fold (keeps_alive l) (names_host l). destruct (same k (str "connection")) eqn:Ek.
  - rewrite (not_both k Ek). cbn [andb orb].
    specialize (IH has_host (if same v (str "keep-alive") then rq_setClose false req else req)).
    destruct (same v (str "keep-alive")), (add_headers _ _ _) as [r b]; cbn [negb orb] in *;
      [rewrite andb_false_r|]; by apply IH.
  - destruct (map_set_spec k v (rq_headers req) Hs) as [Hs' Hm].
    specialize (IH (if negb has_host && same k (str "host") then match v with [] => false | _ => true end else has_host)
      (rq_setHeader k v req) Hs').
    destruct (add_headers _ _ _) as [r b]. cbn [andb orb]. change (rq_headers (rq_setHeader k v req)) with (map_set k v (rq_headers req)) in IH.
    rewrite Hm in IH. destruct IH as (? & ? & ? & ? & ->). split_and!; try done.
    by destruct has_host, (same k (str "host")), v.
Qed.

Lemma make_request_map method path query fragment host headers body :
  let r := make_request method path query fragment host headers body in
  sorted_map (rq_headers r) ∧
  to_map (rq_headers r) =
    (if names_host headers then stored headers else <[fold_case (str "host") := host]> (stored headers)) ∧
  rq_close r = negb (keeps_alive headers) ∧
  rest r = (method, 17, path, query, fragment, body, [], []).
Proof.
  unfold make_request.
  match goal with |- context [add_headers headers false ?q] =>
    pose proof (add_headers_spec headers false q ltac:(constructor)) as H; destruct (add_headers headers false q) as [r b] end.
  destruct H as (Hs & Hr & Hm & Hc & ->). change (to_map (rq_headers r) = stored headers) in Hm. cbn [orb]. destruct (names_host headers).
  - by split_and!.
  - destruct (map_set_spec (str "Host") host _ Hs) as [Hs' Hm'].
    split_and!; [done|rewrite Hm in Hm'; exact Hm'|done|done].
Qed.

Lemma make_pool_request_map method url m_host m_vhost headers body :
  let r := make_pool_request method url m_host m_vhost headers body in
  sorted_map (rq_headers r) ∧
  to_map (rq_headers r) =
    (if names_host headers then stored headers
     else <[fold_case (str "host") := match m_vhost with [] => m_host | _ => m_vhost end]> (stored headers)) ∧
  rq_close r = false ∧ rest r = (method, 17, url, [], [], body, [], []).
Proof.
  unfold make_pool_request.
  match goal with |- context [add_headers headers false ?q] =>
    pose proof (add_headers_spec headers false q ltac:(constructor)) as H; destruct (add_headers headers false q) as [r b] end.
  destruct H as (Hs & Hr & Hm & Hc & ->). change (to_map (rq_headers r) = stored headers) in Hm. cbn [orb]. cbn [rq_close] in Hc.
  unfold rest in Hr |- *. injection Hr as ? ? ? ? ? ? ? ?.
  destruct (names_host headers); cbn.
  - by split_and!; try congruence.
  - destruct (map_set_spec (str "Host") (match m_vhost with [] => m_host | _ => m_vhost end) _ Hs) as [Hs' Hm'].
    split_and!; [done|rewrite Hm in Hm'; exact Hm'|done|by cbn; congruence].
Qed.
End requests.

(** The request that a client call makes of its URI and arguments. Method,
    path, query, fragment and body are the caller's, the version is 1.1, and no
    parameter or cookie is set. Its header fields, a map without regard to case,
    are the caller's in order, a later one replacing an earlier one of the same
    name, except for fields named connection; the connection is closed afterwards
    unless one of those says keep-alive. The host of the URI is added unless some
    host field of the caller has a value - even if a later host field without a
    value has replaced that one, so that the request names no host. Requests of a
    pool differ: they never ask to close, the path is the text they are given,
    and the host added is the virtual one, if there is one. *)
Theorem requests_are_built (method : Http.HttpMethod) (path query fragment url host m_host m_vhost body : list Z)
    (headers : list (list Z * list Z)) :
  let r := HttpConnection.make_request method path query fragment host headers body in
  let p := HttpConnection.make_pool_request method url m_host m_vhost headers body in
  (∀ key def, Http.rq_getHeader r key def =
     default def ((if names_host headers then stored headers
                   else <[fold_case (str "host") := host]> (stored headers)) !! fold_case key)) ∧
  Http.rq_close r = negb (keeps_alive headers) ∧
  rest r = (method, 17, path, query, fragment, body, [], []) ∧
  (∀ key def, Http.rq_getHeader p key def =
     default def ((if names_host headers then stored headers
                   else <[fold_case (str "host") := match m_vhost with [] => m_host | _ => m_vhost end]>
                     (stored headers)) !! fold_case key)) ∧
  Http.rq_close p = false ∧
  rest p = (method, 17, url, [], [], body, [], []) ∧
  Http.rq_getHeader (HttpConnection.make_request method path query fragment host
    [(str "Host", str "a"); (str "host", [])] body) (str "host") (str "none") = [].
Proof.
  intros r p. unfold r, p.
  destruct (make_request_map method path query fragment host headers body) as (_ & Hm & Hc & Hr).
  destruct (make_pool_request_map method url m_host m_vhost headers body) as (_ & Hm' & Hc' & Hr').
  unfold Http.rq_getHeader. split_and!; try done.
  - intros key def. unfold Http.map_get. rewrite map_find_spec, Hm. by destruct (_ !! _).
  - intros key def. unfold Http.map_get. rewrite map_find_spec, Hm'. by destruct (_ !! _).
Qed.

(** ** What a call answers *)
Section outcomes.
Context {host : Host} {MX : MaxSize} {K : Type} `{!Hook.IOM K, !Socket.Kernel K, !Socket.Canceller K}.
Context `{!Stream (Socket.t K)} {C : Type}.
Context (fstat : Z → K → option bool) (fcntl_f : Z → Z → Z → K → Z * K) (in_iom : bool) (s_connect_timeout : Z).
Context (getaddrinfo : list Z → option (list Z) → Z → Z → Z → option (list Address.sockaddr)).
Context (lexical_cast : list Z → option Z) (httpclient_parser_init : C).
Context (httpclient_parser_execute : C → list Z → nat → option (C * nat * list HttpParser.callback)).
Context (httpclient_parser_has_error httpclient_parser_is_finished chunked chunks_done : C → bool).
Context (content_len : C → Z) (fuel : nat) (buffer : list Z).
Import HttpConnection.

#[local] Instance client : ClientSocket (Socket.t K) := socket_client fstat fcntl_f in_iom s_connect_timeout.

Abbreviation talk := (HttpClient.talk lexical_cast httpclient_parser_init httpclient_parser_execute
  httpclient_parser_has_error httpclient_parser_is_finished chunked chunks_done content_len fuel buffer).
Abbreviation doRequest := (HttpClient.doRequest getaddrinfo lexical_cast httpclient_parser_init httpclient_parser_execute
  httpclient_parser_has_error httpclient_parser_is_finished chunked chunks_done content_len fuel buffer).

(** How an exchange can end. *)
Definition exchanged (r : HttpResult) : Prop :=
  (result r = OK ∧ is_Some (response r)) ∨
  (response r = None ∧ (result r = CLOSED_BY_PEER ∨ result r = SEND_SOCKET_ERROR ∨ result r = TIMEOUT)).

Lemma talk_result req s r s' : talk req s = Ok r s' → exchanged r.
Proof.
  unfold HttpClient.talk, exchange, mbind, M_bind, mret, M_ret, exchanged.
  destruct (sendRequest _ _ _) as [n s1| |]; [|done..].
  destruct (n =? 0); [intros [= <- _]; by right; auto|].
  destruct (n <? 0); [intros [= <- _]; by right; auto|].
  destruct (recvResponse _ _ _ _ _ _ _ _ _) as [[o|] s2| |]; [intros [= <- _]; by left|intros [= <- _]; by right; auto|done..].
Qed.

(** The socket that is made for an address, in the thread of [s]. *)
Definition created (a : Address.Addr) (s : Socket.t K) : Socket.t K := Socket.mk_t (Socket.sys s) (Socket.createTCP a).

Abbreviation connect a := (Socket.connect fstat fcntl_f in_iom s_connect_timeout a FdManager.no_timeout).

Definition closed (s : Socket.t K) : Prop :=
  Socket.m_sockfd (Socket.sock s) = -1 ∧ Socket.m_isConnected (Socket.sock s) = false.

Abbreviation fd s := (Socket.m_sockfd (Socket.sock s)).

(** *** The socket's operations come to an end on descriptors the kernel gives *)
Lemma get_fd_total n auto (k : FdManager.t K) :
  auto = false → -1 ≤ n → ∃ o, FdManager.get_fd fstat fcntl_f n auto k = Ok o k.
Proof.
  intros -> Hn. unfold FdManager.get_fd, FdManager.index, get, mbind, M_bind, mret, M_ret.
  destruct (Z.eqb_spec n (-1)); [by eexists|]. destruct (Z.leb_spec (Z.of_nat (length (FdManager.m_fds k))) n); [by eexists|].
  destruct (Z.ltb_spec n 0); [lia|].
  destruct (lookup_lt_is_Some_2 (FdManager.m_fds k) (Z.to_nat n)) as [o Ho]; [lia|]. rewrite Ho.
  destruct o; by eexists.
Qed.

Lemma FdMgr_get_total n (h : Hook.t K) : -1 ≤ n → ∃ o h', Hook.FdMgr_get fstat fcntl_f n false h = Ok o h'.
Proof.
  intros Hn. unfold Hook.FdMgr_get, Hook.fdm. destruct (get_fd_total n false (Hook.fds h) eq_refl Hn) as [o ->]. by eexists _, _.
Qed.

Lemma call_total f (h : Hook.t K) : ∃ n h', Hook.call f h = Ok n h'.
Proof. unfold Hook.call. destruct (f _) as [[n e] k]. by eexists _, _. Qed.

Lemma hook_close_total f n (h : Hook.t K) : 0 ≤ n → ∃ r h', Hook.close fstat fcntl_f f in_iom n h = Ok r h'.
Proof.
  intros Hn. unfold Hook.close, Hook.is_hook_enable, gets, mbind, M_bind, mret, M_ret.
  destruct (negb _); [apply call_total|]. destruct (FdMgr_get_total n h ltac:(lia)) as (o & h1 & ->).
  destruct o; [|apply call_total].
  assert (∀ h2, ∃ r h', (_ ← Hook.fdm (FdManager.del n); Hook.call f) h2 = Ok r h') as Hdel.
  { intros h2. unfold mbind, M_bind, Hook.fdm, FdManager.del, get, mret, M_ret, put, mbind, M_bind.
    destruct (_ <=? n); [apply call_total|]. destruct (Z.ltb_spec n 0); [lia|]. apply call_total. }
  destruct in_iom; apply Hdel.
Qed.

Lemma close_total s : -1 ≤ fd s → ∃ s', Socket.close fstat fcntl_f in_iom s = Ok true s' ∧ closed s'.
Proof.
  intros Hfd. pose proof (SocketProps.ends_close fstat fcntl_f in_iom (Socket.sock s) s eq_refl) as Hend.
  assert (∃ b s', Socket.close fstat fcntl_f in_iom s = Ok b s') as (b & s' & Hc).
  { clear Hend. unfold Socket.close, Socket.this, gets, mbind, M_bind, mret, M_ret.
    destruct (_ && _); [by eexists _, _|]. unfold Socket.assign, modify.
    destruct (Z.eqb_spec (fd s) (-1)); [by eexists _, _|]. unfold Socket.sysM.
    match goal with |- context [Hook.close _ _ ?f _ ?n ?h] =>
      destruct (hook_close_total f n h ltac:(simpl; lia)) as (r & h' & ->) end. by eexists _, _. }
  rewrite Hc in Hend. destruct Hend as (-> & _ & ? & ?). exists s'. by split.
Qed.

Lemma setRecvTimeout_total v s : 0 ≤ fd s → ∃ s', Socket.setRecvTimeout fstat fcntl_f v s = Ok tt s'.
Proof.
  intros Hfd. unfold Socket.setRecvTimeout, Socket.setSockOpt, Socket.timeval_of, Socket.this, gets, mbind, M_bind, mret, M_ret, Socket.sysM.
  pose proof (sint_range 32 (Z.quot v 1000) ltac:(lia)) as Ha. pose proof (sint_range 32 (Z.rem v 1000 * 1000) ltac:(lia)) as Hb.
  set (a := sint 32 (Z.quot v 1000)) in *. set (b := sint 32 (Z.rem v 1000 * 1000)) in *. clearbody a b.
  assert (∀ f, ∃ r h, Hook.setsockopt fstat fcntl_f f (fd s) Hook.SOL_SOCKET FdManager.SO_RCVTIMEO a b (Socket.sys s) = Ok r h)
    as Hset; [|destruct (Hset (Socket.k_setsockopt (fd s) Hook.SOL_SOCKET FdManager.SO_RCVTIMEO (Socket.OptTimeval a b)))
      as (r & h & ->); by eexists].
  intros f. unfold Hook.setsockopt, Hook.is_hook_enable, gets, mbind, M_bind, mret, M_ret.
  destruct (negb _); [apply call_total|]. cbn [andb orb Z.eqb Hook.SOL_SOCKET FdManager.SO_RCVTIMEO Pos.eqb].
  destruct (FdMgr_get_total (fd s) (Socket.sys s) ltac:(lia)) as (o & h1 & ->). destruct o; [|apply call_total].
  unfold Hook.timeval_ms, signed, mbind, M_bind, mret, M_ret. unfold in_sint in Ha, Hb.
  assert (- 2 ^ 31 ≤ Z.quot b 1000 ≤ 2 ^ 31) by (split; [apply Z.quot_le_lower_bound|apply Z.quot_le_upper_bound]; lia).
  rewrite decide_True by (unfold in_sint; lia). rewrite decide_True by (unfold in_sint; lia). apply call_total.
Qed.

Lemma getRemoteAddress_total s : ∃ a s', Socket.getRemoteAddress s = Ok a s' ∧ fd s' = fd s.
Proof.
  pose proof (SocketProps.ends_getRemoteAddress (Socket.sock s) s eq_refl) as Hend.
  assert (∃ a s', Socket.getRemoteAddress s = Ok a s') as (a & s' & Hr).
  { clear Hend. unfold Socket.getRemoteAddress, Socket.this, gets, mbind, M_bind, mret, M_ret.
    destruct (Socket.m_remoteAddress _); [by eexists _, _|]. unfold Socket.ask_address.
    destruct (Socket.k_getpeername _ _ _) as [[[[ret e] d] len] k].
    unfold mbind, M_bind, mret, M_ret, Socket.sysM, Hook.call. destruct (negb _); by eexists _, _. }
  rewrite Hr in Hend. destruct Hend as (_ & ? & _). by exists a, s'.
Qed.

Import SocketProps.

(** A fresh socket of the address's family that fails to connect is closed. *)
Lemma ends_refused a x :
  Socket.m_family x = Address.getFamily a → Socket.m_isConnected x = false →
  ends (connect a) x (λ b y, if b then Socket.m_isConnected y = true
                             else Socket.m_sockfd y = -1 ∧ Socket.m_isConnected y = false).
Proof.
  intros Hfam Hcon. unfold Socket.connect. apply ends_bind. eapply ends_mono; [apply ends_ensure_valid|].
  intros b y (Hst & Hc & -> & _). destruct (Z.eqb_spec (Socket.m_sockfd y) (-1)) as [E|E]; cbn [negb].
  { apply ends_ret. by rewrite Hc. }
  apply ends_bind, ends_this. rewrite (st_family _ _ Hst), Hfam, Z.eqb_refl. cbn [negb]. cbv zeta.
  apply ends_bind. eapply (ends_mono _ _ (λ _ z, z = y)).
  { cbn [Z.eqb]. apply ends_sysM; [|done]. unfold Hook.connect. auto with quiet. }
  intros r z ->. destruct (negb _).
  - apply ends_bind. eapply ends_mono; [apply ends_close|]. intros _ z (_ & _ & ? & ?). by apply ends_ret.
  - apply ends_bind, ends_assign, ends_bind. eapply ends_mono; [apply ends_getLocalAddress|].
    intros _ z (_ & _ & Hz). apply ends_bind. eapply ends_mono; [apply ends_getRemoteAddress|].
    intros _ w (_ & _ & Hw). apply ends_ret. by rewrite Hw, Hz.
Qed.

Lemma connect_ends a s b s1 : connect a (created a s) = Ok b s1 →
  if b then Socket.m_isConnected (Socket.sock s1) = true else closed s1.
Proof.
  intros Hc. pose proof (ends_refused a (Socket.createTCP a) eq_refl eq_refl (created a s) eq_refl) as Hend.
  by rewrite Hc in Hend.
Qed.

Lemma destroy_total s : -1 ≤ fd s → ∃ s', sk_destroy s = Ok tt s' ∧ closed s'.
Proof.
  intros Hfd. destruct (close_total s Hfd) as (s' & Hc & Hcl). exists s'. split; [|done].
  simpl. unfold mbind, M_bind, mret, M_ret. by rewrite Hc.
Qed.

(** Nothing is left to close. *)
Lemma destroy_closed s : closed s → sk_destroy s = Ok tt s.
Proof.
  intros [Hfd Hc]. simpl. unfold Socket.close, Socket.this, gets, mbind, M_bind, mret, M_ret.
  by rewrite Hfd, Hc.
Qed.

(** C40. What [doRequest] answers and leaves behind, over any kernel, stream and
    response parser. If the host is not found, INVALID_HOST, and nothing was
    done. Otherwise a socket of the address's family tries to connect. If it does
    not succeed, the answer is CONNECT_FAILED - also when the socket could not be
    created, for which CREATE_SOCKET_ERROR is never answered - and the socket is
    closed. If it does, the receive timeout is set, the exchange runs, its
    answer, a response or one of the three errors of sending and receiving, is
    the answer of the call, and the socket does not outlive the call. The kernel
    is assumed to hand out descriptors that are not negative, and the stream to
    leave such a one, or none. *)
Theorem do_request_outcomes (req : Http.HttpRequest) (uri : Uri.Uri) (timeout_ms : Z) (s : Socket.t K) :
  match Uri.getAddrFromUri getaddrinfo uri with
  | None => doRequest req uri timeout_ms s = Ok (mk_result INVALID_HOST None) s
  | Some a => ∀ b s1, connect a (created a s) = Ok b s1 →
      if b : bool then
        Socket.m_isConnected (Socket.sock s1) = true ∧
        (0 ≤ fd s1 → ∃ s2, Socket.setRecvTimeout fstat fcntl_f (sint 64 timeout_ms) s1 = Ok tt s2 ∧
          ∀ r s3, talk req s2 = Ok r s3 → -1 ≤ fd s3 →
            exchanged r ∧ ∃ s', doRequest req uri timeout_ms s = Ok r s' ∧ closed s')
      else doRequest req uri timeout_ms s = Ok (mk_result CONNECT_FAILED None) s1 ∧ closed s1
  end.
Proof.
  unfold HttpClient.doRequest. destruct (Uri.getAddrFromUri getaddrinfo uri) as [a|]; [|done].
  intros b s1 Hc. pose proof (connect_ends _ _ _ _ Hc) as Hend.
  unfold mbind, M_bind, mret, M_ret. cbn [sk_createTCP client socket_client].
  change (Socket.assign (λ _, Socket.createTCP a) s) with (Ok tt (created a s) : outcome (Socket.t K) unit).
  cbv beta iota. cbn [sk_connect client socket_client]. rewrite Hc. destruct b; cbn [negb].
  - split; [done|]. intros Hfd. destruct (setRecvTimeout_total (sint 64 timeout_ms) s1 Hfd) as [s2 Ht].
    exists s2. split; [done|]. intros r s3 Hx Hfd3. split; [by eapply talk_result|].
    cbn [sk_setRecvTimeout client socket_client]. rewrite Ht, Hx.
    assert (∃ s4, -1 ≤ fd s4 ∧
      (match result r with TIMEOUT => _ ← sk_getRemoteAddress; mret tt | _ => mret tt end) s3 = Ok tt s4) as (s4 & Hfd4 & Hd).
    { destruct (result r); try (by exists s3). destruct (getRemoteAddress_total s3) as (x & s4 & Hr & Hf).
      exists s4. split; [lia|]. unfold mbind, M_bind, mret, M_ret. cbn [sk_getRemoteAddress client socket_client].
      by rewrite Hr. }
    unfold mbind, M_bind, mret, M_ret in Hd. rewrite Hd.
    destruct (destroy_total s4 Hfd4) as (s' & -> & Hcl). by exists s'.
  - by rewrite destroy_closed.
Qed.

End outcomes.

(** ** An example: a peer that answers with a head *)
#[local] Existing Instances SocketProps.little SocketProps.idle_iom SocketProps.easy_kernel SocketProps.idle_canceller.
#[local] Instance some_max : MaxSize := 2 ^ 62.

#[local] Instance answering : Stream (Socket.t unit) := {
  read mem p n := mret (5, splice mem (Z.to_nat p) [72; 84; 84; 80; 10]);
  read_ba n := mret (-1);
  write mem p n := mret n;
  write_ba n := mret (-1);
  close := _ ← Socket.close SocketProps.is_socket SocketProps.no_fcntl true; mret tt
}.

Definition one_address (node : list Z) (service : option (list Z)) (family type protocol : Z) : option (list Address.sockaddr) :=
  match node with [] => None | _ => Some [Address.SIn (Address.mk_in 2 0 16777343)] end.

(** A parser that takes everything and is done. *)
Definition takes_all (c : bool) (l : list Z) (n : nat) : option (bool * nat * list HttpParser.callback) :=
  Some (true, n, []).

Definition home : Uri.Uri := Uri.setHost (str "localhost") (Uri.setScheme (str "http") Uri.new).
Definition get_home : Http.HttpRequest :=
  HttpConnection.make_request Http.GET (Uri.getPath home) [] [] (Uri.m_host home) [(str "Accept", str "*")] [].

Definition ask (uri : Uri.Uri) : M (Socket.t unit) HttpConnection.HttpResult :=
  let c := socket_client SocketProps.is_socket SocketProps.no_fcntl true FdManager.no_timeout in
  HttpClient.doRequest one_address (λ _, Some 0) false takes_all (λ _, false) id (λ _, false) (λ _, false) (λ _, 0)
    9 (replicate 64 0) get_home uri 1000.

Lemma same_state {S A} (a b : A) (s t : S) : Ok a s = Ok b t → s = t.
Proof. congruence. Qed.

Definition home_address : Address.Addr := Address.IPv4Address (Address.mk_in 2 20480 16777343).
Definition state_of {A} (o : outcome (Socket.t unit) A) (s : Socket.t unit) : Socket.t unit :=
  match o with Ok _ s' => s' | _ => s end.
Definition connected : Socket.t unit :=
  state_of (Socket.connect SocketProps.is_socket SocketProps.no_fcntl true FdManager.no_timeout home_address
    FdManager.no_timeout (created home_address SocketProps.fresh)) SocketProps.fresh.
Definition timed : Socket.t unit :=
  state_of (Socket.setRecvTimeout SocketProps.is_socket SocketProps.no_fcntl 1000 connected) connected.
Definition toy_talk : outcome (Socket.t unit) HttpConnection.HttpResult :=
  HttpClient.talk (λ _, Some 0) false takes_all (λ _, false) id (λ _, false) (λ _, false) (λ _, 0) 9
    (replicate 64 0) get_home timed.
Definition answered : HttpConnection.HttpResult :=
  match toy_talk with Ok r _ => r | _ => HttpConnection.mk_result HttpConnection.INVALID_URL None end.

Lemma do_request_outcomes_witness :
  (∃ r s', ask home SocketProps.fresh = Ok r s' ∧ exchanged r ∧ closed s') ∧
  ask Uri.new SocketProps.fresh = Ok (HttpConnection.mk_result HttpConnection.INVALID_HOST None) SocketProps.fresh.
Proof.
  pose proof (λ uri, do_request_outcomes SocketProps.is_socket SocketProps.no_fcntl true FdManager.no_timeout one_address
    (λ _, Some 0) false takes_all (λ _, false) id (λ _, false) (λ _, false) (λ _, 0) 9 (replicate 64 0) get_home uri 1000
    SocketProps.fresh) as Hall.
  split; [|exact (Hall Uri.new)].
  assert (Uri.getAddrFromUri one_address home = Some home_address) as Ha by (vm_compute; reflexivity).
  specialize (Hall home). rewrite Ha in Hall.
  destruct (Hall true connected ltac:(vm_compute; reflexivity)) as (_ & Hgo).
  destruct (Hgo ltac:(vm_compute; discriminate)) as (s2 & Ht & Hdone).
  assert (Socket.setRecvTimeout SocketProps.is_socket SocketProps.no_fcntl (sint 64 1000) connected = Ok tt timed) as Htimed
    by (vm_compute; reflexivity).
  pose proof (same_state _ _ _ _ (eq_trans (eq_sym Ht) Htimed)) as ->.
  destruct (Hdone answered (state_of toy_talk timed) ltac:(vm_compute; reflexivity) ltac:(vm_compute; discriminate))
    as (Hx & s' & Hr & Hcl).
  exists answered, s'. split; [exact Hr|]. split; [exact Hx|exact Hcl].
Defined.

End HttpClientProps.
